(* ===== verification/_CoqProject ===== *)
-Q . S2P
Prelude.v
CString.v
ByteMachine.v
HeaderPool.v
HttpParse.v
RequestLine.v
HeaderBlock.v
Path.v
PriorityQueue.v
Timer.v
DList.v
HeaderCache.v
RequestCache.v
Sockets.v
Output.v
Cgi.v
CgiStream.v
Scripts.v
Request.v
Http.v
Serve.v
Confine.v
Pieces.v
Answers.v
Pipeline.v
Server.v
Conversation.v
Completion.v
Worker.v
Clients.v
ThreadPool.v
Conf.v
Syscall.v
Spawn.v
Resources.v
Master.v
Startup.v
Rio.v
