(* ===== verification/Prelude.v ===== *)
(** * Zaver: a verified model of the HTTP server under src/src

    Zaver is a single-threaded, epoll-driven HTTP server run in several worker processes.
    A worker accepts connections, parses their requests from a buffer of fixed size, maps
    URIs to files under a document root, answers with the file, an error page or the
    output of a CGI script, and closes connections by timers.  The development follows the
    C functions one by one; each definition has the name of its function or says which
    part of which function it is.

    ** Conventions

    - Buffers are lists of bytes ([Z]); a pointer into a buffer is an index, NULL is
      [None]; [size_t] and [int] are kept at their width where they can wrap ([u64], [i32]).
    - A function that can fault (an access outside an array, of a freed or absent node, of
      a NULL timer) returns an [option], and [None] is the fault.  In a function with a
      [fuel] argument [None] is also the loop that does not end; the theorems give the fuel
      that is enough, or say that none is.
    - The kernel is a script: what each [read], [write], [writev] and [sendfile] does is
      given in advance (Sockets.v), and theorems hold for every script.  Files, [realpath],
      [stat], the date functions, the clock, [malloc] and CGI scripts are parameters.
      Around the event loop, where the calls themselves are what the code is about, they
      are recorded in order with their answers, in the monad [io] (Syscall.v).
    - [malloc] failures are arguments of the operations that handle them.
    - The document root is an [option], [None] for a configuration without one: every file
      is then refused, and a script is named by what [printf] makes of NULL
      ([Http.printed]).

    ** Files

    - Prelude.v: record update, machine integers, lists, [star] of a relation.
      CString.v: the functions of the C library on strings ([strncmp], [strncasecmp],
      [strrchr], [atoi], the conversions of [printf]).
    - Parsing (http_parse.c).  ByteMachine.v: the loop both parsers share, resumable at any
      byte.  HttpParse.v: both parsers.  RequestLine.v and HeaderBlock.v: the languages they
      accept, described independently; acceptance is exact, pieces do not matter, printing
      and parsing round-trip, the cursor stays in the buffer.  HeaderPool.v: the interface
      the parser uses for header objects.
    - Path.v (http.c): [percent_decode], [normalize_abs_path], [parse_uri], the docroot
      check and MIME types; exactness of each, and confinement.
    - Containers.  PriorityQueue.v (priority_queue.c): a heap in a resizable array, behind
      the class [PriorityQueue]; Timer.v (timer.c) is proved against that class.  DList.v
      (list.h): circular lists on a memory of links.  HeaderCache.v (http_header_cache.c)
      implements [HeaderPool] on them, RequestCache.v (http_request_cache.c) the free list
      of request objects with its deferred list.
    - Responses.  Sockets.v: scripted descriptors.  Output.v (http.c): building of error and
      static responses, and [try_send]; what is sent is the response, in order and once.
      Cgi.v and CgiStream.v (cgi.c, and the CGI branch of [do_write]): header parsing, chunked
      streaming under back pressure; the exchange never stalls and decodes to what the
      script wrote.  Scripts.v: what the client has of such a response, and that a script
      which behaves is served to its end.  The output of a script is what the server keeps
      of it ([Cgi.kept]): a read that overflows the header buffer loses its rest.
    - A connection.  Request.v (http_request.c): initialisation, header handlers, release.
      Http.v (http.c): [do_request], [handle_cgi_mvp], [do_write].  Serve.v: they return
      after a bounded number of turns, except on the one input that makes [do_request]
      spin.  Confine.v: nothing outside the document root matters.  Pieces.v: requests that
      arrive in pieces are parsed as if they had arrived whole.  Answers.v: the abstract
      server, a relation between well-formed requests and what they get: a page, the output
      of a script, or the closing of the connection when a file cannot be opened although
      its mode says so.  It has a choice in one case: a date that is the number in
      uninitialised memory may give 304.  Pipeline.v: pipelined
      requests, in any pieces, are answered as by the abstract server.
    - A worker.  Server.v (worker.c): one connection from accept to close, event by event.
      Conversation.v: the whole life of a connection whose client sends good requests; at
      every moment the client has the answers of the abstract server to some of them and the
      beginning of the next, a page or the response of a script, and the connection can go
      on; Completion.v: it ends, if the kernel does its part.  Worker.v (worker.c): the event
      loop over all connections, composed of Server.v, Timer.v and RequestCache.v; every
      turn returns, timeouts are enforced, and a turn is one event of Server.v for each
      connection.  Clients.v: hence every client is answered as if it were alone.
      Resources.v (worker.c, http.c, http_request.c, cgi.c): the system calls on the
      descriptors and processes of connections; none is leaked, lost or shared.
    - Around the workers.  Syscall.v (util.c, epoll.c, zv_signal.c): system calls, a program
      logic for them, and the descriptors they leave open.  Spawn.v (cgi.c): the process of
      a script.  Master.v (process.c, worker.c): the master process, and the processors of
      the workers.  Conf.v (util.c): [read_conf] over its one buffer, against a list of keys
      and defaults of its own.  Startup.v (worker.c, zaver.c): [zv_worker_run] from start-up
      to clean-up, with the turns of Worker.v and the calls of Resources.v, and [main].
    - Apart from the server, which does not call them.  ThreadPool.v (threadpool.c):
      interleavings of workers and clients over the lock.  Rio.v (rio.c): buffered and
      unbuffered reading.

    ** How the parts meet

    The request object of http_request.h is split by use: [parser] (HttpParse.v), [output]
    (Output.v), [cgi] (Cgi.v), joined in [request] (Request.v) and, with its socket, in
    [conn] (Http.v).  A handler returns the list of what it does to epoll and to the timers
    ([effect], Cgi.v); Server.v performs it on one connection, where [None] is a misuse
    (a timer deleted that is not there), and Worker.v on the real timers and the real cache,
    by a simulation of the former ([Worker.dispatch_sim]).

    The theorems compose upwards.  Pipeline.v proves one call of [do_request] against the
    abstract server, [answers] (Answers.v); Conversation.v follows a connection through any
    sequence of events with it; [Worker.evolves] takes a turn of the loop apart into what
    each connection goes through, so that Clients.v applies Conversation.v to each of them;
    Startup.v runs that loop between the calls that set a worker up and the
    calls that end it, as the process that Master.v starts; what its handlers do to
    descriptors is any sequence of the calls of Resources.v ([act_all]).

    ** Sockets that outlive their connection

    [zv_http_close_conn] closes the socket without removing it from epoll, and a script
    started meanwhile has inherited it: until the script ends, epoll can report the socket
    if it is still armed.  A handler is called with the socket disarmed, so this takes a
    connection closed by its timer.  Server.v therefore keeps [cl_armed] on closing and says
    that a later event finds no timer; Worker.v keeps the sockets closed while armed in
    [w_left], has [Left] reports for them, and runs the handlers on the released object, or
    on the connection that has it since.  The theorems on runs of the worker hold up to the
    first such report ([current]), and [worker_turn_safe] says what can lead to one.

    ** Fuel

    The parsers recurse on the bytes left, [normalize_abs_path] on the path, [sink] and
    [swim] on the size of the heap, the timer loops on the number of nodes, [try_send] and
    the CGI loops on the length of the script of the descriptor; each initial value is
    computed in the definition and shown to be enough.  [do_request] takes its fuel as an
    argument: one turn more than there are bytes to read is enough, unless it spins.

    [run_master], [main_loop] and [zv_worker_run] take the number of waits they are followed
    for; a theorem says that they are not done by then only if nothing has asked them to
    stop.

    ** Not modelled

    - Logging and the statistics printed by http_request_cache.c, the includes and the
      prototypes.
    - [getopt_long] is the list of what it returns.
    - In ThreadPool.v failures of the lock, of the condition and of the joins.
    - The CGI programs under html/, the tests and the benchmarks.

    Still to be done: the handlers of Http.v over the calls of Resources.v, instead of any
    sequence of them. *)
From stdpp Require Export prelude gmap strings.
From Stdlib Require Export ZArith Lia.

(** ** Functional record update

    [r <| f := v |>] is [r] with field [f] replaced.  The setter of a field is
    computed from the eta-expansion of its record, declared once per record as an
    instance of [Eta]. *)
Class Eta (R : Type) := eta : R → R.

Class Setter {R T : Type} (proj : R → T) := upd_field : (T → T) → R → R.

#[global] Arguments upd_field {R T} _ {Setter} _ _ /.

Ltac build_setter proj :=
  let R := match type of proj with ?R → _ => R end in
  let e := constr:(eta (R := R)) in
  let e := eval hnf in e in
  match eval pattern proj in e with
  | ?abs _ =>
      let T := match type of proj with _ → ?T => T end in
      let s := constr:(fun (f : T → T) => abs (fun r => f (proj r))) in
      let s := eval cbv beta in s in
      exact s
  end.

#[export] Hint Extern 1 (Setter ?proj) => build_setter proj : typeclass_instances.

Declare Scope record_scope.
Delimit Scope record_scope with rec.
Open Scope record_scope.
Notation "r <| f := v |>" := (upd_field f (fun _ => v) r)
  (at level 1, left associativity, f at level 9, v at level 200) : record_scope.

(** ** Characters

    A byte is a [Z]; ["A"%ch] is the literal 65, so that [lia] sees a number. *)
Declare Scope ch_scope.
Delimit Scope ch_scope with ch.

Definition ch_parse (l : list Byte.byte) : option Z :=
  match l with [x] => Some (Z.of_N (Byte.to_N x)) | _ => None end.

Definition ch_print (z : Z) : option (list Byte.byte) :=
  if (z <? 0)%Z then None
  else match Byte.of_N (Z.to_N z) with Some x => Some [x] | None => None end.

String Notation Z ch_parse ch_print : ch_scope.

(** The bytes of a string literal. *)
Fixpoint str (s : string) : list Z :=
  match s with
  | EmptyString => []
  | String c s' => Z.of_N (Ascii.N_of_ascii c) :: str s'
  end.

Abbreviation CR := 13%Z.
Abbreviation LF := 10%Z.

(** ["\r\n"] *)
Definition crlf : list Z := [CR; LF].

(** ** Return codes shared by the components (error.h, http_request.h)

    [EAGAIN] has the value it has on Linux, the platform the README requires; the
    source defines [ZV_AGAIN] as [EAGAIN]. *)
Definition ZV_OK : Z := 0.
Definition ZV_ERROR : Z := -1.
Definition EAGAIN : Z := 11.
Definition EINTR : Z := 4.
Definition ZV_AGAIN : Z := EAGAIN.

(** ** Machine integers *)
Definition size_max : Z := 2 ^ 64.

(** [size_t] arithmetic wraps modulo 2^64. *)
Definition u64 (z : Z) : Z := z mod size_max.

(** Conversion to a 32-bit two's complement [int]. *)
Definition i32 (z : Z) : Z := (z + 2 ^ 31) mod 2 ^ 32 - 2 ^ 31.

Lemma u64_small z : (0 ≤ z < size_max)%Z → u64 z = z.
Proof. intros. by apply Z.mod_small. Qed.

Lemma u64_range z : (0 ≤ u64 z < size_max)%Z.
Proof. apply Z.mod_pos_bound. unfold size_max. lia. Qed.

Lemma i32_small z : (- 2 ^ 31 ≤ z < 2 ^ 31)%Z → i32 z = z.
Proof. intros. unfold i32. rewrite Z.mod_small; lia. Qed.

Lemma i32_range z : (- 2 ^ 31 ≤ i32 z < 2 ^ 31)%Z.
Proof. unfold i32. pose proof (Z.mod_pos_bound (z + 2 ^ 31) (2 ^ 32)). lia. Qed.

(** ** Automation *)
Create HintDb zaver.

(** Splits on the integer tests of the goal and of the hypotheses. *)
Ltac ztest :=
  match goal with
  | |- context [Z.eqb ?x ?y] => destruct (Z.eqb_spec x y)
  | |- context [Z.ltb ?x ?y] => destruct (Z.ltb_spec x y)
  | |- context [Z.leb ?x ?y] => destruct (Z.leb_spec x y)
  | |- context [Nat.eqb ?x ?y] => destruct (Nat.eqb_spec x y)
  | |- context [Nat.ltb ?x ?y] => destruct (Nat.ltb_spec x y)
  | |- context [Nat.leb ?x ?y] => destruct (Nat.leb_spec x y)
  | H : context [Z.eqb ?x ?y] |- _ => destruct (Z.eqb_spec x y)
  | H : context [Z.ltb ?x ?y] |- _ => destruct (Z.ltb_spec x y)
  | H : context [Z.leb ?x ?y] |- _ => destruct (Z.leb_spec x y)
  | H : context [Nat.eqb ?x ?y] |- _ => destruct (Nat.eqb_spec x y)
  | H : context [Nat.ltb ?x ?y] |- _ => destruct (Nat.ltb_spec x y)
  | H : context [Nat.leb ?x ?y] |- _ => destruct (Nat.leb_spec x y)
  end.

Ltac ztests := repeat (ztest; simpl; try done; try lia).

(** Equality of terms whose leaves are equal by arithmetic. *)
Ltac eq_arith := first [reflexivity | lia | f_equal; eq_arith].

(** The lengths of the constant texts of a goal as numbers. *)
Ltac text_lengths :=
  repeat match goal with
    | |- context [length (str ?s)] =>
        let n := eval vm_compute in (length (str s)) in change (length (str s)) with n
    end;
  repeat change (length crlf) with 2.

(** ** Lists *)
Section lists.
Context {A : Type}.
Implicit Types (l k : list A) (n i : nat).

Lemma drop_app_eq l k n : n = length l → drop n (l ++ k) = k.
Proof. intros ->. apply drop_app_length. Qed.

Lemma take_app_eq l k n : n = length l → take n (l ++ k) = l.
Proof. intros ->. apply take_app_length. Qed.

(** A window [l[a, b)]. *)
Definition slice (a b : nat) (l : list A) : list A := take (b - a) (drop a l).

Lemma slice_length a b l : b ≤ length l → length (slice a b l) = b - a.
Proof. intros. unfold slice. rewrite length_take, length_drop. lia. Qed.

Lemma slice_snoc a b l x :
  a ≤ b → l !! b = Some x → slice a (S b) l = slice a b l ++ [x].
Proof.
  intros Hab Hx. unfold slice. replace (S b - a) with (S (b - a)) by lia.
  apply take_S_r. rewrite lookup_drop. by replace (a + (b - a)) with b by lia.
Qed.

Lemma slice_nil a l : slice a a l = [].
Proof. unfold slice. by rewrite Nat.sub_diag. Qed.

Lemma slice_app a b c l : a ≤ b ≤ c → slice a b l ++ slice b c l = slice a c l.
Proof.
  intros [Hab Hbc]. unfold slice.
  replace (c - a) with ((b - a) + (c - b)) by lia.
  rewrite <-take_take_drop, drop_drop. by replace (a + (b - a)) with b by lia.
Qed.

Lemma slice_advance a b l k r : slice a b l = k ++ r → slice (a + length k) b l = r.
Proof.
  unfold slice. intros Hs. rewrite <-drop_drop.
  replace (b - (a + length k)) with (b - a - length k) by lia.
  rewrite <-skipn_firstn_comm, Hs. apply drop_app_length.
Qed.
End lists.

Create Rewrite HintDb zlist.
#[export] Hint Rewrite @length_app @length_take @length_drop @length_replicate
  @length_insert : zlist.

(** ** Sequences of transitions *)
Section star.
Context {S : Type} (step : S → S → Prop).

Inductive star : S → S → Prop :=
  | star_refl s : star s s
  | star_step s1 s2 s3 : star s1 s2 → step s2 s3 → star s1 s3.

Lemma star_invariant (P : S → Prop) s s' :
  (∀ s1 s2, P s1 → step s1 s2 → P s2) → star s s' → P s → P s'.
Proof. intros Hpres. induction 1; eauto. Qed.

Lemma star_one s s' : step s s' → star s s'.
Proof. eauto using star. Qed.

Lemma star_trans s1 s2 s3 : star s1 s2 → star s2 s3 → star s1 s3.
Proof. intros H. induction 1; eauto using star. Qed.
End star.
