(* ===== verification/CString.v ===== *)
(** * The C library functions the server uses on byte strings

    A C string is the list of its bytes before the terminating NUL.  A pointer into
    a buffer is the list of the bytes from it on; reading past the end of such a
    list yields 0, which ends every scan below. *)
From S2P Require Import Prelude.
Local Open Scope Z_scope.

(** ** Comparison *)

(** [strncmp(a, b, n) == 0] *)
Fixpoint strncmp_eq (n : nat) (a b : list Z) : bool :=
  match n with
  | O => true
  | S n' =>
      let ca := hd 0 a in
      let cb := hd 0 b in
      if ca =? cb
      then if ca =? 0 then true else strncmp_eq n' (tl a) (tl b)
      else false
  end.

Definition to_lower (c : Z) : Z :=
  if ("A"%ch <=? c) && (c <=? "Z"%ch) then c + 32 else c.

(** [strncasecmp(a, b, n) == 0] *)
Fixpoint strncasecmp_eq (n : nat) (a b : list Z) : bool :=
  match n with
  | O => true
  | S n' =>
      let ca := to_lower (hd 0 a) in
      let cb := to_lower (hd 0 b) in
      if ca =? cb
      then if ca =? 0 then true else strncasecmp_eq n' (tl a) (tl b)
      else false
  end.

(** [strcmp(a, b) == 0] on complete strings *)
Fixpoint strcmp_eq (a b : list Z) : bool :=
  match a, b with
  | [], [] => true
  | x :: a', y :: b' => (x =? y) && strcmp_eq a' b'
  | _, _ => false
  end.

(** ** Search *)

(** [strchr(s, c) != NULL] *)
Definition has_char (c : Z) (s : list Z) : bool := existsb (Z.eqb c) s.

(** [strrchr(s, c)]: the suffix of [s] that starts at the last [c]. *)
Fixpoint strrchr (c : Z) (s : list Z) : option (list Z) :=
  match s with
  | [] => None
  | x :: s' =>
      match strrchr c s' with
      | Some r => Some r
      | None => if x =? c then Some s else None
      end
  end.

(** ** Numbers *)

(** Digits of [n] in base [b], most significant first, in front of [acc]. *)
Fixpoint digits (fuel : nat) (b n : Z) (acc : list Z) : list Z :=
  match fuel with
  | O => acc
  | S f => if n <? b then n mod b :: acc else digits f b (n / b) (n mod b :: acc)
  end.

Definition digit_char (d : Z) : Z := if d <? 10 then "0"%ch + d else "a"%ch + (d - 10).

Definition digits_fuel (n : Z) : nat := S (Z.to_nat (Z.log2 n)).

(** [%zu], and [%d] of a non-negative number *)
Definition fmt_dec (n : Z) : list Z := digit_char <$> digits (digits_fuel n) 10 n [].

(** [%zx] *)
Definition fmt_hex (n : Z) : list Z := digit_char <$> digits (digits_fuel n) 16 n [].

(** [%d] *)
Definition fmt_int (n : Z) : list Z := if n <? 0 then "-"%ch :: fmt_dec (- n) else fmt_dec n.

Definition of_digits (b : Z) (l : list Z) : Z := fold_left (fun a d => a * b + d) l 0.

Definition is_digit (c : Z) : bool := ("0"%ch <=? c) && (c <=? "9"%ch).

Definition is_space (c : Z) : bool := (c =? " "%ch) || ((9 <=? c) && (c <=? 13)).

Fixpoint drop_spaces (s : list Z) : list Z :=
  match s with
  | c :: s' => if is_space c then drop_spaces s' else s
  | [] => []
  end.

Fixpoint span_digits (s : list Z) : list Z :=
  match s with
  | c :: s' => if is_digit c then (c - "0"%ch) :: span_digits s' else []
  | [] => []
  end.

Definition long_clamp (z : Z) : Z := Z.max (- 2 ^ 63) (Z.min (2 ^ 63 - 1) z).

(** [atoi]: [(int) strtol(s, NULL, 10)] *)
Definition atoi (s : list Z) : Z :=
  let s := drop_spaces s in
  let '(sign, s) :=
    match s with
    | c :: s' => if c =? "-"%ch then (-1, s') else if c =? "+"%ch then (1, s') else (1, s)
    | [] => (1, s)
    end in
  i32 (long_clamp (sign * of_digits 10 (span_digits s))).

(** ** Lemmas *)

Lemma fold_digits_acc b l a :
  fold_left (fun a d => a * b + d) l a = a * b ^ Z.of_nat (length l) + of_digits b l.
Proof.
  unfold of_digits. revert a. induction l as [|d l IH]; intros a; simpl length.
  - simpl. lia.
  - simpl fold_left. rewrite IH, (IH (0 * b + d)), Nat2Z.inj_succ, Z.pow_succ_r; lia.
Qed.

Lemma of_digits_app b l k :
  of_digits b (l ++ k) = of_digits b l * b ^ Z.of_nat (length k) + of_digits b k.
Proof. unfold of_digits at 1. rewrite fold_left_app. apply fold_digits_acc. Qed.

Lemma of_digits_snoc b l d : of_digits b (l ++ [d]) = of_digits b l * b + d.
Proof. unfold of_digits. by rewrite fold_left_app. Qed.

Lemma digits_value fuel b n acc a0 :
  1 < b → 0 ≤ n < b ^ Z.of_nat fuel → a0 = 0 →
  fold_left (fun a d => a * b + d) (digits fuel b n acc) a0
  = fold_left (fun a d => a * b + d) acc n.
Proof.
  intros Hb. revert n acc a0. induction fuel as [|f IH]; intros n acc a0 Hn ->.
  - change (Z.of_nat 0) with 0 in Hn. simpl. f_equal. lia.
  - simpl. destruct (Z.ltb_spec n b).
    + simpl. rewrite Z.mod_small; [done|lia].
    + rewrite IH; [|split|done].
      * simpl. f_equal. pose proof (Z.div_mod n b). lia.
      * apply Z.div_pos; lia.
      * rewrite Nat2Z.inj_succ, Z.pow_succ_r in Hn by lia.
        apply Z.div_lt_upper_bound; lia.
Qed.

Lemma digits_fuel_enough b n : 2 ≤ b → 0 ≤ n → n < b ^ Z.of_nat (digits_fuel n).
Proof.
  intros Hb Hn. unfold digits_fuel.
  rewrite Nat2Z.inj_succ, Z2Nat.id by apply Z.log2_nonneg.
  destruct (decide (n = 0)) as [->|]; [simpl; lia|].
  pose proof (Z.log2_spec n ltac:(lia)) as [_ H].
  eapply Z.lt_le_trans; [exact H|]. apply Z.pow_le_mono_l. lia.
Qed.

(** Printing a number and reading its digits back gives the number. *)
Lemma of_digits_digits b n :
  2 ≤ b → 0 ≤ n → of_digits b (digits (digits_fuel n) b n []) = n.
Proof.
  intros. unfold of_digits. rewrite digits_value; [done|lia| |done].
  split; [done|]. by apply digits_fuel_enough.
Qed.

Lemma digits_Forall fuel b n acc :
  1 < b → 0 ≤ n → Forall (fun d => 0 ≤ d < b) acc →
  Forall (fun d => 0 ≤ d < b) (digits fuel b n acc).
Proof.
  intros Hb. revert n acc. induction fuel as [|f IH]; intros n acc Hn Hacc; [done|].
  simpl. pose proof (Z.mod_pos_bound n b). destruct (n <? b).
  - constructor; [lia|done].
  - apply IH; [apply Z.div_pos; lia|]. constructor; [lia|done].
Qed.

Lemma digits_nonempty b n : digits (digits_fuel n) b n [] ≠ [].
Proof.
  assert (∀ f n acc, acc ≠ [] → digits f b n acc ≠ []) as Hacc.
  { induction f; intros; simpl; [done|]. destruct (_ <? _); [done|]. eauto. }
  unfold digits_fuel. simpl. destruct (_ <? _); [done|]. by apply Hacc.
Qed.

Lemma strcmp_eq_true a b : strcmp_eq a b = true ↔ a = b.
Proof.
  revert b. induction a as [|x a IH]; intros [|y b]; simpl; try done.
  rewrite andb_true_iff, IH, Z.eqb_eq. naive_solver.
Qed.

(** On a key without NUL, comparing [length k] characters tests for a prefix. *)
Lemma strncmp_eq_prefix k rest name :
  Forall (fun c => c ≠ 0) k →
  strncmp_eq (length k) (k ++ rest) name = true ↔ ∃ t, name = k ++ t.
Proof.
  intros Hk. revert name. induction Hk as [|c k Hc Hk IH]; intros name; simpl.
  { split; [by exists name|done]. }
  destruct (Z.eqb_spec c (hd 0 name)) as [E|E].
  - rewrite (proj2 (Z.eqb_neq c 0) Hc). rewrite IH.
    destruct name as [|d name]; simpl in *; [lia|].
    subst d. split; intros [t Ht]; exists t; [by rewrite Ht|]. by injection Ht.
  - split; [done|]. intros [t ->]. by simpl in E.
Qed.

Lemma strncmp_prefix_sym a b :
  Forall (fun c => c ≠ 0) b → strncmp_eq (length b) a b = true ↔ ∃ t, a = b ++ t.
Proof.
  intros Hb. revert a. induction Hb as [|c b Hc Hb IH]; intros a; simpl.
  { split; [by exists a|done]. }
  destruct (Z.eqb_spec (hd 0 a) c) as [E|E].
  - rewrite E, (proj2 (Z.eqb_neq c 0) Hc), IH.
    destruct a as [|d a]; simpl in *; [lia|].
    subst d. split; intros [t Ht]; exists t; [by rewrite Ht|]. by injection Ht.
  - split; [done|]. intros [t ->]. by simpl in E.
Qed.

Lemma strrchr_spec c s r :
  strrchr c s = Some r → ∃ pre t, s = pre ++ c :: t ∧ r = c :: t ∧ c ∉ t.
Proof.
  revert r. induction s as [|x s IH]; intros r; simpl; [done|].
  destruct (strrchr c s) as [r'|] eqn:E.
  - intros [= <-]. destruct (IH _ eq_refl) as (pre & t & -> & -> & Ht).
    by exists (x :: pre), t.
  - destruct (Z.eqb_spec x c) as [->|]; [|done]. intros [= <-].
    exists [], s. split_and!; [done..|]. clear IH. induction s as [|y s IH]; [set_solver|].
    simpl in E. destruct (strrchr c s); [done|]. destruct (Z.eqb_spec y c); [done|].
    set_solver.
Qed.

Lemma strrchr_None c s : strrchr c s = None ↔ c ∉ s.
Proof.
  induction s as [|x s IH]; simpl; [set_solver|].
  destruct (strrchr c s) as [r|] eqn:E.
  - split; [done|]. intros Hn. assert (c ∉ s) as Hs by set_solver. by apply IH in Hs.
  - destruct (Z.eqb_spec x c); [set_solver|]. set_solver.
Qed.

Lemma has_char_true c s : has_char c s = true ↔ c ∈ s.
Proof.
  unfold has_char. rewrite existsb_exists. setoid_rewrite Z.eqb_eq.
  rewrite list_elem_of_In. split; [by intros (x & ? & ->)|eauto].
Qed.

Lemma has_char_false c s : has_char c s = false ↔ c ∉ s.
Proof. rewrite <-has_char_true. by destruct (has_char c s). Qed.

#[export] Hint Resolve of_digits_digits digits_nonempty : zaver.

Lemma digits_length fuel b n acc : (length (digits fuel b n acc) ≤ fuel + length acc)%nat.
Proof.
  revert n acc. induction fuel as [|fuel IH]; intros n acc; simpl; [lia|].
  destruct (n <? b); simpl; [lia|]. specialize (IH (n / b) (n mod b :: acc)). simpl in IH. lia.
Qed.

Lemma fmt_dec_length n k : 0 ≤ n < 2 ^ Z.of_nat k → (length (fmt_dec n) ≤ S k)%nat.
Proof.
  intros Hn. unfold fmt_dec. rewrite length_fmap.
  pose proof (digits_length (digits_fuel n) 10 n []) as Hl. cbn [length] in Hl.
  enough (digits_fuel n ≤ S k)%nat by lia. unfold digits_fuel. clear Hl.
  destruct (decide (n = 0)) as [->|]; [simpl; lia|].
  assert (Z.log2 n < Z.of_nat k) by (apply Z.log2_lt_pow2; lia). lia.
Qed.

Lemma fmt_int_length n : (- 2 ^ 31 ≤ n < 2 ^ 31) → (length (fmt_int n) ≤ 34)%nat.
Proof.
  intros Hn. unfold fmt_int. destruct (Z.ltb_spec n 0); cbn [length].
  - pose proof (fmt_dec_length (- n) 32). simpl Z.of_nat in *. lia.
  - pose proof (fmt_dec_length n 32). simpl Z.of_nat in *. lia.
Qed.

Lemma fmt_hex_length n k : 0 ≤ n < 2 ^ Z.of_nat k → (length (fmt_hex n) ≤ S k)%nat.
Proof.
  intros Hn. unfold fmt_hex. rewrite length_fmap.
  pose proof (digits_length (digits_fuel n) 16 n []) as Hl. cbn [length] in Hl.
  enough (digits_fuel n ≤ S k)%nat by lia. unfold digits_fuel. clear Hl.
  destruct (decide (n = 0)) as [->|]; [simpl; lia|].
  assert (Z.log2 n < Z.of_nat k) by (apply Z.log2_lt_pow2; lia). lia.
Qed.
