(* ===== verification/ByteMachine.v ===== *)
(** * Resumable byte machines

    Both parsers of http_parse.c have the same shape: a [for] loop over
    [buf[parse_pos, last)], a [switch] on a saved state, and on exhaustion the state
    is saved and [ZV_AGAIN] returned.  This file states that shape once. *)
From S2P Require Import Prelude.

(** What one iteration of the [switch] does: [break] with a new state, [goto done],
    [return code], or a read outside the buffer. *)
Inductive outcome (S R : Type) : Type :=
  | Next (s : S) (r : R)
  | Done (r : R)
  | Error (code : Z) (r : R)
  | Fault.
Arguments Next {S R} s r.
Arguments Done {S R} r.
Arguments Error {S R} code r.
Arguments Fault {S R}.

(** How the loop ends; the position is the value of [pi]. *)
Inductive loop_end (S R : Type) : Type :=
  | LAgain (pi : nat) (s : S) (r : R)
  | LDone (pi : nat) (r : R)
  | LError (code : Z) (r : R)
  | LFault.
Arguments LAgain {S R} pi s r.
Arguments LDone {S R} pi r.
Arguments LError {S R} code r.
Arguments LFault {S R}.

Section machine.
Context {S R : Type} (step : nat → Z → S → R → outcome S R).

(** The loop over a buffer: [n] is [last - pi], the iterations left. *)
Fixpoint byte_loop (size : nat) (buf : list Z) (n pi : nat) (s : S) (r : R) : loop_end S R :=
  match n with
  | O => LAgain pi s r
  | Datatypes.S n' =>
      match buf !! (pi mod size) with
      | None => LFault
      | Some c =>
          match step pi c s r with
          | Next s' r' => byte_loop size buf n' (Datatypes.S pi) s' r'
          | Done r' => LDone pi r'
          | Error e r' => LError e r'
          | Fault => LFault
          end
      end
  end.

(** The same loop over the list of the bytes it will see. *)
Fixpoint run (bs : list Z) (pi : nat) (s : S) (r : R) : loop_end S R :=
  match bs with
  | [] => LAgain pi s r
  | c :: bs' =>
      match step pi c s r with
      | Next s' r' => run bs' (Datatypes.S pi) s' r'
      | Done r' => LDone pi r'
      | Error e r' => LError e r'
      | Fault => LFault
      end
  end.

Lemma byte_loop_run size buf n pi s r :
  length buf ≤ size → pi + n ≤ length buf →
  byte_loop size buf n pi s r = run (slice pi (pi + n) buf) pi s r.
Proof.
  intros Hsize. revert pi s r. induction n as [|n IH]; intros pi s r Hn.
  - by rewrite Nat.add_0_r, slice_nil.
  - simpl. rewrite Nat.mod_small by lia.
    destruct (lookup_lt_is_Some_2 buf pi) as [c Hc]; [lia|]. rewrite Hc.
    assert (slice pi (pi + Datatypes.S n) buf = c :: slice (Datatypes.S pi) (Datatypes.S pi + n) buf) as ->.
    { unfold slice. rewrite (drop_S _ _ _ Hc).
      replace (pi + Datatypes.S n - pi) with (Datatypes.S n) by lia.
      simpl. do 2 f_equal. lia. }
    simpl. destruct (step pi c s r); try done. apply IH. lia.
Qed.

Lemma run_next c bs pi s r s' r' :
  step pi c s r = Next s' r' → run (c :: bs) pi s r = run bs (Datatypes.S pi) s' r'.
Proof. intros Hs. simpl. by rewrite Hs. Qed.

Lemma run_app a b pi s r :
  run (a ++ b) pi s r =
  match run a pi s r with
  | LAgain pi' s' r' => run b pi' s' r'
  | e => e
  end.
Proof.
  revert pi s r. induction a as [|c a IH]; intros pi s r; simpl; [done|].
  destruct (step pi c s r); by try apply IH.
Qed.

(** An exhausted run consumed every byte. *)
Lemma run_again_pos bs pi s r pi' s' r' :
  run bs pi s r = LAgain pi' s' r' → pi' = pi + length bs.
Proof.
  revert pi s r. induction bs as [|c bs IH]; intros pi s r; simpl.
  - intros [= <- _ _]. lia.
  - destruct (step pi c s r); try done. intros H%IH. lia.
Qed.

Lemma run_done_pos bs pi s r pi' r' :
  run bs pi s r = LDone pi' r' → pi ≤ pi' < pi + length bs.
Proof.
  revert pi s r. induction bs as [|c bs IH]; intros pi s r; simpl; [done|].
  destruct (step pi c s r); try done.
  - intros H%IH. lia.
  - intros [= <- _]. lia.
Qed.

(** A loop over one state: while [P] holds of the bytes, the machine stays in [s]
    and leaves the fields alone. *)
Lemma run_stay (P : Z → Prop) s bs rest pi r :
  (∀ pi c, P c → step pi c s r = Next s r) → Forall P bs →
  run (bs ++ rest) pi s r = run rest (pi + length bs) s r.
Proof.
  intros Hstep Hbs. revert pi. induction Hbs as [|c bs Hc Hbs IH]; intros pi; simpl.
  - by rewrite Nat.add_0_r.
  - rewrite Hstep by done. rewrite IH. f_equal. lia.
Qed.

(** The same with an accumulator in the fields. *)
Lemma run_fold (P : Z → Prop) (f : R → Z → R) s bs rest pi r :
  (∀ pi c r, P c → step pi c s r = Next s (f r c)) → Forall P bs →
  run (bs ++ rest) pi s r = run rest (pi + length bs) s (fold_left f bs r).
Proof.
  intros Hstep Hbs. revert pi r. induction Hbs as [|c bs Hc Hbs IH]; intros pi r; simpl.
  - by rewrite Nat.add_0_r.
  - rewrite Hstep by done. rewrite IH. f_equal. lia.
Qed.

(** Soundness against a family of languages: if [L s] is closed under the steps of
    the machine read backwards, an accepted run reads a word of [L s]. *)
Lemma run_sound (L : S → list Z → Prop) :
  (∀ pi c s r s' r' w, step pi c s r = Next s' r' → L s' w → L s (c :: w)) →
  (∀ pi c s r r', step pi c s r = Done r' → L s [c]) →
  ∀ bs pi s r pi' r', run bs pi s r = LDone pi' r' →
  ∃ w rest, bs = w ++ rest ∧ L s w ∧ Datatypes.S pi' = pi + length w.
Proof.
  intros Hnext Hdone bs. induction bs as [|c bs IH]; intros pi s r pi' r'; simpl; [done|].
  destruct (step pi c s r) as [s1 r1|r1|e r1|] eqn:E; try done.
  - intros H. destruct (IH _ _ _ _ _ H) as (w & rest & -> & Hw & Hlen).
    exists (c :: w), rest. split_and!; [done|by eapply Hnext|simpl; lia].
  - intros [= <- _]. exists [c], bs. split_and!; [done|by eapply Hdone|simpl; lia].
Qed.

(** An invariant of the fields that each step keeps holds when the loop ends. *)
Lemma run_invariant (I : nat → S → R → Prop) :
  (∀ pi c s r s' r', I pi s r → step pi c s r = Next s' r' → I (Datatypes.S pi) s' r') →
  ∀ bs pi s r pi' s' r', I pi s r → run bs pi s r = LAgain pi' s' r' → I pi' s' r'.
Proof.
  intros Hstep bs. induction bs as [|c bs IH]; intros pi s r pi' s' r' HI; simpl.
  - by intros [= -> -> ->].
  - destruct (step pi c s r) eqn:E; try done. eauto.
Qed.
End machine.
