(* ===== verification/HeaderPool.v ===== *)
(** * What the header free list promises to its clients

    http_parse.c takes header objects from [zv_http_header_alloc] and
    http_request.c gives them back with [zv_http_header_free].  Neither looks
    inside the free list, so both are verified against this interface;
    HeaderCache.v implements it with the pointer structure of
    http_header_cache.c. *)
From S2P Require Import Prelude.

Class HeaderPool (P : Type) := {
  (** invariant of the free list *)
  hp_ok : P → Prop;
  (** number of cached header objects, [g_free_count] *)
  hp_cached : P → nat;
  (** the most the cache holds, [ZV_HEADER_FREELIST_MAX] *)
  hp_max : nat;
  (** [zv_http_header_alloc]: [None] when [malloc] returns NULL *)
  hp_alloc : P → option P;
  (** [zv_http_header_free] of a header taken from the pool before *)
  hp_free : P → P;

  hp_bound p : hp_ok p → hp_cached p ≤ hp_max;
  (** a cached object is always handed out *)
  hp_alloc_cached p :
    hp_ok p → 0 < hp_cached p →
    ∃ p', hp_alloc p = Some p' ∧ hp_ok p' ∧ hp_cached p' = hp_cached p - 1;
  (** an empty cache stays empty, whether [malloc] succeeds or not *)
  hp_alloc_fresh p p' :
    hp_ok p → hp_cached p = 0 → hp_alloc p = Some p' → hp_ok p' ∧ hp_cached p' = 0;
  (** freeing caches the object until the cache is full *)
  hp_free_spec p :
    hp_ok p → hp_ok (hp_free p) ∧ hp_cached (hp_free p) = min hp_max (S (hp_cached p));
}.

Section pool.
Context `{HeaderPool P}.

Lemma hp_alloc_ok p p' : hp_ok p → hp_alloc p = Some p' → hp_ok p'.
Proof.
  intros Hp Ha. destruct (decide (hp_cached p = 0)) as [E|E].
  - by apply (hp_alloc_fresh _ _ Hp E) in Ha as [? _].
  - destruct (hp_alloc_cached p Hp) as (p1 & Ha1 & ? & _); [lia|]. congruence.
Qed.

(** Giving back [n] headers. *)
Fixpoint hp_free_n (n : nat) (p : P) : P :=
  match n with O => p | S n' => hp_free_n n' (hp_free p) end.

Lemma hp_free_n_spec n p :
  hp_ok p → hp_ok (hp_free_n n p) ∧ hp_cached (hp_free_n n p) = min hp_max (n + hp_cached p).
Proof.
  revert p. induction n as [|n IH]; intros p Hp; simpl.
  - pose proof (hp_bound p Hp). split; [done|lia].
  - destruct (hp_free_spec p Hp) as [Hok Hc]. destruct (IH _ Hok) as [? ->]. split; [done|lia].
Qed.
End pool.

#[export] Hint Resolve hp_alloc_ok : zaver.

(** The abstract free list: only the number of cached objects matters, and [malloc]
    succeeds.  HeaderCache.v shows the pointer structure refines it. *)
Definition count_max : nat := Z.to_nat 8192.

#[refine] Instance count_pool : HeaderPool nat := {
  hp_ok n := n ≤ count_max;
  hp_cached n := n;
  hp_max := count_max;
  hp_alloc n := Some (n - 1);
  hp_free n := min count_max (S n);
}.
Proof.
  - done.
  - intros n Hn Hpos. exists (n - 1). split_and!; [done|lia|done].
  - intros n n' Hn -> [= <-]. simpl. split; lia.
  - intros n Hn. split; lia.
Defined.
