(* ===== verification/HttpParse.v ===== *)
(** * The request parsers (http_parse.c)

    [zv_http_parse_request_line] and [zv_http_parse_request_body] as byte machines
    over [buf[parse_pos, last)].  A pointer into [buf] is the index it points to;
    NULL is [None].  The fields of [zv_http_request_t] the parsers use are grouped in
    [parser], the ones each [switch] assigns in [req_fields] and [hdr_fields]. *)
From S2P Require Import Prelude ByteMachine HeaderPool.

(** ** Constants (http_request.h) *)
Definition MAX_BUF : nat := Z.to_nat 8124.
Arguments MAX_BUF : simpl never.

Definition ZV_HTTP_PARSE_INVALID_METHOD : Z := 10.
Definition ZV_HTTP_PARSE_INVALID_REQUEST : Z := 11.
Definition ZV_HTTP_PARSE_INVALID_HEADER : Z := 12.

Definition ZV_HTTP_UNKNOWN : Z := 1.
Definition ZV_HTTP_GET : Z := 2.
Definition ZV_HTTP_HEAD : Z := 4.
Definition ZV_HTTP_POST : Z := 8.

(** ** State *)
Inductive rl_state :=
  | sw_start | sw_method | sw_spaces_before_uri | sw_after_slash_in_uri
  | sw_http | sw_http_H | sw_http_HT | sw_http_HTT | sw_http_HTTP
  | sw_first_major_digit | sw_major_digit | sw_first_minor_digit | sw_minor_digit
  | sw_spaces_after_digit | sw_almost_done.

Inductive hd_state :=
  | hd_start | hd_key | hd_spaces_before_colon | hd_spaces_after_colon
  | hd_value | hd_cr | hd_crlf | hd_crlfcr.

#[export] Instance rl_state_eq_dec : EqDecision rl_state.
Proof. solve_decision. Defined.
#[export] Instance hd_state_eq_dec : EqDecision hd_state.
Proof. solve_decision. Defined.

Record req_fields := mk_req_fields {
  request_start : option nat;
  method_end : option nat;
  method : Z;
  uri_start : option nat;
  uri_end : option nat;
  http_major : Z;
  http_minor : Z;
  request_end : option nat;
}.
#[export] Instance eta_req_fields : Eta req_fields := fun f =>
  mk_req_fields (request_start f) (method_end f) (method f) (uri_start f) (uri_end f)
    (http_major f) (http_minor f) (request_end f).

(** [zv_http_header_t] without its list link. *)
Record header := mk_header {
  key_start : option nat;
  key_end : option nat;
  value_start : option nat;
  value_end : option nat;
}.

(** The header cursor, and [r->list] from its first node on. *)
Record hdr_fields := mk_hdr_fields {
  cur_header_key_start : option nat;
  cur_header_key_end : option nat;
  cur_header_value_start : option nat;
  cur_header_value_end : option nat;
  headers : list header;
}.
#[export] Instance eta_hdr_fields : Eta hdr_fields := fun h =>
  mk_hdr_fields (cur_header_key_start h) (cur_header_key_end h)
    (cur_header_value_start h) (cur_header_value_end h) (headers h).

Record parser := mk_parser {
  buf : list Z;
  last : nat;
  parse_pos : nat;
  request_line_state : rl_state;
  header_state : hd_state;
  parse_phase : Z;
  rl : req_fields;
  hd : hdr_fields;
}.
#[export] Instance eta_parser : Eta parser := fun r =>
  mk_parser (buf r) (last r) (parse_pos r) (request_line_state r) (header_state r)
    (parse_phase r) (rl r) (hd r).

(** The parser part of [zv_init_request_t]; the buffer keeps its old bytes. *)
Definition init_parser (old : list Z) : parser := {|
  buf := old; last := 0; parse_pos := 0;
  request_line_state := sw_start; header_state := hd_start; parse_phase := 0;
  rl := mk_req_fields None None ZV_HTTP_UNKNOWN None None 0 0 None;
  hd := mk_hdr_fields None None None None [];
|}.

(** [read(fd, &r->buf[r->last], ...)] that delivers [bs], and [r->last += n]. *)
Definition recv (r : parser) (bs : list Z) : parser :=
  r <| buf := take (last r) (buf r) ++ bs ++ drop (last r + length bs) (buf r) |>
    <| last := last r + length bs |>.

(** ** The request line *)

(** The little-endian 32-bit word at [buf[m]], as [*(uint32_t * ) m] reads it. *)
Definition word32 (buf : list Z) (m : nat) : option Z :=
  match buf !! m, buf !! (m + 1), buf !! (m + 2), buf !! (m + 3) with
  | Some b0, Some b1, Some b2, Some b3 =>
      Some (b0 + Z.shiftl b1 8 + Z.shiftl b2 16 + Z.shiftl b3 24)%Z
  | _, _, _, _ => None
  end.

(** [(c3 << 24) | (c2 << 16) | (c1 << 8) | c0], the right side of [zv_str4cmp]. *)
Definition str4 (c0 c1 c2 c3 : Z) : Z :=
  Z.lor (Z.lor (Z.lor (Z.shiftl c3 24) (Z.shiftl c2 16)) (Z.shiftl c1 8)) c0.

(** The [switch (p - m)]: the new value of [r->method], [None] for a read outside
    the buffer. *)
Definition method_switch (buf : list Z) (m len : nat) (old : Z) : option Z :=
  match len with
  | 3 =>
      w ← word32 buf m;
      Some (if (w =? str4 "G"%ch "E"%ch "T"%ch " "%ch)%Z then ZV_HTTP_GET else old)
  | 4 =>
      w ← word32 buf m;
      Some (if (w =? str4 "P"%ch "O"%ch "S"%ch "T"%ch)%Z then ZV_HTTP_POST
            else if (w =? str4 "H"%ch "E"%ch "A"%ch "D"%ch)%Z then ZV_HTTP_HEAD
            else old)
  | _ => Some ZV_HTTP_UNKNOWN
  end.

(** [(ch < 'A' || ch > 'Z') && ch != '_'] *)
Definition bad_method_char (ch : Z) : bool :=
  (((ch <? "A"%ch) || ("Z"%ch <? ch)) && negb (ch =? "_"%ch))%Z.

Definition not_digit (ch : Z) : bool := ((ch <? "0"%ch) || ("9"%ch <? ch))%Z.

(** The states after the URI: the blanks, the version and the end of the line. *)
Definition rl_version (p : nat) (ch : Z) (state : rl_state) (r : req_fields) : outcome rl_state req_fields :=
  match state with
  | sw_http =>
      if (ch =? " "%ch)%Z then Next sw_http r
      else if (ch =? "H"%ch)%Z then Next sw_http_H r
      else Error ZV_HTTP_PARSE_INVALID_REQUEST r
  | sw_http_H =>
      if (ch =? "T"%ch)%Z then Next sw_http_HT r else Error ZV_HTTP_PARSE_INVALID_REQUEST r
  | sw_http_HT =>
      if (ch =? "T"%ch)%Z then Next sw_http_HTT r else Error ZV_HTTP_PARSE_INVALID_REQUEST r
  | sw_http_HTT =>
      if (ch =? "P"%ch)%Z then Next sw_http_HTTP r else Error ZV_HTTP_PARSE_INVALID_REQUEST r
  | sw_http_HTTP =>
      if (ch =? "/"%ch)%Z then Next sw_first_major_digit r
      else Error ZV_HTTP_PARSE_INVALID_REQUEST r
  | sw_first_major_digit =>
      if ((ch <? "1"%ch) || ("9"%ch <? ch))%Z then Error ZV_HTTP_PARSE_INVALID_REQUEST r
      else Next sw_major_digit (r <| http_major := (ch - "0"%ch)%Z |>)
  | sw_major_digit =>
      if (ch =? "."%ch)%Z then Next sw_first_minor_digit r
      else if not_digit ch then Error ZV_HTTP_PARSE_INVALID_REQUEST r
      else Next sw_major_digit (r <| http_major := i32 (http_major r * 10 + ch - "0"%ch) |>)
  | sw_first_minor_digit =>
      if not_digit ch then Error ZV_HTTP_PARSE_INVALID_REQUEST r
      else Next sw_minor_digit (r <| http_minor := (ch - "0"%ch)%Z |>)
  | sw_minor_digit =>
      if (ch =? CR)%Z then Next sw_almost_done r
      else if (ch =? LF)%Z then Done r
      else if (ch =? " "%ch)%Z then Next sw_spaces_after_digit r
      else if not_digit ch then Error ZV_HTTP_PARSE_INVALID_REQUEST r
      else Next sw_minor_digit (r <| http_minor := i32 (http_minor r * 10 + ch - "0"%ch) |>)
  | sw_spaces_after_digit =>
      if (ch =? " "%ch)%Z then Next sw_spaces_after_digit r
      else if (ch =? CR)%Z then Next sw_almost_done r
      else if (ch =? LF)%Z then Done r
      else Error ZV_HTTP_PARSE_INVALID_REQUEST r
  | sw_almost_done =>
      let r := r <| request_end := Some (p - 1) |> in
      if (ch =? LF)%Z then Done r else Error ZV_HTTP_PARSE_INVALID_REQUEST r
  | _ => Fault
  end.

(** One iteration of the [switch (state)] of [zv_http_parse_request_line]. *)
Definition rl_step (buf : list Z) (p : nat) (ch : Z) (state : rl_state) (r : req_fields)
    : outcome rl_state req_fields :=
  match state with
  | sw_start =>
      let r := r <| request_start := Some p |> in
      if ((ch =? CR) || (ch =? LF))%Z then Next sw_start r
      else if bad_method_char ch then Error ZV_HTTP_PARSE_INVALID_METHOD r
      else Next sw_method r
  | sw_method =>
      if (ch =? " "%ch)%Z then
        let r := r <| method_end := Some p |> in
        match request_start r with
        | None => Fault
        | Some m =>
            match method_switch buf m (p - m) (method r) with
            | None => Fault
            | Some meth => Next sw_spaces_before_uri (r <| method := meth |>)
            end
        end
      else if bad_method_char ch then Error ZV_HTTP_PARSE_INVALID_METHOD r
      else Next sw_method r
  | sw_spaces_before_uri =>
      if (ch =? "/"%ch)%Z then Next sw_after_slash_in_uri (r <| uri_start := Some p |>)
      else if (ch =? " "%ch)%Z then Next sw_spaces_before_uri r
      else Error ZV_HTTP_PARSE_INVALID_REQUEST r
  | sw_after_slash_in_uri =>
      if (ch =? " "%ch)%Z then Next sw_http (r <| uri_end := Some p |>)
      else Next sw_after_slash_in_uri r
  | _ => rl_version p ch state r
  end.

(** Which [return] of a parser was taken, with the state it leaves. *)
Inductive parse_exit (R : Type) : Type :=
  | PAgain (r : R)
  | POk (r : R)
  | PError (code : Z) (r : R)
  | PFault.
Arguments PAgain {R} r.
Arguments POk {R} r.
Arguments PError {R} code r.
Arguments PFault {R}.

Definition exit_map {R R'} (f : R → R') (e : parse_exit R) : parse_exit R' :=
  match e with
  | PAgain r => PAgain (f r)
  | POk r => POk (f r)
  | PError c r => PError c (f r)
  | PFault => PFault
  end.

(** The value returned; [None] for a read outside the buffer.  The caller sees only
    this number. *)
Definition return_value {R} (e : parse_exit R) : option (Z * R) :=
  match e with
  | PAgain r => Some (ZV_AGAIN, r)
  | POk r => Some (ZV_OK, r)
  | PError c r => Some (c, r)
  | PFault => None
  end.

(** What follows the loop: save the state and return, or the label [done]. *)
Definition request_line_end (r : parser) (e : loop_end rl_state req_fields) : parse_exit parser :=
  match e with
  | LAgain pi st f =>
      PAgain (r <| rl := f |> <| parse_pos := pi |> <| request_line_state := st |>)
  | LDone pi f =>
      let f := match request_end f with None => f <| request_end := Some pi |> | Some _ => f end in
      POk (r <| rl := f |> <| parse_pos := S pi |> <| request_line_state := sw_start |>)
  | LError c f => PError c (r <| rl := f |>)
  | LFault => PFault
  end.

Definition request_line_exit (r : parser) : parse_exit parser :=
  request_line_end r
    (byte_loop (rl_step (buf r)) MAX_BUF (buf r) (last r - parse_pos r) (parse_pos r)
       (request_line_state r) (rl r)).

Definition zv_http_parse_request_line (r : parser) : option (Z * parser) :=
  return_value (request_line_exit r).

(** ** The headers *)
Section headers.
Context `{HeaderPool P}.

(** One iteration of the [switch (state)] of [zv_http_parse_request_body].  The
    header list grows at its front: [list_add] inserts after the head. *)
Definition hd_step (p : nat) (ch : Z) (state : hd_state) (s : hdr_fields * P)
    : outcome hd_state (hdr_fields * P) :=
  let '(r, pool) := s in
  match state with
  | hd_start =>
      if (ch =? CR)%Z then Next hd_crlfcr (r, pool)
      else if (ch =? LF)%Z then Error ZV_HTTP_PARSE_INVALID_HEADER (r, pool)
      else Next hd_key (r <| cur_header_key_start := Some p |>, pool)
  | hd_key =>
      if (ch =? " "%ch)%Z then
        Next hd_spaces_before_colon (r <| cur_header_key_end := Some p |>, pool)
      else if (ch =? ":"%ch)%Z then
        Next hd_spaces_after_colon (r <| cur_header_key_end := Some p |>, pool)
      else Next hd_key (r, pool)
  | hd_spaces_before_colon =>
      if (ch =? " "%ch)%Z then Next hd_spaces_before_colon (r, pool)
      else if (ch =? ":"%ch)%Z then Next hd_spaces_after_colon (r, pool)
      else Error ZV_HTTP_PARSE_INVALID_HEADER (r, pool)
  | hd_spaces_after_colon =>
      if (ch =? " "%ch)%Z then Next hd_spaces_after_colon (r, pool)
      else Next hd_value (r <| cur_header_value_start := Some p |>, pool)
  | hd_value =>
      if (ch =? CR)%Z then Next hd_cr (r <| cur_header_value_end := Some p |>, pool)
      else if (ch =? LF)%Z then Error ZV_HTTP_PARSE_INVALID_HEADER (r, pool)
      else Next hd_value (r, pool)
  | hd_cr =>
      if (ch =? LF)%Z then
        match hp_alloc pool with
        | None => Error ZV_ERROR (r, pool)
        | Some pool' =>
            let h := mk_header (cur_header_key_start r) (cur_header_key_end r)
                       (cur_header_value_start r) (cur_header_value_end r) in
            Next hd_crlf (r <| headers := h :: headers r |>, pool')
        end
      else Error ZV_HTTP_PARSE_INVALID_HEADER (r, pool)
  | hd_crlf =>
      if (ch =? CR)%Z then Next hd_crlfcr (r, pool)
      else Next hd_key (r <| cur_header_key_start := Some p |>, pool)
  | hd_crlfcr =>
      if (ch =? LF)%Z then Done (r, pool)
      else Error ZV_HTTP_PARSE_INVALID_HEADER (r, pool)
  end.

Definition request_body_end (r : parser) (e : loop_end hd_state (hdr_fields * P))
    : parse_exit (parser * P) :=
  match e with
  | LAgain pi st (f, pool') =>
      PAgain (r <| hd := f |> <| parse_pos := pi |> <| header_state := st |>, pool')
  | LDone pi (f, pool') =>
      POk (r <| hd := f |> <| parse_pos := S pi |> <| header_state := hd_start |>, pool')
  | LError c (f, pool') => PError c (r <| hd := f |>, pool')
  | LFault => PFault
  end.

Definition request_body_exit (r : parser) (pool : P) : parse_exit (parser * P) :=
  request_body_end r
    (byte_loop hd_step MAX_BUF (buf r) (last r - parse_pos r) (parse_pos r)
       (header_state r) (hd r, pool)).

Definition zv_http_parse_request_body (r : parser) (pool : P) : option (Z * (parser * P)) :=
  return_value (request_body_exit r pool).
End headers.

(** ** The buffer invariant

    [buf] is the whole array, [buf[0, last)] is filled, the cursor is inside, and
    while a method is being read [request_start] is set. *)
Record parser_wf (r : parser) : Prop := {
  wf_size : length (buf r) = MAX_BUF;
  wf_cursor : parse_pos r ≤ last r;
  wf_last : last r < MAX_BUF;
  wf_method : request_line_state r = sw_method → is_Some (request_start (rl r));
}.

(** The bytes still to parse. *)
Definition unparsed (r : parser) : list Z := slice (parse_pos r) (last r) (buf r).

(** [bs] fits: the source reads at most [MAX_BUF - last - 1] bytes. *)
Definition fits (r : parser) (bs : list Z) : Prop := last r + length bs < MAX_BUF.

(** ** Lemmas on the buffer *)

Lemma init_parser_wf old : length old = MAX_BUF → parser_wf (init_parser old).
Proof. intros H. split; simpl; try done. unfold MAX_BUF. lia. Qed.

Lemma recv_recv r a b :
  length (buf r) = MAX_BUF → fits r (a ++ b) → recv (recv r a) b = recv r (a ++ b).
Proof.
  intros Hlen Hfit. unfold fits in Hfit. rewrite length_app in Hfit.
  destruct r as [bf la pp st hs ph f h]. unfold recv; simpl in *. f_equal.
  - rewrite take_app_ge by (rewrite length_take; lia).
    rewrite drop_app_ge by (rewrite length_take; lia).
    rewrite !length_take_le by lia.
    replace (la + length a - la) with (length a) by lia.
    rewrite take_app_length, <-!app_assoc. f_equal. f_equal.
    rewrite drop_app_ge by lia. rewrite drop_drop, length_app.
    replace (la + length a + length b - la - length a) with (length b) by lia.
    do 2 f_equal. lia.
  - rewrite length_app. lia.
Qed.

Lemma recv_nil r : recv r [] = r.
Proof. destruct r. unfold recv. simpl. by rewrite Nat.add_0_r, take_drop. Qed.

Lemma fits_app r a b : fits r (a ++ b) → fits r a ∧ fits (recv r a) b.
Proof. unfold fits. simpl. rewrite length_app. lia. Qed.

Lemma unparsed_recv r bs :
  parser_wf r → fits r bs → unparsed (recv r bs) = unparsed r ++ bs.
Proof.
  intros [Hsz Hc Hl _] Hfit. unfold fits in Hfit. unfold unparsed, recv; simpl.
  rewrite <-(slice_app (parse_pos r) (last r)) by lia. f_equal.
  - unfold slice. rewrite drop_app_le by (rewrite length_take; lia).
    rewrite take_app_le by (rewrite length_drop, length_take; lia).
    rewrite !take_drop_commute, take_take. do 2 f_equal. lia.
  - unfold slice. rewrite drop_app_eq by (rewrite length_take; lia).
    replace (last r + length bs - last r) with (length bs) by lia. apply take_app_length.
Qed.

Lemma recv_lookup_lt r bs i :
  parser_wf r → i < last r → buf (recv r bs) !! i = buf r !! i.
Proof.
  intros [Hsz _ Hl _] Hi. unfold recv; simpl.
  rewrite lookup_app_l by (rewrite length_take; lia). by apply lookup_take_lt.
Qed.

Lemma recv_wf r bs : parser_wf r → fits r bs → parser_wf (recv r bs).
Proof.
  intros [Hsz Hc Hl Hm] Hfit. unfold fits in Hfit. split; simpl; try done; try lia.
  autorewrite with zlist. rewrite Hsz. lia.
Qed.

(** ** The parsers as runs over the unparsed bytes *)

Lemma parser_run {S R} (step : nat → Z → S → R → outcome S R) r st f :
  parser_wf r →
  byte_loop step MAX_BUF (buf r) (last r - parse_pos r) (parse_pos r) st f
  = run step (unparsed r) (parse_pos r) st f.
Proof.
  intros [Hsz Hc Hl _]. rewrite byte_loop_run by lia.
  unfold unparsed. do 2 f_equal. lia.
Qed.

Lemma word32_ext b1 b2 m p :
  (∀ i, i ≤ p → b1 !! i = b2 !! i) → m + 3 ≤ p → word32 b1 m = word32 b2 m.
Proof. intros H Hp. unfold word32. by rewrite !H by lia. Qed.

(** A step looks at the buffer only up to its own position. *)
Lemma rl_step_ext b1 b2 p ch st f :
  (∀ i, i ≤ p → b1 !! i = b2 !! i) → rl_step b1 p ch st f = rl_step b2 p ch st f.
Proof.
  intros H. destruct st; try done. simpl. destruct (ch =? " "%ch)%Z; [|done].
  destruct (request_start f) as [m|]; [|done].
  assert (method_switch b1 m (p - m) (method f) = method_switch b2 m (p - m) (method f)) as ->;
    [|done].
  unfold method_switch. destruct (p - m) as [|[|[|[|[|k]]]]] eqn:E; try done.
  all: by rewrite (word32_ext b1 b2 m p H) by lia.
Qed.

Lemma run_rl_ext b1 b2 bs pi st f :
  (∀ i, i < pi + length bs → b1 !! i = b2 !! i) →
  run (rl_step b1) bs pi st f = run (rl_step b2) bs pi st f.
Proof.
  revert pi st f. induction bs as [|c bs IH]; intros pi st f H; simpl; [done|].
  rewrite (rl_step_ext b1 b2) by (intros; apply H; simpl; lia).
  destruct (rl_step b2 pi c st f); try done. apply IH. intros. apply H. simpl. lia.
Qed.

(** ** Feeding a parser in pieces *)

Lemma request_line_exit_run r :
  parser_wf r →
  request_line_exit r =
  request_line_end r (run (rl_step (buf r)) (unparsed r) (parse_pos r) (request_line_state r) (rl r)).
Proof. intros Hwf. unfold request_line_exit. by rewrite parser_run. Qed.

(** The method cursor stays in the buffer. *)
Lemma rl_step_method b p ch st f st' f' :
  rl_step b p ch st f = Next st' f' →
  (st = sw_method → is_Some (request_start f)) → st' = sw_method → is_Some (request_start f').
Proof.
  intros Hs Hm ->. destruct st; simpl in Hs;
    repeat (case_match; simplify_eq); simpl; eauto.
Qed.

Lemma request_line_again_wf r r' :
  parser_wf r → request_line_exit r = PAgain r' → parser_wf r' ∧
    buf r' = buf r ∧ last r' = last r ∧ parse_pos r' = last r.
Proof.
  intros Hwf. rewrite request_line_exit_run by done.
  destruct (run _ _ _ _ _) as [pi st f| | |] eqn:E; try done. intros [= <-].
  pose proof (run_again_pos _ _ _ _ _ _ _ _ E) as Hpi.
  destruct Hwf as [Hsz Hc Hl Hm]. unfold unparsed in Hpi. rewrite slice_length in Hpi by lia.
  split_and!; try done; [|simpl; lia].
  split; simpl; try lia.
  eapply (run_invariant _ (fun _ s g => s = sw_method → is_Some (request_start g)));
    [|exact Hm|exact E].
  intros. eapply rl_step_method; eauto.
Qed.

Lemma run_recv r bs :
  parser_wf r → fits r bs →
  run (rl_step (buf (recv r bs))) (unparsed r) (parse_pos r) (request_line_state r) (rl r)
  = run (rl_step (buf r)) (unparsed r) (parse_pos r) (request_line_state r) (rl r).
Proof.
  intros Hwf Hfit. apply run_rl_ext. intros i Hi. apply recv_lookup_lt; [done|].
  destruct Hwf. unfold unparsed in Hi. rewrite slice_length in Hi by lia. lia.
Qed.

(** ** Requests that arrive in pieces *)

(** On [return code] the cursor and the state are not saved, so two runs that were
    cut differently agree on everything but those; every other exit is the same. *)
Definition same_line_exit (e1 e2 : parse_exit parser) : Prop :=
  match e1, e2 with
  | PError c1 r1, PError c2 r2 =>
      c1 = c2 ∧ rl r1 = rl r2 ∧ buf r1 = buf r2 ∧ last r1 = last r2
  | _, _ => e1 = e2
  end.

Lemma same_line_exit_refl e : same_line_exit e e.
Proof. by destruct e. Qed.

(** Parsing after a further delivery [b] continues where the parse before it
    stopped. *)
Lemma request_line_feed_aux r b :
  parser_wf r → fits r b →
  same_line_exit (request_line_exit (recv r b))
    match request_line_exit r with
    | PAgain r1 => request_line_exit (recv r1 b)
    | e => exit_map (fun r1 => recv r1 b) e
    end.
Proof.
  intros Hwf Hfit. pose proof (recv_wf r b Hwf Hfit) as Hwf'.
  rewrite (request_line_exit_run (recv r b)), unparsed_recv by done.
  rewrite run_app. simpl parse_pos. simpl request_line_state. simpl rl.
  rewrite run_recv by done.
  rewrite (request_line_exit_run r) by done.
  destruct (run _ (unparsed r) _ _ _) as [pi st f|pi f|c f|] eqn:E;
    cbn [request_line_end exit_map]; [|by destruct (request_end f)|done..].
  set (r1 := r <| rl := f |> <| parse_pos := pi |> <| request_line_state := st |>).
  assert (request_line_exit r = PAgain r1) as Hr1 by (by rewrite request_line_exit_run, E).
  destruct (request_line_again_wf _ _ Hwf Hr1) as (Hwf1 & Hb & Hl & Hp).
  assert (fits r1 b) as Hfit1 by (unfold fits in *; by rewrite Hl).
  pose proof (recv_wf r1 b Hwf1 Hfit1) as Hwf1'.
  rewrite (request_line_exit_run (recv r1 b) Hwf1'), (unparsed_recv r1 b Hwf1 Hfit1).
  unfold unparsed at 1. rewrite Hl, Hp, slice_nil.
  change (buf (recv r1 b)) with (buf (recv r b)).
  change (parse_pos (recv r1 b)) with pi. change (request_line_state (recv r1 b)) with st.
  change (rl (recv r1 b)) with f. simpl app.
  by destruct (run (rl_step (buf (recv r b))) b pi st f).
Qed.

Section headers_facts.
Context `{HeaderPool P}.

Lemma request_body_exit_run r pool :
  parser_wf r →
  request_body_exit r pool =
  request_body_end r (run hd_step (unparsed r) (parse_pos r) (header_state r) (hd r, pool)).
Proof. intros Hwf. unfold request_body_exit. by rewrite parser_run. Qed.

Lemma request_body_again_wf r pool r' pool' :
  parser_wf r → request_body_exit r pool = PAgain (r', pool') → parser_wf r' ∧
    buf r' = buf r ∧ last r' = last r ∧ parse_pos r' = last r.
Proof.
  intros Hwf. rewrite request_body_exit_run by done.
  destruct (run _ _ _ _ _) as [pi st [f pl]|? []|? []|] eqn:E; try done. intros [= <- <-].
  pose proof (run_again_pos _ _ _ _ _ _ _ _ E) as Hpi.
  destruct Hwf as [Hsz Hc Hl Hm]. unfold unparsed in Hpi. rewrite slice_length in Hpi by lia.
  split_and!; try done; [|simpl; lia]. split; simpl; try done; lia.
Qed.

Definition same_body_exit (e1 e2 : parse_exit (parser * P)) : Prop :=
  match e1, e2 with
  | PError c1 (r1, p1), PError c2 (r2, p2) =>
      c1 = c2 ∧ hd r1 = hd r2 ∧ buf r1 = buf r2 ∧ last r1 = last r2 ∧ p1 = p2
  | _, _ => e1 = e2
  end.

Lemma request_body_feed_aux r pool b :
  parser_wf r → fits r b →
  same_body_exit (request_body_exit (recv r b) pool)
    match request_body_exit r pool with
    | PAgain (r1, pool1) => request_body_exit (recv r1 b) pool1
    | e => exit_map (fun '(r1, pool1) => (recv r1 b, pool1)) e
    end.
Proof.
  intros Hwf Hfit. pose proof (recv_wf r b Hwf Hfit) as Hwf'.
  rewrite (request_body_exit_run (recv r b)), unparsed_recv by done.
  rewrite run_app. simpl parse_pos. simpl header_state. simpl hd.
  rewrite (request_body_exit_run r) by done.
  destruct (run _ (unparsed r) _ _ _) as [pi st [f pl]|pi [f pl]|c [f pl]|] eqn:E;
    cbn [request_body_end exit_map]; [|done..].
  set (r1 := r <| hd := f |> <| parse_pos := pi |> <| header_state := st |>).
  assert (request_body_exit r pool = PAgain (r1, pl)) as Hr1
    by (by rewrite request_body_exit_run, E).
  destruct (request_body_again_wf _ _ _ _ Hwf Hr1) as (Hwf1 & Hb & Hl & Hp).
  assert (fits r1 b) as Hfit1 by (unfold fits in *; by rewrite Hl).
  pose proof (recv_wf r1 b Hwf1 Hfit1) as Hwf1'.
  rewrite (request_body_exit_run (recv r1 b) pl Hwf1'), (unparsed_recv r1 b Hwf1 Hfit1).
  unfold unparsed at 1. rewrite Hl, Hp, slice_nil.
  change (parse_pos (recv r1 b)) with pi. change (header_state (recv r1 b)) with st.
  change (hd (recv r1 b)) with f. simpl app.
  by destruct (run hd_step b pi st (f, pl)) as [? ? []|? []|? []|].
Qed.
End headers_facts.
