(* ===== verification/RequestLine.v ===== *)
(** * The language of the request-line parser

    An independent description of the request lines [zv_http_parse_request_line]
    accepts, the fields it must deliver for each, and the theorems that the parser
    accepts exactly these lines, whatever pieces they arrive in. *)
From S2P Require Import Prelude CString ByteMachine HeaderPool HttpParse.

(** ** The grammar *)

(** [blank* method SP+ uri SP+ "HTTP/" major "." minor SP* [CR] LF] *)
Record request_line := mk_line {
  l_blank : list Z;      (* leading CR and LF *)
  l_method : list Z;
  l_sp1 : nat;           (* spaces after the method, less one *)
  l_uri : list Z;
  l_sp2 : nat;           (* spaces after the URI, less one *)
  l_major : list Z;
  l_minor : list Z;
  l_sp3 : nat;           (* spaces after the version *)
  l_cr : bool;           (* CR before the LF *)
}.

Definition spaces (n : nat) : list Z := replicate n " "%ch.

Definition blank_char (c : Z) : Prop := c = CR ∨ c = LF.
Definition method_char (c : Z) : Prop := bad_method_char c = false.
Definition uri_char (c : Z) : Prop := c ≠ " "%ch.
Definition digit_char (c : Z) : Prop := not_digit c = false.

Record line_ok (l : request_line) : Prop := {
  ok_blank : Forall blank_char (l_blank l);
  ok_method : Forall method_char (l_method l);
  ok_method_ne : l_method l ≠ [];
  ok_uri : ∃ t, l_uri l = "/"%ch :: t ∧ Forall uri_char t;
  ok_major : ∃ d t, l_major l = d :: t ∧ ("1"%ch ≤ d ≤ "9"%ch)%Z ∧ Forall digit_char t;
  ok_minor : Forall digit_char (l_minor l);
  ok_minor_ne : l_minor l ≠ [];
}.

(** [[CR] LF] *)
Definition line_end (cr : bool) : list Z := (if cr then [CR] else []) ++ [LF].

Definition print_after_uri (l : request_line) : list Z :=
  spaces (l_sp2 l) ++ str "HTTP/" ++ l_major l ++ "."%ch :: l_minor l
    ++ spaces (l_sp3 l) ++ line_end (l_cr l).

Definition print_line (l : request_line) : list Z :=
  l_blank l ++ l_method l ++ " "%ch :: spaces (l_sp1 l) ++ l_uri l ++ " "%ch :: print_after_uri l.

(** ** What the parser must deliver *)

(** The method of the request when the previous one was [old]: the parser assigns
    [r->method] only when it recognises the word or when its length is neither 3
    nor 4. *)
Definition method_of (old : Z) (m : list Z) : Z :=
  if strcmp_eq m (str "GET") then ZV_HTTP_GET
  else if strcmp_eq m (str "POST") then ZV_HTTP_POST
  else if strcmp_eq m (str "HEAD") then ZV_HTTP_HEAD
  else if (length m =? 3) || (length m =? 4) then old
  else ZV_HTTP_UNKNOWN.

(** A version number, accumulated in an [int]. *)
Definition version_value (ds : list Z) : Z :=
  match ds with
  | [] => 0
  | d :: t => fold_left (fun a c => i32 (a * 10 + c - "0"%ch)) t (d - "0"%ch)%Z
  end.

Definition line_fields (f : req_fields) (pos : nat) (l : request_line) : req_fields :=
  let ms := pos + length (l_blank l) in
  let me := ms + length (l_method l) in
  let us := me + 1 + l_sp1 l in
  let ue := us + length (l_uri l) in
  let stop := pos + length (print_line l) in
  {| request_start := Some ms; method_end := Some me;
     method := method_of (method f) (l_method l);
     uri_start := Some us; uri_end := Some ue;
     http_major := version_value (l_major l); http_minor := version_value (l_minor l);
     request_end :=
       if l_cr l then Some (stop - 2)
       else match request_end f with Some e => Some e | None => Some (stop - 1) end |}.

(** The parser after the line [l]. *)
Definition line_parsed (r : parser) (l : request_line) : parser :=
  r <| rl := line_fields (rl r) (parse_pos r) l |>
    <| parse_pos := parse_pos r + length (print_line l) |>
    <| request_line_state := sw_start |>.

(** Delivering chunks one at a time, parsing after each. *)
Fixpoint feed_line (r : parser) (chunks : list (list Z)) : parse_exit parser :=
  match chunks with
  | [] => PAgain r
  | c :: cs =>
      match request_line_exit (recv r c) with
      | PAgain r1 => feed_line r1 cs
      | e => exit_map (fun r1 => recv r1 (concat cs)) e
      end
  end.

(** ** The method switch *)

Lemma word32_value b m b0 b1 b2 b3 t :
  drop m b = b0 :: b1 :: b2 :: b3 :: t →
  word32 b m = Some (b0 + b1 * 2 ^ 8 + b2 * 2 ^ 16 + b3 * 2 ^ 24)%Z.
Proof.
  intros H. assert (∀ i, b !! (m + i) = (b0 :: b1 :: b2 :: b3 :: t) !! i) as Hl
    by (intros; by rewrite <-H, lookup_drop).
  unfold word32. rewrite <-(Nat.add_0_r m), <-!Nat.add_assoc, !Hl. simpl.
  by rewrite !Z.shiftl_mul_pow2 by lia.
Qed.

Lemma method_char_range c : method_char c → ("A"%ch ≤ c ≤ "_"%ch)%Z.
Proof.
  unfold method_char, bad_method_char. intros H.
  destruct (Z.ltb_spec c "A"%ch), (Z.ltb_spec "Z"%ch c), (Z.eqb_spec c "_"%ch);
    simpl in H; try done; lia.
Qed.

(** Four bytes of a word are determined by its value. *)
Lemma word_bytes b0 b1 b2 b3 c0 c1 c2 c3 :
  (0 ≤ b0 < 256 → 0 ≤ b1 < 256 → 0 ≤ b2 < 256 → 0 ≤ b3 < 256 →
   0 ≤ c0 < 256 → 0 ≤ c1 < 256 → 0 ≤ c2 < 256 → 0 ≤ c3 < 256 →
   b0 + b1 * 2 ^ 8 + b2 * 2 ^ 16 + b3 * 2 ^ 24
   = c0 + c1 * 2 ^ 8 + c2 * 2 ^ 16 + c3 * 2 ^ 24 →
   b0 = c0 ∧ b1 = c1 ∧ b2 = c2 ∧ b3 = c3)%Z.
Proof. lia. Qed.

Lemma method_switch_spec b ms m t old :
  Forall method_char m → m ≠ [] → drop ms b = m ++ " "%ch :: t →
  method_switch b ms (length m) old = Some (method_of old m).
Proof.
  intros Hm Hne Hd.
  assert (Forall (fun c => "A"%ch ≤ c ≤ "_"%ch)%Z m) as Hr
    by (eapply Forall_impl; [exact Hm|apply method_char_range]).
  destruct m as [|m0 [|m1 [|m2 [|m3 [|m4 m]]]]]; try done.
  all: repeat match goal with H : Forall _ (_ :: _) |- _ => apply Forall_cons in H as [??] end.
  - unfold method_of. simpl. by rewrite !andb_false_r.
  - unfold method_of. simpl. by rewrite !andb_false_r.
  - simpl method_switch. rewrite (word32_value _ _ _ _ _ _ _ Hd). simpl mbind.
    change (str4 "G"%ch "E"%ch "T"%ch " "%ch)
      with ("G"%ch + "E"%ch * 2 ^ 8 + "T"%ch * 2 ^ 16 + " "%ch * 2 ^ 24)%Z.
    unfold method_of. simpl str. simpl strcmp_eq. simpl length. f_equal.
    destruct (Z.eqb_spec (m0 + m1 * 2 ^ 8 + m2 * 2 ^ 16 + 32 * 2 ^ 24)
                         (71 + 69 * 2 ^ 8 + 84 * 2 ^ 16 + 32 * 2 ^ 24)) as [E|E].
    + apply word_bytes in E as (-> & -> & -> & _); try lia. done.
    + ztests.
  - simpl method_switch. rewrite (word32_value _ _ _ _ _ _ _ Hd). simpl mbind.
    change (str4 "P"%ch "O"%ch "S"%ch "T"%ch)
      with ("P"%ch + "O"%ch * 2 ^ 8 + "S"%ch * 2 ^ 16 + "T"%ch * 2 ^ 24)%Z.
    change (str4 "H"%ch "E"%ch "A"%ch "D"%ch)
      with ("H"%ch + "E"%ch * 2 ^ 8 + "A"%ch * 2 ^ 16 + "D"%ch * 2 ^ 24)%Z.
    unfold method_of. simpl str. simpl strcmp_eq. simpl length. rewrite !andb_false_r. f_equal.
    destruct (Z.eqb_spec (m0 + m1 * 2 ^ 8 + m2 * 2 ^ 16 + m3 * 2 ^ 24)
                         (80 + 79 * 2 ^ 8 + 83 * 2 ^ 16 + 84 * 2 ^ 24)) as [E|E].
    + apply word_bytes in E as (-> & -> & -> & ->); try lia. done.
    + destruct (Z.eqb_spec (m0 + m1 * 2 ^ 8 + m2 * 2 ^ 16 + m3 * 2 ^ 24)
                         (72 + 69 * 2 ^ 8 + 65 * 2 ^ 16 + 68 * 2 ^ 24)) as [E'|E'].
      * apply word_bytes in E' as (-> & -> & -> & ->); try lia. done.
      * ztests.
  - unfold method_of. simpl. by rewrite !andb_false_r.
Qed.

(** ** Accepting the printed lines, piece by piece *)
Section accept.
Context (b : list Z).
Implicit Types (pi : nat) (f : req_fields) (w : list Z).

Lemma run_blank bl c w pi f :
  Forall blank_char bl → method_char c →
  run (rl_step b) (bl ++ c :: w) pi sw_start f
  = run (rl_step b) w (S (pi + length bl)) sw_method
      (f <| request_start := Some (pi + length bl) |>).
Proof.
  intros Hbl Hc. revert pi f. induction Hbl as [|x bl Hx Hbl IH]; intros pi f.
  - simpl. rewrite Nat.add_0_r. pose proof (method_char_range _ Hc).
    rewrite (proj2 (Z.eqb_neq c CR)), (proj2 (Z.eqb_neq c LF)) by lia.
    simpl. by rewrite Hc.
  - simpl app. simpl run. destruct Hx as [-> | ->]; simpl; rewrite IH;
      by replace (pi + S (length bl)) with (S pi + length bl) by lia.
Qed.

Lemma run_method m w pi f :
  Forall method_char m →
  run (rl_step b) (m ++ w) pi sw_method f = run (rl_step b) w (pi + length m) sw_method f.
Proof.
  intros Hm. apply (run_stay _ method_char); [|done]. intros p c Hc.
  pose proof (method_char_range _ Hc). simpl.
  rewrite (proj2 (Z.eqb_neq c " "%ch)) by lia. by rewrite Hc.
Qed.

Lemma run_spaces s n w pi f :
  (∀ p f, rl_step b p " "%ch s f = Next s f) →
  run (rl_step b) (spaces n ++ w) pi s f = run (rl_step b) w (pi + n) s f.
Proof.
  intros Hs. rewrite (run_stay _ (fun c => c = " "%ch)).
  - unfold spaces. by rewrite length_replicate.
  - intros p c ->. apply Hs.
  - by apply Forall_replicate.
Qed.

Lemma run_uri u w pi f :
  Forall uri_char u →
  run (rl_step b) (u ++ w) pi sw_after_slash_in_uri f
  = run (rl_step b) w (pi + length u) sw_after_slash_in_uri f.
Proof.
  intros Hu. apply (run_stay _ uri_char); [|done]. intros p c Hc. simpl.
  unfold uri_char in Hc. by rewrite (proj2 (Z.eqb_neq c " "%ch)) by done.
Qed.

Lemma digit_char_range c : digit_char c ↔ ("0"%ch ≤ c ≤ "9"%ch)%Z.
Proof.
  unfold digit_char, not_digit.
  destruct (Z.ltb_spec c "0"%ch), (Z.ltb_spec "9"%ch c); simpl; split; intros; try done; lia.
Qed.

Lemma run_major ds w pi f :
  Forall digit_char ds →
  run (rl_step b) (ds ++ w) pi sw_major_digit f
  = run (rl_step b) w (pi + length ds) sw_major_digit
      (f <| http_major := fold_left (fun a c => i32 (a * 10 + c - "0"%ch)) ds (http_major f) |>).
Proof.
  intros Hds. revert pi f. induction Hds as [|c ds Hc Hds IH]; intros pi f.
  - destruct f. simpl. by rewrite Nat.add_0_r.
  - simpl app. simpl run. apply digit_char_range in Hc as Hr.
    rewrite (proj2 (Z.eqb_neq c "."%ch)) by lia. rewrite Hc. rewrite IH. simpl.
    f_equal. lia.
Qed.

Lemma run_minor ds w pi f :
  Forall digit_char ds →
  run (rl_step b) (ds ++ w) pi sw_minor_digit f
  = run (rl_step b) w (pi + length ds) sw_minor_digit
      (f <| http_minor := fold_left (fun a c => i32 (a * 10 + c - "0"%ch)) ds (http_minor f) |>).
Proof.
  intros Hds. revert pi f. induction Hds as [|c ds Hc Hds IH]; intros pi f.
  - destruct f. simpl. by rewrite Nat.add_0_r.
  - simpl app. simpl run. apply digit_char_range in Hc as Hr.
    rewrite (proj2 (Z.eqb_neq c CR)), (proj2 (Z.eqb_neq c LF)), (proj2 (Z.eqb_neq c " "%ch)) by lia.
    rewrite Hc. rewrite IH. simpl. f_equal. lia.
Qed.

(** The tail [SP* [CR] LF] ends the run at its last byte. *)
Lemma run_line_end n cr w pi f :
  run (rl_step b) (spaces n ++ line_end cr ++ w) pi sw_minor_digit f
  = let stop := pi + length (spaces n ++ line_end cr) in
    LDone (stop - 1) (if cr then f <| request_end := Some (stop - 2) |> else f).
Proof.
  cbv zeta. rewrite length_app. unfold spaces at 2 3. rewrite length_replicate.
  destruct n as [|n].
  - destruct cr; simpl; eq_arith.
  - change (spaces (S n)) with (" "%ch :: spaces n). simpl app. simpl run.
    rewrite run_spaces by done. destruct cr; simpl; eq_arith.
Qed.

Lemma run_version l w pi f :
  line_ok l →
  run (rl_step b) (print_after_uri l ++ w) pi sw_http f
  = let stop := pi + length (print_after_uri l) in
    let f := f <| http_major := version_value (l_major l) |>
               <| http_minor := version_value (l_minor l) |> in
    LDone (stop - 1) (if l_cr l then f <| request_end := Some (stop - 2) |> else f).
Proof.
  intros [_ _ _ _ (d & t & Hmaj & Hd & Ht) Hmin Hne].
  cbv zeta. unfold print_after_uri. rewrite Hmaj.
  destruct (l_minor l) as [|e u] eqn:Hminl; [done|]. apply Forall_cons in Hmin as [He Hu].
  rewrite <-!app_assoc, run_spaces by done.
  change (str "HTTP/") with ["H"%ch; "T"%ch; "T"%ch; "P"%ch; "/"%ch]. simpl app. simpl run.
  rewrite (proj2 (Z.ltb_ge d "1"%ch)), (proj2 (Z.ltb_ge "9"%ch d)) by lia. simpl orb. cbv iota.
  rewrite <-app_assoc, run_major by done. simpl app. simpl run.
  unfold digit_char in He. rewrite He.
  rewrite <-!app_assoc, run_minor by done. rewrite run_line_end. cbv zeta.
  unfold spaces. repeat (rewrite ?length_app, ?length_replicate; simpl).
  destruct (l_cr l); simpl; eq_arith.
Qed.
End accept.

Lemma rl_step_method_end b ms m t p f :
  Forall method_char m → m ≠ [] → drop ms b = m ++ " "%ch :: t →
  request_start f = Some ms → p = ms + length m →
  rl_step b p " "%ch sw_method f
  = Next sw_spaces_before_uri
      (f <| method_end := Some p |> <| method := method_of (method f) m |>).
Proof.
  intros Hm Hne Hd Hf ->. simpl. rewrite Hf.
  replace (ms + length m - ms) with (length m) by lia.
  by rewrite (method_switch_spec _ _ _ _ _ Hm Hne Hd).
Qed.

Lemma run_print_line b l rest t pos f :
  line_ok l → drop pos b = print_line l ++ t →
  run (rl_step b) (print_line l ++ rest) pos sw_start f
  = LDone (pos + length (print_line l) - 1)
      ((line_fields f pos l) <| request_end :=
         if l_cr l then Some (pos + length (print_line l) - 2) else request_end f |>).
Proof.
  intros Hl Hb. pose proof Hl as [Hbl Hm Hne (u & Hu & Huf) _ _ _].
  assert (drop (pos + length (l_blank l)) b
          = l_method l ++ " "%ch :: (spaces (l_sp1 l) ++ l_uri l ++ " "%ch :: print_after_uri l) ++ t)
    as Hd.
  { rewrite <-drop_drop, Hb. unfold print_line. rewrite <-app_assoc, drop_app_length.
    rewrite <-app_assoc. done. }
  destruct (l_method l) as [|c m] eqn:Hmeth; [done|].
  pose proof Hm as Hm'. apply Forall_cons in Hm' as [Hc Hm'].
  etrans.
  { unfold print_line. rewrite Hmeth, Hu, <-app_assoc. simpl app.
    rewrite run_blank by done. rewrite <-app_assoc, run_method by done. simpl app.
    erewrite run_next; [|eapply rl_step_method_end; [exact Hm|exact Hne|exact Hd|done|simpl; lia]].
    rewrite <-app_assoc, run_spaces by done. simpl app.
    erewrite run_next by reflexivity. rewrite <-app_assoc, run_uri by done. simpl app.
    erewrite run_next by reflexivity. apply run_version; done. }
  cbv zeta. unfold line_fields, print_line. rewrite Hmeth, Hu. simpl.
  unfold spaces. repeat (rewrite ?length_app, ?length_replicate; simpl).
  f_equal; [lia|]. destruct f, (l_cr l); simpl; eq_arith.
Qed.

(** ** Everything accepted is a printed line *)

Definition lang_tail (w : list Z) : Prop := ∃ n cr, w = spaces n ++ line_end cr.
Definition lang_minor (w : list Z) : Prop :=
  ∃ ds w', Forall digit_char ds ∧ w = ds ++ w' ∧ lang_tail w'.
Definition lang_first_minor (w : list Z) : Prop :=
  ∃ d w', digit_char d ∧ w = d :: w' ∧ lang_minor w'.
Definition lang_major (w : list Z) : Prop :=
  ∃ ds w', Forall digit_char ds ∧ w = ds ++ "."%ch :: w' ∧ lang_first_minor w'.
Definition lang_first_major (w : list Z) : Prop :=
  ∃ d w', ("1"%ch ≤ d ≤ "9"%ch)%Z ∧ w = d :: w' ∧ lang_major w'.
Definition lang_proto (pre : list Z) (w : list Z) : Prop :=
  ∃ w', w = pre ++ w' ∧ lang_first_major w'.
Definition lang_http (w : list Z) : Prop := ∃ n w', w = spaces n ++ w' ∧ lang_proto (str "HTTP/") w'.
Definition lang_uri (w : list Z) : Prop :=
  ∃ u w', Forall uri_char u ∧ w = u ++ " "%ch :: w' ∧ lang_http w'.
Definition lang_spaces (w : list Z) : Prop := ∃ n w', w = spaces n ++ "/"%ch :: w' ∧ lang_uri w'.
Definition lang_method (w : list Z) : Prop :=
  ∃ m w', Forall method_char m ∧ w = m ++ " "%ch :: w' ∧ lang_spaces w'.
Definition lang_start (w : list Z) : Prop :=
  ∃ bl c w', Forall blank_char bl ∧ method_char c ∧ w = bl ++ c :: w' ∧ lang_method w'.

(** What the parser reads from each state until it accepts. *)
Definition lang (s : rl_state) : list Z → Prop :=
  match s with
  | sw_start => lang_start
  | sw_method => lang_method
  | sw_spaces_before_uri => lang_spaces
  | sw_after_slash_in_uri => lang_uri
  | sw_http => lang_http
  | sw_http_H => lang_proto (str "TTP/")
  | sw_http_HT => lang_proto (str "TP/")
  | sw_http_HTT => lang_proto (str "P/")
  | sw_http_HTTP => lang_proto (str "/")
  | sw_first_major_digit => lang_first_major
  | sw_major_digit => lang_major
  | sw_first_minor_digit => lang_first_minor
  | sw_minor_digit => lang_minor
  | sw_spaces_after_digit => lang_tail
  | sw_almost_done => fun w => w = [LF]
  end.

Lemma lang_proto_cons c pre w : lang_proto pre w → lang_proto (c :: pre) (c :: w).
Proof. intros (w' & -> & H). by exists w'. Qed.

Lemma lang_closed b p c s f s' f' w :
  rl_step b p c s f = Next s' f' → lang s' w → lang s (c :: w).
Proof.
  intros Hs Hw. destruct s; simpl in Hs;
    repeat (case_match; simplify_eq);
    repeat match goal with
    | H : (_ =? _)%Z = true |- _ => apply Z.eqb_eq in H; subst
    | H : (_ || _)%bool = true |- _ => apply orb_true_iff in H as [H|H]
    | H : (_ || _)%bool = false |- _ => apply orb_false_iff in H as [? ?]
    | H : (_ <? _)%Z = false |- _ => apply Z.ltb_ge in H
    end; simpl in Hw |- *; try (by apply lang_proto_cons).
  - destruct Hw as (bl & c' & w' & ? & ? & -> & ?).
    exists (CR :: bl), c', w'. split_and!; try done. constructor; [by left|done].
  - destruct Hw as (bl & c' & w' & ? & ? & -> & ?).
    exists (LF :: bl), c', w'. split_and!; try done. constructor; [by right|done].
  - exists [], c, w. by split_and!; try done; constructor.
  - exists [], w. by split_and!; try done; constructor.
  - destruct Hw as (m & w' & ? & -> & ?). exists (c :: m), w'. split_and!; try done.
    by constructor.
  - by exists 0, w.
  - destruct Hw as (n & w' & -> & ?). by exists (S n), w'.
  - exists [], w. by split_and!; try done; constructor.
  - destruct Hw as (m & w' & ? & -> & ?). exists (c :: m), w'. split_and!; try done.
    constructor; [|done]. by apply Z.eqb_neq.
  - destruct Hw as (n & w' & -> & ?). by exists (S n), w'.
  - exists 0, ("H"%ch :: w). split; [done|]. by apply lang_proto_cons.
  - exists w. done.
  - by exists c, w.
  - exists [], w. by split_and!; try done; constructor.
  - destruct Hw as (m & w' & ? & -> & ?). exists (c :: m), w'. split_and!; try done.
    by constructor.
  - by exists c, w.
  - exists [], (CR :: w). split_and!; try done. exists 0, true. by subst.
  - exists [], (" "%ch :: w). split_and!; try done. destruct Hw as (n & cr & ->).
    by exists (S n), cr.
  - destruct Hw as (m & w' & ? & -> & ?). exists (c :: m), w'. split_and!; try done.
    by constructor.
  - destruct Hw as (n & cr & ->). by exists (S n), cr.
  - subst. by exists 0, true.
Qed.

Lemma lang_done b p c s f f' : rl_step b p c s f = Done f' → lang s [c].
Proof.
  intros Hs. destruct s; simpl in Hs; repeat (case_match; simplify_eq);
    repeat match goal with
    | H : (_ =? _)%Z = true |- _ => apply Z.eqb_eq in H; subst
    end; simpl.
  - exists [], [LF]. split_and!; try done. by exists 0, false.
  - by exists 0, false.
  - done.
Qed.

Lemma lang_start_line w : lang_start w → ∃ l, line_ok l ∧ w = print_line l.
Proof.
  intros (bl & c & w1 & Hbl & Hc & -> & m & w2 & Hm & -> & n1 & w3 & -> & u & w4 & Hu & ->
    & n2 & w5 & -> & w6 & -> & d & w7 & Hd & -> & ds & w8 & Hds & -> & e & w9 & He & -> & es & w10
    & Hes & -> & n3 & cr & ->).
  exists (mk_line bl (c :: m) n1 ("/"%ch :: u) n2 (d :: ds) (e :: es) n3 cr). split.
  - split; simpl; eauto; by constructor.
  - unfold print_line, print_after_uri; simpl. done.
Qed.

(** ** Memory safety *)

Lemma rl_step_no_fault b p c st f :
  p < length b → (st = sw_method → is_Some (request_start f)) → rl_step b p c st f ≠ Fault.
Proof.
  intros Hp Hm. destruct st; simpl; repeat case_match; try done; intros _.
  - assert (∀ i, i ≤ p → is_Some (b !! i)) as Hb by (intros; apply lookup_lt_is_Some_2; lia).
    unfold method_switch in *. destruct (p - n) as [|[|[|[|[|k]]]]] eqn:E; simplify_eq.
    all: destruct (Hb n) as [? E0], (Hb (n + 1)) as [? E1], (Hb (n + 2)) as [? E2],
      (Hb (n + 3)) as [? E3]; try lia.
    all: unfold word32 in *; rewrite E0, E1, E2, E3 in *; done.
  - by destruct (Hm eq_refl).
Qed.

Lemma run_no_fault b bs pi st f :
  pi + length bs ≤ length b → (st = sw_method → is_Some (request_start f)) →
  run (rl_step b) bs pi st f ≠ LFault.
Proof.
  revert pi st f. induction bs as [|c bs IH]; intros pi st f Hb Hm; simpl in *; [done|].
  pose proof (rl_step_no_fault b pi c st f ltac:(lia) Hm).
  destruct (rl_step b pi c st f) eqn:E; try done.
  apply IH; [lia|]. eapply rl_step_method; eauto.
Qed.

Lemma run_rl_error b bs pi st f c f' :
  run (rl_step b) bs pi st f = LError c f' →
  c = ZV_HTTP_PARSE_INVALID_METHOD ∨ c = ZV_HTTP_PARSE_INVALID_REQUEST.
Proof.
  revert pi st f. induction bs as [|x bs IH]; intros pi st f; simpl; [done|].
  destruct (rl_step b pi x st f) as [| |e g|] eqn:E; try done; [by apply IH|].
  intros [= <- _]. destruct st; simpl in E; repeat (case_match; simplify_eq); auto.
Qed.

Lemma unparsed_length r : parser_wf r → length (unparsed r) = last r - parse_pos r.
Proof. intros [Hsz Hc Hl _]. apply slice_length. lia. Qed.

Lemma unparsed_drop r :
  parser_wf r → drop (parse_pos r) (buf r) = unparsed r ++ drop (last r) (buf r).
Proof.
  intros [Hsz Hc Hl _]. unfold unparsed, slice.
  rewrite <-(take_drop (last r - parse_pos r) (drop (parse_pos r) (buf r))) at 1.
  f_equal. rewrite drop_drop. f_equal. lia.
Qed.

Lemma line_accepted r l rest :
  parser_wf r → request_line_state r = sw_start → line_ok l → unparsed r = print_line l ++ rest →
  request_line_exit r = POk (line_parsed r l).
Proof.
  intros Hwf Hst Hl Hu. rewrite request_line_exit_run, Hst, Hu by done.
  pose proof (unparsed_drop r Hwf) as Hd. rewrite Hu, <-app_assoc in Hd.
  rewrite (run_print_line _ _ _ _ _ _ Hl Hd).
  assert (0 < length (print_line l)) as Hpos.
  { unfold print_line. repeat (rewrite ?length_app; simpl). lia. }
  unfold line_parsed, line_fields. simpl.
  destruct (l_cr l), (request_end (rl r)); simpl; eq_arith.
Qed.

(** No read outside the buffer; the buffer is only read, and success consumes bytes. *)
Definition safe_line_exit (r : parser) (e : parse_exit parser) : Prop :=
  match e with
  | PAgain r' => parser_wf r' ∧ buf r' = buf r ∧ last r' = last r ∧ parse_pos r' = last r
  | POk r' => parser_wf r' ∧ buf r' = buf r ∧ last r' = last r ∧ parse_pos r < parse_pos r' ≤ last r
  | PError c _ => c = ZV_HTTP_PARSE_INVALID_METHOD ∨ c = ZV_HTTP_PARSE_INVALID_REQUEST
  | PFault => False
  end.

Lemma line_exit_safe r : parser_wf r → safe_line_exit r (request_line_exit r).
Proof.
  intros Hwf. pose proof (unparsed_length r Hwf) as Hlen. unfold safe_line_exit.
  destruct (request_line_exit r) as [r'|r'|c r'|] eqn:E.
  - by apply request_line_again_wf.
  - rewrite request_line_exit_run in E by done.
    destruct (run _ _ _ _ _) as [|pi f| |] eqn:Er; try done. injection E as <-.
    apply run_done_pos in Er. destruct Hwf as [Hsz Hc Hl _].
    split_and!; try done; try (simpl; lia). split; simpl; try done; lia.
  - rewrite request_line_exit_run in E by done.
    destruct (run _ _ _ _ _) eqn:Er; try done. injection E as <- _.
    by eapply run_rl_error.
  - rewrite request_line_exit_run in E by done.
    destruct (run _ _ _ _ _) eqn:Er; try done. revert Er.
    destruct Hwf as [Hsz Hc Hl Hm]. apply run_no_fault; [lia|done].
Qed.

(** The request-line parser leaves the fields of the headers alone. *)
Lemma line_exit_keeps r :
  match request_line_exit r with
  | PAgain r' | POk r' | PError _ r' =>
      hd r' = hd r ∧ header_state r' = header_state r ∧ parse_phase r' = parse_phase r
  | PFault => True
  end.
Proof. unfold request_line_exit. by destruct (byte_loop _ _ _ _ _ _ _) as [| ? f| |]. Qed.

(** *** Parsing a rejected line again *)

(** The control of a step depends on the byte and the state, not on the fields. *)
Lemma rl_step_control b p c st f g :
  p < length b → (st = sw_method → is_Some (request_start g)) →
  match rl_step b p c st f with
  | Next st' _ => ∃ g', rl_step b p c st g = Next st' g'
  | Done _ => ∃ g', rl_step b p c st g = Done g'
  | Error e _ => ∃ g', rl_step b p c st g = Error e g'
  | Fault => True
  end.
Proof.
  intros Hp Hm. pose proof (rl_step_no_fault b p c st g Hp Hm) as Hg. revert Hg.
  destruct st; simpl; repeat case_match; simplify_eq; intros Hg; try done; eauto.
Qed.

Lemma run_control b bs pi st f g e f' :
  pi + length bs ≤ length b → (st = sw_method → is_Some (request_start g)) →
  run (rl_step b) bs pi st f = LError e f' → ∃ g', run (rl_step b) bs pi st g = LError e g'.
Proof.
  revert pi st f g. induction bs as [|c bs IH]; intros pi st f g Hb Hm; simpl in *; [done|].
  pose proof (rl_step_control b pi c st f g ltac:(lia) Hm) as Hc.
  destruct (rl_step b pi c st f) as [st1 f1|f1|e1 f1|]; try done.
  - destruct Hc as [g1 E1]. rewrite E1. apply IH; [lia|]. eapply rl_step_method; eauto.
  - destruct Hc as [g1 E1]. rewrite E1. intros [= -> _]. eauto.
Qed.

(** A step keeps [request_start] set once it is. *)
Lemma rl_step_start b p c st f :
  is_Some (request_start f) →
  match rl_step b p c st f with
  | Next _ f' | Done f' | Error _ f' => is_Some (request_start f')
  | Fault => True
  end.
Proof.
  intros Hs. destruct (rl_step b p c st f) eqn:E; destruct st; simpl in E;
    repeat (case_match; simplify_eq); simpl; eauto.
Qed.

Lemma run_error_start b bs pi st f e f' :
  (st = sw_method → is_Some (request_start f)) →
  run (rl_step b) bs pi st f = LError e f' → st = sw_method → is_Some (request_start f').
Proof.
  intros Hm Hrun ->. specialize (Hm eq_refl). revert Hm Hrun. generalize sw_method.
  revert pi f. induction bs as [|c bs IH]; intros pi f st Hm; simpl; [done|].
  pose proof (rl_step_start b pi c st f Hm) as Hs. destruct (rl_step b pi c st f); try done.
  - by apply IH.
  - by intros [= _ <-].
Qed.

(** The cursor does not move on a rejected line: the next call rejects it again. *)
Lemma line_rejected_again r e r' :
  parser_wf r → request_line_exit r = PError e r' →
  parser_wf r' ∧ buf r' = buf r ∧ parse_pos r' = parse_pos r ∧ last r' = last r ∧
  parse_phase r' = parse_phase r ∧ ∃ r'', request_line_exit r' = PError e r''.
Proof.
  intros Hwf. rewrite request_line_exit_run by done.
  destruct (run _ _ _ _ _) as [| |e' f|] eqn:E; try done. intros [= -> <-].
  destruct Hwf as [Hsz Hc Hl Hm].
  assert (parser_wf (r <| rl := f |>)) as Hwf' by (split; simpl; eauto using run_error_start).
  split; [done|]. split; [done|]. split; [done|]. split; [done|]. split; [done|].
  rewrite request_line_exit_run by done.
  change (∃ r'', request_line_end (r <| rl := f |>)
    (run (rl_step (buf r)) (unparsed r) (parse_pos r) (request_line_state r) f) = PError e r'').
  destruct (run_control (buf r) (unparsed r) (parse_pos r) (request_line_state r) (rl r) f e f)
    as [g Eg]; [|apply Hwf'|done|].
  { unfold unparsed. rewrite slice_length; lia. }
  rewrite Eg. by eexists.
Qed.

(** ** Properties *)

(** C8. The parser accepts exactly the request lines of the grammar: started at the
    beginning of a line it returns [ZV_OK] if and only if the buffered bytes begin
    with a line [l] of the grammar, and then the fields are the ones the line
    denotes, the cursor is just behind the line and the state is reset. *)
Theorem request_line_exact r r' :
  parser_wf r → request_line_state r = sw_start →
  request_line_exit r = POk r' ↔
  ∃ l rest, line_ok l ∧ unparsed r = print_line l ++ rest ∧ r' = line_parsed r l.
Proof.
  intros Hwf Hst. rewrite request_line_exit_run, Hst by done. split.
  - intros Hok. destruct (run _ _ _ _ _) as [| pi f | |] eqn:E; try done.
    destruct (run_sound _ lang (lang_closed (buf r)) (lang_done (buf r)) _ _ _ _ _ _ E)
      as (w & rest & Hu & Hw & _).
    apply lang_start_line in Hw as (l & Hl & ->). exists l, rest. split_and!; [done..|].
    rewrite Hu in E. pose proof (unparsed_drop r Hwf) as Hd. rewrite Hu, <-app_assoc in Hd.
    rewrite (run_print_line _ _ _ _ _ _ Hl Hd) in E. injection E as <- <-.
    simpl in Hok. assert (0 < length (print_line l)) as Hpos.
    { unfold print_line. repeat (rewrite ?length_app; simpl). lia. }
    unfold line_parsed, line_fields. injection Hok as <-. simpl.
    destruct (l_cr l), (request_end (rl r)); simpl; eq_arith.
  - intros (l & rest & Hl & Hu & ->). rewrite <-Hst, <-request_line_exit_run by done.
    by eapply line_accepted.
Qed.

(** C14. Splitting does not matter: a request line delivered in any number of pieces,
    with a parse after each, ends in the same way as when it is delivered at once,
    with the same return code, fields and buffer, and the same cursor and state
    unless the line is rejected. *)
Theorem request_line_pieces r chunks :
  parser_wf r → fits r (concat chunks) → parse_pos r = last r →
  same_line_exit (request_line_exit (recv r (concat chunks)))
    (feed_line r chunks).
Proof.
  revert r. induction chunks as [|c cs IH]; intros r Hwf Hfit Hpos; simpl.
  - assert (recv r [] = r) as -> by apply recv_nil.
    rewrite request_line_exit_run by done. unfold unparsed. rewrite Hpos, slice_nil. simpl.
    destruct r; simpl in *; by subst.
  - destruct (fits_app r c (concat cs) Hfit) as [Hc Hcs].
    pose proof (recv_wf r c Hwf Hc) as Hwf1.
    rewrite <-recv_recv by (done || apply Hwf).
    pose proof (request_line_feed_aux (recv r c) (concat cs) Hwf1 Hcs) as H.
    destruct (request_line_exit (recv r c)) as [r1|r1|code r1|] eqn:E; try done.
    destruct (request_line_again_wf _ _ Hwf1 E) as (Hwf2 & _ & Hl & Hp).
    assert (fits r1 (concat cs)) as Hfit1 by (unfold fits in *; by rewrite Hl).
    specialize (IH r1 Hwf2 Hfit1). rewrite Hp, Hl in IH. specialize (IH eq_refl).
    destruct (request_line_exit (recv r1 (concat cs))) eqn:E1, (feed_line r1 cs) eqn:E2;
      simpl in IH; simplify_eq; try done.
    destruct (request_line_exit (recv (recv r c) (concat cs))); simpl in *; try done.
    naive_solver congruence.
Qed.

(** C16. On a well-formed parser the request-line parser reads only inside the
    buffer, and leaves a well-formed parser when it succeeds or asks for more. *)
Theorem request_line_safe r : parser_wf r → safe_line_exit r (request_line_exit r).
Proof. apply line_exit_safe. Qed.

(** ** Concrete inputs *)

Definition demo_buf : list Z := replicate MAX_BUF 0%Z.

(** ["GET /index.html HTTP/1.1\r\n"] *)
Definition demo_line : request_line :=
  mk_line [] (str "GET") 0 (str "/index.html") 0 (str "1") (str "1") 0 true.

Definition demo_parser : parser := recv (init_parser demo_buf) (print_line demo_line).

Lemma demo_parser_wf : parser_wf demo_parser.
Proof.
  apply recv_wf; [apply init_parser_wf; apply length_replicate|].
  unfold fits. vm_compute. lia.
Qed.

Lemma demo_line_ok : line_ok demo_line.
Proof.
  split; simpl; try (by repeat constructor).
  - exists (str "index.html"). split; [done|]. by repeat constructor.
  - exists "1"%ch, []. split_and!; try done.
Qed.

Lemma request_line_exact_witness :
  request_line_exit demo_parser = POk (line_parsed demo_parser demo_line).
Proof.
  apply (request_line_exact demo_parser); [apply demo_parser_wf|reflexivity|].
  exists demo_line, []. split; [apply demo_line_ok|]. split; [vm_compute|]; reflexivity.
Defined.

Lemma request_line_pieces_witness :
  same_line_exit
    (request_line_exit (recv (init_parser demo_buf) (concat [str "GET /inde"; str "x.html HTTP/1.1"; crlf])))
    (feed_line (init_parser demo_buf) [str "GET /inde"; str "x.html HTTP/1.1"; crlf]).
Proof.
  apply request_line_pieces; [apply init_parser_wf, length_replicate| |reflexivity].
  unfold fits. vm_compute. lia.
Defined.

Lemma request_line_safe_witness : safe_line_exit demo_parser (request_line_exit demo_parser).
Proof. apply (request_line_safe demo_parser), demo_parser_wf. Defined.
