(* ===== verification/HeaderBlock.v ===== *)
(** * The language of the header parser

    The header blocks [zv_http_parse_request_body] accepts, the header list it must
    build for each, and the theorems that it does. *)
From S2P Require Import Prelude CString ByteMachine HeaderPool HttpParse RequestLine.

(** ** The grammar *)

(** [key SP* ":" SP* value CR LF] *)
Record header_line := mk_hline {
  h_key : list Z;
  h_sp1 : nat;
  h_sp2 : nat;
  h_value : list Z;
}.

Definition key_char (c : Z) : Prop := c ≠ " "%ch ∧ c ≠ ":"%ch.
Definition value_char (c : Z) : Prop := c ≠ CR ∧ c ≠ LF.

(** The first byte of a key is only tested against CR, that of a value only against
    the space. *)
Record hline_ok (h : header_line) : Prop := {
  hok_key : ∃ c t, h_key h = c :: t ∧ c ≠ CR ∧ Forall key_char t;
  hok_value : ∃ c t, h_value h = c :: t ∧ c ≠ " "%ch ∧ Forall value_char t;
}.

(** The first key of the block does not start with LF either. *)
Definition block_ok (hs : list header_line) : Prop :=
  Forall hline_ok hs ∧ match hs with h :: _ => head (h_key h) ≠ Some LF | [] => True end.

Definition print_hline (h : header_line) : list Z :=
  h_key h ++ spaces (h_sp1 h) ++ ":"%ch :: spaces (h_sp2 h) ++ h_value h ++ crlf.

Definition print_block (hs : list header_line) : list Z := concat (print_hline <$> hs) ++ crlf.

(** ** What the parser must build *)

(** The header object of a line that starts at [pos]. *)
Definition hline_header (pos : nat) (h : header_line) : header :=
  let ke := pos + length (h_key h) in
  let vs := ke + h_sp1 h + 1 + h_sp2 h in
  mk_header (Some pos) (Some ke) (Some vs) (Some (vs + length (h_value h))).

Definition hline_fields (pos : nat) (h : header_line) (f : hdr_fields) : hdr_fields :=
  let o := hline_header pos h in
  mk_hdr_fields (key_start o) (key_end o) (value_start o) (value_end o) (o :: headers f).

Fixpoint block_fields (pos : nat) (hs : list header_line) (f : hdr_fields) : hdr_fields :=
  match hs with
  | [] => f
  | h :: hs' => block_fields (pos + length (print_hline h)) hs' (hline_fields pos h f)
  end.

Definition block_parsed (r : parser) (hs : list header_line) : parser :=
  r <| hd := block_fields (parse_pos r) hs (hd r) |>
    <| parse_pos := parse_pos r + length (print_block hs) |>
    <| header_state := hd_start |>.

Section block.
Context `{HeaderPool P}.

(** [n] calls of [zv_http_header_alloc]. *)
Fixpoint alloc_n (n : nat) (p : P) : option P :=
  match n with
  | O => Some p
  | S n' => hp_alloc p ≫= alloc_n n'
  end.

(** Delivering chunks one at a time, parsing after each. *)
Fixpoint feed_body (r : parser) (pool : P) (chunks : list (list Z)) : parse_exit (parser * P) :=
  match chunks with
  | [] => PAgain (r, pool)
  | c :: cs =>
      match request_body_exit (recv r c) pool with
      | PAgain (r1, pool1) => feed_body r1 pool1 cs
      | e => exit_map (fun '(r1, pool1) => (recv r1 (concat cs), pool1)) e
      end
  end.
End block.

(** ** Accepting a printed block *)
Section accept.
Context `{HeaderPool P}.
Implicit Types (pi : nat) (f : hdr_fields) (p : P) (w : list Z).

Lemma run_key k w pi f p :
  Forall key_char k →
  run hd_step (k ++ w) pi hd_key (f, p) = run hd_step w (pi + length k) hd_key (f, p).
Proof.
  intros Hk. apply (run_stay _ key_char); [|done]. intros q c [H1 H2]. simpl.
  by rewrite (proj2 (Z.eqb_neq _ _) H1), (proj2 (Z.eqb_neq _ _) H2).
Qed.

Lemma run_value v w pi f p :
  Forall value_char v →
  run hd_step (v ++ w) pi hd_value (f, p) = run hd_step w (pi + length v) hd_value (f, p).
Proof.
  intros Hv. apply (run_stay _ value_char); [|done]. intros q c [H1 H2]. simpl.
  by rewrite (proj2 (Z.eqb_neq _ _) H1), (proj2 (Z.eqb_neq _ _) H2).
Qed.

Lemma run_hspaces s n w pi f p :
  (∀ q f, hd_step q " "%ch s (f, p) = Next s (f, p)) →
  run hd_step (spaces n ++ w) pi s (f, p) = run hd_step w (pi + n) s (f, p).
Proof.
  intros Hs. rewrite (run_stay _ (fun c => c = " "%ch)).
  - unfold spaces. by rewrite length_replicate.
  - intros q c ->. apply Hs.
  - by apply Forall_replicate.
Qed.

(** From the end of the key to the first byte of the value. *)
Lemma run_colon n m c w pi f p :
  c ≠ " "%ch →
  run hd_step (spaces n ++ ":"%ch :: spaces m ++ c :: w) pi hd_key (f, p)
  = run hd_step w (S (pi + n + 1 + m)) hd_value
      (f <| cur_header_key_end := Some pi |>
         <| cur_header_value_start := Some (pi + n + 1 + m) |>, p).
Proof.
  intros Hc.
  transitivity (run hd_step (spaces m ++ c :: w) (S (pi + n)) hd_spaces_after_colon
                  (f <| cur_header_key_end := Some pi |>, p)).
  - destruct n as [|n]; [by rewrite Nat.add_0_r|].
    change (spaces (S n)) with (" "%ch :: spaces n). simpl app.
    erewrite run_next by reflexivity. rewrite run_hspaces by done.
    replace (pi + S n) with (S pi + n) by lia. done.
  - rewrite run_hspaces by done. simpl run. rewrite (proj2 (Z.eqb_neq _ _) Hc). simpl. eq_arith.
Qed.

(** The fields when the LF of the line is reached. *)
Definition at_lf (pi : nat) (h : header_line) (f : hdr_fields) : hdr_fields :=
  (hline_fields pi h f) <| headers := headers f |>.

Lemma run_hline_prefix h w pi f p st :
  hline_ok h → (st = hd_start ∧ head (h_key h) ≠ Some LF ∨ st = hd_crlf) →
  run hd_step (print_hline h ++ w) pi st (f, p)
  = run hd_step (LF :: w) (pi + length (print_hline h) - 1) hd_cr (at_lf pi h f, p).
Proof.
  intros [(c & t & Hk & Hc & Ht) (v & u & Hv & Hvc & Hu)] Hst.
  assert (∀ w, run hd_step (c :: w) pi st (f, p)
    = run hd_step w (S pi) hd_key (f <| cur_header_key_start := Some pi |>, p)) as Hfirst.
  { intros w'. simpl run. destruct Hst as [[-> Hlf]| ->]; simpl;
      rewrite (proj2 (Z.eqb_neq _ _) Hc); [|done].
    rewrite Hk in Hlf. simpl in Hlf. rewrite (proj2 (Z.eqb_neq c LF)) by congruence. done. }
  unfold print_hline. rewrite Hk, Hv, <-app_assoc. simpl app. rewrite Hfirst.
  rewrite run_key by done. rewrite <-app_assoc. simpl app. rewrite <-app_assoc. simpl app.
  rewrite run_colon by done. rewrite <-app_assoc, run_value by done.
  change (crlf ++ w) with (CR :: LF :: w). erewrite run_next by reflexivity.
  unfold at_lf, hline_fields, hline_header. rewrite Hk, Hv.
  f_equal; simpl; unfold spaces; repeat (rewrite ?length_app, ?length_replicate; simpl);
    eq_arith.
Qed.

Lemma run_hline h w pi f p p' st :
  hline_ok h → (st = hd_start ∧ head (h_key h) ≠ Some LF ∨ st = hd_crlf) →
  hp_alloc p = Some p' →
  run hd_step (print_hline h ++ w) pi st (f, p)
  = run hd_step w (pi + length (print_hline h)) hd_crlf (hline_fields pi h f, p').
Proof.
  intros Hh Hst Ha. rewrite run_hline_prefix by done. simpl run. rewrite Ha.
  assert (0 < length (print_hline h)).
  { unfold print_hline, crlf. repeat (rewrite ?length_app; simpl). lia. }
  replace (S (pi + length (print_hline h) - 1)) with (pi + length (print_hline h)) by lia. done.
Qed.

Lemma run_hline_oom h w pi f p st :
  hline_ok h → (st = hd_start ∧ head (h_key h) ≠ Some LF ∨ st = hd_crlf) →
  hp_alloc p = None →
  ∃ f', run hd_step (print_hline h ++ w) pi st (f, p) = LError ZV_ERROR (f', p).
Proof.
  intros Hh Hst Ha. rewrite run_hline_prefix by done. simpl run. rewrite Ha. eauto.
Qed.

Lemma run_block hs w pi f p p' st :
  block_ok hs → (st = hd_start ∨ st = hd_crlf) → alloc_n (length hs) p = Some p' →
  run hd_step (print_block hs ++ w) pi st (f, p)
  = LDone (pi + length (print_block hs) - 1) (block_fields pi hs f, p').
Proof.
  intros [Hhs Hlf] Hst Ha.
  assert (match hs with h :: _ => st = hd_start ∧ head (h_key h) ≠ Some LF ∨ st = hd_crlf
          | [] => st = hd_start ∨ st = hd_crlf end) as Hst' by (destruct hs; naive_solver).
  clear Hst Hlf. revert pi st f p Hst' Ha.
  induction Hhs as [|h hs Hh Hhs IH]; intros pi st f p Hst Ha.
  - simpl in *. injection Ha as ->. destruct Hst as [-> | ->]; simpl; eq_arith.
  - simpl in Ha. destruct (hp_alloc p) as [p1|] eqn:Ea; [|done]. simpl in Ha.
    unfold print_block in *. rewrite fmap_cons. cbn [concat].
    rewrite <-!app_assoc, (run_hline h _ _ _ _ _ _ Hh Hst Ea).
    rewrite app_assoc. erewrite IH; [|destruct hs; by right|exact Ha].
    rewrite !length_app. simpl block_fields. f_equal. lia.
Qed.
End accept.

(** ** Everything accepted is a printed block *)

(** What the parser reads from each state until it accepts: the rest of a line, then
    the remaining lines. *)
Definition rest_lines (w : list Z) : Prop := ∃ hs, Forall hline_ok hs ∧ w = print_block hs.
Definition rest_cr (w : list Z) : Prop := ∃ w', w = LF :: w' ∧ rest_lines w'.
Definition rest_value (w : list Z) : Prop :=
  ∃ v w', Forall value_char v ∧ w = v ++ CR :: w' ∧ rest_cr w'.
Definition rest_after_colon (w : list Z) : Prop :=
  ∃ n c w', c ≠ " "%ch ∧ w = spaces n ++ c :: w' ∧ rest_value w'.
Definition rest_before_colon (w : list Z) : Prop :=
  ∃ n w', w = spaces n ++ ":"%ch :: w' ∧ rest_after_colon w'.
Definition rest_key (w : list Z) : Prop :=
  ∃ k w', Forall key_char k ∧ w = k ++ w' ∧ rest_before_colon w'.

Definition hd_lang (s : hd_state) : list Z → Prop :=
  match s with
  | hd_start => fun w => ∃ hs, block_ok hs ∧ w = print_block hs
  | hd_key => rest_key
  | hd_spaces_before_colon => rest_before_colon
  | hd_spaces_after_colon => rest_after_colon
  | hd_value => rest_value
  | hd_cr => rest_cr
  | hd_crlf => rest_lines
  | hd_crlfcr => fun w => w = [LF]
  end.

(** A first key byte and the rest of the line make a header line. *)
Lemma rest_key_line c w :
  c ≠ CR → rest_key w → ∃ h hs, hline_ok h ∧ Forall hline_ok hs ∧ head (h_key h) = Some c ∧
    c :: w = print_block (h :: hs).
Proof.
  intros Hc (k & w1 & Hk & -> & n & w2 & -> & m & v & w3 & Hv & -> & u & w4 & Hu & -> & w5 & -> &
    hs & Hhs & ->).
  exists (mk_hline (c :: k) n m (v :: u)), hs. split_and!; [|done|done|].
  - split; simpl; eauto.
  - unfold print_block, print_hline. rewrite fmap_cons. cbn [concat h_key h_sp1 h_sp2 h_value].
    unfold crlf at 2. simpl. repeat (rewrite <-!app_assoc; simpl). done.
Qed.

Section sound.
Context `{HeaderPool P}.

Lemma hd_lang_closed p c s (r : hdr_fields * P) s' r' w :
  hd_step p c s r = Next s' r' → hd_lang s' w → hd_lang s (c :: w).
Proof.
  destruct r as [f pool]. intros Hs Hw. destruct s; simpl in Hs;
    repeat (case_match; simplify_eq);
    repeat match goal with
    | H : (_ =? _)%Z = true |- _ => apply Z.eqb_eq in H; subst
    | H : (_ =? _)%Z = false |- _ => apply Z.eqb_neq in H
    end; simpl in Hw |- *.
  - subst. by exists [].
  - destruct (rest_key_line c w) as (h & hs & ? & ? & Hh & ?); [done..|].
    exists (h :: hs). split; [|done]. split; [by constructor|]. simpl. congruence.
  - destruct Hw as (n & w' & -> & ?). exists [], (spaces (S n) ++ ":"%ch :: w').
    split_and!; try done. by exists (S n), w'.
  - exists [], (":"%ch :: w). split_and!; try done. by exists 0, w.
  - destruct Hw as (k & w' & ? & -> & ?). exists (c :: k), w'. split_and!; try done.
    by constructor.
  - destruct Hw as (n & w' & -> & ?). by exists (S n), w'.
  - by exists 0, w.
  - destruct Hw as (n & c & w' & ? & -> & ?). by exists (S n), c, w'.
  - by exists 0, c, w.
  - by exists [], w.
  - destruct Hw as (k & w' & ? & -> & ?). exists (c :: k), w'. split_and!; try done.
    by constructor.
  - by exists w.
  - subst. by exists [].
  - destruct (rest_key_line c w) as (h & hs & ? & ? & Hh & ?); [done..|].
    exists (h :: hs). split; [|done]. by constructor.
Qed.

Lemma hd_lang_done p c s (r : hdr_fields * P) r' :
  hd_step p c s r = Done r' → hd_lang s [c].
Proof.
  destruct r as [f pool]. intros Hs. destruct s; simpl in Hs; repeat (case_match; simplify_eq).
  match goal with H : (_ =? _)%Z = true |- _ => apply Z.eqb_eq in H; by subst end.
Qed.

(** A run consumes one allocation per stored header, and fails for want of memory
    only when the pool refuses one. *)
Lemma run_allocs bs pi s f p pi' f' p' hs w :
  (s = hd_start ∨ s = hd_crlf) → block_ok hs → bs = print_block hs ++ w →
  run hd_step bs pi s (f, p) = LDone pi' (f', p') → ∃ p'', alloc_n (length hs) p = Some p''.
Proof.
  intros Hs [Hok Hlf] ->.
  assert (match hs with h :: _ => s = hd_start ∧ head (h_key h) ≠ Some LF ∨ s = hd_crlf
          | [] => s = hd_start ∨ s = hd_crlf end) as Hst by (destruct hs; naive_solver).
  clear Hs Hlf. revert pi s f p Hst. induction Hok as [|h hs Hh Hok IH]; intros pi s f p Hst Hr.
  - by exists p.
  - simpl. unfold print_block in Hr. rewrite fmap_cons in Hr. cbn [concat] in Hr.
    rewrite <-!app_assoc in Hr. destruct (hp_alloc p) as [p1|] eqn:Ea; simpl.
    + rewrite (run_hline h _ _ _ _ _ _ Hh Hst Ea), app_assoc in Hr.
      eapply IH; [|exact Hr]. destruct hs; by right.
    + exfalso. revert Hr. clear IH Hok.
      assert (∃ f2, run hd_step (print_hline h ++ (concat (print_hline <$> hs) ++ crlf ++ w))
                pi s (f, p) = LError ZV_ERROR (f2, p)) as [f2 ->]; [|done].
      by apply run_hline_oom.
Qed.
End sound.

Lemma print_block_pos hs : 0 < length (print_block hs).
Proof. unfold print_block, crlf. rewrite length_app. simpl. lia. Qed.

Lemma block_parsed_eq r hs :
  r <| hd := block_fields (parse_pos r) hs (hd r) |>
    <| parse_pos := S (parse_pos r + length (print_block hs) - 1) |>
    <| header_state := hd_start |> = block_parsed r hs.
Proof. pose proof (print_block_pos hs). unfold block_parsed. simpl. eq_arith. Qed.

Section exits.
Context `{HeaderPool P}.

Lemma block_accepted r pool hs rest pool' :
  parser_wf r → header_state r = hd_start → block_ok hs → unparsed r = print_block hs ++ rest →
  alloc_n (length hs) pool = Some pool' →
  request_body_exit r pool = POk (block_parsed r hs, pool').
Proof.
  intros Hwf Hst Hhs Hu Ha. rewrite request_body_exit_run, Hst, Hu by done.
  rewrite (run_block hs _ _ _ _ _ _ Hhs (or_introl eq_refl) Ha). simpl. do 2 f_equal.
  apply block_parsed_eq.
Qed.

(** The cursors a state relies on are set, and so are those of every listed header. *)
Definition set_header (h : header) : Prop :=
  is_Some (key_start h) ∧ is_Some (key_end h) ∧ is_Some (value_start h) ∧ is_Some (value_end h).

Definition hd_set (st : hd_state) (f : hdr_fields) : Prop :=
  Forall set_header (headers f) ∧
  match st with
  | hd_start | hd_crlf | hd_crlfcr => True
  | hd_key => is_Some (cur_header_key_start f)
  | hd_spaces_before_colon | hd_spaces_after_colon =>
      is_Some (cur_header_key_start f) ∧ is_Some (cur_header_key_end f)
  | hd_value =>
      is_Some (cur_header_key_start f) ∧ is_Some (cur_header_key_end f) ∧
      is_Some (cur_header_value_start f)
  | hd_cr =>
      is_Some (cur_header_key_start f) ∧ is_Some (cur_header_key_end f) ∧
      is_Some (cur_header_value_start f) ∧ is_Some (cur_header_value_end f)
  end.

Lemma hd_step_set p c st f (pool : P) :
  hd_set st f → hp_ok pool →
  match hd_step p c st (f, pool) with
  | Next st' (f', pool') => hd_set st' f' ∧ hp_ok pool'
  | Done (f', pool') => Forall set_header (headers f') ∧ hp_ok pool'
  | Error e (f', pool') =>
      (e = ZV_HTTP_PARSE_INVALID_HEADER ∨ e = ZV_ERROR) ∧ Forall set_header (headers f') ∧ hp_ok pool'
  | Fault => False
  end.
Proof.
  intros [Hl Hst] Hp. destruct st; simpl; repeat case_match; simplify_eq; simpl in *;
    unfold hd_set; simpl; split_and?; try done; eauto with zaver; by destruct_and?.
Qed.

Lemma run_set bs pi st f (pool : P) :
  hd_set st f → hp_ok pool →
  match run hd_step bs pi st (f, pool) with
  | LAgain _ st' (f', pool') => hd_set st' f' ∧ hp_ok pool'
  | LDone _ (f', pool') => Forall set_header (headers f') ∧ hp_ok pool'
  | LError e (f', pool') =>
      (e = ZV_HTTP_PARSE_INVALID_HEADER ∨ e = ZV_ERROR) ∧ Forall set_header (headers f') ∧ hp_ok pool'
  | LFault => False
  end.
Proof.
  revert pi st f pool. induction bs as [|c bs IH]; intros pi st f pool Hs Hp; cbn [run]; [done|].
  pose proof (hd_step_set pi c st f pool Hs Hp) as Hc.
  destruct (hd_step pi c st (f, pool)) as [st' [f' p']|[f' p']|e [f' p']|]; try done.
  destruct Hc. by apply IH.
Qed.

(** Every exit of the header parser; on an error the caller closes the connection. *)
Lemma body_exit_safe r pool :
  parser_wf r → hd_set (header_state r) (hd r) → hp_ok pool →
  match request_body_exit r pool with
  | PAgain (r', pool') =>
      parser_wf r' ∧ buf r' = buf r ∧ last r' = last r ∧ parse_pos r' = last r ∧
      rl r' = rl r ∧ parse_phase r' = parse_phase r ∧ hd_set (header_state r') (hd r') ∧ hp_ok pool'
  | POk (r', pool') =>
      parser_wf r' ∧ buf r' = buf r ∧ last r' = last r ∧ parse_pos r < parse_pos r' ≤ last r ∧
      rl r' = rl r ∧ parse_phase r' = parse_phase r ∧ header_state r' = hd_start ∧
      Forall set_header (headers (hd r')) ∧ hp_ok pool'
  | PError e (r', pool') => (e = ZV_HTTP_PARSE_INVALID_HEADER ∨ e = ZV_ERROR) ∧ hp_ok pool'
  | PFault => False
  end.
Proof.
  intros Hwf Hs Hp. pose proof (unparsed_length r Hwf) as Hlen.
  pose proof (run_set (unparsed r) (parse_pos r) _ _ pool Hs Hp) as Hrun.
  rewrite request_body_exit_run by done.
  destruct (run _ _ _ _ _) as [pi st [f p]|pi [f p]|e [f p]|] eqn:E; cbn [request_body_end]; [..|done].
  - apply run_again_pos in E. destruct Hwf as [Hsz Hc Hl Hm], Hrun as [Hset Hok].
    simpl. split_and!; try done; [|lia]. split; simpl; try done; lia.
  - apply run_done_pos in E. destruct Hwf as [Hsz Hc Hl Hm], Hrun as [Hset Hok].
    simpl. split_and!; try done; try lia. split; simpl; try done; lia.
  - by destruct Hrun as (? & ? & ?).
Qed.
End exits.

Section properties.
Context `{HeaderPool P}.

(** C15. The header parser accepts exactly the blocks of the grammar: started at the
    beginning of the headers it returns [ZV_OK] if and only if the buffered bytes
    begin with a well-formed block [hs] and the pool provides one object per line;
    the header list then holds the lines, last one first. *)
Theorem request_body_exact r pool r' pool' :
  parser_wf r → header_state r = hd_start →
  request_body_exit r pool = POk (r', pool') ↔
  ∃ hs rest, block_ok hs ∧ unparsed r = print_block hs ++ rest ∧
    alloc_n (length hs) pool = Some pool' ∧ r' = block_parsed r hs.
Proof.
  intros Hwf Hst. rewrite request_body_exit_run, Hst by done. split.
  - intros Hok. destruct (run _ _ _ _ _) as [? ? []|pi [f p']|? []|] eqn:E; try done.
    destruct (run_sound _ hd_lang hd_lang_closed hd_lang_done _ _ _ _ _ _ E)
      as (w & rest & Hu & (hs & Hhs & ->) & _).
    destruct (run_allocs _ _ _ _ _ _ _ _ hs rest (or_introl eq_refl) Hhs Hu E) as [p2 Ha].
    exists hs, rest. rewrite Hu, (run_block hs _ _ _ _ _ _ Hhs (or_introl eq_refl) Ha) in E.
    injection E as <- <- <-. simpl in Hok. injection Hok as <- <-.
    split_and!; try done. apply block_parsed_eq.
  - intros (hs & rest & Hhs & Hu & Ha & ->). rewrite <-Hst, <-request_body_exit_run by done.
    by eapply block_accepted.
Qed.

(** Headers may arrive in any number of pieces: parsing after each delivery ends
    as parsing once after all of them does. *)
Theorem request_body_pieces r pool chunks :
  parser_wf r → fits r (concat chunks) → parse_pos r = last r →
  same_body_exit (request_body_exit (recv r (concat chunks)) pool) (feed_body r pool chunks).
Proof.
  revert r pool. induction chunks as [|c cs IH]; intros r pool Hwf Hfit Hpos; simpl.
  - assert (recv r [] = r) as -> by apply recv_nil.
    rewrite request_body_exit_run by done. unfold unparsed. rewrite Hpos, slice_nil. simpl.
    destruct r; simpl in *; by subst.
  - destruct (fits_app r c (concat cs) Hfit) as [Hc Hcs].
    pose proof (recv_wf r c Hwf Hc) as Hwf1.
    rewrite <-recv_recv by (done || apply Hwf).
    pose proof (request_body_feed_aux (recv r c) pool (concat cs) Hwf1 Hcs) as Haux.
    destruct (request_body_exit (recv r c) pool) as [[r1 p1]|[r1 p1]|code [r1 p1]|] eqn:E;
      try done.
    destruct (request_body_again_wf _ _ _ _ Hwf1 E) as (Hwf2 & _ & Hl & Hp).
    assert (fits r1 (concat cs)) as Hfit1 by (unfold fits in *; by rewrite Hl).
    specialize (IH r1 p1 Hwf2 Hfit1). rewrite Hp, Hl in IH. specialize (IH eq_refl).
    destruct (request_body_exit (recv r1 (concat cs)) p1) as [[]|[]|? []|],
      (feed_body r1 p1 cs) as [[]|[]|? []|]; simpl in IH; simplify_eq; try done.
    destruct (request_body_exit (recv (recv r c) (concat cs)) pool) as [[]|[]|? []|];
      simpl in *; try done.
    naive_solver congruence.
Qed.
End properties.

(** ** Reading the headers back from the buffer *)

(** The key and the value an object points to. *)
Definition header_text (bf : list Z) (o : header) : option (list Z * list Z) :=
  match key_start o, key_end o, value_start o, value_end o with
  | Some ks, Some ke, Some vs, Some ve => Some (slice ks ke bf, slice vs ve bf)
  | _, _, _, _ => None
  end.

Lemma slice_of_drop a n (bf k t : list Z) :
  drop a bf = k ++ t → n = length k → slice a (a + n) bf = k.
Proof.
  intros Hd ->. unfold slice. rewrite Hd. replace (a + length k - a) with (length k) by lia.
  apply take_app_length.
Qed.

Lemma hline_header_text bf pos h t :
  drop pos bf = print_hline h ++ t →
  header_text bf (hline_header pos h) = Some (h_key h, h_value h).
Proof.
  intros Hd. unfold print_hline in Hd. rewrite <-app_assoc in Hd.
  unfold header_text, hline_header. simpl. do 2 f_equal.
  - by eapply slice_of_drop.
  - assert (drop (pos + length (h_key h) + h_sp1 h + 1 + h_sp2 h) bf
      = h_value h ++ crlf ++ t) as Hv; [|by eapply slice_of_drop].
    rewrite <-!drop_drop, Hd, drop_app_length. repeat (rewrite <-!app_assoc; simpl).
    rewrite drop_app_eq by (unfold spaces; by rewrite length_replicate). simpl.
    rewrite drop_0. by rewrite drop_app_eq by (unfold spaces; by rewrite length_replicate).
Qed.

Lemma block_fields_headers pos hs f bf t :
  drop pos bf = concat (print_hline <$> hs) ++ t →
  header_text bf <$> headers (block_fields pos hs f)
  = reverse ((fun h => Some (h_key h, h_value h)) <$> hs) ++ (header_text bf <$> headers f).
Proof.
  revert pos f. induction hs as [|h hs IH]; intros pos f Hd; [done|].
  rewrite fmap_cons in Hd. cbn [concat] in Hd. rewrite <-app_assoc in Hd.
  cbn [block_fields]. rewrite IH.
  - rewrite fmap_cons, reverse_cons, <-app_assoc. f_equal. simpl.
    by rewrite (hline_header_text _ _ _ _ Hd).
  - by rewrite <-drop_drop, Hd, drop_app_length.
Qed.

(** C9. Parsing what was printed gives back the header names and values: after a
    successful parse of a fresh request, the objects of the list point to exactly the
    keys and values of the lines received, in reverse order of arrival. *)
Theorem headers_roundtrip `{HeaderPool P} r pool hs rest pool' :
  parser_wf r → header_state r = hd_start → headers (hd r) = [] →
  block_ok hs → unparsed r = print_block hs ++ rest → alloc_n (length hs) pool = Some pool' →
  ∃ r', request_body_exit r pool = POk (r', pool') ∧
    header_text (buf r') <$> headers (hd r')
    = reverse ((fun h => Some (h_key h, h_value h)) <$> hs).
Proof.
  intros Hwf Hst Hh Hhs Hu Ha. exists (block_parsed r hs). split.
  - by eapply block_accepted.
  - pose proof (unparsed_drop r Hwf) as Hd. rewrite Hu in Hd. unfold print_block in Hd.
    rewrite <-!app_assoc in Hd. simpl.
    by rewrite (block_fields_headers _ _ _ _ _ Hd), Hh, app_nil_r.
Qed.

(** ** Concrete inputs *)

(** ["Host: a\\r\\nConnection: close\\r\\n\\r\\n"] *)
Definition demo_headers : list header_line :=
  [mk_hline (str "Host") 0 1 (str "a"); mk_hline (str "Connection") 0 1 (str "close")].

Definition demo_body_parser : parser := recv (init_parser demo_buf) (print_block demo_headers).

Lemma demo_body_wf : parser_wf demo_body_parser.
Proof.
  apply recv_wf; [apply init_parser_wf; apply length_replicate|].
  unfold fits. vm_compute. lia.
Qed.

Lemma demo_headers_ok : block_ok demo_headers.
Proof.
  split; [|done]. repeat constructor; simpl; do 2 eexists; split_and!; try done;
    repeat constructor; done.
Qed.

Lemma request_body_exact_witness :
  request_body_exit (P := nat) demo_body_parser 5
  = POk (block_parsed demo_body_parser demo_headers, 3).
Proof.
  apply (request_body_exact demo_body_parser); [apply demo_body_wf|reflexivity|].
  exists demo_headers, []. split; [apply demo_headers_ok|].
  split; [vm_compute; reflexivity|]. split; reflexivity.
Defined.

Lemma request_body_pieces_witness :
  same_body_exit (P := nat)
    (request_body_exit (recv (init_parser demo_buf) (concat [str "Ho"; str "st: a"; crlf ++ crlf])) 0)
    (feed_body (init_parser demo_buf) 0 [str "Ho"; str "st: a"; crlf ++ crlf]).
Proof.
  apply request_body_pieces; [apply init_parser_wf, length_replicate| |reflexivity].
  unfold fits. vm_compute. lia.
Defined.

Lemma headers_roundtrip_witness :
  ∃ r', request_body_exit (P := nat) demo_body_parser 5 = POk (r', 3) ∧
    header_text (buf r') <$> headers (hd r')
    = [Some (str "Connection", str "close"); Some (str "Host", str "a")].
Proof.
  apply (headers_roundtrip demo_body_parser 5 demo_headers [] 3);
    [apply demo_body_wf|reflexivity|reflexivity|apply demo_headers_ok|
     vm_compute; reflexivity|reflexivity].
Defined.
