(* ===== verification/Path.v ===== *)
(** * From a URI to a file name (http.c)

    [percent_decode], [normalize_abs_path], [is_path_under_root_real], [parse_uri]
    and [get_file_type], each against an independent description of what it
    computes, and the confinement of the file name under the document root. *)
From S2P Require Import Prelude CString.

Definition SHORTLINE : nat := 512.
Arguments SHORTLINE : simpl never.

(** ** percent_decode *)

Definition hex_val (c : Z) : Z :=
  if (("0"%ch <=? c) && (c <=? "9"%ch))%Z then c - "0"%ch
  else if (("a"%ch <=? c) && (c <=? "f"%ch))%Z then 10 + (c - "a"%ch)
  else if (("A"%ch <=? c) && (c <=? "F"%ch))%Z then 10 + (c - "A"%ch)
  else -1.

(** The checks on a decoded byte, and [out[j++] = ch]. *)
Definition put_decoded (cap : nat) (out : list Z) (ch : Z) : option (list Z) :=
  if ((ch =? 0) || (ch =? "\"%ch) || (ch =? CR) || (ch =? LF))%Z then None
  else if cap <=? length out + 1 then None
  else Some (out ++ [ch]).

(** The [for] loop over the input; [out] is [out[0, j)]. *)
Fixpoint decode_loop (cap : nat) (inp out : list Z) : option (list Z) :=
  match inp with
  | [] => Some out
  | ch :: rest =>
      if (ch =? "%"%ch)%Z then
        match rest with
        | h :: l :: rest' =>
            let hi := hex_val h in
            let lo := hex_val l in
            if ((hi <? 0) || (lo <? 0))%Z then None
            else put_decoded cap out (Z.lor (Z.shiftl hi 4) lo) ≫= decode_loop cap rest'
        | _ => None
        end
      else put_decoded cap out ch ≫= decode_loop cap rest
  end.

(** [None] is the return value -1. *)
Definition percent_decode (inp : list Z) (out_cap : nat) : option (list Z) :=
  if out_cap =? 0 then None else decode_loop out_cap inp [].

(** ** normalize_abs_path *)

Fixpoint skip_slashes (l : list Z) : list Z :=
  match l with
  | c :: l' => if (c =? "/"%ch)%Z then skip_slashes l' else l
  | [] => []
  end.

(** The segment that starts here, and what follows it. *)
Fixpoint span_seg (l : list Z) : list Z * list Z :=
  match l with
  | c :: l' =>
      if (c =? "/"%ch)%Z then ([], l)
      else let '(seg, rest) := span_seg l' in (c :: seg, rest)
  | [] => ([], [])
  end.

(** [out[0, out_len)] and [stack[0, sp)], top first. *)
Record norm_state := mk_norm { n_out : list Z; n_stack : list nat }.

(** One path segment: ["."] is skipped, [".."] cuts the output back to where the
    segment before it ended, anything else is appended. *)
Definition norm_seg (cap : nat) (seg : list Z) (st : norm_state) : option norm_state :=
  if strcmp_eq seg (str ".") then Some st
  else if strcmp_eq seg (str "..") then
    match n_stack st with
    | [] => None
    | _ :: stack =>
        let out_len := match stack with [] => 1 | t :: _ => t end in
        Some (mk_norm (take out_len (n_out st)) stack)
    end
  else
    let out := n_out st in
    out ← (if 1 <? length out
           then if cap <=? length out + 1 then None else Some (out ++ ["/"%ch])
           else Some out);
    if cap <=? length out + length seg then None
    else
      let out := out ++ seg in
      if 256 <=? length (n_stack st) then None
      else Some (mk_norm out (length out :: n_stack st)).

(** The outer [while]; every iteration consumes at least one byte. *)
Fixpoint norm_loop (fuel cap : nat) (rest : list Z) (st : norm_state) : option norm_state :=
  match fuel with
  | O => None
  | S fuel' =>
      match skip_slashes rest with
      | [] => Some st
      | rest =>
          let '(seg, rest) := span_seg rest in
          norm_seg cap seg st ≫= norm_loop fuel' cap rest
      end
  end.

Definition ends_with (c : Z) (l : list Z) : bool :=
  match last l with Some x => (x =? c)%Z | None => false end.

Definition normalize_abs_path (path : list Z) (out_cap : nat) : option (list Z * bool) :=
  if out_cap <? 2 then None
  else
    match path with
    | c :: rest =>
        if negb (c =? "/"%ch)%Z then None
        else
          let trailing_slash := ends_with "/"%ch path in
          st ← norm_loop (length path) out_cap rest (mk_norm ["/"%ch] []);
          let out := n_out st in
          if trailing_slash && (1 <? length out) && negb (ends_with "/"%ch out) then
            if out_cap <=? length out + 1 then None
            else Some (out ++ ["/"%ch], trailing_slash)
          else Some (out, trailing_slash)
    | [] => None
    end.

(** ** is_path_under_root_real

    [realpath] belongs to the file system: it resolves links, and returns NULL
    ([None]) for a path that does not exist.  The root is NULL when the configuration has
    none. *)
Definition is_path_under_root_real (realpath : list Z → option (list Z)) (root : option (list Z)) (path : list Z) : bool :=
  match root ≫= realpath with
  | None => false
  | Some root_real =>
      match realpath path with
      | None => false
      | Some path_real =>
          let rlen := length root_real in
          if negb (strncmp_eq rlen path_real root_real) then false
          else match path_real !! rlen with
               | None => true
               | Some c => (c =? "/"%ch)%Z
               end
      end
  end.

(** ** parse_uri *)

(** The index of the first ['?'], or the length. *)
Fixpoint query_pos (uri : list Z) : nat :=
  match uri with
  | c :: uri' => if (c =? "?"%ch)%Z then 0 else S (query_pos uri')
  | [] => 0
  end.

(** [snprintf(path_final, sizeof(path_final), "%s...", norm)] *)
Definition snprintf_fit (cap : nat) (s : list Z) : list Z := take (cap - 1) s.

(** [norm] with a slash added when its last component has no extension. *)
Definition add_dir_slash (norm : list Z) : list Z :=
  if ends_with "/"%ch norm then snprintf_fit SHORTLINE norm
  else
    let last_comp := match strrchr "/"%ch norm with Some s => tail s | None => norm end in
    if negb (has_char "."%ch last_comp) then snprintf_fit SHORTLINE (norm ++ ["/"%ch])
    else snprintf_fit SHORTLINE norm.

(** [index.html] for a directory. *)
Definition add_index (path_final : list Z) : option (list Z) :=
  if length path_final =? 0 then None
  else if ends_with "/"%ch path_final then
    if SHORTLINE <=? length path_final + length (str "index.html") + 1 then None
    else Some (path_final ++ str "index.html")
  else Some path_final.

(** Root and path, without a double slash between them. *)
Definition join_root (root path_final : list Z) : list Z :=
  if ends_with "/"%ch root && match path_final with c :: _ => (c =? "/"%ch)%Z | [] => false end
  then root ++ tail path_final
  else root ++ path_final.

Definition parse_uri (ROOT : option (list Z)) (uri : list Z) (filename_cap : nat)
    : option (list Z) :=
  match ROOT with
  | None => None
  | Some root =>
      if (filename_cap =? 0) || (length uri =? 0) || (SHORTLINE / 2 <? length uri) then None
      else
        let path_len := query_pos uri in
        if path_len =? 0 then None
        else
          decoded ← percent_decode (take path_len uri) SHORTLINE;
          if negb match decoded with c :: _ => (c =? "/"%ch)%Z | [] => false end then None
          else
            '(norm, _) ← normalize_abs_path decoded SHORTLINE;
            path_final ← add_index (add_dir_slash norm);
            let filename := join_root root path_final in
            if filename_cap <=? length filename then None else Some filename
  end.

(** ** get_file_type *)
Definition zaver_mime : list (list Z * list Z) :=
  [(str ".html", str "text/html");
   (str ".xml", str "text/xml");
   (str ".xhtml", str "application/xhtml+xml");
   (str ".txt", str "text/plain");
   (str ".rtf", str "application/rtf");
   (str ".pdf", str "application/pdf");
   (str ".word", str "application/msword");
   (str ".png", str "image/png");
   (str ".gif", str "image/gif");
   (str ".jpg", str "image/jpeg");
   (str ".jpeg", str "image/jpeg");
   (str ".au", str "audio/basic");
   (str ".mpeg", str "video/mpeg");
   (str ".mpg", str "video/mpeg");
   (str ".avi", str "video/x-msvideo");
   (str ".gz", str "application/x-gzip");
   (str ".tar", str "application/x-tar");
   (str ".css", str "text/css")].

Definition get_file_type (type : option (list Z)) : list Z :=
  match type with
  | None => str "text/plain"
  | Some t =>
      match List.find (fun '(ext, _) => strcmp_eq t ext) zaver_mime with
      | Some (_, value) => value
      | None => str "text/plain"
      end
  end.

(** ** Specifications *)

(** [decodes s o]: [o] is [s] with every escape [%XY] replaced by its byte. *)
Inductive decodes : list Z → list Z → Prop :=
  | decodes_nil : decodes [] []
  | decodes_hex h l s o :
      (0 ≤ hex_val h)%Z → (0 ≤ hex_val l)%Z → decodes s o →
      decodes ("%"%ch :: h :: l :: s) ((hex_val h * 16 + hex_val l)%Z :: o)
  | decodes_char c s o : c ≠ "%"%ch → decodes s o → decodes (c :: s) (c :: o).

(** Bytes that may appear in a decoded path. *)
Definition path_byte (c : Z) : Prop := c ≠ 0%Z ∧ c ≠ "\"%ch ∧ c ≠ CR ∧ c ≠ LF.

Definition hex_char (d : Z) : Z := if (d <? 10)%Z then "0"%ch + d else "A"%ch + (d - 10).

(** Every byte as an escape. *)
Definition percent_encode (s : list Z) : list Z :=
  concat ((fun b => ["%"%ch; hex_char (b / 16); hex_char (b mod 16)]) <$> s).

(** The maximal runs of bytes other than the slash. *)
Fixpoint segments_aux (cur : list Z) (l : list Z) : list (list Z) :=
  match l with
  | [] => match cur with [] => [] | _ => [reverse cur] end
  | c :: l' =>
      if (c =? "/"%ch)%Z
      then match cur with [] => segments_aux [] l' | _ => reverse cur :: segments_aux [] l' end
      else segments_aux (c :: cur) l'
  end.

Definition segments (l : list Z) : list (list Z) := segments_aux [] l.

(** Resolving ["."] and [".."] on a list of components; [acc] holds the components
    so far, last first.  [None]: [".."] at the root. *)
Fixpoint resolve (segs acc : list (list Z)) : option (list (list Z)) :=
  match segs with
  | [] => Some (reverse acc)
  | s :: segs' =>
      if strcmp_eq s (str ".") then resolve segs' acc
      else if strcmp_eq s (str "..") then
        match acc with [] => None | _ :: acc' => resolve segs' acc' end
      else resolve segs' (s :: acc)
  end.

(** The absolute path with these components. *)
Definition abs_path (comps : list (list Z)) : list Z :=
  match comps with
  | [] => ["/"%ch]
  | _ => concat ((fun s => "/"%ch :: s) <$> comps)
  end.

Definition render (comps : list (list Z)) (trailing : bool) : list Z :=
  abs_path comps ++ (if trailing && negb (bool_decide (comps = [])) then ["/"%ch] else []).

(** A path component that names an entry of its directory. *)
Definition clean (s : list Z) : Prop :=
  s ≠ [] ∧ "/"%ch ∉ s ∧ s ≠ str "." ∧ s ≠ str "..".

(** ** Percent decoding *)

Lemma hex_val_range c : (-1 ≤ hex_val c < 16)%Z.
Proof. unfold hex_val. repeat case_match; lia. Qed.

Lemma hex_byte h l :
  (0 ≤ hex_val h)%Z → (0 ≤ hex_val l)%Z →
  Z.lor (Z.shiftl (hex_val h) 4) (hex_val l) = (hex_val h * 16 + hex_val l)%Z.
Proof.
  intros Hh Hl. pose proof (hex_val_range h). pose proof (hex_val_range l).
  rewrite Z.shiftl_mul_pow2 by lia. change (2 ^ 4)%Z with 16%Z.
  rewrite <-Z.add_lor_land.
  assert (Z.land (hex_val h * 16) (hex_val l) = 0)%Z as ->; [|lia].
  apply Z.bits_inj'. intros n Hn. rewrite Z.land_spec, Z.bits_0.
  change 16%Z with (2 ^ 4)%Z. destruct (Z.lt_ge_cases n 4).
  - by rewrite Z.mul_pow2_bits_low by lia.
  - rewrite (Z.bits_above_log2 (hex_val l)), ?andb_false_r; [done|lia|].
    destruct (decide (hex_val l = 0)%Z) as [->|]; [simpl; lia|].
    assert (Z.log2 (hex_val l) < 4)%Z; [|lia]. apply Z.log2_lt_pow2; lia.
Qed.

Lemma put_decoded_Some cap out c out' :
  put_decoded cap out c = Some out' ↔ path_byte c ∧ length out + 1 < cap ∧ out' = out ++ [c].
Proof.
  unfold put_decoded, path_byte.
  destruct (Z.eqb_spec c 0), (Z.eqb_spec c "\"%ch), (Z.eqb_spec c CR), (Z.eqb_spec c LF); simpl;
    try naive_solver.
  destruct (Nat.leb_spec cap (length out + 1)); split; try done; naive_solver lia.
Qed.

Lemma decodes_inv_pct s o :
  decodes ("%"%ch :: s) o → ∃ h l s' o', s = h :: l :: s' ∧ (0 ≤ hex_val h)%Z ∧ (0 ≤ hex_val l)%Z ∧
    o = (hex_val h * 16 + hex_val l)%Z :: o' ∧ decodes s' o'.
Proof. inversion 1; simplify_eq; naive_solver. Qed.

Lemma decode_loop_spec cap s out res :
  decode_loop cap s out = Some res ↔
  ∃ o, decodes s o ∧ Forall path_byte o ∧ (o = [] ∨ length (out ++ o) < cap) ∧ res = out ++ o.
Proof.
  revert out res. induction s as [s IH] using (induction_ltof1 _ length); unfold ltof in IH.
  intros out res. destruct s as [|c s]; simpl.
  - split.
    + intros [= <-]. exists []. rewrite app_nil_r. split_and!; auto using decodes_nil.
    + intros (o & Ho & _ & _ & ->). inversion Ho. by rewrite app_nil_r.
  - assert (∀ b s' out', length s' < S (length s) →
      (put_decoded cap out b ≫= decode_loop cap s' = Some out' ↔
       ∃ o, decodes s' o ∧ Forall path_byte (b :: o) ∧ length (out ++ b :: o) < cap
            ∧ out' = out ++ b :: o)) as Hput.
    { intros b s' out' Hs'. split.
      - intros (x & (Hb & Hlen & ->)%put_decoded_Some & Hr)%bind_Some.
        apply IH in Hr as (o & Ho & Hf & Hl & ->); [|done]. exists o.
        rewrite <-app_assoc in *. split_and!; auto. destruct Hl as [-> |Hl]; [|done].
        rewrite length_app. simpl. lia.
      - intros (o & Ho & [Hb Hf]%Forall_cons & Hl & ->). apply bind_Some. exists (out ++ [b]).
        rewrite length_app in Hl. simpl in Hl. split.
        + apply put_decoded_Some. split_and!; [done|lia|done].
        + apply IH; [done|]. exists o. rewrite <-app_assoc. split_and!; auto.
          right. rewrite length_app. simpl. lia. }
    destruct (Z.eqb_spec c "%"%ch) as [->|Hc].
    + split.
      * destruct s as [|h [|l s]]; [done..|]. intros Hr. case_match eqn:Eh; [done|].
        apply orb_false_iff in Eh as [Eh%Z.ltb_ge El%Z.ltb_ge].
        rewrite hex_byte in Hr by done.
        apply Hput in Hr as (o & Ho & Hf & Hl & ->); [|simpl; lia].
        eexists (_ :: o). split_and!; eauto using decodes_hex.
      * intros (o & (h & l & s' & o' & -> & Eh & El & -> & Ho)%decodes_inv_pct & Hf & Hl & ->).
        rewrite (proj2 (Z.ltb_ge _ _) Eh), (proj2 (Z.ltb_ge _ _) El). simpl.
        rewrite hex_byte by done. apply Hput; [simpl; lia|].
        exists o'. destruct Hl; [done|]. split_and!; auto.
    + rewrite Hput by lia. split.
      * intros (o & Ho & Hf & Hl & ->). exists (c :: o). split_and!; auto using decodes_char.
      * intros (o & Ho & Hf & Hl & ->). inversion Ho; simplify_eq.
        destruct Hl; [done|]. naive_solver.
Qed.

Lemma percent_decode_iff inp cap out :
  percent_decode inp cap = Some out ↔
  decodes inp out ∧ Forall path_byte out ∧ length out < cap.
Proof.
  unfold percent_decode. destruct (Nat.eqb_spec cap 0) as [->|Hcap].
  - split; [done|]. intros (_ & _ & ?). lia.
  - rewrite decode_loop_spec. simpl. split.
    + intros (o & Ho & Hf & Hl & ->). split_and!; [done..|]. destruct Hl as [-> |]; simpl; lia.
    + intros (Ho & Hf & Hl). exists out. auto.
Qed.

Lemma hex_val_char d : (0 ≤ d < 16)%Z → hex_val (hex_char d) = d.
Proof.
  intros Hd. unfold hex_char, hex_val. ztests.
Qed.

Lemma decodes_encode s : Forall (fun b => 0 ≤ b < 256)%Z s → decodes (percent_encode s) s.
Proof.
  induction 1 as [|b s Hb Hs IH]; [apply decodes_nil|].
  unfold percent_encode. rewrite fmap_cons. cbn [concat].
  assert (0 ≤ b / 16 < 16)%Z as Hq by (split; [apply Z.div_pos; lia|apply Z.div_lt_upper_bound; lia]).
  assert (0 ≤ b mod 16 < 16)%Z as Hr by (apply Z.mod_pos_bound; lia).
  replace b with (hex_val (hex_char (b / 16)) * 16 + hex_val (hex_char (b mod 16)))%Z at 3.
  - simpl. apply decodes_hex; rewrite ?hex_val_char by lia; [lia..|done].
  - rewrite !hex_val_char by lia. pose proof (Z.div_mod b 16). lia.
Qed.

(** [percent_decode] succeeds exactly when the input is a sequence of plain bytes
    and complete escapes whose decoding contains none of NUL, backslash, CR and LF
    and fits the output with its terminator; it then returns that decoding. *)
Theorem percent_decode_exact inp cap out :
  percent_decode inp cap = Some out ↔
  decodes inp out ∧ Forall path_byte out ∧ length out < cap.
Proof. apply percent_decode_iff. Qed.

(** Encoding every byte of a path and decoding it gives the path back. *)
Theorem percent_decode_encode s cap :
  Forall (fun b => 0 ≤ b < 256)%Z s → Forall path_byte s → length s < cap →
  percent_decode (percent_encode s) cap = Some s.
Proof. intros Hb Hp Hl. apply percent_decode_iff. auto using decodes_encode. Qed.

(** ** Path normalisation *)

Lemma span_seg_length l : length (span_seg l).2 ≤ length l.
Proof.
  induction l as [|c l IH]; simpl; [done|]. destruct (c =? "/"%ch)%Z; [done|].
  destruct (span_seg l); simpl in *. lia.
Qed.

Lemma skip_slashes_length l : length (skip_slashes l) ≤ length l.
Proof. induction l as [|c l IH]; simpl; [done|]. destruct (c =? "/"%ch)%Z; simpl; lia. Qed.

Lemma segments_aux_span cur l :
  cur ≠ [] → segments_aux cur l = (reverse cur ++ (span_seg l).1) :: segments (span_seg l).2.
Proof.
  revert cur. induction l as [|c l IH]; intros cur Hcur; simpl.
  - destruct cur; [done|]. by rewrite app_nil_r.
  - destruct (c =? "/"%ch)%Z eqn:E; simpl.
    + destruct cur; [done|]. unfold segments. simpl. by rewrite E, app_nil_r.
    + rewrite IH by done. destruct (span_seg l). simpl. by rewrite reverse_cons, <-app_assoc.
Qed.

Lemma segments_skip l : segments (skip_slashes l) = segments l.
Proof.
  unfold segments. induction l as [|c l IH]; simpl; [done|].
  destruct (c =? "/"%ch)%Z eqn:E; [done|]. simpl. by rewrite E.
Qed.

Lemma segments_cons c l :
  c ≠ "/"%ch → segments (c :: l) = (span_seg (c :: l)).1 :: segments (span_seg (c :: l)).2.
Proof.
  intros Hc. unfold segments at 1. simpl. rewrite (proj2 (Z.eqb_neq _ _) Hc).
  rewrite segments_aux_span by done. by destruct (span_seg l).
Qed.

Lemma skip_slashes_head l c l' : skip_slashes l = c :: l' → c ≠ "/"%ch.
Proof.
  induction l as [|x l IH]; simpl; [done|]. destruct (Z.eqb_spec x "/"%ch); [done|]. naive_solver.
Qed.

(** The loop without its scanning. *)
Fixpoint norm_segs (cap : nat) (segs : list (list Z)) (st : norm_state) : option norm_state :=
  match segs with
  | [] => Some st
  | s :: segs' => norm_seg cap s st ≫= norm_segs cap segs'
  end.

(** The fuel [length path] never runs out. *)
Lemma norm_loop_segs fuel cap rest st :
  length rest < fuel → norm_loop fuel cap rest st = norm_segs cap (segments rest) st.
Proof.
  revert rest st. induction fuel as [|fuel IH]; intros rest st Hlen; [lia|]. simpl.
  pose proof (skip_slashes_length rest). rewrite <-segments_skip.
  destruct (skip_slashes rest) as [|c l] eqn:E; [done|].
  apply skip_slashes_head in E. rewrite segments_cons by done.
  pose proof (span_seg_length l). simpl in *. rewrite (proj2 (Z.eqb_neq _ _) E) in *.
  destruct (span_seg l) as [seg l']. simpl in *.
  destruct (norm_seg cap (c :: seg) st); simpl; [|done]. apply IH. lia.
Qed.

Lemma segments_ok l : Forall (fun s => s ≠ [] ∧ "/"%ch ∉ s) (segments l).
Proof.
  assert (∀ cur, "/"%ch ∉ cur → Forall (fun s => s ≠ [] ∧ "/"%ch ∉ s) (segments_aux cur l)) as H;
    [|by apply H; set_solver].
  induction l as [|c l IH]; intros cur Hcur; simpl.
  - destruct cur as [|x cur]; [done|]. constructor; [|done]. split.
    + intros E%(f_equal length). rewrite length_reverse in E. done.
    + by rewrite elem_of_reverse.
  - destruct (Z.eqb_spec c "/"%ch).
    + destruct cur as [|x cur]; [by apply IH; set_solver|]. constructor; [|by apply IH; set_solver].
      split; [|by rewrite elem_of_reverse].
      intros E%(f_equal length). rewrite length_reverse in E. done.
    + apply IH. set_solver.
Qed.

(** Bytes the components take, a slash each. *)
Fixpoint weight (acc : list (list Z)) : nat :=
  match acc with [] => 0 | s :: acc' => S (length s) + weight acc' end.

Lemma segments_aux_weight cur l :
  weight (segments_aux cur l) ≤ length l + match cur with [] => 1 | _ => S (length cur) end.
Proof.
  revert cur. induction l as [|c l IH]; intros cur; simpl.
  - destruct cur; simpl; [lia|]. rewrite length_reverse. simpl. lia.
  - destruct (c =? "/"%ch)%Z.
    + destruct cur as [|x cur]; [specialize (IH []); simpl in IH; lia|].
      cbn [weight]. rewrite length_reverse. specialize (IH []). simpl in *.
      lia.
    + specialize (IH (c :: cur)). destruct cur; simpl in *; lia.
Qed.

Lemma segments_weight l : weight (segments l) ≤ S (length l).
Proof. pose proof (segments_aux_weight [] l) as Hw. simpl in Hw. unfold segments. lia. Qed.

Lemma segments_aux_snoc cur l :
  segments_aux cur (l ++ ["/"%ch]) = segments_aux cur l.
Proof.
  revert cur. induction l as [|c l IH]; intros cur; simpl.
  - by destruct cur.
  - destruct (c =? "/"%ch)%Z; [destruct cur; by rewrite IH|apply IH].
Qed.

(** A trailing slash costs nothing. *)
Lemma segments_weight_trailing l :
  l ≠ [] → ends_with "/"%ch l = true → weight (segments l) ≤ length l.
Proof.
  intros Hne. destruct l as [|x l] using rev_ind; [done|].
  unfold ends_with. rewrite last_snoc. intros ->%Z.eqb_eq.
  unfold segments. rewrite segments_aux_snoc, length_app. simpl.
  pose proof (segments_aux_weight [] l). simpl in *. lia.
Qed.

(** The state the loop is in when the components are [acc], last first. *)
Fixpoint stack_of (acc : list (list Z)) : list nat :=
  match acc with
  | [] => []
  | s :: acc' => length (abs_path (reverse acc)) :: stack_of acc'
  end.

Definition state_of (acc : list (list Z)) : norm_state :=
  mk_norm (abs_path (reverse acc)) (stack_of acc).

Lemma abs_path_snoc comps s :
  abs_path (comps ++ [s]) = (if bool_decide (comps = []) then [] else abs_path comps) ++ "/"%ch :: s.
Proof.
  case_bool_decide as E; [subst; simpl; by rewrite app_nil_r|].
  destruct comps as [|c comps]; [done|].
  change ((c :: comps) ++ [s]) with (c :: comps ++ [s]). unfold abs_path.
  rewrite !fmap_cons, fmap_app. cbn [concat]. rewrite concat_app. simpl.
  by rewrite app_nil_r, <-app_assoc.
Qed.

Lemma reverse_nil_iff {A} (l : list A) : reverse l = [] ↔ l = [].
Proof.
  split; [|by intros ->]. intros E%(f_equal length). rewrite length_reverse in E. by destruct l.
Qed.

Lemma abs_path_length acc : length (abs_path (reverse acc)) = max 1 (weight acc).
Proof.
  induction acc as [|s acc IH]; [done|]. rewrite reverse_cons, abs_path_snoc, length_app.
  simpl. case_bool_decide as E; simpl; rewrite ?reverse_nil_iff in E; [subst; simpl; lia|].
  rewrite IH. destruct acc; [done|]. simpl. lia.
Qed.

Lemma stack_of_length acc : length (stack_of acc) = length acc.
Proof. induction acc; simpl; auto. Qed.

Lemma weight_length acc : Forall (fun s => s ≠ []) acc → 2 * length acc ≤ weight acc.
Proof.
  induction 1 as [|s acc Hs Hacc IH]; simpl; [lia|]. destruct s; simpl in *; [done|lia].
Qed.

(** Dropping the last component is cutting the output back. *)
Lemma norm_seg_dotdot cap s acc :
  norm_seg cap (str "..") (state_of (s :: acc)) = Some (state_of acc).
Proof.
  unfold norm_seg, state_of. simpl. do 2 f_equal. rewrite reverse_cons, abs_path_snoc.
  destruct acc as [|t acc]; [done|]. cbn [stack_of].
  rewrite bool_decide_eq_false_2 by (rewrite reverse_nil_iff; done).
  apply take_app_length.
Qed.

Lemma norm_seg_push cap s acc :
  Forall (fun s => s ≠ []) acc → s ≠ [] → s ≠ str "." → s ≠ str ".." →
  norm_seg cap s (state_of acc)
  = if bool_decide (weight (s :: acc) < cap ∧ length acc < 256)
    then Some (state_of (s :: acc)) else None.
Proof.
  intros Hacc Hs H1 H2. unfold norm_seg.
  destruct (strcmp_eq s (str ".")) eqn:E1; [by apply strcmp_eq_true in E1|].
  destruct (strcmp_eq s (str "..")) eqn:E2; [by apply strcmp_eq_true in E2|].
  clear E1 E2. cbn [state_of n_out n_stack]. rewrite stack_of_length, abs_path_length.
  assert (0 < length s) as Hpos by (destruct s; [done|simpl; lia]).
  destruct acc as [|t acc].
  - cbn -[Nat.leb]. change (1 <? 1) with false. change (256 <=? 0) with false.
    cbn -[Nat.leb]. rewrite Nat.add_0_r. destruct (Nat.leb_spec cap (S (length s))).
    + by rewrite bool_decide_eq_false_2 by lia.
    + rewrite bool_decide_eq_true_2 by lia. unfold state_of. simpl. by rewrite app_nil_r.
  - assert (t ≠ []) as Ht by (by apply Forall_cons in Hacc as [? _]).
    assert (2 ≤ weight (t :: acc)) as Hw by (simpl; destruct t; [done|simpl; lia]).
    rewrite (proj2 (Nat.ltb_lt _ _)) by lia.
    assert (state_of (s :: t :: acc)
      = mk_norm ((abs_path (reverse (t :: acc)) ++ ["/"%ch]) ++ s)
          (length ((abs_path (reverse (t :: acc)) ++ ["/"%ch]) ++ s) :: stack_of (t :: acc))) as ->.
    { unfold state_of. cbn [stack_of]. rewrite (reverse_cons (t :: acc)), abs_path_snoc.
      rewrite bool_decide_eq_false_2 by (by rewrite reverse_nil_iff). by rewrite <-app_assoc. }
    pose proof (abs_path_length (t :: acc)) as Hlen.
    change (weight (s :: t :: acc)) with (S (length s) + weight (t :: acc)).
    set (out := abs_path (reverse (t :: acc)) ++ ["/"%ch]).
    assert (length out = max 1 (weight (t :: acc)) + 1) as Hout by (by unfold out; rewrite length_app, Hlen).
    destruct (Nat.leb_spec cap (max 1 (weight (t :: acc)) + 1)); cbn -[Nat.leb length weight].
    { by rewrite bool_decide_eq_false_2 by lia. }
    rewrite Hout. destruct (Nat.leb_spec cap (max 1 (weight (t :: acc)) + 1 + length s)).
    { by rewrite bool_decide_eq_false_2 by lia. }
    destruct (Nat.leb_spec 256 (length (t :: acc))).
    { by rewrite bool_decide_eq_false_2 by lia. }
    by rewrite bool_decide_eq_true_2 by lia.
Qed.

Lemma strcmp_neq a b : a ≠ b → strcmp_eq a b = false.
Proof. intros H. destruct (strcmp_eq a b) eqn:E; [by apply strcmp_eq_true in E|done]. Qed.

(** Components the loop may have collected. *)
Definition good_comps (acc : list (list Z)) : Prop := Forall clean acc.

Lemma good_nonempty acc : good_comps acc → Forall (fun s => s ≠ []) acc.
Proof. intros H. eapply Forall_impl; [exact H|]. by intros s (? & _). Qed.

(** How one segment is treated, by both. *)
Inductive seg_kind (s : list Z) : Prop :=
  | seg_dot : s = str "." → seg_kind s
  | seg_dotdot : s = str ".." → seg_kind s
  | seg_name : s ≠ str "." → s ≠ str ".." → seg_kind s.

Lemma seg_kind_dec s : seg_kind s.
Proof.
  destruct (decide (s = str ".")); [by apply seg_dot|].
  destruct (decide (s = str "..")); [by apply seg_dotdot|by apply seg_name].
Qed.

Lemma resolve_name s segs acc :
  s ≠ str "." → s ≠ str ".." → resolve (s :: segs) acc = resolve segs (s :: acc).
Proof. intros. cbn [resolve]. by rewrite !strcmp_neq. Qed.

(** Whatever the loop computes, [resolve] computes too. *)
Lemma norm_segs_sound cap segs acc st :
  Forall (fun s => s ≠ [] ∧ "/"%ch ∉ s) segs → good_comps acc → max 1 (weight acc) < cap →
  norm_segs cap segs (state_of acc) = Some st →
  ∃ acc', resolve segs acc = Some (reverse acc') ∧ good_comps acc' ∧ st = state_of acc' ∧
    max 1 (weight acc') < cap.
Proof.
  intros Hsegs. revert acc. induction Hsegs as [|s segs [Hs Hsl] Hsegs IH]; intros acc Hacc Hw.
  { intros [= <-]. by exists acc. }
  cbn [norm_segs]. destruct (seg_kind_dec s) as [-> | -> |H1 H2].
  - apply IH; done.
  - destruct acc as [|t acc]; [done|]. rewrite norm_seg_dotdot.
    apply Forall_cons in Hacc as [_ Hacc]. apply IH; [done|]. simpl in Hw. lia.
  - rewrite norm_seg_push by (done || by apply good_nonempty). rewrite resolve_name by done.
    case_bool_decide as Hb; [|done]. apply IH; [|destruct Hb; simpl in *; lia].
    constructor; [|done]. by split_and!.
Qed.

(** With room for all of it the loop does not fail where [resolve] succeeds. *)
Lemma norm_segs_complete cap segs acc comps :
  Forall (fun s => s ≠ [] ∧ "/"%ch ∉ s) segs → good_comps acc →
  weight acc + weight segs < cap → cap ≤ 513 →
  resolve segs acc = Some comps →
  norm_segs cap segs (state_of acc) = Some (state_of (reverse comps)).
Proof.
  intros Hsegs. revert acc. induction Hsegs as [|s segs [Hs Hsl] Hsegs IH]; intros acc Hacc Hw Hcap.
  { intros [= <-]. by rewrite reverse_involutive. }
  cbn [norm_segs]. cbn [weight] in Hw. destruct (seg_kind_dec s) as [-> | -> |H1 H2].
  - intros. apply IH; [done|lia|done..].
  - destruct acc as [|t acc]; [done|]. rewrite norm_seg_dotdot.
    apply Forall_cons in Hacc as [_ Hacc]. cbn [weight] in Hw. intros. apply IH; [done|lia|done..].
  - rewrite resolve_name by done. intros Hr.
    rewrite norm_seg_push by (done || by apply good_nonempty).
    pose proof (weight_length acc (good_nonempty _ Hacc)).
    rewrite bool_decide_eq_true_2 by (simpl; lia). apply IH; [|simpl; lia|done..].
    constructor; [|done]. by split_and!.
Qed.

Lemma good_reverse acc : good_comps acc → good_comps (reverse acc).
Proof. apply Forall_reverse. Qed.

Lemma last_Forall {A} (P : A → Prop) (l : list A) x : Forall P l → last l = Some x → P x.
Proof. intros Hl Hx. rewrite Forall_forall in Hl. apply Hl. by apply last_Some_elem_of. Qed.

(** The output of a non-empty component list does not end in a slash. *)
Lemma abs_path_ends comps :
  comps ≠ [] → good_comps comps → ends_with "/"%ch (abs_path comps) = false.
Proof.
  intros Hne Hg. destruct comps as [|s comps] using rev_ind; [done|]. clear IHcomps.
  apply Forall_app in Hg as [_ [(Hs & Hsl & _) _]%Forall_cons].
  rewrite abs_path_snoc. unfold ends_with.
  destruct s as [|x s _] using rev_ind; [done|]. rewrite app_comm_cons, app_assoc, last_snoc.
  apply Z.eqb_neq. intros ->. set_solver.
Qed.

Lemma weight_app a b : weight (a ++ b) = weight a + weight b.
Proof. induction a; simpl; lia. Qed.

Lemma weight_reverse a : weight (reverse a) = weight a.
Proof. induction a; [done|]. rewrite reverse_cons, weight_app. simpl. lia. Qed.

(** The components resolved are segments of the input. *)
Lemma resolve_good segs acc comps :
  Forall (fun s => s ≠ [] ∧ "/"%ch ∉ s) segs → good_comps acc → resolve segs acc = Some comps →
  good_comps comps ∧ weight comps ≤ weight acc + weight segs.
Proof.
  intros Hsegs. revert acc. induction Hsegs as [|s segs [Hs Hsl] Hsegs IH]; intros acc Hacc.
  { intros [= <-]. rewrite weight_reverse. split; [by apply good_reverse|lia]. }
  cbn [weight]. destruct (seg_kind_dec s) as [-> | -> |H1 H2].
  - intros [??]%IH; [|done]. split; [done|lia].
  - destruct acc as [|t acc]; [done|]. apply Forall_cons in Hacc as [_ Hacc].
    intros [??]%IH; [|done]. split; [done|]. cbn [weight]. lia.
  - rewrite resolve_name by done. intros [??]%IH; [cbn [weight] in *; split; [done|lia]|].
    constructor; [|done]. by split_and!.
Qed.

(** An output is the rendering of the resolved components. *)
Lemma normalize_sound path cap out t :
  normalize_abs_path path cap = Some (out, t) →
  ∃ comps, resolve (segments path) [] = Some comps ∧ Forall clean comps ∧
    t = ends_with "/"%ch path ∧ out = render comps t ∧ length out < cap.
Proof.
  unfold normalize_abs_path. intros H.
  destruct (Nat.ltb_spec cap 2) as [|Hcap]; [done|]. destruct path as [|c rest]; [done|].
  destruct (Z.eqb_spec c "/"%ch) as [->|]; [|done]. cbn [negb] in H.
  apply bind_Some in H as (st & Hst & Hout).
  rewrite norm_loop_segs in Hst by (simpl; lia).
  change (mk_norm ["/"%ch] []) with (state_of []) in Hst.
  apply norm_segs_sound in Hst as (acc & Hr & Hg & -> & Hw);
    [|apply segments_ok|constructor|simpl; lia].
  pose proof (abs_path_length acc) as Hlen. cbn [state_of n_out] in Hout.
  exists (reverse acc). split.
  { rewrite <-Hr. by rewrite <-(segments_skip ("/"%ch :: rest)), <-(segments_skip rest). }
  split; [by apply good_reverse|]. unfold render. rewrite (bool_decide_ext _ _ (reverse_nil_iff acc)).
  destruct (ends_with "/"%ch ("/"%ch :: rest)) eqn:Et; cbn [andb] in Hout |- *.
  - destruct acc as [|s acc].
    + simpl in Hout. injection Hout as <- <-. simpl. split_and!; [done..|lia].
    + assert (1 < length (abs_path (reverse (s :: acc)))) as H1.
      { rewrite Hlen. apply Forall_cons in Hg as [(Hs & _) _]. destruct s; [done|]. simpl. lia. }
      rewrite (proj2 (Nat.ltb_lt _ _)) in Hout by done.
      rewrite abs_path_ends in Hout by (by apply good_reverse || by rewrite reverse_nil_iff).
      cbn [andb negb] in Hout. destruct (Nat.leb_spec cap (length (abs_path (reverse (s :: acc))) + 1));
        [done|]. injection Hout as <- <-. rewrite bool_decide_eq_false_2 by done. cbn [negb].
      split_and!; [done..|]. rewrite length_app. simpl. lia.
  - injection Hout as <- <-. cbn [andb]. rewrite app_nil_r. split_and!; [done..|]. lia.
Qed.

(** With buffers of the callers' size, only a [".."] at the root fails. *)
Lemma normalize_complete path cap comps :
  head path = Some "/"%ch → length path < cap → cap ≤ SHORTLINE →
  resolve (segments path) [] = Some comps →
  normalize_abs_path path cap
  = Some (render comps (ends_with "/"%ch path), ends_with "/"%ch path).
Proof.
  intros Hh Hlen Hcap Hr. unfold SHORTLINE in Hcap.
  destruct path as [|c rest]; [done|]. injection Hh as ->. unfold normalize_abs_path.
  rewrite (proj2 (Nat.ltb_ge _ _)) by (simpl in Hlen; lia).
  rewrite Z.eqb_refl. cbn [negb]. rewrite norm_loop_segs by (simpl; lia).
  change (mk_norm ["/"%ch] []) with (state_of []).
  rewrite <-(segments_skip ("/"%ch :: rest)) in Hr.
  change (skip_slashes ("/"%ch :: rest)) with (skip_slashes rest) in Hr. rewrite segments_skip in Hr.
  pose proof (segments_weight rest) as Hw.
  rewrite (norm_segs_complete cap (segments rest) [] comps); simpl in Hlen;
    [|apply segments_ok|constructor|simpl; lia|lia|done].
  cbn [mbind option_bind state_of n_out]. rewrite reverse_involutive.
  assert (good_comps comps ∧ weight comps ≤ weight (segments rest)) as [Hg Hwc].
  { by apply (resolve_good (segments rest) []); [apply segments_ok|constructor|]. }
  unfold render. destruct (ends_with "/"%ch ("/"%ch :: rest)) eqn:Et; cbn [andb].
  - destruct comps as [|s comps]; [done|].
    rewrite abs_path_ends by done. rewrite (bool_decide_eq_false_2 (s :: comps = [])) by done.
    pose proof (abs_path_length (reverse (s :: comps))) as Hl.
    rewrite reverse_involutive, weight_reverse in Hl.
    assert (s ≠ []) as Hs by (apply Forall_cons in Hg as [[? _] _]; done).
    assert (2 ≤ weight (s :: comps)) by (simpl; destruct s; [done|simpl; lia]).
    rewrite (proj2 (Nat.ltb_lt _ _)) by lia. cbn [negb andb].
    assert (rest ≠ []) as Hrest by (intros ->; simpl in *; lia).
    assert (ends_with "/"%ch rest = true) as Her by (by destruct rest).
    pose proof (segments_weight_trailing rest Hrest Her).
    by rewrite (proj2 (Nat.leb_gt _ _)) by lia.
  - by rewrite app_nil_r.
Qed.

(** C18. For a path that is shorter than the output buffer, [normalize_abs_path] is
    the resolution of ["."] and [".."] on the list of its segments: it succeeds
    exactly on absolute paths whose [".."] never climb above the root, and returns
    the rendering of the remaining components, all of them proper names, with the
    trailing slash of the input. *)
Theorem normalize_exact path cap out t :
  length path < cap → 2 ≤ cap ≤ SHORTLINE →
  normalize_abs_path path cap = Some (out, t) ↔
  head path = Some "/"%ch ∧ t = ends_with "/"%ch path ∧
  ∃ comps, resolve (segments path) [] = Some comps ∧ Forall clean comps ∧ out = render comps t.
Proof.
  intros Hlen Hcap. split.
  - intros H. destruct (normalize_sound _ _ _ _ H) as (comps & Hr & Hg & -> & -> & _).
    split_and!; [|done|eauto]. unfold normalize_abs_path in H.
    rewrite (proj2 (Nat.ltb_ge _ _)) in H by lia. destruct path as [|c path]; [done|].
    destruct (Z.eqb_spec c "/"%ch) as [->|]; done.
  - intros (Hh & -> & comps & Hr & Hg & ->). apply normalize_complete; done || lia.
Qed.

(** ** The file a URI denotes *)

(** The components of the file: [index.html] is added for the root, for a path that
    ends in a slash, and for a last component without extension. *)
Definition uri_target (comps : list (list Z)) (trailing : bool) : list (list Z) :=
  match last comps with
  | None => [str "index.html"]
  | Some s =>
      if trailing || negb (has_char "."%ch s) then comps ++ [str "index.html"] else comps
  end.

Lemma strrchr_app c pre s : c ∉ s → strrchr c (pre ++ c :: s) = Some (c :: s).
Proof.
  intros Hs. induction pre as [|x pre IH]; simpl.
  - rewrite (proj2 (strrchr_None c s) Hs). by rewrite Z.eqb_refl.
  - by rewrite IH.
Qed.

Lemma ends_with_snoc c l : ends_with c (l ++ [c]) = true.
Proof. unfold ends_with. by rewrite last_snoc, Z.eqb_refl. Qed.

Lemma abs_path_index comps :
  comps ≠ [] → abs_path comps ++ "/"%ch :: str "index.html" = abs_path (comps ++ [str "index.html"]).
Proof. intros Hne. rewrite abs_path_snoc. by rewrite bool_decide_eq_false_2. Qed.

Lemma add_index_slash p :
  length p < 500 → add_index (p ++ ["/"%ch]) = Some (p ++ "/"%ch :: str "index.html").
Proof.
  intros Hlen. unfold add_index. rewrite ends_with_snoc, length_app. simpl length.
  rewrite (proj2 (Nat.eqb_neq _ 0)) by lia. unfold SHORTLINE.
  rewrite (proj2 (Nat.leb_gt _ _)) by lia. by rewrite <-app_assoc.
Qed.

Lemma snprintf_fit_id s : length s < SHORTLINE → snprintf_fit SHORTLINE s = s.
Proof. intros H. apply take_ge. unfold SHORTLINE in *. lia. Qed.

(** The heuristics of [parse_uri] after normalisation. *)
Lemma final_path comps t :
  good_comps comps → length (render comps t) < 400 →
  add_index (add_dir_slash (render comps t)) = Some (abs_path (uri_target comps t)).
Proof.
  intros Hg Hlen. destruct comps as [|s comps _] using rev_ind.
  { unfold render in *. rewrite andb_false_r in *. done. }
  unfold uri_target. rewrite last_snoc. unfold render in *.
  rewrite (bool_decide_eq_false_2 (comps ++ [s] = [])) in * by (by destruct comps).
  rewrite andb_true_r in *. rewrite length_app in Hlen.
  apply Forall_app in Hg as Hg'. destruct Hg' as [_ [(Hs & Hsl & _) _]%Forall_cons].
  unfold add_dir_slash. destruct t; cbn [orb].
  - rewrite ends_with_snoc, snprintf_fit_id by (rewrite length_app; unfold SHORTLINE; simpl in *; lia).
    rewrite add_index_slash by lia. by rewrite abs_path_index by (by destruct comps).
  - rewrite app_nil_r. rewrite abs_path_ends by (done || by destruct comps).
    rewrite abs_path_snoc at 1. rewrite strrchr_app by done. cbn [tail].
    destruct (has_char "."%ch s); cbn [negb].
    + rewrite snprintf_fit_id by (unfold SHORTLINE; lia). unfold add_index.
      rewrite abs_path_ends by (done || by destruct comps).
      rewrite (proj2 (Nat.eqb_neq _ 0)); [done|].
      rewrite abs_path_snoc, length_app. simpl. lia.
    + rewrite snprintf_fit_id by (rewrite length_app; unfold SHORTLINE; simpl; lia).
      rewrite add_index_slash by lia. by rewrite abs_path_index by (by destruct comps).
Qed.

Lemma decodes_length s o : decodes s o → length o ≤ length s.
Proof. induction 1; simpl; lia. Qed.

Lemma render_length dec comps t :
  resolve (segments dec) [] = Some comps → length (render comps t) ≤ length dec + 2.
Proof.
  intros Hr. destruct (resolve_good _ [] _ (segments_ok dec) (Forall_nil_2 _) Hr) as [_ Hw].
  pose proof (segments_weight dec). pose proof (abs_path_length (reverse comps)) as Hl.
  rewrite reverse_involutive, weight_reverse in Hl. unfold render. rewrite length_app, Hl.
  simpl in Hw. destruct comps; [rewrite andb_false_r; simpl; lia|].
  destruct (t && _); simpl in *; lia.
Qed.

Lemma clean_index : clean (str "index.html").
Proof. unfold clean. split_and!; try done. vm_compute. set_solver. Qed.

(** What a file name came from. *)
Lemma parse_uri_exact_fwd root uri cap f :
  parse_uri (Some root) uri cap = Some f →
  0 < length uri ≤ 256 ∧
  ∃ dec comps, decodes (take (query_pos uri) uri) dec ∧ Forall path_byte dec ∧
    head dec = Some "/"%ch ∧ resolve (segments dec) [] = Some comps ∧
    f = join_root root (abs_path (uri_target comps (ends_with "/"%ch dec))) ∧ length f < cap.
Proof.
  unfold parse_uri. intros H. case_match eqn:Eg; [done|]. apply orb_false_iff in Eg as [Eg Hl%Nat.ltb_ge].
  apply orb_false_iff in Eg as [Hc%Nat.eqb_neq Hu%Nat.eqb_neq].
  change (SHORTLINE / 2) with 256 in Hl. split; [lia|].
  case_match; [done|]. apply bind_Some in H as (dec & Hdec & H).
  apply percent_decode_iff in Hdec as (Hdec & Hpb & Hdl). case_match eqn:Eh; [done|].
  apply bind_Some in H as ([norm t] & Hn & H).
  apply normalize_sound in Hn as (comps & Hr & Hg & -> & -> & Hnl).
  pose proof (render_length dec comps (ends_with "/"%ch dec) Hr).
  pose proof (decodes_length _ _ Hdec) as Hdl2. rewrite length_take in Hdl2.
  rewrite final_path in H by (done || lia). cbn [mbind option_bind] in H.
  case_match eqn:El; [done|]. injection H as <-. apply Nat.leb_gt in El.
  exists dec, comps. split_and!; try done. destruct dec as [|c dec]; [done|].
  apply negb_false_iff, Z.eqb_eq in Eh as ->. done.
Qed.

(** C17. [parse_uri] maps a URI to exactly one file: cut at the first ['?'], decode,
    resolve, apply the [index.html] rule, and put the result under the root; it fails
    for an empty URI, one longer than 256 bytes, an undecodable or relative path, a
    path above the root, and a name that does not fit. *)
Theorem parse_uri_exact root uri cap f :
  parse_uri (Some root) uri cap = Some f ↔
  0 < length uri ≤ 256 ∧
  ∃ dec comps, decodes (take (query_pos uri) uri) dec ∧ Forall path_byte dec ∧
    head dec = Some "/"%ch ∧ resolve (segments dec) [] = Some comps ∧
    f = join_root root (abs_path (uri_target comps (ends_with "/"%ch dec))) ∧ length f < cap.
Proof.
  split; [apply parse_uri_exact_fwd|]. unfold parse_uri.
  - intros (Hu & dec & comps & Hdec & Hpb & Hh & Hr & -> & Hl).
    pose proof (decodes_length _ _ Hdec) as Hdl2. rewrite length_take in Hdl2.
    rewrite (proj2 (Nat.eqb_neq cap 0)), (proj2 (Nat.eqb_neq (length uri) 0)) by lia.
    change (SHORTLINE / 2) with 256. rewrite (proj2 (Nat.ltb_ge _ _)) by lia. cbn [orb].
    assert (query_pos uri ≠ 0) as Hq.
    { intros E. rewrite E, take_0 in Hdec. inversion Hdec; subst. done. }
    rewrite (proj2 (Nat.eqb_neq _ 0)) by done.
    rewrite (proj2 (percent_decode_iff _ SHORTLINE dec)) by (split_and!; try done; unfold SHORTLINE; lia).
    cbn [mbind option_bind]. destruct dec as [|c dec']; [done|]. injection Hh as ->.
    rewrite Z.eqb_refl. cbn [negb].
    rewrite (normalize_complete _ _ comps) by (done || unfold SHORTLINE; simpl in *; lia).
    cbn [mbind option_bind].
    destruct (resolve_good _ [] _ (segments_ok ("/"%ch :: dec')) (Forall_nil_2 _) Hr) as [Hg _].
    pose proof (render_length _ comps (ends_with "/"%ch ("/"%ch :: dec')) Hr).
    rewrite final_path by (done || simpl in *; lia). cbn [mbind option_bind].
    by rewrite (proj2 (Nat.leb_gt _ _)) by lia.
Qed.

(** C11. Path traversal: whatever the URI, a file name produced lies below the root
    textually: it is the root followed by proper component names, none of them empty,
    ["."] or [".."] and none containing a slash. *)
Theorem parse_uri_confined root uri cap f :
  parse_uri (Some root) uri cap = Some f →
  ∃ comps, comps ≠ [] ∧ Forall clean comps ∧ f = join_root root (abs_path comps) ∧ length f < cap.
Proof.
  intros (_ & dec & comps & _ & _ & _ & Hr & -> & Hl)%parse_uri_exact_fwd.
  destruct (resolve_good _ [] _ (segments_ok dec) (Forall_nil_2 _) Hr) as [Hg _].
  eexists. split_and!; [| |reflexivity|done]; unfold uri_target;
    destruct comps as [|s comps _] using rev_ind; try done.
  - rewrite last_snoc. destruct (_ || _); by destruct comps.
  - simpl. constructor; [apply clean_index|done].
  - rewrite last_snoc. destruct (_ || _); [|done]. apply Forall_app. split; [done|].
    constructor; [apply clean_index|done].
Qed.

(** ** The real path check *)

Definition under_docroot (realpath : list Z → option (list Z)) (root : option (list Z)) (path : list Z) : Prop :=
  ∃ rr pr, root ≫= realpath = Some rr ∧ realpath path = Some pr ∧ (pr = rr ∨ ∃ t, pr = rr ++ "/"%ch :: t).

Lemma under_root_iff (realpath : list Z → option (list Z)) root path :
  (∀ p q, realpath p = Some q → Forall (fun c => c ≠ 0%Z) q) →
  is_path_under_root_real realpath root path = true ↔ under_docroot realpath root path.
Proof.
  intros Hrp. unfold is_path_under_root_real, under_docroot.
  destruct (root ≫= realpath) as [rr|] eqn:Er; [|naive_solver].
  destruct (realpath path) as [pr|] eqn:Ep; [|naive_solver].
  assert (Forall (fun c => c ≠ 0%Z) rr) as Hrr by (destruct root as [r|]; [by eapply Hrp|done]). pose proof (strncmp_prefix_sym pr rr Hrr) as Hpre.
  destruct (strncmp_eq (length rr) pr rr) eqn:Ec; cbn [negb].
  - destruct (proj1 Hpre eq_refl) as [t ->]. rewrite lookup_app_r, Nat.sub_diag by lia.
    destruct t as [|c t]; simpl.
    + split; [|done]. intros _. exists rr, (rr ++ []). rewrite app_nil_r. auto.
    + rewrite Z.eqb_eq. split.
      * intros ->. eexists _, _. eauto.
      * intros (? & ? & [= <-] & [= <-] & [E|[t' E]]).
        -- apply (f_equal length) in E. rewrite length_app in E. simpl in E. lia.
        -- apply app_inv_head in E. by injection E.
  - split; [done|]. intros (? & ? & [= <-] & [= <-] & [->|[t ->]]).
    + assert (false = true); [|done]. apply Hpre. exists []. by rewrite app_nil_r.
    + assert (false = true); [|done]. apply Hpre. eauto.
Qed.

(** With a [realpath] that returns C strings, the check accepts exactly the paths
    whose real path is the real root or continues it with a slash: a sibling whose
    name merely begins like the root is refused. *)
Theorem under_root_exact (realpath : list Z → option (list Z)) root path :
  (∀ p q, realpath p = Some q → Forall (fun c => c ≠ 0%Z) q) →
  is_path_under_root_real realpath root path = true ↔
  ∃ rr pr, root ≫= realpath = Some rr ∧ realpath path = Some pr ∧
    (pr = rr ∨ ∃ t, pr = rr ++ "/"%ch :: t).
Proof. apply under_root_iff. Qed.

(** A document root that is the file system root serves nothing: for a real root
    of ["/"] every other real path is refused, since the byte after the prefix is the
    first byte of a name. *)
Theorem root_slash_refuses (realpath : list Z → option (list Z)) root path c t :
  root ≫= realpath = Some (str "/") → realpath path = Some ("/"%ch :: c :: t) → c ≠ "/"%ch →
  is_path_under_root_real realpath root path = false.
Proof.
  intros Hr Hp Hc. unfold is_path_under_root_real. rewrite Hr, Hp. simpl.
  by apply Z.eqb_neq.
Qed.

(** ** Concrete inputs *)

Definition demo_root : list Z := str "./html".

Lemma percent_decode_encode_witness :
  percent_decode (percent_encode (str "/a b")) SHORTLINE = Some (str "/a b").
Proof.
  apply (percent_decode_encode (str "/a b") SHORTLINE); [| |vm_compute; lia].
  - simpl. repeat constructor; lia.
  - simpl. repeat constructor; lia.
Defined.

Lemma normalize_exact_witness :
  normalize_abs_path (str "/a//./b/../c/") SHORTLINE = Some (str "/a/c/", true).
Proof.
  apply (normalize_exact (str "/a//./b/../c/") SHORTLINE (str "/a/c/") true);
    [vm_compute; lia|unfold SHORTLINE; lia|].
  split_and!; [reflexivity|reflexivity|]. exists [str "a"; str "c"].
  split_and!; [reflexivity| |reflexivity].
  repeat constructor; done || (vm_compute; set_solver).
Defined.

Lemma parse_uri_confined_witness :
  parse_uri (Some demo_root) (str "/docs/%2e%2e/img.png?x=1") SHORTLINE = Some (str "./html/img.png") ∧
  ∃ comps, comps ≠ [] ∧ Forall clean comps ∧ str "./html/img.png" = join_root demo_root (abs_path comps) ∧
    length (str "./html/img.png") < SHORTLINE.
Proof.
  assert (parse_uri (Some demo_root) (str "/docs/%2e%2e/img.png?x=1") SHORTLINE
    = Some (str "./html/img.png")) as H by reflexivity.
  split; [exact H|]. exact (parse_uri_confined _ _ _ _ H).
Defined.

(** A file system with one directory ["/srv"] and files below it. *)
Definition demo_realpath (p : list Z) : option (list Z) :=
  if strcmp_eq p (str "./html") then Some (str "/srv/html")
  else if strcmp_eq p (str "./html/a.css") then Some (str "/srv/html/a.css")
  else if strcmp_eq p (str "./html/link") then Some (str "/srv/html2/secret")
  else if strcmp_eq p (str "/") then Some (str "/")
  else None.

Lemma demo_realpath_ok p q : demo_realpath p = Some q → Forall (fun c => c ≠ 0%Z) q.
Proof.
  unfold demo_realpath. repeat case_match; intros; simplify_eq; simpl; repeat constructor; lia.
Qed.

Lemma under_root_exact_witness :
  is_path_under_root_real demo_realpath (Some demo_root) (str "./html/a.css") = true.
Proof.
  apply (under_root_exact demo_realpath (Some demo_root) (str "./html/a.css") demo_realpath_ok).
  exists (str "/srv/html"), (str "/srv/html/a.css"). split_and!; [reflexivity|reflexivity|].
  right. exists (str "a.css"). reflexivity.
Defined.

Lemma root_slash_refuses_witness :
  is_path_under_root_real demo_realpath (Some (str "/")) (str "./html") = false.
Proof.
  apply (root_slash_refuses demo_realpath (Some (str "/")) (str "./html") "s"%ch (str "rv/html"));
    [reflexivity|reflexivity|lia].
Defined.
