(* ===== verification/PriorityQueue.v ===== *)
(** * The priority queue (priority_queue.c)

    A binary heap in an array that grows and shrinks.  [pq[0]] is unused; a cell is
    [None] until something is stored in it.  Reading a cell outside the array or one
    never written is a fault ([None] of the option monad), so the theorems also say
    that no operation reads or writes outside its block.  Whether [malloc] succeeds
    is an argument of the operations that call it. *)
From Stdlib Require Import Sorting.Sorted.
From S2P Require Import Prelude.

Definition ZV_PQ_DEFAULT_SIZE : nat := 10.

Record zv_pq (A : Type) := mk_pq {
  pq : list (option A);
  nalloc : nat;
  size : nat;
}.
Arguments mk_pq {A} pq nalloc size.
Arguments pq {A} z.
Arguments nalloc {A} z.
Arguments size {A} z.
#[export] Instance eta_zv_pq A : Eta (zv_pq A) := fun q => mk_pq (pq q) (nalloc q) (size q).

Section pq.
Context {A : Type} (comp : A → A → bool).
Implicit Types (q : zv_pq A) (x : A) (k i j : nat).

(** ** Operations *)

Definition zv_pq_init (malloc_ok : bool) (n : nat) : option (zv_pq A) :=
  if malloc_ok then Some (mk_pq (replicate (n + 1) None) 0 (n + 1)) else None.

Definition zv_pq_is_empty q : bool := nalloc q =? 0.

Definition zv_pq_size q : nat := nalloc q.

(** [pq[i]] *)
Definition get q i : option A := mjoin (pq q !! i).

(** [pq[i] = x] *)
Definition set q i x : option (zv_pq A) :=
  if i <? length (pq q) then Some (q <| pq := <[i := Some x]> (pq q) |>) else None.

(** Inner [None]: NULL. *)
Definition zv_pq_min q : option (option A) :=
  if zv_pq_is_empty q then Some None else x ← get q 1; Some (Some x).

(** The [memcpy] reads [nalloc + 1] cells of the old block and writes as many of
    the new one. *)
Definition resize (malloc_ok : bool) q (new_size : nat) : option (Z * zv_pq A) :=
  if new_size <=? nalloc q then Some ((-1)%Z, q)
  else if negb malloc_ok then Some ((-1)%Z, q)
  else
    let n := nalloc q + 1 in
    if (length (pq q) <? n) || (new_size <? n) then None
    else Some (ZV_OK, mk_pq (take n (pq q) ++ replicate (new_size - n) None) (nalloc q) new_size).

Definition exch q i j : option (zv_pq A) :=
  tmp ← get q i;
  y ← get q j;
  q ← set q i y;
  set q j tmp.

(** [while (k > 1 && comp(pq[k], pq[k/2]))] *)
Fixpoint swim (fuel : nat) q k : option (zv_pq A) :=
  match fuel with
  | O => None
  | S fuel' =>
      if 1 <? k then
        x ← get q k;
        y ← get q (k / 2);
        if comp x y then
          q ← exch q k (k / 2);
          swim fuel' q (k / 2)
        else Some q
      else Some q
  end.

(** [while (2*k <= nalloc)]; the result is the final position. *)
Fixpoint sink (fuel : nat) q k : option (nat * zv_pq A) :=
  match fuel with
  | O => None
  | S fuel' =>
      if 2 * k <=? nalloc q then
        let j := 2 * k in
        b ← (if j <? nalloc q then x ← get q (j + 1); y ← get q j; Some (comp x y)
             else Some false);
        let j := if b : bool then j + 1 else j in
        x ← get q j;
        y ← get q k;
        if comp x y then
          q ← exch q j k;
          sink fuel' q j
        else Some (k, q)
      else Some (k, q)
  end.

Definition zv_pq_sink q i : option (nat * zv_pq A) := sink (S (nalloc q)) q i.

(** The return code and the queue. *)
Definition zv_pq_delmin (malloc_ok : bool) q : option (Z * zv_pq A) :=
  if zv_pq_is_empty q then Some (ZV_OK, q)
  else
    q ← exch q 1 (nalloc q);
    let q := q <| nalloc := nalloc q - 1 |> in
    '(_, q) ← sink (S (nalloc q)) q 1;
    if (0 <? nalloc q) && (nalloc q <=? (size q - 1) / 4) then
      '(rc, q) ← resize malloc_ok q (size q / 2);
      if (rc <? 0)%Z then Some ((-1)%Z, q) else Some (ZV_OK, q)
    else Some (ZV_OK, q).

Definition zv_pq_insert (malloc_ok : bool) q x : option (Z * zv_pq A) :=
  '(rc, q) ← (if nalloc q + 1 =? size q then resize malloc_ok q (size q * 2)
              else Some (ZV_OK, q));
  if (rc <? 0)%Z then Some ((-1)%Z, q)
  else
    let q := q <| nalloc := nalloc q + 1 |> in
    q ← set q (nalloc q) x;
    q ← swim (S (nalloc q)) q (nalloc q);
    Some (ZV_OK, q).

(** ** Representation

    The queue holds [h 1 .. h n]. *)
Definition holds q (h : nat → A) (n : nat) : Prop :=
  nalloc q = n ∧ size q = length (pq q) ∧ n < size q ∧ ∀ i, 1 ≤ i ≤ n → get q i = Some (h i).

(** The stored elements, as a list. *)
Definition elements_of (h : nat → A) (n : nat) : list A := h <$> seq 1 n.

Definition le (x y : A) : Prop := comp y x = false.

Definition heap_ordered (h : nat → A) (n : nat) : Prop :=
  ∀ i, 2 ≤ i ≤ n → le (h (i / 2)) (h i).

(** The queue is a heap of the elements [xs], in some order. *)
Definition is_heap q (xs : list A) : Prop :=
  ∃ h, holds q h (length xs) ∧ heap_ordered h (length xs) ∧ elements_of h (length xs) ≡ₚ xs.
End pq.

(** The comparator is a strict weak order. *)
Class StrictWeak {A} (comp : A → A → bool) : Prop := {
  comp_asym x y : comp x y = true → comp y x = false;
  comp_negtrans x y z : comp y x = false → comp z y = false → comp z x = false;
}.

Definition swap_fun {A} (h : nat → A) (i j : nat) : nat → A :=
  fun k => if k =? i then h j else if k =? j then h i else h k.

Section proofs.
Context {A : Type} (comp : A → A → bool) `{StrictWeak A comp}.
Implicit Types (q : zv_pq A) (h : nat → A) (n k i j : nat).

Lemma le_trans x y z : le comp x y → le comp y z → le comp x z.
Proof. unfold le. apply comp_negtrans. Qed.

Lemma le_refl x : le comp x x.
Proof. unfold le. destruct (comp x x) eqn:E; [|done]. by rewrite (comp_asym _ _ E) in E. Qed.

Lemma lt_le x y : comp x y = true → le comp x y.
Proof. apply comp_asym. Qed.

(** ** Order *)

Lemma swap_fun_l h i j : swap_fun h i j i = h j.
Proof. unfold swap_fun. by rewrite Nat.eqb_refl. Qed.

Lemma swap_fun_r h i j : swap_fun h i j j = h i.
Proof. unfold swap_fun. destruct (Nat.eqb_spec j i); [by subst|by rewrite Nat.eqb_refl]. Qed.

Lemma swap_fun_ne h i j k : k ≠ i → k ≠ j → swap_fun h i j k = h k.
Proof. unfold swap_fun. intros. ztests. Qed.

(** Ordered but for [k], which may be smaller than its parent. *)
Definition up_ok h n k : Prop :=
  (∀ i, 2 ≤ i ≤ n → i ≠ k → le comp (h (i / 2)) (h i)) ∧
  (∀ i, 2 ≤ i ≤ n → i / 2 = k → 1 < k → le comp (h (k / 2)) (h i)).

(** Ordered but for [k], which may be larger than its children. *)
Definition down_ok h n k : Prop :=
  (∀ i, 2 ≤ i ≤ n → i / 2 ≠ k → le comp (h (i / 2)) (h i)) ∧
  (∀ i, 2 ≤ i ≤ n → i / 2 = k → 1 < k → le comp (h (k / 2)) (h i)).

Lemma half_lt k : 1 < k → 1 ≤ k / 2 < k.
Proof. intros. split; [apply Nat.div_le_lower_bound|apply Nat.div_lt_upper_bound]; lia. Qed.

Lemma up_ok_swap h n k :
  1 < k ≤ n → up_ok h n k → comp (h k) (h (k / 2)) = true →
  up_ok (swap_fun h k (k / 2)) n (k / 2).
Proof.
  intros Hk [H1 H2] Hc. pose proof (half_lt k ltac:(lia)) as Hp.
  split.
  - intros i Hi Hne. destruct (decide (i = k)) as [->|Hik].
    + rewrite swap_fun_l, swap_fun_r. by apply lt_le.
    + rewrite (swap_fun_ne _ _ _ i) by done.
      destruct (decide (i / 2 = k)) as [E|E].
      * rewrite E, swap_fun_l. by apply H2; lia.
      * destruct (decide (i / 2 = k / 2)) as [E'|E'].
        -- rewrite E', swap_fun_r. eapply le_trans; [by apply lt_le|]. rewrite <-E'. by apply H1.
        -- rewrite swap_fun_ne by done. by apply H1.
  - intros i Hi Hpar Hk2. pose proof (half_lt (k / 2) Hk2) as Hpp.
    rewrite (swap_fun_ne h k (k / 2) (k / 2 / 2)) by lia.
    destruct (decide (i = k)) as [->|Hik].
    + rewrite swap_fun_l. apply H1; lia.
    + assert (i ≠ k / 2) by (pose proof (half_lt i ltac:(lia)); lia).
      rewrite swap_fun_ne by done. eapply le_trans; [apply (H1 (k / 2)); lia|].
      rewrite <-Hpar. apply H1; [done|]. done.
Qed.

Lemma up_ok_done h n k :
  up_ok h n k → (1 < k → comp (h k) (h (k / 2)) = false) → heap_ordered comp h n.
Proof.
  intros [H1 H2] Hk i Hi. destruct (decide (i = k)) as [->|]; [apply Hk; lia|]. by apply H1.
Qed.

Lemma child_half i k : i / 2 = k ↔ i = 2 * k ∨ i = 2 * k + 1.
Proof.
  split; [intros <-; pose proof (Nat.div_mod_eq i 2); pose proof (Nat.mod_upper_bound i 2); lia|].
  intros [-> | ->]; [by rewrite Nat.mul_comm, Nat.div_mul|].
  rewrite Nat.mul_comm, Nat.div_add_l by lia. simpl. lia.
Qed.

(** [j] is the smaller child. *)
Lemma down_ok_swap h n k j :
  1 ≤ k → down_ok h n k → 2 ≤ j ≤ n → j / 2 = k →
  (∀ i, 2 ≤ i ≤ n → i / 2 = k → le comp (h j) (h i)) → comp (h j) (h k) = true →
  down_ok (swap_fun h j k) n j.
Proof.
  intros Hk [H1 H2] Hj Hjk Hmin Hc. pose proof (half_lt j ltac:(lia)) as Hlt.
  split.
  - intros i Hi Hij. destruct (decide (i = j)) as [->|].
    + rewrite Hjk, swap_fun_r, swap_fun_l. by apply lt_le.
    + destruct (decide (i = k)) as [->|].
      * rewrite swap_fun_r. pose proof (half_lt k ltac:(lia)).
        rewrite swap_fun_ne by lia. apply H2; [done|done|lia].
      * rewrite (swap_fun_ne _ _ _ i) by done.
        destruct (decide (i / 2 = k)) as [E|E].
        -- rewrite E, swap_fun_r. by apply Hmin.
        -- rewrite swap_fun_ne by done. by apply H1.
  - intros i Hi Hpar _. rewrite Hjk, swap_fun_r.
    pose proof (half_lt i ltac:(lia)). rewrite swap_fun_ne by lia.
    rewrite <-Hpar. apply H1; [done|]. lia.
Qed.

Lemma down_ok_done h n k :
  down_ok h n k → (∀ i, 2 ≤ i ≤ n → i / 2 = k → le comp (h k) (h i)) → heap_ordered comp h n.
Proof.
  intros [H1 H2] Hk i Hi. destruct (decide (i / 2 = k)) as [<-|]; [by apply Hk|by apply H1].
Qed.

(** The root is the least element. *)
Lemma heap_root h n i : heap_ordered comp h n → 1 ≤ i ≤ n → le comp (h 1) (h i).
Proof.
  intros Hh. induction i as [i IH] using lt_wf_ind. intros Hi.
  destruct (decide (i = 1)) as [->|]; [apply le_refl|].
  pose proof (half_lt i ltac:(lia)). eapply le_trans; [apply (IH (i / 2)); lia|]. apply Hh. lia.
Qed.

(** ** Elements *)

Lemma elements_swap h n i j :
  1 ≤ i ≤ n → 1 ≤ j ≤ n → elements_of (swap_fun h i j) n ≡ₚ elements_of h n.
Proof.
  intros Hi Hj. unfold elements_of.
  set (t := fun k => if k =? i then j else if k =? j then i else k).
  assert (swap_fun h i j <$> seq 1 n = h <$> (t <$> seq 1 n)) as ->.
  { rewrite <-list_fmap_compose. apply list_fmap_ext. intros k x _. unfold swap_fun, t. simpl.
    by repeat case_match. }
  apply fmap_Permutation, NoDup_Permutation.
  - apply NoDup_fmap_2; [|apply NoDup_seq]. intros x y. unfold t. intros E. ztests.
  - apply NoDup_seq.
  - intros x. rewrite list_elem_of_fmap. setoid_rewrite elem_of_seq. split.
    + intros (y & -> & Hy). unfold t. ztests.
    + intros Hx. exists (t x). unfold t. ztests.
Qed.

Lemma elements_S h n : elements_of h (S n) = elements_of h n ++ [h (S n)].
Proof. unfold elements_of. rewrite seq_S, fmap_app. done. Qed.

Lemma elements_ext h h' n :
  (∀ i, 1 ≤ i ≤ n → h i = h' i) → elements_of h n = elements_of h' n.
Proof.
  intros Hext. unfold elements_of. apply list_fmap_ext. intros k x Hx.
  apply lookup_seq in Hx as [-> ?]. apply Hext. lia.
Qed.

(** ** Memory *)

Lemma get_set q i x j :
  i < length (pq q) →
  get (q <| pq := <[i := Some x]> (pq q) |>) j = if decide (i = j) then Some x else get q j.
Proof.
  intros Hi. unfold get. simpl. destruct (decide (i = j)) as [->|].
  - by rewrite list_lookup_insert_eq.
  - by rewrite list_lookup_insert_ne.
Qed.

Lemma exch_holds q h n i j :
  holds q h n → 1 ≤ i ≤ n → 1 ≤ j ≤ n →
  ∃ q', exch q i j = Some q' ∧ holds q' (swap_fun h i j) n ∧ size q' = size q.
Proof.
  intros (Hn & Hs & Hlt & Hg) Hi Hj. unfold exch. rewrite (Hg i Hi), (Hg j Hj). simpl.
  unfold set. rewrite (proj2 (Nat.ltb_lt i _)) by lia. simpl.
  rewrite length_insert, (proj2 (Nat.ltb_lt j _)) by lia.
  eexists. split; [done|]. split; [|done]. unfold holds. simpl. rewrite !length_insert.
  split_and!; try done. intros k Hk. unfold get. simpl. unfold swap_fun.
  destruct (Nat.eqb_spec k j) as [->|].
  - rewrite list_lookup_insert_eq by (rewrite length_insert; lia).
    destruct (Nat.eqb_spec j i); by subst.
  - rewrite list_lookup_insert_ne by done. destruct (Nat.eqb_spec k i) as [->|].
    + by rewrite list_lookup_insert_eq by lia.
    + rewrite list_lookup_insert_ne by done. by apply Hg.
Qed.

Lemma swim_spec fuel q h n k :
  holds q h n → 1 ≤ k ≤ n → k < fuel → up_ok h n k →
  ∃ q' h', swim comp fuel q k = Some q' ∧ holds q' h' n ∧ size q' = size q ∧
    heap_ordered comp h' n ∧ elements_of h' n ≡ₚ elements_of h n.
Proof.
  revert q h k. induction fuel as [|fuel IH]; intros q h k Hq Hk Hf Hup; [lia|]. cbn [swim].
  pose proof Hq as (_ & _ & _ & Hg).
  destruct (Nat.ltb_spec 1 k) as [H1|H1].
  - pose proof (half_lt k H1) as Hp. rewrite (Hg k Hk), (Hg (k / 2) ltac:(lia)). cbn [mbind option_bind].
    destruct (comp (h k) (h (k / 2))) eqn:Ec.
    + destruct (exch_holds q h n k (k / 2) Hq Hk ltac:(lia)) as (q1 & -> & Hq1 & Hs1).
      cbn [mbind option_bind].
      destruct (IH q1 _ (k / 2) Hq1 ltac:(lia) ltac:(lia) (up_ok_swap h n k ltac:(lia) Hup Ec))
        as (q2 & h2 & -> & Hq2 & Hs2 & Hh & Hperm).
      exists q2, h2. split_and!; try done; [congruence|]. rewrite Hperm. apply elements_swap; lia.
    + exists q, h. split_and!; try done. by eapply up_ok_done.
  - exists q, h. split_and!; try done. eapply up_ok_done; [done|lia].
Qed.

(** The child [sink] compares with. *)
Definition smaller_child h n k : nat :=
  if (2 * k <? n) && comp (h (2 * k + 1)) (h (2 * k)) then 2 * k + 1 else 2 * k.

Lemma smaller_child_spec h n k :
  1 ≤ k → 2 * k ≤ n →
  let j := smaller_child h n k in
  2 ≤ j ≤ n ∧ j / 2 = k ∧ k < j ∧ ∀ i, 2 ≤ i ≤ n → i / 2 = k → le comp (h j) (h i).
Proof.
  intros Hk Hn. unfold smaller_child.
  destruct (Nat.ltb_spec (2 * k) n) as [Hlt|Hlt]; cbn [andb];
    [destruct (comp (h (2 * k + 1)) (h (2 * k))) eqn:Ec|];
    (split_and!; [lia|lia|apply child_half; auto|lia|intros i Hi [-> | ->]%child_half]);
    try apply le_refl; try lia; [by apply lt_le|done].
Qed.

Lemma sink_unfold fuel q h n k :
  holds q h n → 1 ≤ k →
  sink comp (S fuel) q k =
  if 2 * k <=? n then
    let j := smaller_child h n k in
    if comp (h j) (h k) then exch q j k ≫= fun q => sink comp fuel q j else Some (k, q)
  else Some (k, q).
Proof.
  intros (Hn & Hs & Hlt & Hg) Hk. cbn [sink]. rewrite Hn. unfold smaller_child.
  destruct (Nat.leb_spec (2 * k) n) as [Hle|]; [|done].
  destruct (Nat.ltb_spec (2 * k) n) as [Hl|]; cbn [andb].
  - rewrite (Hg (2 * k + 1)), (Hg (2 * k)) by lia. cbn [mbind option_bind].
    destruct (comp (h (2 * k + 1)) (h (2 * k))); rewrite !Hg by lia; done.
  - cbn [mbind option_bind]. by rewrite !Hg by lia.
Qed.

Lemma sink_spec fuel q h n k :
  holds q h n → 1 ≤ k → 0 < fuel → S n < fuel + k → down_ok h n k →
  ∃ k' q' h', sink comp fuel q k = Some (k', q') ∧ holds q' h' n ∧ size q' = size q ∧
    heap_ordered comp h' n ∧ elements_of h' n ≡ₚ elements_of h n.
Proof.
  revert q h k. induction fuel as [|fuel IH]; intros q h k Hq Hk Hf0 Hf Hd; [lia|].
  rewrite (sink_unfold _ _ _ _ _ Hq Hk). destruct (Nat.leb_spec (2 * k) n) as [Hle|Hgt].
  - pose proof (smaller_child_spec h n k Hk Hle) as (Hj & Hjk & Hkj & Hmin). cbv zeta.
    set (j := smaller_child h n k) in *. destruct (comp (h j) (h k)) eqn:Ec.
    + destruct (exch_holds q h n j k Hq ltac:(lia) ltac:(lia)) as (q1 & -> & Hq1 & Hs1).
      cbn [mbind option_bind].
      destruct (IH q1 _ j Hq1 ltac:(lia) ltac:(lia) ltac:(lia)
                  (down_ok_swap h n k j Hk Hd Hj Hjk Hmin Ec))
        as (k2 & q2 & h2 & -> & Hq2 & Hs2 & Hh & Hperm).
      exists k2, q2, h2. split_and!; try done; [congruence|].
      rewrite Hperm. apply elements_swap; lia.
    + exists k, q, h. split_and!; try done. eapply down_ok_done; [done|].
      intros i Hi Hik. eapply le_trans; [exact Ec|]. by apply Hmin.
  - exists k, q, h. split_and!; try done. eapply down_ok_done; [done|].
    intros i Hi [-> | ->]%child_half; lia.
Qed.

Lemma resize_spec q h n m :
  holds q h n → n < m →
  ∃ q', resize true q m = Some (ZV_OK, q') ∧ holds q' h n ∧ size q' = m.
Proof.
  intros (Hn & Hs & Hlt & Hg) Hm. unfold resize. rewrite Hn.
  rewrite (proj2 (Nat.leb_gt m n)), (proj2 (Nat.ltb_ge (length (pq q)) (n + 1))),
    (proj2 (Nat.ltb_ge m (n + 1))) by lia. cbn [negb orb].
  eexists. split; [done|]. split; [|done]. unfold holds. cbn [pq nalloc size].
  rewrite length_app, length_take, length_replicate. split_and!; [done|lia|lia|].
  intros i Hi. specialize (Hg i Hi). unfold get in *. cbn [pq].
  rewrite lookup_app_l by (rewrite length_take; lia). by rewrite lookup_take_lt by lia.
Qed.

(** ** Whole operations *)

Lemma set_holds q h n x :
  holds q h n → n + 1 < size q →
  ∃ q', set (q <| nalloc := n + 1 |>) (n + 1) x = Some q' ∧ size q' = size q ∧
    holds q' (fun i => if i =? n + 1 then x else h i) (n + 1).
Proof.
  intros (Hn & Hs & Hlt & Hg) Hr. unfold set. simpl.
  rewrite (proj2 (Nat.ltb_lt (n + 1) _)) by lia. eexists. split; [done|]. split; [done|].
  unfold holds. simpl. rewrite length_insert. split_and!; [done|done|lia|].
  intros i Hi. unfold get. simpl. destruct (Nat.eqb_spec i (n + 1)) as [->|].
  - by rewrite list_lookup_insert_eq by lia.
  - rewrite list_lookup_insert_ne by done. apply Hg. lia.
Qed.

Lemma elements_length h n : length (elements_of h n) = n.
Proof. unfold elements_of. by rewrite length_fmap, length_seq. Qed.

Lemma elements_cons h n : elements_of h (S n) = h 1 :: elements_of (fun i => h (S i)) n.
Proof.
  unfold elements_of. cbn [seq fmap list_fmap]. f_equal.
  rewrite <-(fmap_S_seq 1 n), <-list_fmap_compose. done.
Qed.

Lemma is_heap_intro q h n xs :
  holds q h n → heap_ordered comp h n → elements_of h n ≡ₚ xs → is_heap comp q xs.
Proof.
  intros Hq Hh Hp. assert (length xs = n) as Hl.
  { by rewrite <-(Permutation_length Hp), elements_length. }
  exists h. by rewrite Hl.
Qed.

(** A fresh element at [n + 1], its room made: [swim] restores the order. *)
Lemma insert_room q h n x :
  holds q h n → heap_ordered comp h n → n + 1 < size q →
  ∃ q', (q ← set (q <| nalloc := n + 1 |>) (n + 1) x;
         q ← swim comp (S (nalloc q)) q (nalloc q);
         Some (ZV_OK, q)) = Some (ZV_OK, q') ∧ size q' = size q ∧
    is_heap comp q' (x :: elements_of h n).
Proof.
  intros Hq Hh Hr. destruct (set_holds q h n x Hq Hr) as (q1 & -> & Hs1 & Hq1).
  cbn [mbind option_bind]. pose proof Hq1 as (-> & _).
  destruct (swim_spec (S (n + 1)) q1 _ (n + 1) (n + 1) Hq1) as (q2 & h2 & -> & Hq2 & Hs2 & Hh2 & Hp2);
    [lia|lia| |].
  - split.
    + intros i Hi Hne. pose proof (half_lt i ltac:(lia)).
      rewrite (proj2 (Nat.eqb_neq i _)), (proj2 (Nat.eqb_neq (i / 2) _)) by lia. apply Hh. lia.
    + intros i Hi Hi2. pose proof (half_lt i ltac:(lia)). lia.
  - exists q2. split; [done|]. split; [congruence|]. eapply is_heap_intro; [done..|].
    rewrite Hp2. replace (n + 1) with (S n) by lia. rewrite elements_S, Nat.eqb_refl.
    rewrite (elements_ext _ h) by (intros i Hi; by rewrite (proj2 (Nat.eqb_neq i _)) by lia).
    by rewrite <-Permutation_cons_append.
Qed.

Lemma insert_spec q xs x :
  is_heap comp q xs →
  ∃ q', zv_pq_insert comp true q x = Some (ZV_OK, q') ∧ is_heap comp q' (x :: xs).
Proof.
  intros (h & Hq & Hh & Hp). set (n := length xs) in *. unfold zv_pq_insert.
  pose proof Hq as (Hn & Hs & Hlt & _). rewrite Hn.
  assert (∃ q1, (if n + 1 =? size q then resize true q (size q * 2) else Some (ZV_OK, q))
                = Some (ZV_OK, q1) ∧ holds q1 h n ∧ n + 1 < size q1) as (q1 & -> & Hq1 & Hr).
  { destruct (Nat.eqb_spec (n + 1) (size q)).
    - destruct (resize_spec q h n (size q * 2) Hq ltac:(lia)) as (q1 & -> & Hq1 & Hs1).
      exists q1. split_and!; [done|done|lia].
    - exists q. split_and!; [done|done|lia]. }
  cbn [mbind option_bind]. change (ZV_OK <? 0)%Z with false. cbn match.
  destruct (insert_room q1 h n x Hq1 Hh Hr) as (q2 & E & _ & Hq2).
  exists q2. destruct Hq1 as (Hn1 & _). rewrite Hn1. split; [exact E|].
  destruct Hq2 as (h2 & Hq2 & Hh2 & Hp2). eapply is_heap_intro; [exact Hq2|exact Hh2|].
  by rewrite Hp2, Hp.
Qed.

Lemma insert_no_memory q xs x :
  is_heap comp q xs →
  (nalloc q + 1 = size q ∧ zv_pq_insert comp false q x = Some ((-1)%Z, q)) ∨
  (nalloc q + 1 ≠ size q ∧ zv_pq_insert comp false q x = zv_pq_insert comp true q x).
Proof.
  intros (h & Hq & _). pose proof Hq as (Hn & Hs & Hlt & _). unfold zv_pq_insert.
  destruct (Nat.eqb_spec (nalloc q + 1) (size q)) as [E|E]; [left|by right].
  split; [done|]. unfold resize. by destruct (size q * 2 <=? nalloc q).
Qed.

(** The last element, moved to the root, sinks. *)
Lemma delmin_sink q h n :
  holds q h (S n) → heap_ordered comp h (S n) →
  ∃ q1 k q2 h2, exch q 1 (S n) = Some q1 ∧ size q1 = size q ∧ nalloc q1 = S n ∧
    sink comp (S n) (q1 <| nalloc := n |>) 1 = Some (k, q2) ∧ holds q2 h2 n ∧
    size q2 = size q ∧ heap_ordered comp h2 n ∧
    h 1 :: elements_of h2 n ≡ₚ elements_of h (S n).
Proof.
  intros Hq Hh.
  destruct (exch_holds q h (S n) 1 (S n) Hq ltac:(lia) ltac:(lia)) as (q1 & E1 & Hq1 & Hs1).
  set (g := swap_fun h 1 (S n)) in *. pose proof Hq1 as (Hn1 & Hl1 & Hlt1 & Hg1).
  assert (holds (q1 <| nalloc := n |>) g n) as Hq1'.
  { split_and!; simpl; [done|done|lia|]. intros i Hi. apply Hg1. lia. }
  destruct (sink_spec (S n) _ g n 1 Hq1' ltac:(lia) ltac:(lia) ltac:(lia))
    as (k & q2 & h2 & E2 & Hq2 & Hs2 & Hh2 & Hp2).
  { split; [|lia]. intros i Hi Hne. pose proof (half_lt i ltac:(lia)).
    unfold g. rewrite !swap_fun_ne by lia. apply Hh. lia. }
  exists q1, k, q2, h2. split_and!; try done; [by rewrite Hs2|].
  rewrite Hp2, <-(elements_swap h (S n) 1 (S n)) by lia. fold g. rewrite elements_S.
  assert (g (S n) = h 1) as -> by apply swap_fun_r. apply Permutation_cons_append.
Qed.

(** With memory or without: without, the element is removed all the same. *)
Lemma delmin_spec malloc_ok q xs :
  is_heap comp q xs → xs ≠ [] →
  ∃ x ys rc q', zv_pq_min q = Some (Some x) ∧ xs ≡ₚ x :: ys ∧ Forall (le comp x) xs ∧
    zv_pq_delmin comp malloc_ok q = Some (rc, q') ∧ is_heap comp q' ys ∧
    (malloc_ok = true → rc = ZV_OK).
Proof.
  intros (h & Hq & Hh & Hp) Hne. destruct (length xs) as [|n] eqn:El.
  { by apply nil_length_inv in El. }
  pose proof Hq as (Hn & _ & _ & Hg).
  destruct (delmin_sink q h n Hq Hh) as (q1 & k & q2 & h2 & E1 & Hs1 & Hn1 & E2 & Hq2 & Hs2 & Hh2 & Hp2).
  assert (∃ rc q', zv_pq_delmin comp malloc_ok q = Some (rc, q') ∧ holds q' h2 n ∧
            (malloc_ok = true → rc = ZV_OK)) as (rc & q' & E & Hq' & Hrc).
  { unfold zv_pq_delmin, zv_pq_is_empty. rewrite Hn. cbn [Nat.eqb]. rewrite E1.
    cbn [mbind option_bind]. rewrite Hn1. replace (S n - 1) with n by lia.
    replace (nalloc (q1 <| nalloc := n |>)) with n by done. rewrite E2.
    cbn [mbind option_bind]. pose proof Hq2 as (Hn2 & _ & Hlt2 & _). rewrite Hn2.
    destruct (Nat.ltb_spec 0 n) as [H0|]; cbn [andb]; [|eauto].
    destruct (Nat.leb_spec n ((size q2 - 1) / 4)) as [Hle|]; [|eauto].
    assert (n < size q2 / 2) as Hhalf.
    { pose proof (Nat.Div0.mul_div_le (size q2 - 1) 4). apply Nat.div_le_lower_bound; lia. }
    destruct malloc_ok.
    - destruct (resize_spec q2 h2 n (size q2 / 2) Hq2 Hhalf) as (q3 & -> & Hq3 & _).
      exists ZV_OK, q3. done.
    - exists (-1)%Z, q2. unfold resize. rewrite Hn2, (proj2 (Nat.leb_gt _ n)) by done. done. }
  exists (h 1), (elements_of h2 n), rc, q'. split_and!; try done.
  - unfold zv_pq_min, zv_pq_is_empty. rewrite Hn. cbn [Nat.eqb]. by rewrite (Hg 1) by lia.
  - by rewrite <-Hp, <-Hp2.
  - rewrite <-Hp. apply Forall_forall. intros y (i & -> & Hi)%list_elem_of_fmap.
    apply elem_of_seq in Hi. apply (heap_root h (S n)); [done|lia].
  - by eapply is_heap_intro.
Qed.

Lemma is_heap_empty q : is_heap comp q [] → zv_pq_is_empty q = true ∧ zv_pq_min q = Some None.
Proof.
  intros (h & (Hn & _) & _). unfold zv_pq_min, zv_pq_is_empty. by rewrite Hn.
Qed.

Lemma is_heap_size q xs : is_heap comp q xs → zv_pq_size q = length xs.
Proof. by intros (h & (Hn & _) & _). Qed.

Lemma init_heap `{!Inhabited A} malloc_ok n q :
  zv_pq_init malloc_ok n = Some q → is_heap comp q [].
Proof.
  unfold zv_pq_init. destruct malloc_ok; [|done]. intros [= <-]. exists (fun _ => inhabitant).
  split; [|split; [intros i Hi; simpl in Hi; lia|done]].
  split_and!; cbn; [done|by rewrite length_replicate|lia|lia].
Qed.
End proofs.

(** The order of the queue may change on elements it does not hold. *)
Lemma is_heap_ext {A} (comp comp' : A → A → bool) q xs :
  (∀ x y, x ∈ xs → y ∈ xs → comp x y = comp' x y) → is_heap comp q xs → is_heap comp' q xs.
Proof.
  intros Hext (h & Hq & Hh & Hp). exists h. split; [done|]. split; [|done].
  intros i Hi. unfold le. pose proof (half_lt i ltac:(lia)).
  assert (∀ k, 1 ≤ k ≤ length xs → h k ∈ xs) as Hin.
  { intros k Hk. apply (elem_of_Permutation_proper (h k) _ _ Hp), list_elem_of_fmap.
    exists k. split; [done|]. apply elem_of_seq. lia. }
  rewrite <-Hext by (apply Hin; lia). by apply Hh.
Qed.

Lemma is_heap_perm {A} (comp : A → A → bool) q xs ys :
  xs ≡ₚ ys → is_heap comp q xs → is_heap comp q ys.
Proof.
  intros Hp (h & Hq & Hh & Hx). exists h. rewrite <-(Permutation_length Hp).
  split; [exact Hq|]. split; [exact Hh|]. by etransitivity.
Qed.

(** ** The interface

    What a client of the queue may rely on: a bag of elements with a least one.  The
    order is an argument, because the timers' order reads the expiry times in memory.
    [pq_insert] and [pq_delmin] take the outcome of [malloc] and return the C return
    code; [None] is a memory fault. *)
Class PriorityQueue (Q : Type → Type) := {
  pq_bag : ∀ {A}, (A → A → bool) → Q A → list A → Prop;
  pq_init : ∀ {A}, bool → nat → option (Q A);
  pq_min : ∀ {A}, Q A → option (option A);
  pq_is_empty : ∀ {A}, Q A → bool;
  pq_insert : ∀ {A}, (A → A → bool) → bool → Q A → A → option (Z * Q A);
  pq_delmin : ∀ {A}, (A → A → bool) → bool → Q A → option (Z * Q A);

  pq_init_law A `{!Inhabited A} (comp : A → A → bool) malloc_ok n q :
    pq_init malloc_ok n = Some q → pq_bag comp q [];
  pq_init_total A n : is_Some (@pq_init A true n);
  pq_bag_perm A (comp : A → A → bool) q xs ys : xs ≡ₚ ys → pq_bag comp q xs → pq_bag comp q ys;
  pq_bag_ext A (comp comp' : A → A → bool) q xs :
    (∀ x y, x ∈ xs → y ∈ xs → comp x y = comp' x y) → pq_bag comp q xs → pq_bag comp' q xs;
  pq_empty_law A (comp : A → A → bool) q :
    pq_bag comp q [] → pq_is_empty q = true ∧ pq_min q = Some None;
  pq_insert_law A (comp : A → A → bool) `{!StrictWeak comp} q xs x :
    pq_bag comp q xs →
    ∃ q', pq_insert comp true q x = Some (ZV_OK, q') ∧ pq_bag comp q' (x :: xs);
  pq_insert_fail_law A (comp : A → A → bool) `{!StrictWeak comp} q xs x :
    pq_bag comp q xs →
    pq_insert comp false q x = Some ((-1)%Z, q) ∨
    pq_insert comp false q x = pq_insert comp true q x;
  pq_delmin_law A (comp : A → A → bool) `{!StrictWeak comp} malloc_ok q xs :
    pq_bag comp q xs → xs ≠ [] →
    ∃ x ys rc q', pq_is_empty q = false ∧ pq_min q = Some (Some x) ∧ xs ≡ₚ x :: ys ∧
      Forall (le comp x) xs ∧ pq_delmin comp malloc_ok q = Some (rc, q') ∧ pq_bag comp q' ys;
}.

#[export] Program Instance zv_pq_queue : PriorityQueue zv_pq := {
  pq_bag A comp q xs := is_heap comp q xs;
  pq_init A := zv_pq_init;
  pq_min A := zv_pq_min;
  pq_is_empty A := zv_pq_is_empty;
  pq_insert A := zv_pq_insert;
  pq_delmin A := zv_pq_delmin;
}.
Next Obligation. intros A ? comp malloc_ok n q. by apply init_heap. Qed.
Next Obligation. intros A n. by eexists. Qed.
Next Obligation. intros A comp q xs ys. apply is_heap_perm. Qed.
Next Obligation. intros A comp comp' q xs. apply is_heap_ext. Qed.
Next Obligation. intros A comp q. apply is_heap_empty. Qed.
Next Obligation. intros A comp ? q xs x. by apply insert_spec. Qed.
Next Obligation.
  intros A comp ? q xs x Hq. destruct (insert_no_memory comp q xs x Hq) as [[_ ?]|[_ ?]]; auto.
Qed.
Next Obligation.
  intros A comp ? malloc_ok q xs Hq Hne.
  destruct (delmin_spec comp malloc_ok q xs Hq Hne) as (x & ys & rc & q' & Hmin & Hp & Hf & E & Hq' & _).
  exists x, ys, rc, q'. split_and!; try done. revert Hmin. unfold zv_pq_min.
  by destruct (zv_pq_is_empty q).
Qed.

(** ** Heapsort *)
Section properties.
Context {A : Type} (comp : A → A → bool).

(** [n] times [zv_pq_min] then [zv_pq_delmin]. *)
Fixpoint drain (n : nat) (q : zv_pq A) : option (list A * zv_pq A) :=
  match n with
  | O => Some ([], q)
  | S n' =>
      x ← zv_pq_min q;
      match x with
      | None => Some ([], q)
      | Some x =>
          '(_, q) ← zv_pq_delmin comp true q;
          '(xs, q) ← drain n' q;
          Some (x :: xs, q)
      end
  end.

Fixpoint insert_all (xs : list A) (q : zv_pq A) : option (zv_pq A) :=
  match xs with
  | [] => Some q
  | x :: xs => '(_, q) ← zv_pq_insert comp true q x; insert_all xs q
  end.

Context `{!StrictWeak comp}.

Lemma insert_all_spec xs q ys :
  is_heap comp q ys → ∃ q', insert_all xs q = Some q' ∧ is_heap comp q' (xs ++ ys).
Proof.
  revert q ys. induction xs as [|x xs IH]; intros q ys Hq; [by exists q|].
  destruct (insert_spec comp q ys x Hq) as (q1 & E & Hq1).
  destruct (IH q1 _ Hq1) as (q2 & E2 & Hq2). exists q2. cbn [insert_all]. rewrite E.
  split; [done|]. eapply is_heap_perm; [|exact Hq2]. symmetry. apply Permutation_middle.
Qed.

Lemma drain_spec n q xs :
  is_heap comp q xs → length xs = n →
  ∃ ys q', drain n q = Some (ys, q') ∧ ys ≡ₚ xs ∧ StronglySorted (le comp) ys ∧
    is_heap comp q' [].
Proof.
  revert q xs. induction n as [|n IH]; intros q xs Hq Hl.
  { apply nil_length_inv in Hl as ->. exists [], q. split_and!; try done. constructor. }
  destruct (delmin_spec comp true q xs Hq) as (x & ys & rc & q1 & Hmin & Hp & Hf & E & Hq1 & _);
    [by intros ->|].
  assert (length ys = n) by (rewrite Hp in Hl; simpl in Hl; lia).
  destruct (IH q1 ys Hq1) as (zs & q2 & E2 & Hzs & Hsort & Hq2); [done|].
  exists (x :: zs), q2. cbn [drain]. rewrite Hmin. cbn [mbind option_bind]. rewrite E.
  cbn [mbind option_bind]. rewrite E2. split_and!; try done; [by rewrite Hzs, Hp|].
  constructor; [done|]. rewrite Hzs. rewrite Hp in Hf. by inversion Hf.
Qed.

(** Inserting any elements in an initialised queue, whatever its first capacity, and
    taking them all out again never touches memory outside the array and returns exactly
    those elements in non-decreasing order; the array grows and shrinks on the way. *)
Theorem queue_sorts (n : nat) (q : zv_pq A) (xs : list A) :
  Inhabited A → zv_pq_init true n = Some q →
  ∃ q1 ys q2, insert_all xs q = Some q1 ∧ zv_pq_size q1 = length xs ∧
    drain (length xs) q1 = Some (ys, q2) ∧
    ys ≡ₚ xs ∧ StronglySorted (le comp) ys ∧ zv_pq_is_empty q2 = true.
Proof.
  intros Hi Hq. destruct (insert_all_spec xs q []) as (q1 & E1 & Hq1); [by eapply init_heap|].
  rewrite app_nil_r in Hq1.
  destruct (drain_spec (length xs) q1 xs Hq1 eq_refl) as (ys & q2 & E2 & Hp & Hs & Hq2).
  exists q1, ys, q2. split_and!; try done; [by eapply is_heap_size|by eapply is_heap_empty].
Qed.

(** C13. On any queue that is a heap of [xs], [zv_pq_insert] adds its argument and
    [zv_pq_delmin] removes the element [zv_pq_min] returns, which is a least one; both keep
    the heap, and neither faults.  When [malloc] fails, an insertion that needs room
    returns -1 and leaves the queue as it was, and a deletion removes the least element
    all the same. *)
Theorem queue_step (malloc_ok : bool) (q : zv_pq A) (xs : list A) (x : A) :
  is_heap comp q xs →
  (∃ rc q', zv_pq_insert comp malloc_ok q x = Some (rc, q') ∧
     (rc = ZV_OK ∧ is_heap comp q' (x :: xs) ∨
      rc = (-1)%Z ∧ q' = q ∧ malloc_ok = false ∧ length xs + 1 = size q)) ∧
  (zv_pq_min q = Some None ∧ xs = [] ∨
   ∃ y ys rc q', zv_pq_min q = Some (Some y) ∧ xs ≡ₚ y :: ys ∧ Forall (le comp y) xs ∧
     zv_pq_delmin comp malloc_ok q = Some (rc, q') ∧ is_heap comp q' ys ∧
     (malloc_ok = true → rc = ZV_OK)).
Proof.
  intros Hq. split.
  - destruct (insert_spec comp q xs x Hq) as (q1 & E1 & Hq1).
    destruct malloc_ok; [exists ZV_OK, q1; split; [exact E1|by left]|].
    destruct (insert_no_memory comp q xs x Hq) as [[Hn E]|[_ E]]; rewrite E;
      [|exists ZV_OK, q1; split; [exact E1|by left]].
    exists (-1)%Z, q. split; [done|]. right. split_and!; try done.
    rewrite <-(is_heap_size comp q xs Hq). done.
  - destruct (decide (xs = [])) as [->|Hne].
    + left. split; [by eapply is_heap_empty|done].
    + right. destruct (delmin_spec comp malloc_ok q xs Hq Hne) as (y & ys & rc & q' & ?).
      exists y, ys, rc, q'. naive_solver.
Qed.
End properties.

Definition nat_lt (x y : nat) : bool := x <? y.

#[export] Instance nat_lt_strict : StrictWeak nat_lt.
Proof. split; unfold nat_lt; intros *; rewrite ?Nat.ltb_lt, ?Nat.ltb_ge; lia. Qed.

Lemma queue_sorts_witness :
  ∃ q, zv_pq_init true 1 = Some q ∧
  ∃ q1 ys q2, insert_all nat_lt [5; 3; 8; 1; 3] q = Some q1 ∧ zv_pq_size q1 = 5 ∧
    drain nat_lt 5 q1 = Some (ys, q2) ∧
    ys ≡ₚ [5; 3; 8; 1; 3] ∧ StronglySorted (le nat_lt) ys ∧ zv_pq_is_empty q2 = true.
Proof.
  eexists. split; [reflexivity|]. apply (queue_sorts nat_lt 1 _ [5; 3; 8; 1; 3]).
  - exact (populate 0).
  - reflexivity.
Defined.

Lemma queue_step_witness :
  let q := mk_pq [None; Some 3; Some 5; Some 4] 3 4 in
  is_heap nat_lt q [4; 3; 5] ∧
  ((∃ rc q', zv_pq_insert nat_lt false q 1 = Some (rc, q') ∧
     (rc = ZV_OK ∧ is_heap nat_lt q' [1; 4; 3; 5] ∨
      rc = (-1)%Z ∧ q' = q ∧ false = false ∧ 3 + 1 = size q)) ∧
   (zv_pq_min q = Some None ∧ [4; 3; 5] = [] ∨
    ∃ y ys rc q', zv_pq_min q = Some (Some y) ∧ [4; 3; 5] ≡ₚ y :: ys ∧
      Forall (le nat_lt y) [4; 3; 5] ∧
      zv_pq_delmin nat_lt false q = Some (rc, q') ∧ is_heap nat_lt q' ys ∧
      (false = true → rc = ZV_OK))).
Proof.
  intros q. assert (is_heap nat_lt q [4; 3; 5]) as Hq.
  { exists (fun i => nth i [0; 3; 5; 4] 0). split; [split_and!|split].
    - reflexivity.
    - reflexivity.
    - unfold q. simpl. lia.
    - intros i Hi. simpl in Hi. destruct i as [|[|[|[|]]]]; [lia|reflexivity..|lia].
    - intros i Hi. simpl in Hi. destruct i as [|[|[|[|]]]]; [lia|lia|reflexivity..|lia].
    - cbn. solve_Permutation. }
  split; [exact Hq|]. apply (queue_step nat_lt false q [4; 3; 5] 1 Hq).
Defined.
