(* ===== verification/Timer.v ===== *)
(** * Timers (timer.c, timer.h)

    One timer per request, in a priority queue ordered by expiry time.  Deleting a
    timer only marks its node; the node is freed when it reaches the head of the queue.
    The queue is used through the interface [PriorityQueue].

    [clock n] is what the [n]-th call of [clock_gettime] stores, seconds and
    nanoseconds; [malloc n] says whether the [n]-th allocation succeeds.  Handlers are
    abstract ([F]): their calls are recorded in [fired], in order.  The only handler the
    program registers, [zv_http_close_conn], calls no function of this file. *)
From Stdlib Require Import Sorting.Sorted.
From S2P Require Import Prelude PriorityQueue.

Definition ZV_TIMER_INFINITE : Z := -1.

Record zv_timer_node (F : Type) := mk_node {
  key : Z;
  deleted : bool;
  handler : option F;
  rq : nat;
}.
Arguments mk_node {F} key deleted handler rq.
Arguments key {F} z.
Arguments deleted {F} z.
Arguments handler {F} z.
Arguments rq {F} z.
#[export] Instance eta_node F : Eta (zv_timer_node F) :=
  fun n => mk_node (key n) (deleted n) (handler n) (rq n).

(** [node] is the memory of the nodes, by address; [rq_timer !! r] is [r->timer]. *)
Record timers (Q : Type → Type) (F : Type) := mk_timers {
  zv_timer : Q nat;
  node : gmap nat (zv_timer_node F);
  rq_timer : gmap nat nat;
  zv_current_msec : Z;
  ticks : nat;
  allocs : nat;
  fired : list (F * nat);
}.
Arguments mk_timers {Q F} zv_timer node rq_timer zv_current_msec ticks allocs fired.
Arguments zv_timer {Q F} t.
Arguments node {Q F} t.
Arguments rq_timer {Q F} t.
Arguments zv_current_msec {Q F} t.
Arguments ticks {Q F} t.
Arguments allocs {Q F} t.
Arguments fired {Q F} t.
#[export] Instance eta_timers Q F : Eta (timers Q F) := fun t =>
  mk_timers (zv_timer t) (node t) (rq_timer t) (zv_current_msec t) (ticks t) (allocs t) (fired t).

Definition key_of {F} (m : gmap nat (zv_timer_node F)) (i : nat) : Z := from_option key 0%Z (m !! i).

(** Reads the two nodes in memory. *)
Definition timer_comp {F} (m : gmap nat (zv_timer_node F)) (ti tj : nat) : bool :=
  (key_of m ti <? key_of m tj)%Z.

Section timer.
Context {Q : Type → Type} `{PriorityQueue Q} {F : Type}.
Variables (clock : nat → Z * Z) (malloc : nat → bool).
Implicit Types (t : timers Q F) (r id : nat).

(** ** Operations *)

Definition msec (ts : Z * Z) : Z := u64 (u64 (ts.1 * 1000) + ts.2 / 1000000).

Definition zv_time_update t : timers Q F :=
  t <| zv_current_msec := msec (clock (ticks t)) |> <| ticks := S (ticks t) |>.

(** [t0] holds the memory before the queue exists. *)
Definition zv_timer_init t : option (timers Q F) :=
  q ← (pq_init (malloc (allocs t)) ZV_PQ_DEFAULT_SIZE : option (Q nat));
  Some (zv_time_update (t <| zv_timer := q |> <| allocs := S (allocs t) |>)).

(** [zv_pq_delmin] then [free]. *)
Definition drop_node t id : option (timers Q F) :=
  '(_, q) ← pq_delmin (timer_comp (node t)) (malloc (allocs t)) (zv_timer t);
  Some (t <| zv_timer := q |> <| allocs := S (allocs t) |> <| node := delete id (node t) |>).

(** The node at the head of the queue. *)
Definition head_node t : option (nat * zv_timer_node F) :=
  m ← pq_min (zv_timer t);
  id ← m;
  n ← node t !! id;
  Some (id, n).

Fixpoint find_loop (fuel : nat) t : option (Z * timers Q F) :=
  match fuel with
  | O => None
  | S fuel' =>
      if pq_is_empty (zv_timer t) then Some (ZV_TIMER_INFINITE, t)
      else
        let t := zv_time_update t in
        '(id, n) ← head_node t;
        if deleted n then t ← drop_node t id; find_loop fuel' t
        else
          let time := i32 (u64 (key n - zv_current_msec t)) in
          Some (if 0 <? time then time else 0, t)%Z
  end.

(** Every node of the queue is in memory, so this is fuel enough. *)
Definition zv_find_timer t : option (Z * timers Q F) := find_loop (S (base.size (node t))) t.

Definition run_handler t (n : zv_timer_node F) : timers Q F :=
  match handler n with
  | Some h => t <| rq_timer := delete (rq n) (rq_timer t) |> <| fired := fired t ++ [(h, rq n)] |>
  | None => t
  end.

Fixpoint expire_loop (fuel : nat) t : option (timers Q F) :=
  match fuel with
  | O => None
  | S fuel' =>
      if pq_is_empty (zv_timer t) then Some t
      else
        let t := zv_time_update t in
        '(id, n) ← head_node t;
        if deleted n then t ← drop_node t id; expire_loop fuel' t
        else if (key n >? zv_current_msec t)%Z then Some t
        else
          let t := run_handler t n in
          t ← drop_node t id;
          expire_loop fuel' t
  end.

Definition zv_handle_expire_timers t : option (timers Q F) :=
  expire_loop (S (base.size (node t))) t.

(** A failed [malloc] of the node is only logged, and its first use faults; a failed
    insertion is only logged. *)
Definition zv_add_timer t r (timeout : Z) (h : option F) : option (timers Q F) :=
  if negb (malloc (allocs t)) then None
  else
    let id := fresh (dom (node t)) in
    let t := zv_time_update (t <| allocs := S (allocs t) |>) in
    let t := t <| rq_timer := <[r := id]> (rq_timer t) |>
               <| node := <[id := mk_node (u64 (zv_current_msec t + timeout)) false h r]> (node t) |> in
    '(_, q) ← pq_insert (timer_comp (node t)) (malloc (allocs t)) (zv_timer t) id;
    Some (t <| zv_timer := q |> <| allocs := S (allocs t) |>).

(** [r->timer == NULL] is only logged, and then dereferenced. *)
Definition zv_del_timer t r : option (timers Q F) :=
  let t := zv_time_update t in
  id ← rq_timer t !! r;
  n ← node t !! id;
  Some (t <| node := <[id := n <| deleted := true |>]> (node t) |>
          <| rq_timer := delete r (rq_timer t) |>).

(** ** Invariant *)

(** When [r] is to be closed, and by which handler. *)
Definition deadline t r : option (Z * F) :=
  id ← rq_timer t !! r; n ← node t !! id; h ← handler n; Some (key n, h).

(** The queue holds every node in memory once; [r->timer] is the one live node of
    [r]; the current time is not in the future. *)
Record timers_inv t (ids : list nat) : Prop := mk_timers_inv {
  inv_bag : pq_bag (timer_comp (node t)) (zv_timer t) ids;
  inv_nodup : NoDup ids;
  inv_dom id : id ∈ ids ↔ is_Some (node t !! id);
  inv_live r id :
    rq_timer t !! r = Some id ↔ ∃ n, node t !! id = Some n ∧ deleted n = false ∧ rq n = r;
  inv_handler id n : node t !! id = Some n → is_Some (handler n);
  inv_clock k : ticks t ≤ k → (zv_current_msec t ≤ msec (clock k))%Z;
}.

Definition timers_ok t : Prop := ∃ ids, timers_inv t ids.
End timer.

#[export] Instance timer_comp_strict {F} (m : gmap nat (zv_timer_node F)) :
  StrictWeak (timer_comp m).
Proof. split; unfold timer_comp; intros *; rewrite ?Z.ltb_lt, ?Z.ltb_ge; lia. Qed.

Section proofs.
Context {Q : Type → Type} `{PriorityQueue Q} {F : Type}.
Variables (clock : nat → Z * Z) (malloc : nat → bool).
(** CLOCK_MONOTONIC never goes back. *)
Hypothesis clock_mono : ∀ i j, i ≤ j → (msec (clock i) ≤ msec (clock j))%Z.
Implicit Types (t : timers Q F) (r id : nat).
Notation inv := (timers_inv clock).

Lemma le_timer_comp (m : gmap nat (zv_timer_node F)) i j ni nj :
  m !! i = Some ni → m !! j = Some nj → le (timer_comp m) i j → (key ni ≤ key nj)%Z.
Proof.
  unfold le, timer_comp, key_of. intros -> ->. simpl. by rewrite Z.ltb_ge.
Qed.

Lemma key_of_ne (m : gmap nat (zv_timer_node F)) i j n :
  i ≠ j → key_of (<[i := n]> m) j = key_of m j.
Proof. intros. unfold key_of. by rewrite lookup_insert_ne. Qed.

Lemma key_of_same (m : gmap nat (zv_timer_node F)) i n n' j :
  m !! i = Some n → key n' = key n → key_of (<[i := n']> m) j = key_of m j.
Proof.
  intros Hn Hk. destruct (decide (i = j)) as [<-|]; [|by apply key_of_ne].
  unfold key_of. by rewrite lookup_insert_eq, Hn.
Qed.

Lemma inv_size t ids : inv t ids → length ids = base.size (node t).
Proof.
  intros Hi. rewrite <-size_dom, <-(size_list_to_set (C := gset nat)) by apply Hi.
  f_equal. apply set_eq. intros id. rewrite elem_of_list_to_set, elem_of_dom. apply Hi.
Qed.

Lemma update_inv t ids : inv t ids → inv (zv_time_update clock t) ids.
Proof.
  intros [Hbag Hnd Hdom Hlive Hh Hc]. split; try done.
  intros k Hk. simpl in *. apply clock_mono. lia.
Qed.

Lemma inv_not_empty t id ids : inv t (id :: ids) → pq_is_empty (zv_timer t) = false.
Proof.
  intros Hi. destruct (pq_delmin_law _ _ true _ _ (inv_bag _ _ _ Hi)) as (x & ys & rc & q & ? & _);
    done.
Qed.

(** The head of the queue has the least key, and dropping it leaves the rest. *)
Lemma head_spec t ids :
  inv t ids → ids ≠ [] →
  ∃ id n ids' q, head_node t = Some (id, n) ∧ node t !! id = Some n ∧
    ids ≡ₚ id :: ids' ∧ (∀ id' n', node t !! id' = Some n' → (key n ≤ key n')%Z) ∧
    pq_bag (timer_comp (delete id (node t))) q ids' ∧
    ∀ t', node t' = node t → zv_timer t' = zv_timer t → allocs t' = allocs t →
      drop_node malloc t' id =
      Some (t' <| zv_timer := q |> <| allocs := S (allocs t') |> <| node := delete id (node t') |>).
Proof.
  intros Hi Hne.
  destruct (pq_delmin_law _ _ (malloc (allocs t)) _ _ (inv_bag _ _ _ Hi) Hne)
    as (id & ids' & rc & q & _ & Hmin & Hp & Hle & Hdel & Hq).
  assert (id ∈ ids) as Hin by (rewrite Hp; apply list_elem_of_here).
  pose proof (inv_nodup _ _ _ Hi) as Hnd. rewrite Hp in Hnd. apply NoDup_cons in Hnd as [Hni _].
  pose proof Hin as [n Hn]%(inv_dom _ _ _ Hi).
  exists id, n, ids', q. split_and!.
  - unfold head_node. rewrite Hmin. simpl. by rewrite Hn.
  - exact Hn.
  - exact Hp.
  - intros id' n' Hn'. eapply le_timer_comp; [exact Hn|exact Hn'|].
    rewrite Forall_forall in Hle. apply Hle, (inv_dom _ _ _ Hi). eauto.
  - eapply pq_bag_ext; [|exact Hq]. intros x y Hx Hy. unfold timer_comp, key_of.
    rewrite !lookup_delete_ne; [done|by intros ->..].
  - intros t' Em Eq Ea. unfold drop_node. rewrite Em, Eq, Ea, Hdel. done.
Qed.

Lemma inv_deadline t ids r d h :
  inv t ids → deadline t r = Some (d, h) ↔
  ∃ id n, node t !! id = Some n ∧ deleted n = false ∧ rq n = r ∧ key n = d ∧ handler n = Some h.
Proof.
  intros Hi. unfold deadline. split.
  - intros Hd. destruct (rq_timer t !! r) as [id|] eqn:Er; [|done].
    pose proof Er as (n & Hn & Hl & Hr)%(inv_live _ _ _ Hi). simpl in Hd. rewrite Hn in Hd.
    simpl in Hd. destruct (handler n) eqn:Eh; [|done]. injection Hd as <- <-. by exists id, n.
  - intros (id & n & Hn & Hl & Hr & <- & Hh).
    rewrite (proj2 (inv_live _ _ _ Hi r id)) by eauto. simpl. by rewrite Hn; simpl; rewrite Hh.
Qed.

(** Dropping the head once no request refers to it. *)
Lemma drop_inv t ids id n ids' q (rqt : gmap nat nat) (fl : list (F * nat)) a :
  inv t ids → node t !! id = Some n → ids ≡ₚ id :: ids' →
  pq_bag (timer_comp (delete id (node t))) q ids' →
  (∀ r, rqt !! r = if decide (rq_timer t !! r = Some id) then None else rq_timer t !! r) →
  inv (t <| rq_timer := rqt |> <| fired := fl |> <| zv_timer := q |> <| allocs := a |>
         <| node := delete id (node t) |>) ids'.
Proof.
  intros Hi Hn Hp Hq Hr. pose proof (inv_nodup _ _ _ Hi) as Hnd. rewrite Hp in Hnd.
  apply NoDup_cons in Hnd as [Hni Hnd]. split; simpl.
  - exact Hq.
  - exact Hnd.
  - intros id'. rewrite lookup_delete_is_Some, <-(inv_dom _ _ _ Hi), Hp, elem_of_cons.
    split; [intros Hin; split; [by intros ->|by right]|intros [Hne [->|]]; done].
  - intros r id'. rewrite Hr. destruct (decide _) as [E|E].
    + split; [done|]. intros (n' & Hn' & Hl & <-). apply lookup_delete_Some in Hn' as [Hne Hn'].
      destruct Hne. assert (rq_timer t !! rq n' = Some id') as E'.
      { apply (inv_live _ _ _ Hi). eauto. }
      congruence.
    + rewrite (inv_live _ _ _ Hi). setoid_rewrite lookup_delete_Some. split.
      * intros (n' & Hn' & ?). exists n'. split_and!; try tauto. intros ->. apply E.
        apply (inv_live _ _ _ Hi). eauto.
      * intros (n' & [? Hn'] & ?). eauto.
  - intros id' n' [_ Hn']%lookup_delete_Some. by eapply inv_handler.
  - apply Hi.
Qed.

(** What a step of the loops leaves alone. *)
Definition same_clock t t' : Prop :=
  ticks t' = ticks t ∧ zv_current_msec t' = zv_current_msec t.

Lemma deadline_drop t t' ids ids' id n r :
  inv t ids → inv t' ids' → node t !! id = Some n → node t' = delete id (node t) →
  deadline t' r =
    if decide (deleted n = false ∧ rq n = r) then None else deadline t r.
Proof.
  intros Hi Hi' Hn Em. apply option_eq. intros [d h].
  rewrite (inv_deadline t' ids') by done. rewrite Em. setoid_rewrite lookup_delete_Some.
  destruct (decide _) as [[Hl Hr]|Hd].
  - split; [|done]. intros (id' & n' & [Hne Hn'] & Hl' & Hr' & _). destruct Hne.
    assert (rq_timer t !! r = Some id) by (apply (inv_live _ _ _ Hi); eauto).
    assert (rq_timer t !! r = Some id') by (apply (inv_live _ _ _ Hi); eauto). congruence.
  - rewrite (inv_deadline t ids) by done. split; [naive_solver|].
    intros (id' & n' & Hn' & Hl' & Hr' & ?). exists id', n'. split_and!; try tauto.
    intros ->. apply Hd. by simplify_eq.
Qed.

Lemma head_dead t ids :
  inv t ids → ids ≠ [] →
  ∃ id n, head_node t = Some (id, n) ∧ node t !! id = Some n ∧
    (∀ r d h, deadline t r = Some (d, h) → (key n ≤ d)%Z) ∧
    (deleted n = true → ∃ t' ids', drop_node malloc t id = Some t' ∧ inv t' ids' ∧
      length ids = S (length ids') ∧ same_clock t t' ∧ fired t' = fired t ∧
      ∀ r, deadline t' r = deadline t r).
Proof.
  intros Hi Hne. destruct (head_spec t ids Hi Hne) as (id & n & ids' & q & Hh & Hn & Hp & Hle & Hq & Hd).
  exists id, n. split_and!; try done.
  - intros r d h (id' & n' & Hn' & _ & _ & <- & _)%(inv_deadline _ ids); [by eapply Hle|done].
  - intros Hdel. pose proof (Hd t eq_refl eq_refl eq_refl) as ->.
    pose proof (drop_inv t ids id n ids' q (rq_timer t) (fired t) (S (allocs t)) Hi Hn Hp Hq) as Hi'.
    match type of Hi' with _ → timers_inv _ ?x _ => assert (inv x ids') as Hi2 end.
    { apply Hi'. intros r. case_decide as E; [|done].
      apply (inv_live _ _ _ Hi) in E as (n' & ? & ? & ?). congruence. }
    eexists _, ids'. split; [reflexivity|]. split; [exact Hi2|].
    split; [by rewrite Hp|]. split; [done|]. split; [done|]. intros r.
    etransitivity; [exact (deadline_drop t _ ids ids' id n r Hi Hi2 Hn eq_refl)|].
    rewrite decide_False; [done|]. by rewrite Hdel; intros [].
Qed.

Lemma head_fires t ids id n :
  inv t ids → ids ≠ [] → head_node t = Some (id, n) → deleted n = false →
  ∃ h t' ids', handler n = Some h ∧ deadline t (rq n) = Some (key n, h) ∧
    drop_node malloc (run_handler t n) id = Some t' ∧ inv t' ids' ∧
    length ids = S (length ids') ∧ same_clock t t' ∧ fired t' = fired t ++ [(h, rq n)] ∧
    ∀ r, deadline t' r = if decide (r = rq n) then None else deadline t r.
Proof.
  intros Hi Hne Hh Hl.
  destruct (head_spec t ids Hi Hne) as (id' & n' & ids' & q & Hh' & Hn & Hp & Hle & Hq & Hd).
  rewrite Hh in Hh'. injection Hh' as <- <-.
  destruct (inv_handler _ _ _ Hi id n Hn) as [h Eh]. unfold run_handler. rewrite Eh.
  assert (rq_timer t !! rq n = Some id) as Er by (apply (inv_live _ _ _ Hi); eauto).
  pose proof (drop_inv t ids id n ids' q (delete (rq n) (rq_timer t)) (fired t ++ [(h, rq n)])
                (S (allocs t)) Hi Hn Hp Hq) as Hi'.
  match type of Hi' with _ → timers_inv _ ?x _ => assert (inv x ids') as Hi2 end.
  { apply Hi'. intros r. case_decide as E.
    - apply (inv_live _ _ _ Hi) in E as (n' & ? & ? & <-). simplify_eq. apply lookup_delete_eq.
    - rewrite lookup_delete_ne; [done|]. by intros <-. }
  eexists h, _, ids'. split; [done|]. split; [apply (inv_deadline _ ids); [done|by exists id, n]|].
  split; [by apply Hd|]. split; [exact Hi2|]. split; [by rewrite Hp|]. split; [done|].
  split; [done|]. intros r.
  etransitivity; [exact (deadline_drop t _ ids ids' id n r Hi Hi2 Hn eq_refl)|].
  destruct (decide (r = rq n)) as [->|Hr]; [by rewrite decide_True|].
  rewrite decide_False; [done|]. intros [_ ?]; congruence.
Qed.

Lemma deadline_empty t r : inv t [] → deadline t r = None.
Proof.
  intros Hi. destruct (deadline t r) as [[d h]|] eqn:E; [|done].
  apply (inv_deadline _ [] _ _ _ Hi) in E as (id & n & Hn & _).
  exfalso. apply (not_elem_of_nil id), (inv_dom _ _ _ Hi). by exists n.
Qed.

Lemma empty_inv t ids : inv t ids → pq_is_empty (zv_timer t) = true → ids = [].
Proof.
  intros Hi He. destruct ids as [|id ids]; [done|].
  by rewrite (inv_not_empty _ _ _ Hi) in He.
Qed.

(** ** The two loops *)

(** The timeout [zv_find_timer] computes from the least deadline. *)
Definition timeout_of (d now : Z) : Z :=
  let time := i32 (u64 (d - now)) in if (0 <? time)%Z then time else 0%Z.

Lemma find_loop_spec fuel t ids :
  inv t ids → length ids < fuel →
  ∃ v t' ids', find_loop clock malloc fuel t = Some (v, t') ∧ inv t' ids' ∧ fired t' = fired t ∧
    (∀ r, deadline t' r = deadline t r) ∧
    (v = ZV_TIMER_INFINITE ∧ (∀ r, deadline t r = None) ∨
     ∃ r d h, deadline t r = Some (d, h) ∧ v = timeout_of d (zv_current_msec t') ∧
       ∀ r' d' h', deadline t r' = Some (d', h') → (d ≤ d')%Z).
Proof.
  revert t ids. induction fuel as [|fuel IH]; intros t ids Hi Hf; [lia|]. cbn [find_loop].
  destruct ids as [|id0 ids0].
  { destruct (pq_empty_law _ _ _ (inv_bag _ _ _ Hi)) as [-> _].
    exists ZV_TIMER_INFINITE, t, []. split_and!; try done. left. split; [done|].
    intros r. by apply deadline_empty. }
  rewrite (inv_not_empty _ _ _ Hi). set (ids := id0 :: ids0) in *.
  pose proof (update_inv _ _ Hi) as Hi1. set (t1 := zv_time_update clock t) in *.
  destruct (head_dead t1 ids Hi1) as (id & n & Hh & Hn & Hle & Hdead); [done|].
  rewrite Hh. cbn [mbind option_bind]. destruct (deleted n) eqn:Edel.
  - destruct (Hdead eq_refl) as (t2 & ids2 & -> & Hi2 & Hlen & _ & Hfired & Hdl).
    cbn [mbind option_bind].
    destruct (IH t2 ids2 Hi2) as (v & t' & ids' & E & Hi' & Hf' & Hd' & Hv); [lia|].
    exists v, t', ids'. split; [done|]. split; [done|]. split; [by rewrite Hf', Hfired|].
    split; [intros r; by rewrite Hd', Hdl|].
    destruct Hv as [[-> Hv]|(r & d & h & Hr & -> & Hm)]; [left|right].
    + split; [done|]. intros r. by rewrite <-(Hv r), Hdl.
    + exists r, d, h. split; [by rewrite <-Hr, Hdl|]. split; [done|].
      intros r' d' h' Hr'. apply (Hm r' d' h'). by rewrite Hdl.
  - destruct (head_fires t1 ids id n Hi1) as (h & _ & _ & _ & Hd & _); try done.
    eexists _, t1, ids. split; [reflexivity|]. split; [done|]. split; [done|]. split; [done|].
    right. exists (rq n), (key n), h. split; [done|]. split; [done|]. exact Hle.
Qed.

(** A timer that fired: request, deadline and handler. *)
Definition fire_event (x : nat * (Z * F)) : F * nat := (x.2.2, x.1).

(** From [t] to [t'] the timers of [l] have fired, in this order, and no others are due. *)
Definition expires t t' (l : list (nat * (Z * F))) : Prop :=
  fired t' = fired t ++ (fire_event <$> l) ∧
  (zv_current_msec t ≤ zv_current_msec t')%Z ∧
  (∀ r, deadline t' r = if decide (r ∈ l.*1) then None else deadline t r) ∧
  (∀ r d h, deadline t' r = Some (d, h) → (zv_current_msec t' < d)%Z) ∧
  (∀ r d h, (r, (d, h)) ∈ l → deadline t r = Some (d, h) ∧ (d ≤ zv_current_msec t')%Z) ∧
  NoDup l.*1 ∧ StronglySorted (λ x y, (x.2.1 ≤ y.2.1)%Z) l.

Lemma expires_stop t :
  (∀ r d h, deadline t r = Some (d, h) → (zv_current_msec t < d)%Z) → expires t t [].
Proof.
  intros Hlt. split_and!; try done; [by rewrite app_nil_r|by intros r d h ?%elem_of_nil|constructor..].
Qed.

(** Before the first one fires. *)
Lemma expires_skip t t1 t' l :
  fired t1 = fired t → (zv_current_msec t ≤ zv_current_msec t1)%Z → (∀ r, deadline t1 r = deadline t r) →
  expires t1 t' l → expires t t' l.
Proof.
  intros Hf Hc Hd (Hf' & Hc' & Hd' & Hlt & Hl & Hrest). split; [by rewrite Hf', Hf|]. split; [lia|].
  split; [intros r; by rewrite Hd', Hd|]. split; [done|]. split; [|done]. intros r d h Hin. rewrite <-Hd. by apply Hl.
Qed.

(** One fires that is not later than the others. *)
Lemma expires_fire t t1 t' l r0 d0 h0 :
  fired t1 = fired t ++ [(h0, r0)] → (zv_current_msec t ≤ zv_current_msec t1)%Z →
  deadline t r0 = Some (d0, h0) → (d0 ≤ zv_current_msec t1)%Z →
  (∀ r, deadline t1 r = if decide (r = r0) then None else deadline t r) →
  (∀ r d h, deadline t r = Some (d, h) → (d0 ≤ d)%Z) →
  expires t1 t' l → expires t t' ((r0, (d0, h0)) :: l).
Proof.
  intros Hf Hc Hr0 Hd0 Hd Hmin (Hf' & Hc' & Hd' & Hlt & Hl & Hnd & Hsort).
  assert (∀ r d h, (r, (d, h)) ∈ l → r ≠ r0 ∧ deadline t r = Some (d, h)) as Hin.
  { intros r d h [Hin _]%Hl. rewrite Hd in Hin. by case_decide. }
  assert (r0 ∉ l.*1) as Hni by (intros ([r [d h]] & -> & [? _]%Hin)%list_elem_of_fmap; done).
  split; [by rewrite Hf', Hf, <-app_assoc|]. split; [lia|]. split.
  { intros r. rewrite Hd', Hd, fmap_cons. cbn [fst]. repeat case_decide; set_solver. }
  split; [done|]. split.
  { intros r d h [[= -> -> ->]|Hinl]%elem_of_cons; [split; [done|lia]|].
    split; [by eapply Hin|by eapply Hl]. }
  split; [rewrite fmap_cons; by apply NoDup_cons|]. constructor; [done|].
  apply Forall_forall. intros [r [d h]] [_ Hr]%Hin. by eapply Hmin.
Qed.

Lemma expire_loop_spec fuel t ids :
  inv t ids → length ids < fuel →
  ∃ t' ids' l, expire_loop clock malloc fuel t = Some t' ∧ inv t' ids' ∧ expires t t' l.
Proof.
  revert t ids. induction fuel as [|fuel IH]; intros t ids Hi Hf; [lia|]. cbn [expire_loop].
  destruct ids as [|id0 ids0].
  { destruct (pq_empty_law _ _ _ (inv_bag _ _ _ Hi)) as [-> _]. exists t, [], []. split; [done|]. split; [done|].
    apply expires_stop. intros r d h. by rewrite deadline_empty. }
  rewrite (inv_not_empty _ _ _ Hi). set (ids := id0 :: ids0) in *.
  pose proof (update_inv _ _ Hi) as Hi1.
  assert (zv_current_msec t ≤ zv_current_msec (zv_time_update clock t))%Z as Hcur.
  { simpl. by apply (inv_clock _ _ _ Hi). }
  match goal with |- ∃ t' ids' l, ?x = _ ∧ _ =>
    enough (∃ t' ids' l, x = Some t' ∧ inv t' ids' ∧ expires (zv_time_update clock t) t' l) as (t' & ids' & l & E & Hi' & He)
  end.
  { exists t', ids', l. split; [exact E|]. split; [done|]. by eapply expires_skip; [| | |exact He]. }
  set (t1 := zv_time_update clock t) in *. clearbody t1. clear Hcur.
  destruct (head_dead t1 ids Hi1) as (id & n & Hh & Hn & Hle & Hdead); [done|].
  rewrite Hh. cbn [mbind option_bind]. destruct (deleted n) eqn:Edel.
  - destruct (Hdead eq_refl) as (t2 & ids2 & -> & Hi2 & Hlen & [_ Hc2] & Hf2 & Hd2).
    destruct (IH t2 ids2 Hi2) as (t' & ids' & l & E & Hi' & He); [lia|].
    exists t', ids', l. split; [exact E|]. split; [done|]. eapply expires_skip; [done|lia|done|exact He].
  - destruct (Z.gtb_spec (key n) (zv_current_msec t1)) as [Hgt|Hexp].
    + exists t1, ids, []. split; [done|]. split; [done|]. apply expires_stop. intros r d h Hr. apply Hle in Hr. lia.
    + destruct (head_fires t1 ids id n Hi1) as
        (h0 & t2 & ids2 & Eh & Hd & -> & Hi2 & Hlen & [_ Hc2] & Hf2 & Hd2); try done.
      destruct (IH t2 ids2 Hi2) as (t' & ids' & l & E & Hi' & He); [lia|].
      exists t', ids', ((rq n, (key n, h0)) :: l). split; [exact E|]. split; [done|].
      eapply expires_fire; [done|lia|done|lia|done|done|exact He].
Qed.

(** ** Setting and deleting *)

Lemma add_spec t ids r timeout h :
  inv t ids → rq_timer t !! r = None →
  malloc (allocs t) = true → malloc (S (allocs t)) = true →
  ∃ t' ids', zv_add_timer clock malloc t r timeout (Some h) = Some t' ∧ inv t' ids' ∧
    fired t' = fired t ∧
    deadline t' r = Some (u64 (zv_current_msec t' + timeout), h) ∧
    ∀ r', r' ≠ r → deadline t' r' = deadline t r'.
Proof.
  intros Hi Hr Hm1 Hm2. unfold zv_add_timer. rewrite Hm1. cbn [negb].
  pose proof (is_fresh (dom (node t))) as Hfr. set (id := fresh (dom (node t))) in *.
  apply not_elem_of_dom in Hfr.
  set (k := u64 (zv_current_msec (zv_time_update clock (t <| allocs := S (allocs t) |>)) + timeout)).
  set (m := <[id := mk_node k false (Some h) r]> (node t)).
  assert (id ∉ ids) as Hni.
  { intros [x Hx]%(inv_dom _ _ _ Hi). by rewrite Hfr in Hx. }
  destruct (pq_insert_law _ (timer_comp m) (zv_timer t) ids id) as (q & Eq & Hq).
  { eapply pq_bag_ext; [|apply Hi]. intros x y Hx Hy. unfold timer_comp, m.
    rewrite !key_of_ne; [done|by intros ->..]. }
  unfold zv_time_update. simpl. rewrite Hm2. fold k m. rewrite Eq. cbn [mbind option_bind].
  match goal with |- ∃ t' ids', Some ?x = _ ∧ _ => set (t' := x) end.
  assert (inv t' (id :: ids)) as Hi'.
  { split; simpl.
    - exact Hq.
    - apply NoDup_cons. split; [done|apply Hi].
    - intros id'. unfold m. rewrite lookup_insert_is_Some, elem_of_cons, <-(inv_dom _ _ _ Hi).
      destruct (decide (id = id')) as [<-|]; naive_solver.
    - intros r' id'. unfold m. destruct (decide (r = r')) as [<-|Hne].
      + rewrite lookup_insert_eq. split; [intros [= <-]; rewrite lookup_insert_eq; eauto|].
        intros (n & [[<- <-]|[_ Hn]]%lookup_insert_Some & Hl & Hrn); [done|].
        assert (rq_timer t !! r = Some id') by (apply (inv_live _ _ _ Hi); eauto). congruence.
      + rewrite lookup_insert_ne by done. rewrite (inv_live _ _ _ Hi).
        setoid_rewrite lookup_insert_Some. split.
        * intros (n & Hn & ?). exists n. split; [right; split; [congruence|done]|done].
        * intros (n & [[<- <-]|[_ Hn]] & Hl & Hrn); [done|]. eauto.
    - intros id' n. unfold m. intros [[<- <-]|[_ Hn]]%lookup_insert_Some; [eauto|].
      by eapply (inv_handler _ _ _ Hi).
    - intros j Hj. apply clock_mono. lia. }
  exists t', (id :: ids). split; [done|]. split; [done|]. split; [done|]. split.
  - apply (inv_deadline _ _ _ _ _ Hi'). exists id, (mk_node k false (Some h) r).
    split; [simpl; unfold m; apply lookup_insert_eq|done].
  - intros r' Hne. unfold deadline. simpl. rewrite lookup_insert_ne by done.
    destruct (rq_timer t !! r') as [id'|] eqn:E; [|done]. simpl.
    apply (inv_live _ _ _ Hi) in E as (n & Hn & _). unfold m.
    rewrite lookup_insert_ne; [done|]. intros <-. congruence.
Qed.

Lemma del_spec t ids r :
  inv t ids → is_Some (rq_timer t !! r) →
  ∃ t', zv_del_timer clock t r = Some t' ∧ inv t' ids ∧ fired t' = fired t ∧
    rq_timer t' !! r = None ∧ ∀ r', deadline t' r' = if decide (r' = r) then None else deadline t r'.
Proof.
  intros Hi [id Er]. pose proof Er as (n & Hn & Hl & Hr)%(inv_live _ _ _ Hi).
  unfold zv_del_timer. simpl. rewrite Er. simpl. rewrite Hn. simpl.
  match goal with |- ∃ t', Some ?x = _ ∧ _ => set (t' := x) end.
  assert (∀ r', r' ≠ r → rq_timer t !! r' ≠ Some id) as Hother.
  { intros r' Hne (n' & Hn' & _ & Hr')%(inv_live _ _ _ Hi). congruence. }
  assert (inv t' ids) as Hi'.
  { split; simpl.
    - eapply pq_bag_ext; [|apply Hi]. intros x y Hx Hy. unfold timer_comp.
      by rewrite !(key_of_same _ _ n _ _ Hn).
    - apply Hi.
    - intros id'. rewrite lookup_insert_is_Some, (inv_dom _ _ _ Hi).
      destruct (decide (id = id')) as [<-|]; naive_solver.
    - intros r' id'. setoid_rewrite lookup_insert_Some. destruct (decide (r = r')) as [<-|Hne].
      + rewrite lookup_delete_eq. split; [done|].
        intros (n' & [[<- <-]|[Hne Hn']] & Hl' & Hr'); [done|]. destruct Hne.
        assert (rq_timer t !! r = Some id') by (apply (inv_live _ _ _ Hi); eauto). congruence.
      + rewrite lookup_delete_ne, (inv_live _ _ _ Hi) by done. split.
        * intros (n' & Hn' & Hl' & Hr'). exists n'. split; [|done]. right. split; [|done]. intros <-.
          congruence.
        * intros (n' & [[<- <-]|[_ Hn']] & Hl' & Hr'); [done|]. eauto.
    - intros id' n' [[<- <-]|[_ Hn']]%lookup_insert_Some;
        [exact (inv_handler _ _ _ Hi _ _ Hn)|by eapply (inv_handler _ _ _ Hi)].
    - intros j Hj. apply clock_mono. lia. }
  exists t'. split; [done|]. split; [done|]. split; [done|]. split; [simpl; apply lookup_delete_eq|].
  intros r'. unfold deadline. simpl. case_decide as Hd; [subst; by rewrite lookup_delete_eq|].
  rewrite lookup_delete_ne by done. destruct (rq_timer t !! r') as [id'|] eqn:E; [|done]. simpl.
  rewrite lookup_insert_ne; [done|]. intros <-. by eapply Hother.
Qed.

Lemma deadline_timer t ids r : inv t ids → is_Some (deadline t r) ↔ is_Some (rq_timer t !! r).
Proof.
  intros Hi. split.
  - intros [[d h] (id & n & Hn & Hl & Hr & _)%(inv_deadline _ _ _ _ _ Hi)]. exists id.
    apply (inv_live _ _ _ Hi). eauto.
  - intros [id (n & Hn & Hl & Hr)%(inv_live _ _ _ Hi)].
    destruct (inv_handler _ _ _ Hi _ _ Hn) as [h Hh]. exists (key n, h).
    apply (inv_deadline _ _ _ _ _ Hi). by exists id, n.
Qed.

Lemma init_spec t t' :
  node t = ∅ → rq_timer t = ∅ → zv_timer_init clock malloc t = Some t' → inv t' [].
Proof.
  unfold zv_timer_init. intros Hn Hr Ht. destruct (pq_init _ _) as [q|] eqn:E; [|done].
  injection Ht as <-. split; simpl; rewrite ?Hn, ?Hr.
  - eapply pq_init_law; [exact (populate 0)|exact E].
  - constructor.
  - intros id. rewrite elem_of_nil. split; [done|]. by intros [? ?].
  - intros r id. split; [done|]. by intros (? & ? & _).
  - done.
  - intros k Hk. apply clock_mono. lia.
Qed.

(** ** Any order of calls *)
Inductive timer_call :=
  | CallFind
  | CallExpire
  | CallAdd (r : nat) (timeout : Z) (h : F)
  | CallDel (r : nat).

Definition do_call (c : timer_call) t : option (timers Q F) :=
  match c with
  | CallFind => snd <$> zv_find_timer clock malloc t
  | CallExpire => zv_handle_expire_timers clock malloc t
  | CallAdd r timeout h => zv_add_timer clock malloc t r timeout (Some h)
  | CallDel r => zv_del_timer clock t r
  end.

(** The callers' side: a timer is set on a request that has none, and deleted on one
    that has. *)
Definition allowed (c : timer_call) t : Prop :=
  match c with
  | CallAdd r _ _ => rq_timer t !! r = None
  | CallDel r => is_Some (rq_timer t !! r)
  | _ => True
  end.

#[export] Instance allowed_dec c t : Decision (allowed c t).
Proof. destruct c; simpl; apply _. Defined.

Definition timer_step t t' : Prop := ∃ c, allowed c t ∧ do_call c t = Some t'.

Fixpoint run_calls (cs : list timer_call) t : option (timers Q F) :=
  match cs with
  | [] => Some t
  | c :: cs => if decide (allowed c t) then t ← do_call c t; run_calls cs t else None
  end.

Lemma run_calls_star cs t t' : run_calls cs t = Some t' → star timer_step t t'.
Proof.
  revert t. induction cs as [|c cs IH]; intros t; cbn [run_calls]; [intros [= <-]; constructor|].
  case_decide as Hc; [|done]. destruct (do_call c t) as [t1|] eqn:E; [|done]. intros Ht.
  eapply star_trans; [|by apply IH]. apply star_one. by exists c.
Qed.

Hypothesis memory : ∀ n, malloc n = true.

Lemma do_call_ok c t : timers_ok clock t → allowed c t → ∃ t', do_call c t = Some t' ∧ timers_ok clock t'.
Proof.
  intros [ids Hi] Hc. pose proof (inv_size _ _ Hi) as Hsz. destruct c as [| |r timeout h|r]; simpl.
  - destruct (find_loop_spec (S (base.size (node t))) t ids Hi ltac:(lia)) as (v & t' & ids' & E & Hi' & _).
    exists t'. unfold zv_find_timer. rewrite E. split; [done|by exists ids'].
  - destruct (expire_loop_spec (S (base.size (node t))) t ids Hi ltac:(lia)) as (t' & ids' & l & E & Hi' & _).
    exists t'. split; [done|by exists ids'].
  - destruct (add_spec t ids r timeout h) as (t' & ids' & E & Hi' & _); auto.
    exists t'. split; [done|by exists ids'].
  - destruct (del_spec t ids r) as (t' & E & Hi' & _); auto. exists t'. split; [done|by exists ids].
Qed.

Lemma timer_steps_ok t0 t1 t :
  node t0 = ∅ → rq_timer t0 = ∅ → zv_timer_init clock malloc t0 = Some t1 →
  star timer_step t1 t → timers_ok clock t.
Proof.
  intros Hn Hr H0 Hstar. eapply (star_invariant _ (timers_ok clock)); [|exact Hstar|].
  - intros s1 s2 Hs1 (c & Hc & E). destruct (do_call_ok c s1) as (? & ? & ?); [done..|]. congruence.
  - exists []. by eapply init_spec.
Qed.
End proofs.

Section facts.
Context {Q : Type → Type} `{PriorityQueue Q} {F : Type}.
Variables (clock : nat → Z * Z) (malloc : nat → bool).
Implicit Types (t : timers Q F) (r id : nat).
Hypothesis clock_mono : ∀ i j, i ≤ j → (msec (clock i) ≤ msec (clock j))%Z.

Lemma no_deadline t ids r : timers_inv clock t ids → deadline t r = None → rq_timer t !! r = None.
Proof.
  intros Hi Hd. destruct (rq_timer t !! r) eqn:E; [|done].
  destruct (proj2 (deadline_timer clock t ids r Hi)) as [? ?]; [by rewrite E|congruence].
Qed.

Lemma add_deadline t r (timeout : Z) (h : F) :
  (∀ n, malloc n = true) → timers_ok clock t → deadline t r = None →
  ∃ t', zv_add_timer clock malloc t r timeout (Some h) = Some t' ∧ timers_ok clock t' ∧
    fired t' = fired t ∧ deadline t' r = Some (u64 (msec (clock (ticks t)) + timeout), h) ∧
    ∀ r', r' ≠ r → deadline t' r' = deadline t r'.
Proof.
  intros Hmem [ids Hi] Hd.
  destruct (add_spec clock malloc clock_mono t ids r timeout h) as (t' & ids' & E & Hi' & Hf & Hdr & Ho); auto.
  { by eapply no_deadline. }
  exists t'. split; [done|]. split; [by exists ids'|]. split; [done|]. split; [|done].
  rewrite Hdr. do 3 f_equal. revert E. unfold zv_add_timer. rewrite Hmem. cbn [negb].
  simpl. destruct (pq_insert _ _ _ _) as [[rc q]|]; [|done]. simpl. by intros [= <-].
Qed.

Lemma del_deadline t r :
  timers_ok clock t → deadline t r ≠ None →
  ∃ t', zv_del_timer clock t r = Some t' ∧ timers_ok clock t' ∧ fired t' = fired t ∧
    deadline t' r = None ∧ ∀ r', r' ≠ r → deadline t' r' = deadline t r'.
Proof.
  intros [ids Hi] Hd.
  destruct (del_spec clock malloc clock_mono t ids r) as (t' & E & Hi' & Hf & _ & Ho); [done| |].
  { apply (deadline_timer _ _ _ r Hi). by destruct (deadline t r). }
  exists t'. split; [done|]. split; [by exists ids|]. split; [done|]. split.
  - by rewrite Ho, decide_True.
  - intros r' Hne. by rewrite Ho, decide_False.
Qed.

Lemma find_deadline t :
  timers_ok clock t →
  ∃ v t', zv_find_timer clock malloc t = Some (v, t') ∧ timers_ok clock t' ∧
    fired t' = fired t ∧ (∀ r, deadline t' r = deadline t r) ∧
    (v = (-1)%Z ↔ ∀ r, deadline t r = None) ∧
    (v ≠ (-1)%Z →
     ∃ r d h, deadline t r = Some (d, h) ∧
       (∀ r' d' h', deadline t r' = Some (d', h') → (d ≤ d')%Z) ∧
       ((- 2 ^ 31 ≤ d - zv_current_msec t' < 2 ^ 31)%Z → v = Z.max 0 (d - zv_current_msec t'))).
Proof.
  intros [ids Hi]. pose proof (inv_size _ _ _ Hi) as Hsz.
  destruct (find_loop_spec clock malloc clock_mono (S (base.size (node t))) t ids Hi ltac:(lia))
    as (v & t' & ids' & E & Hi' & Hf & Hd & Hv).
  exists v, t'. split; [done|]. split; [by exists ids'|]. split; [done|]. split; [done|].
  destruct Hv as [[-> Hv]|(r & d & h & Hr & -> & Hm)].
  - split; [done|]. by intros [].
  - assert (0 ≤ timeout_of d (zv_current_msec t'))%Z as Hpos.
    { unfold timeout_of. ztests. }
    split; [split; [lia|intros Hno; by rewrite Hno in Hr]|]. intros _. exists r, d, h.
    split; [done|]. split; [done|]. intros Hrange. unfold timeout_of.
    assert (i32 (u64 (d - zv_current_msec t')) = d - zv_current_msec t')%Z as ->; [|ztests].
    unfold i32, u64, size_max. rewrite <-Zplus_mod_idemp_l.
    change (2 ^ 64)%Z with (2 ^ 32 * 2 ^ 32)%Z. rewrite <-Znumtheory.Zmod_div_mod; [|lia..|by apply Z.divide_factor_l].
    rewrite Zplus_mod_idemp_l, Z.mod_small; lia.
Qed.

Lemma expire_deadlines t :
  timers_ok clock t →
  ∃ t' l, zv_handle_expire_timers clock malloc t = Some t' ∧ timers_ok clock t' ∧
    fired t' = fired t ++ (fire_event <$> l) ∧ NoDup l.*1 ∧
    StronglySorted (λ x y, (x.2.1 ≤ y.2.1)%Z) l ∧
    (∀ r d h, (r, (d, h)) ∈ l ↔ deadline t r = Some (d, h) ∧ (d ≤ zv_current_msec t')%Z) ∧
    (∀ r d h, deadline t' r = Some (d, h) ↔ deadline t r = Some (d, h) ∧ (zv_current_msec t' < d)%Z).
Proof.
  intros [ids Hi]. pose proof (inv_size _ _ _ Hi) as Hsz.
  destruct (expire_loop_spec clock malloc clock_mono (S (base.size (node t))) t ids Hi ltac:(lia))
    as (t' & ids' & l & E & Hi' & Hf & _ & Hd & Hlt & Hl & Hnd & Hs).
  exists t', l. split; [done|]. split; [by exists ids'|]. split; [done|]. split; [done|].
  split; [done|]. assert (∀ r d h, (r, (d, h)) ∈ l → deadline t' r = None) as Hgone.
  { intros r d h Hin. rewrite Hd, decide_True; [done|]. apply list_elem_of_fmap. by exists (r, (d, h)). }
  assert (∀ r, r ∈ l.*1 → ∃ d h, (r, (d, h)) ∈ l) as Hmem.
  { intros r ([r' [d h]] & -> & Hin)%list_elem_of_fmap. eauto. }
  split; intros r d h; split.
  - by apply Hl.
  - intros [Hr Hle]. destruct (decide (r ∈ l.*1)) as [(d' & h' & Hin)%Hmem|Hni].
    + pose proof (Hl _ _ _ Hin) as [Hr' _]. rewrite Hr in Hr'. by simplify_eq.
    + assert (deadline t' r = Some (d, h)) as Hr' by (by rewrite Hd, decide_False).
      apply Hlt in Hr'. lia.
  - intros Hr. pose proof (Hlt _ _ _ Hr). rewrite Hd in Hr. by case_decide.
  - intros [Hr Hgt]. rewrite Hd, decide_False; [done|]. intros (d' & h' & Hin)%Hmem.
    pose proof (Hl _ _ _ Hin) as [Hr' ?]. rewrite Hr in Hr'. simplify_eq. lia.
Qed.
End facts.

Section properties.
Context {Q : Type → Type} `{PriorityQueue Q} {F : Type}.
Implicit Types (t : timers Q F) (r id : nat).

(** Whatever the order in which the worker sets, deletes, queries and expires timers,
    starting from [zv_timer_init], no call dereferences a freed or absent node or runs
    for ever, provided a timer is set only on a request without one and deleted only on
    a request with one; a deletion on a request without a timer is a NULL dereference. *)
Theorem timer_calls_safe (clock : nat → Z * Z) (malloc : nat → bool) t0 t1 t (c : timer_call) :
  (∀ i j, i ≤ j → (msec (clock i) ≤ msec (clock j))%Z) → (∀ n, malloc n = true) →
  node t0 = ∅ → rq_timer t0 = ∅ → zv_timer_init clock malloc t0 = Some t1 →
  star (timer_step clock malloc) t1 t →
  (allowed c t → ∃ t', do_call clock malloc c t = Some t') ∧
  (∀ r, rq_timer t !! r = None → zv_del_timer clock t r = None).
Proof.
  intros Hmono Hmem Hn Hr H0 Hstar. split.
  - intros Hc. pose proof (timer_steps_ok clock malloc Hmono Hmem t0 t1 t Hn Hr H0 Hstar) as Ht.
    destruct (do_call_ok clock malloc Hmono Hmem c t Ht Hc) as (t' & ? & _). eauto.
  - intros r Hr'. unfold zv_del_timer. simpl. by rewrite Hr'.
Qed.

(** [zv_add_timer] gives its request the deadline now + timeout (modulo 2^64) and
    leaves every other deadline; [zv_del_timer] removes its request's deadline and no
    other.  Neither calls a handler. *)
Theorem timer_set (clock : nat → Z * Z) (malloc : nat → bool) t r (timeout : Z) (h : F) :
  (∀ i j, i ≤ j → (msec (clock i) ≤ msec (clock j))%Z) → (∀ n, malloc n = true) →
  timers_ok clock t →
  (deadline t r = None →
   ∃ t', zv_add_timer clock malloc t r timeout (Some h) = Some t' ∧ timers_ok clock t' ∧
     fired t' = fired t ∧ deadline t' r = Some (u64 (msec (clock (ticks t)) + timeout), h) ∧
     ∀ r', r' ≠ r → deadline t' r' = deadline t r') ∧
  (deadline t r ≠ None →
   ∃ t', zv_del_timer clock t r = Some t' ∧ timers_ok clock t' ∧ fired t' = fired t ∧
     deadline t' r = None ∧ ∀ r', r' ≠ r → deadline t' r' = deadline t r').
Proof.
  intros Hmono Hmem Ht. split; intros Hd.
  - by apply add_deadline.
  - by apply del_deadline.
Qed.

(** [zv_find_timer] returns -1 exactly when no request has a timer, and otherwise the
    time to the earliest deadline, 0 if it is past (the difference is taken modulo 2^64
    and cast to [int], which is exact within 2^31 ms); it calls no handler and changes
    no deadline, only frees deleted nodes. *)
Theorem find_timer_exact (clock : nat → Z * Z) (malloc : nat → bool) t :
  (∀ i j, i ≤ j → (msec (clock i) ≤ msec (clock j))%Z) → timers_ok clock t →
  ∃ v t', zv_find_timer clock malloc t = Some (v, t') ∧ timers_ok clock t' ∧
    fired t' = fired t ∧ (∀ r, deadline t' r = deadline t r) ∧
    (v = (-1)%Z ↔ ∀ r, deadline t r = None) ∧
    (v ≠ (-1)%Z →
     ∃ r d h, deadline t r = Some (d, h) ∧
       (∀ r' d' h', deadline t r' = Some (d', h') → (d ≤ d')%Z) ∧
       ((- 2 ^ 31 ≤ d - zv_current_msec t' < 2 ^ 31)%Z → v = Z.max 0 (d - zv_current_msec t'))).
Proof. intros Hmono Ht. by apply find_deadline. Qed.

(** C12. [zv_handle_expire_timers] calls the handlers of exactly the requests whose deadline
    is not after the last clock reading, each once, in the order of their deadlines; it
    removes those timers and leaves the others, all of them later. *)
Theorem expire_timers_exact (clock : nat → Z * Z) (malloc : nat → bool) t :
  (∀ i j, i ≤ j → (msec (clock i) ≤ msec (clock j))%Z) → timers_ok clock t →
  ∃ t' l, zv_handle_expire_timers clock malloc t = Some t' ∧ timers_ok clock t' ∧
    fired t' = fired t ++ (fire_event <$> l) ∧ NoDup l.*1 ∧
    StronglySorted (λ x y, (x.2.1 ≤ y.2.1)%Z) l ∧
    (∀ r d h, (r, (d, h)) ∈ l ↔ deadline t r = Some (d, h) ∧ (d ≤ zv_current_msec t')%Z) ∧
    (∀ r d h, deadline t' r = Some (d, h) ↔ deadline t r = Some (d, h) ∧ (zv_current_msec t' < d)%Z).
Proof. intros Hmono Ht. by apply expire_deadlines. Qed.
End properties.

(** ** An example: two requests, on the heap of PriorityQueue.v *)
Definition demo_clock (n : nat) : Z * Z := (Z.of_nat (min n 9), 500000000%Z).
Definition demo_malloc (n : nat) : bool := true.
Definition demo_t0 : timers zv_pq nat := mk_timers (mk_pq [] 0 0) ∅ ∅ 0 0 0 [].

Lemma demo_mono i j : i ≤ j → (msec (demo_clock i) ≤ msec (demo_clock j))%Z.
Proof.
  intros. assert (∀ k, msec (demo_clock k) = Z.of_nat (min k 9) * 1000 + 500)%Z as E.
  { intros k. unfold msec, demo_clock. cbn [fst snd].
    rewrite (u64_small (_ * 1000)) by (unfold size_max; lia).
    change (500000000 / 1000000)%Z with 500%Z. apply u64_small. unfold size_max. lia. }
  rewrite !E. lia.
Qed.

Definition demo_calls : list (timer_call (F := nat)) :=
  [CallAdd 1 5000 77; CallAdd 2 1000 77; CallDel 1; CallAdd 1 60000 77].

Definition demo_t1 : timers zv_pq nat :=
  Eval vm_compute in from_option id demo_t0 (zv_timer_init demo_clock demo_malloc demo_t0).

Definition demo_t : timers zv_pq nat :=
  Eval vm_compute in from_option id demo_t0 (run_calls demo_clock demo_malloc demo_calls demo_t1).

Lemma demo_star : star (timer_step demo_clock demo_malloc) demo_t1 demo_t.
Proof. apply (run_calls_star _ _ demo_calls). vm_compute. reflexivity. Qed.

Lemma demo_ok : timers_ok demo_clock demo_t.
Proof.
  apply (timer_steps_ok demo_clock demo_malloc demo_mono (fun _ => eq_refl) demo_t0 demo_t1);
    [reflexivity..|vm_compute; reflexivity|apply demo_star].
Qed.

Lemma timer_calls_safe_witness :
  (allowed (CallDel 2) demo_t → ∃ t', do_call demo_clock demo_malloc (CallDel 2) demo_t = Some t') ∧
  (∀ r, rq_timer demo_t !! r = None → zv_del_timer demo_clock demo_t r = None).
Proof.
  apply (timer_calls_safe demo_clock demo_malloc demo_t0 demo_t1 demo_t (CallDel 2));
    [apply demo_mono|reflexivity..|vm_compute; reflexivity|apply demo_star].
Defined.

Lemma timer_set_witness :
  deadline demo_t 2 = Some (3500%Z, 77) ∧
  ((deadline demo_t 2 = None →
    ∃ t', zv_add_timer demo_clock demo_malloc demo_t 2 10 (Some 5) = Some t' ∧
      timers_ok demo_clock t' ∧ fired t' = fired demo_t ∧
      deadline t' 2 = Some (u64 (msec (demo_clock (ticks demo_t)) + 10), 5) ∧
      ∀ r', r' ≠ 2 → deadline t' r' = deadline demo_t r') ∧
   (deadline demo_t 2 ≠ None →
    ∃ t', zv_del_timer demo_clock demo_t 2 = Some t' ∧ timers_ok demo_clock t' ∧
      fired t' = fired demo_t ∧
      deadline t' 2 = None ∧ ∀ r', r' ≠ 2 → deadline t' r' = deadline demo_t r')).
Proof.
  split; [vm_compute; reflexivity|].
  apply (timer_set demo_clock demo_malloc demo_t 2 10 5);
    [apply demo_mono|reflexivity|apply demo_ok].
Defined.

Lemma find_timer_exact_witness :
  ∃ v t', zv_find_timer demo_clock demo_malloc demo_t = Some (v, t') ∧ timers_ok demo_clock t' ∧
    fired t' = fired demo_t ∧ (∀ r, deadline t' r = deadline demo_t r) ∧
    (v = (-1)%Z ↔ ∀ r, deadline demo_t r = None) ∧
    (v ≠ (-1)%Z →
     ∃ r d h, deadline demo_t r = Some (d, h) ∧
       (∀ r' d' h', deadline demo_t r' = Some (d', h') → (d ≤ d')%Z) ∧
       ((- 2 ^ 31 ≤ d - zv_current_msec t' < 2 ^ 31)%Z → v = Z.max 0 (d - zv_current_msec t'))).
Proof.
  apply (find_timer_exact demo_clock demo_malloc demo_t); [apply demo_mono|apply demo_ok].
Defined.

Lemma expire_timers_exact_witness :
  ∃ t' l, zv_handle_expire_timers demo_clock demo_malloc demo_t = Some t' ∧
    timers_ok demo_clock t' ∧
    fired t' = fired demo_t ++ (fire_event <$> l) ∧ NoDup l.*1 ∧
    StronglySorted (λ x y, (x.2.1 ≤ y.2.1)%Z) l ∧
    (∀ r d h, (r, (d, h)) ∈ l ↔ deadline demo_t r = Some (d, h) ∧ (d ≤ zv_current_msec t')%Z) ∧
    (∀ r d h,
       deadline t' r = Some (d, h) ↔ deadline demo_t r = Some (d, h) ∧ (zv_current_msec t' < d)%Z).
Proof.
  apply (expire_timers_exact demo_clock demo_malloc demo_t); [apply demo_mono|apply demo_ok].
Defined.

(** Request 2's timer has expired by the sixth reading of the clock; request 1's has not. *)
Example demo_expire :
  fired <$> zv_handle_expire_timers demo_clock demo_malloc demo_t = Some [(77, 2)].
Proof. vm_compute. reflexivity. Qed.
