(* ===== verification/DList.v ===== *)
(** * Intrusive doubly linked lists (list.h)

    Memory is a map from the address of a node to its two links; a node outside the
    map is not allocated, and touching it is a fault ([None]).  An object and the
    [list_head] it embeds have the same address here, so [list_entry] is the identity. *)
From S2P Require Import Prelude.

Record list_head := mk_links { prev : nat; next : nat }.

#[export] Instance eta_list_head : Eta list_head := fun x => mk_links (prev x) (next x).

Abbreviation memory := (gmap nat list_head).

Implicit Types (m : memory) (p h x : nat).

(** ** Operations *)

(** [p->next = v] *)
Definition set_next m p (v : nat) : option memory :=
  n ← m !! p; Some (<[p := n <| next := v |>]> m).

(** [p->prev = v] *)
Definition set_prev m p (v : nat) : option memory :=
  n ← m !! p; Some (<[p := n <| prev := v |>]> m).

Definition INIT_LIST_HEAD m p : option memory :=
  m ← set_next m p p;
  set_prev m p p.

Definition list_add_between m (_new prev next : nat) : option memory :=
  m ← set_next m _new next;
  m ← set_prev m next _new;
  m ← set_next m prev _new;
  set_prev m _new prev.

Definition list_add m (_new head : nat) : option memory :=
  n ← m !! head;
  list_add_between m _new head (next n).

Definition list_add_tail m (_new head : nat) : option memory :=
  n ← m !! head;
  list_add_between m _new (prev n) head.

Definition list_del_between m (prev next : nat) : option memory :=
  m ← set_next m prev next;
  set_prev m next prev.

Definition list_del m (entry : nat) : option memory :=
  n ← m !! entry;
  list_del_between m (prev n) (next n).

Definition list_empty m (head : nat) : option bool :=
  n ← m !! head;
  Some ((next n =? head) && (prev n =? head)).

(** ** Representation *)

Definition nx m p : option nat := next <$> m !! p.
Definition pv m p : option nat := prev <$> m !! p.

(** The links of the chain [a -> l -> b]: each node's [next] is the following one, and
    back. *)
Fixpoint chain m (a : nat) (l : list nat) (b : nat) : Prop :=
  match l with
  | [] => nx m a = Some b ∧ pv m b = Some a
  | x :: l => nx m a = Some x ∧ pv m x = Some a ∧ chain m x l b
  end.

(** The circular list of head [h] holds [xs]. *)
Definition dlist m h (xs : list nat) : Prop := NoDup (h :: xs) ∧ chain m h xs h.

Definition allocated m p : Prop := is_Some (m !! p).

(** ** Single stores *)

Lemma nx_allocated m p : is_Some (nx m p) ↔ allocated m p.
Proof. unfold nx, allocated. by rewrite fmap_is_Some. Qed.

Lemma pv_allocated m p : is_Some (pv m p) ↔ allocated m p.
Proof. unfold pv, allocated. by rewrite fmap_is_Some. Qed.

Lemma lookup_links m m' p : nx m' p = nx m p → pv m' p = pv m p → m' !! p = m !! p.
Proof. unfold nx, pv. destruct (m !! p) as [[]|], (m' !! p) as [[]|]; simpl; congruence. Qed.

Lemma set_next_spec m p v :
  allocated m p →
  ∃ m', set_next m p v = Some m' ∧ (∀ q, nx m' q = if decide (q = p) then Some v else nx m q) ∧
    (∀ q, pv m' q = pv m q).
Proof.
  intros [n Hn]. unfold set_next. rewrite Hn. simpl. eexists. split; [done|].
  unfold nx, pv. split; intros q; (destruct (decide (q = p)) as [->|];
    [rewrite lookup_insert_eq; by rewrite ?Hn|by rewrite lookup_insert_ne]).
Qed.

Lemma set_prev_spec m p v :
  allocated m p →
  ∃ m', set_prev m p v = Some m' ∧ (∀ q, pv m' q = if decide (q = p) then Some v else pv m q) ∧
    (∀ q, nx m' q = nx m q).
Proof.
  intros [n Hn]. unfold set_prev. rewrite Hn. simpl. eexists. split; [done|].
  unfold nx, pv. split; intros q; (destruct (decide (q = p)) as [->|];
    [rewrite lookup_insert_eq; by rewrite ?Hn|by rewrite lookup_insert_ne]).
Qed.

Lemma allocated_nx m m' p : (∀ q, nx m' q = nx m q) → allocated m p → allocated m' p.
Proof. intros E. by rewrite <-!nx_allocated, E. Qed.

Lemma allocated_pv m m' p : (∀ q, pv m' q = pv m q) → allocated m p → allocated m' p.
Proof. intros E. by rewrite <-!pv_allocated, E. Qed.

#[local] Hint Resolve allocated_nx allocated_pv : zaver.

Lemma init_head_spec m p :
  allocated m p →
  ∃ m', INIT_LIST_HEAD m p = Some m' ∧ (∀ q, nx m' q = if decide (q = p) then Some p else nx m q) ∧
    (∀ q, pv m' q = if decide (q = p) then Some p else pv m q).
Proof.
  intros Hp. unfold INIT_LIST_HEAD.
  destruct (set_next_spec m p p Hp) as (m1 & -> & Hn1 & Hp1). simpl.
  destruct (set_prev_spec m1 p p) as (m2 & -> & Hp2 & Hn2); [by eauto with zaver|].
  exists m2. split; [done|]. split; intros q; [by rewrite Hn2, Hn1|by rewrite Hp2, Hp1].
Qed.

Lemma add_between_spec m x a b :
  allocated m x → allocated m a → allocated m b →
  ∃ m', list_add_between m x a b = Some m' ∧
    (∀ q, nx m' q = if decide (q = a) then Some x else if decide (q = x) then Some b else nx m q) ∧
    (∀ q, pv m' q = if decide (q = x) then Some a else if decide (q = b) then Some x else pv m q).
Proof.
  intros Hx Ha Hb. unfold list_add_between.
  destruct (set_next_spec m x b Hx) as (m1 & -> & Hn1 & Hp1). simpl.
  destruct (set_prev_spec m1 b x) as (m2 & -> & Hp2 & Hn2); [by eauto with zaver|]. simpl.
  destruct (set_next_spec m2 a x) as (m3 & -> & Hn3 & Hp3).
  { eapply (allocated_nx m1); [done|]. by eapply (allocated_pv m). } simpl.
  destruct (set_prev_spec m3 x a) as (m4 & -> & Hp4 & Hn4).
  { eapply (allocated_pv m2); [done|]. eapply (allocated_nx m1); [done|]. by eapply (allocated_pv m). }
  exists m4. split; [done|].
  split; intros q; [by rewrite Hn4, Hn3, Hn2, Hn1|by rewrite Hp4, Hp3, Hp2, Hp1].
Qed.

Lemma del_between_spec m a b :
  allocated m a → allocated m b →
  ∃ m', list_del_between m a b = Some m' ∧
    (∀ q, nx m' q = if decide (q = a) then Some b else nx m q) ∧
    (∀ q, pv m' q = if decide (q = b) then Some a else pv m q).
Proof.
  intros Ha Hb. unfold list_del_between.
  destruct (set_next_spec m a b Ha) as (m1 & -> & Hn1 & Hp1). simpl.
  destruct (set_prev_spec m1 b a) as (m2 & -> & Hp2 & Hn2); [by eauto with zaver|].
  exists m2. split; [done|]. split; intros q; [by rewrite Hn2, Hn1|by rewrite Hp2, Hp1].
Qed.

(** ** Chains *)

Lemma chain_ext m m' a l b :
  (∀ p, p ∈ a :: l → nx m' p = nx m p) → (∀ p, p ∈ b :: l → pv m' p = pv m p) →
  chain m a l b → chain m' a l b.
Proof.
  revert a. induction l as [|x l IH]; intros a Hn Hp; cbn [chain].
  - intros [??]. rewrite Hn, Hp by (by apply list_elem_of_here). done.
  - intros (? & ? & ?). rewrite Hn by (by apply list_elem_of_here).
    rewrite Hp by set_solver. split_and!; [done|done|]. apply IH; [set_solver..|done].
Qed.

Lemma chain_app m a l1 x l2 b : chain m a (l1 ++ x :: l2) b ↔ chain m a l1 x ∧ chain m x l2 b.
Proof.
  revert a. induction l1 as [|y l1 IH]; intros a; cbn [app chain]; [tauto|]. rewrite IH. tauto.
Qed.

Lemma chain_allocated m a l b p : chain m a l b → p ∈ a :: b :: l → allocated m p.
Proof.
  revert a. induction l as [|x l IH]; intros a; cbn [chain].
  - intros [Ha Hb] [->|[->|[]%not_elem_of_nil]%elem_of_cons]%elem_of_cons;
      [apply nx_allocated|apply pv_allocated]; eauto.
  - intros (Ha & Hx & Hc) Hp. destruct (decide (p = a)) as [->|]; [apply nx_allocated; eauto|].
    apply (IH x Hc). set_solver.
Qed.

Lemma dlist_ext m m' h xs :
  (∀ p, p ∈ h :: xs → m' !! p = m !! p) → dlist m h xs → dlist m' h xs.
Proof.
  intros E [Hnd Hc]. split; [done|].
  eapply chain_ext; [| |done]; intros p Hp; unfold nx, pv; by rewrite E.
Qed.

Lemma dlist_allocated m h xs p : dlist m h xs → p ∈ h :: xs → allocated m p.
Proof. intros [_ Hc] Hp. eapply chain_allocated; [done|set_solver]. Qed.

Lemma chain_last m a l b : chain m a l b → pv m b = Some (default a (list.last l)).
Proof.
  revert a. induction l as [|x l IH]; intros a; cbn [chain].
  - by intros [_ Hb].
  - intros (_ & _ & Hc). rewrite (IH _ Hc). rewrite last_cons. by destruct (list.last l).
Qed.

Lemma chain_first m a l b : chain m a l b → nx m a = Some (default b (head l)).
Proof. by destruct l; intros []. Qed.

Lemma last_default_in h (xs : list nat) : default h (list.last xs) ∈ h :: xs.
Proof.
  destruct (list.last xs) as [z|] eqn:El; simpl; [|set_solver].
  apply last_Some in El as [l ->]. set_solver.
Qed.

Lemma head_default_in h (xs : list nat) : default h (head xs) ∈ h :: xs.
Proof. destruct xs; simpl; set_solver. Qed.

(** Bypassing [x]. *)
Lemma chain_unlink m m' h xs x ys c :
  chain m h xs x → chain m x ys c → NoDup (h :: xs ++ ys) → NoDup (c :: xs ++ ys) →
  (∀ q, nx m' q = if decide (q = default h (list.last xs)) then Some (default c (head ys)) else nx m q) →
  (∀ q, pv m' q = if decide (q = default c (head ys)) then Some (default h (list.last xs)) else pv m q) →
  chain m' h (xs ++ ys) c.
Proof.
  revert h. induction xs as [|z xs IH]; intros h Hc1 Hc2 Hnd1 Hnd2 Hn Hp.
  - cbn [app] in *. cbn in Hn, Hp. destruct ys as [|y ys]; cbn [chain head default] in *.
    + by rewrite Hn, Hp, !decide_True.
    + destruct Hc2 as (_ & _ & Hc2). split; [by rewrite Hn, decide_True|].
      split; [by rewrite Hp, decide_True|].
      apply NoDup_cons in Hnd1 as [Hh Hnd1]. apply NoDup_cons in Hnd1 as [Hy _].
      apply NoDup_cons in Hnd2 as [Hc _].
      eapply chain_ext; [| |exact Hc2]; intros p Hin;
        [rewrite Hn|rewrite Hp]; rewrite decide_False; try done; intros ->; set_solver.
  - cbn [app chain] in *. destruct Hc1 as (Hz1 & Hz2 & Hc1). rewrite last_cons in Hn, Hp.
    assert (default h match list.last xs with Some y => Some y | None => Some z end
            = default z (list.last xs)) as El by (by destruct (list.last xs)).
    rewrite El in Hn, Hp. apply NoDup_cons in Hnd1 as [Hh Hnd1].
    apply NoDup_cons in Hnd2 as [Hc Hnd2]. apply NoDup_cons in Hnd2 as [Hz Hnd2].
    pose proof (last_default_in z xs). pose proof (head_default_in c ys).
    split; [rewrite Hn, decide_False; [done|intros ->; set_solver]|].
    split; [rewrite Hp, decide_False; [done|intros ->; set_solver]|].
    apply IH; try done. apply NoDup_cons. set_solver.
Qed.

(** ** The operations on a list *)

Lemma dlist_init m p :
  allocated m p →
  ∃ m', INIT_LIST_HEAD m p = Some m' ∧ dlist m' p [] ∧ (∀ q, q ≠ p → m' !! q = m !! q) ∧
    allocated m' p.
Proof.
  intros Hp. destruct (init_head_spec m p Hp) as (m' & E & Hn & Hpv). exists m'. split; [done|].
  assert (dlist m' p []) as Hd.
  { split; [apply NoDup_singleton|]. cbn [chain]. rewrite Hn, Hpv; by rewrite !decide_True. }
  split; [done|]. split; [|eapply dlist_allocated; [done|apply list_elem_of_here]].
  intros q Hq. apply lookup_links; [by rewrite Hn, decide_False|by rewrite Hpv, decide_False].
Qed.

Lemma dlist_empty m h xs : dlist m h xs → list_empty m h = Some (bool_decide (xs = [])).
Proof.
  intros [Hnd Hc]. unfold list_empty. unfold nx, pv in *. destruct xs as [|x xs]; cbn [chain] in Hc.
  - destruct Hc as [Hn Hp]. unfold nx, pv in *. destruct (m !! h) as [[p n]|]; [|done]. simpl in *.
    simplify_eq. by rewrite !Nat.eqb_refl.
  - destruct Hc as (Hn & _). unfold nx in Hn. destruct (m !! h) as [[p n]|]; [|done]. simpl in *.
    simplify_eq. apply NoDup_cons in Hnd as [Hnd _].
    rewrite (proj2 (Nat.eqb_neq x h)); [done|]. intros ->. apply Hnd, list_elem_of_here.
Qed.

Lemma dlist_add m h xs x :
  dlist m h xs → x ∉ h :: xs → allocated m x →
  ∃ m', list_add m x h = Some m' ∧ dlist m' h (x :: xs) ∧
    (∀ q, q ∉ h :: x :: xs → m' !! q = m !! q).
Proof.
  intros [Hnd Hc] Hx Ha. assert (x ≠ h) as Hxh by set_solver.
  set (b := default h (head xs)).
  assert (nx m h = Some b) as Hnh by exact (chain_first _ _ _ _ Hc).
  pose proof (head_default_in h xs : b ∈ h :: xs) as Hb.
  assert (x ≠ b) as Hxb by (intros ->; done).
  destruct (add_between_spec m x h b Ha) as (m' & E & Hn & Hp).
  { apply nx_allocated. eauto. }
  { eapply chain_allocated; [exact Hc|set_solver]. }
  exists m'. split_and!.
  - unfold list_add. unfold nx in Hnh. destruct (m !! h) as [n|]; [|done]. simpl in *.
    assert (next n = b) as -> by congruence. exact E.
  - split; [apply NoDup_cons in Hnd as [??]; rewrite !NoDup_cons; split_and!; [set_solver..|done]|].
    cbn [chain]. split; [by rewrite Hn, decide_True|]. split; [by rewrite Hp, decide_True|].
    unfold b in *. destruct xs as [|y ys]; cbn [chain] in *; simpl in Hxb.
    + split; [by rewrite Hn, decide_False, decide_True|by rewrite Hp, decide_False, decide_True].
    + split; [by rewrite Hn, decide_False, decide_True|].
      split; [by rewrite Hp, decide_False, decide_True|]. destruct Hc as (_ & _ & Hc).
      apply NoDup_cons in Hnd as [Hnh' Hnd]. apply NoDup_cons in Hnd as [Hny Hnd].
      eapply chain_ext; [| |exact Hc]; intros p Hin.
      * rewrite Hn, !decide_False; [done|set_solver..].
      * rewrite Hp, !decide_False; [done|set_solver..].
  - intros q Hq. apply lookup_links; [rewrite Hn|rewrite Hp]; rewrite !decide_False by set_solver; done.
Qed.

Lemma dlist_del m h xs x ys :
  dlist m h (xs ++ x :: ys) →
  ∃ m', list_del m x = Some m' ∧ dlist m' h (xs ++ ys) ∧ m' !! x = m !! x ∧
    (∀ q, q ∉ h :: xs ++ ys → m' !! q = m !! q).
Proof.
  intros [Hnd Hc]. pose proof Hc as [Hc1 Hc2]%chain_app.
  set (a := default h (list.last xs)). set (b := default h (head ys)).
  assert (pv m x = Some a) as Hpx by exact (chain_last _ _ _ _ Hc1).
  assert (nx m x = Some b) as Hnx by exact (chain_first _ _ _ _ Hc2).
  pose proof (last_default_in h xs : a ∈ h :: xs) as Ha.
  pose proof (head_default_in h ys : b ∈ h :: ys) as Hb.
  apply NoDup_cons in Hnd as [Hnh Hnd]. pose proof Hnd as Hnd'.
  apply NoDup_app in Hnd as (Hnxs & Hdis & [Hxy Hnys]%NoDup_cons).
  assert (∀ p, p ∈ h :: xs ++ x :: ys → allocated m p) as Hall.
  { intros p Hp. eapply chain_allocated; [exact Hc|set_solver]. }
  destruct (del_between_spec m a b) as (m' & E & Hn & Hp); [apply Hall; set_solver..|].
  exists m'. split_and!.
  - unfold list_del. unfold nx, pv in Hnx, Hpx. destruct (m !! x) as [n|]; [|done]. simpl in *.
    assert (next n = b) as -> by congruence. assert (prev n = a) as -> by congruence. exact E.
  - assert (NoDup (h :: xs ++ ys)) as Hnd2.
    { apply NoDup_cons. split; [set_solver|]. apply NoDup_app. split_and!; [done| |done].
      intros z Hz Hz'. apply (Hdis z Hz). set_solver. }
    split; [done|]. by apply (chain_unlink m m' h xs x ys h).
  - apply lookup_links; [rewrite Hn|rewrite Hp]; rewrite decide_False; [done| |done|]; intros ->;
      set_solver.
  - intros q Hq. apply lookup_links; [rewrite Hn|rewrite Hp]; rewrite decide_False; [done| |done|];
      intros ->; set_solver.
Qed.

(** Nodes of other lists are not touched. *)
Lemma dlist_other m m' h h' xs ys :
  dlist m h xs → (∀ q, q ∉ h' :: ys → m' !! q = m !! q) → (∀ q, q ∈ h :: xs → q ∉ h' :: ys) →
  dlist m' h xs.
Proof. intros Hd E Hdis. eapply dlist_ext; [|exact Hd]. intros p Hp. by apply E, Hdis. Qed.

Lemma chain_retarget m m' h xs c x :
  chain m h xs c → NoDup (h :: xs) → c ∉ xs → x ∉ xs →
  (∀ q, q ∈ h :: xs → nx m' q = if decide (q = default h (list.last xs)) then Some x else nx m q) →
  (∀ q, q ∈ xs → pv m' q = pv m q) → pv m' x = Some (default h (list.last xs)) →
  chain m' h xs x.
Proof.
  revert h. induction xs as [|z xs IH]; intros h Hc Hnd Hcx Hx Hn Hp Hpx; cbn [chain] in *.
  - rewrite Hn by set_solver. by rewrite decide_True.
  - destruct Hc as (Hz1 & Hz2 & Hc). rewrite last_cons in Hn, Hpx.
    assert (default h match list.last xs with Some y => Some y | None => Some z end
            = default z (list.last xs)) as El by (by destruct (list.last xs)).
    rewrite El in Hn, Hpx. apply NoDup_cons in Hnd as [Hh Hnd].
    pose proof (last_default_in z xs). split; [|split].
    + rewrite Hn, decide_False; [done|intros ->; set_solver|set_solver].
    + rewrite Hp; [done|set_solver].
    + apply IH; [done|done|set_solver|set_solver| | |done].
      * intros q Hq. apply Hn. set_solver.
      * intros q Hq. apply Hp. set_solver.
Qed.

Lemma dlist_add_tail m h xs x :
  dlist m h xs → x ∉ h :: xs → allocated m x →
  ∃ m', list_add_tail m x h = Some m' ∧ dlist m' h (xs ++ [x]) ∧
    (∀ q, q ∉ h :: xs ++ [x] → m' !! q = m !! q).
Proof.
  intros [Hnd Hc] Hx Hx'. set (a := default h (list.last xs)).
  pose proof (last_default_in h xs : a ∈ h :: xs) as Ha.
  pose proof (chain_last _ _ _ _ Hc : pv m h = Some a) as Hph.
  assert (allocated m a) as Haa by (eapply chain_allocated; [exact Hc|set_solver]).
  assert (allocated m h) as Hha by (eapply chain_allocated; [exact Hc|set_solver]).
  destruct (add_between_spec m x a h Hx' Haa Hha) as (m' & E & Hn & Hp).
  pose proof Hnd as [Hh Hnd']%NoDup_cons. exists m'. split_and!.
  - unfold list_add_tail. unfold pv in Hph. destruct (m !! h) as [n|]; [|done]. simpl in *.
    assert (prev n = a) as -> by congruence. exact E.
  - split.
    + apply NoDup_cons. split; [set_solver|]. apply NoDup_app.
      split_and!; [done|set_solver|apply NoDup_singleton].
    + apply chain_app. split; [|cbn [chain]; split].
      * apply (chain_retarget m m' h xs h x); try done; [set_solver| | |].
        -- intros q Hq. rewrite Hn. fold a. case_decide; [done|].
           rewrite decide_False; [done|]. intros ->. done.
        -- intros q Hq. rewrite Hp, !decide_False; [done|intros ->; done|intros ->; set_solver].
        -- by rewrite Hp, decide_True.
      * rewrite Hn, decide_False, decide_True; [done|done|]. intros ->. done.
      * rewrite Hp, decide_False, decide_True; [done|done|]. intros ->. set_solver.
  - intros q Hq. apply lookup_links; [rewrite Hn|rewrite Hp]; rewrite !decide_False; try done;
      intros ->; set_solver.
Qed.

(** ** The contract of the list *)

(** On memory that represents a circular list, [list_add] pushes in front,
    [list_add_tail] at the back, [list_del] removes its node and [list_empty] tells
    whether there is none; no operation touches memory outside the list and the node it
    is given, so any other list in memory is unchanged. *)
Theorem list_operations m h xs :
  dlist m h xs →
  list_empty m h = Some (bool_decide (xs = [])) ∧
  (∀ x, x ∉ h :: xs → allocated m x →
    (∃ m', list_add m x h = Some m' ∧ dlist m' h (x :: xs) ∧
      ∀ q, q ∉ h :: x :: xs → m' !! q = m !! q) ∧
    (∃ m', list_add_tail m x h = Some m' ∧ dlist m' h (xs ++ [x]) ∧
      ∀ q, q ∉ h :: xs ++ [x] → m' !! q = m !! q)) ∧
  (∀ ys x zs, xs = ys ++ x :: zs →
    ∃ m', list_del m x = Some m' ∧ dlist m' h (ys ++ zs) ∧
      ∀ q, q ∉ h :: ys ++ zs → m' !! q = m !! q).
Proof.
  intros Hd. split; [by apply dlist_empty|]. split.
  - intros x Hx Ha. split; [by apply dlist_add|by apply dlist_add_tail].
  - intros ys x zs ->. destruct (dlist_del m h ys x zs Hd) as (m' & ? & ? & _ & ?). by exists m'.
Qed.

Definition demo_memory : memory :=
  {[ 0 := mk_links 1 2; 1 := mk_links 2 0; 2 := mk_links 0 1; 3 := mk_links 9 9 ]}.

Lemma demo_dlist : dlist demo_memory 0 [2; 1].
Proof.
  split; [apply (bool_decide_unpack _); vm_compute; exact I|].
  repeat split; vm_compute; reflexivity.
Qed.

Lemma list_operations_witness :
  list_empty demo_memory 0 = Some false ∧
  (∀ x, x ∉ [0; 2; 1] → allocated demo_memory x →
    (∃ m', list_add demo_memory x 0 = Some m' ∧ dlist m' 0 [x; 2; 1] ∧
      ∀ q, q ∉ [0; x; 2; 1] → m' !! q = demo_memory !! q) ∧
    (∃ m', list_add_tail demo_memory x 0 = Some m' ∧ dlist m' 0 [2; 1; x] ∧
      ∀ q, q ∉ [0; 2; 1; x] → m' !! q = demo_memory !! q)) ∧
  (∀ ys x zs, [2; 1] = ys ++ x :: zs →
    ∃ m', list_del demo_memory x = Some m' ∧ dlist m' 0 (ys ++ zs) ∧
      ∀ q, q ∉ 0 :: ys ++ zs → m' !! q = demo_memory !! q).
Proof. exact (list_operations demo_memory 0 [2; 1] demo_dlist). Defined.
