(* ===== verification/HeaderCache.v ===== *)
(** * The header free list (http_header_cache.c)

    Header objects are cached on a list of list.h when they are given back, and the
    cache is bounded.  The file implements [HeaderPool]. *)
From S2P Require Import Prelude HeaderPool HttpParse DList.

Definition ZV_HEADER_FREELIST_MAX : nat := Z.to_nat 8192.
Opaque ZV_HEADER_FREELIST_MAX.

(** The address of [g_free_headers]. *)
Definition g_free_headers : nat := 0.

(** [nodes] holds the links of every allocated node, [hdrs] the other fields of the
    header objects. *)
Record header_cache := mk_cache {
  nodes : memory;
  hdrs : gmap nat header;
  g_free_count : nat;
  g_inited : bool;
}.
#[export] Instance eta_header_cache : Eta header_cache := fun c =>
  mk_cache (nodes c) (hdrs c) (g_free_count c) (g_inited c).

Definition null_header : header := mk_header None None None None.

(** The static data before the first call. *)
Definition boot_cache : header_cache := mk_cache {[ g_free_headers := mk_links 0 0 ]} ∅ 0 false.

Implicit Types (c : header_cache) (xs : list nat) (used : gset nat).

(** ** Operations *)

Definition init_once c : option header_cache :=
  if g_inited c then Some c
  else
    m ← INIT_LIST_HEAD (nodes c) g_free_headers;
    Some (c <| nodes := m |> <| g_free_count := 0 |> <| g_inited := true |>).

(** The object, [None] when [malloc] fails. *)
Definition take_object (malloc_ok : bool) c : option (option nat * header_cache) :=
  empty ← list_empty (nodes c) g_free_headers;
  if negb empty then
    head ← nodes c !! g_free_headers;
    let pos := next head in
    m ← list_del (nodes c) pos;
    let c := c <| nodes := m |> in
    Some (Some pos, if 0 <? g_free_count c then c <| g_free_count := g_free_count c - 1 |> else c)
  else if malloc_ok then
    let p := fresh (dom (nodes c)) in
    Some (Some p, c <| nodes := <[p := mk_links 0 0]> (nodes c) |>)
  else Some (None, c).

Definition zv_http_header_alloc (malloc_ok : bool) c : option (option nat * header_cache) :=
  c ← init_once c;
  '(hd, c) ← take_object malloc_ok c;
  match hd with
  | None => Some (None, c)
  | Some p =>
      _ ← nodes c !! p;
      let c := c <| nodes := <[p := mk_links 0 0]> (nodes c) |>
                 <| hdrs := <[p := null_header]> (hdrs c) |> in
      m ← INIT_LIST_HEAD (nodes c) p;
      Some (Some p, c <| nodes := m |>)
  end.

(** [None] is the NULL pointer; [free] of memory that is not allocated is a fault. *)
Definition zv_http_header_free (hd : option nat) c : option header_cache :=
  match hd with
  | None => Some c
  | Some p =>
      c ← init_once c;
      if ZV_HEADER_FREELIST_MAX <=? g_free_count c then
        _ ← nodes c !! p;
        Some (c <| nodes := delete p (nodes c) |> <| hdrs := delete p (hdrs c) |>)
      else
        let c := c <| hdrs := <[p := null_header]> (hdrs c) |> in
        m ← INIT_LIST_HEAD (nodes c) p;
        m ← list_add m p g_free_headers;
        Some (c <| nodes := m |> <| g_free_count := g_free_count c + 1 |>)
  end.

(** ** Invariant *)

(** The cache holds [xs]; the count is their number. *)
Definition cache_ok c xs : Prop :=
  g_free_count c = length xs ∧ length xs ≤ ZV_HEADER_FREELIST_MAX ∧
  if g_inited c then dlist (nodes c) g_free_headers xs
  else xs = [] ∧ allocated (nodes c) g_free_headers.

Lemma boot_ok : cache_ok boot_cache [].
Proof. split_and!; [done|simpl; lia|]. split; [done|]. by eexists. Qed.

Lemma cache_init_ok c xs :
  cache_ok c xs →
  ∃ c', init_once c = Some c' ∧ cache_ok c' xs ∧ g_inited c' = true ∧
    ∀ q, q ≠ g_free_headers → nodes c' !! q = nodes c !! q.
Proof.
  intros (Hn & Hmax & Hc). unfold init_once. destruct (g_inited c) eqn:Ei.
  - exists c. split; [done|]. split; [|done]. by unfold cache_ok; rewrite Ei.
  - destruct Hc as [-> Ha]. destruct (dlist_init _ _ Ha) as (m & -> & Hd & Ho & _). simpl.
    eexists. split; [done|]. split; [|done]. unfold cache_ok. simpl. split_and!; [done|lia|done].
Qed.

Lemma cache_ok_dlist c xs : cache_ok c xs → g_inited c = true → dlist (nodes c) g_free_headers xs.
Proof. by intros (_ & _ & Hc) Hi; rewrite Hi in Hc. Qed.

Lemma take_object_cached malloc_ok c x xs :
  cache_ok c (x :: xs) → g_inited c = true →
  ∃ c', take_object malloc_ok c = Some (Some x, c') ∧ cache_ok c' xs ∧ g_inited c' = true ∧
    allocated (nodes c') x ∧ ∀ q, q ∉ g_free_headers :: xs → nodes c' !! q = nodes c !! q.
Proof.
  intros Hok Hi. pose proof (cache_ok_dlist _ _ Hok Hi) as Hd. destruct Hok as (Hn & Hmax & _).
  unfold take_object. rewrite (dlist_empty _ _ _ Hd). simpl.
  pose proof Hd as [_ Hc]. cbn [chain] in Hc. destruct Hc as [Hnx _]. unfold nx in Hnx.
  destruct (nodes c !! g_free_headers) as [n|]; [|done]. simpl in *. injection Hnx as ->.
  destruct (dlist_del _ _ [] x xs Hd) as (m & -> & Hd' & Hx & Ho). simpl.
  rewrite Hn. simpl. eexists. split; [done|]. split_and!; simpl.
  - split_and!; simpl; [lia|simpl in Hmax; lia|by rewrite Hi].
  - done.
  - unfold allocated. rewrite Hx. eapply dlist_allocated; [exact Hd|set_solver].
  - exact Ho.
Qed.

Lemma take_object_empty malloc_ok c :
  cache_ok c [] → g_inited c = true →
  (malloc_ok = false ∧ take_object malloc_ok c = Some (None, c)) ∨
  (malloc_ok = true ∧ ∃ p c', take_object malloc_ok c = Some (Some p, c') ∧ cache_ok c' [] ∧
    g_inited c' = true ∧ nodes c !! p = None ∧ p ≠ g_free_headers ∧ allocated (nodes c') p ∧
    ∀ q, q ≠ p → nodes c' !! q = nodes c !! q).
Proof.
  intros Hok Hi. pose proof (cache_ok_dlist _ _ Hok Hi) as Hd. destruct Hok as (Hn & Hmax & _).
  unfold take_object. rewrite (dlist_empty _ _ _ Hd). simpl. destruct malloc_ok; [right|by left].
  split; [done|]. pose proof (is_fresh (dom (nodes c))) as Hf. set (p := fresh (dom (nodes c))) in *.
  apply not_elem_of_dom in Hf. assert (p ≠ g_free_headers) as Hp.
  { intros E. destruct (dlist_allocated _ _ _ g_free_headers Hd) as [? Hx]; [set_solver|]. congruence. }
  eexists p, _. split; [done|]. split_and!; simpl; try done.
  - split_and!; simpl; [done|lia|]. rewrite Hi. eapply dlist_ext; [|exact Hd].
    intros q ->%list_elem_of_singleton. by rewrite lookup_insert_ne.
  - eexists. apply lookup_insert_eq.
  - intros q Hq. by rewrite lookup_insert_ne.
Qed.

Lemma dlist_self m p : dlist m p [] → m !! p = Some (mk_links p p).
Proof.
  intros [_ [Hn Hp]]. unfold nx, pv in *. destruct (m !! p) as [[a b]|]; [|done]. simpl in *.
  by simplify_eq.
Qed.

Lemma cache_ok_ext c c' xs :
  cache_ok c xs → g_free_count c' = g_free_count c → g_inited c' = g_inited c →
  (∀ q, q ∈ g_free_headers :: xs → nodes c' !! q = nodes c !! q) → cache_ok c' xs.
Proof.
  intros (Hn & Hmax & Hc) En Ei E. split_and!; [congruence|done|]. rewrite Ei.
  destruct (g_inited c); [by eapply dlist_ext|]. destruct Hc as [-> Ha]. split; [done|].
  unfold allocated. by rewrite E by set_solver.
Qed.

Lemma cache_ok_inited c xs : cache_ok c xs → g_inited c = true → NoDup (g_free_headers :: xs).
Proof. intros Hok Hi. by apply (cache_ok_dlist _ _ Hok Hi). Qed.

(** The [memset] and [INIT_LIST_HEAD] of a fresh object. *)
Lemma clear_object c xs p :
  cache_ok c xs → p ∉ g_free_headers :: xs → allocated (nodes c) p →
  ∃ m, INIT_LIST_HEAD (<[p := mk_links 0 0]> (nodes c)) p = Some m ∧
    m !! p = Some (mk_links p p) ∧
    cache_ok (c <| nodes := m |> <| hdrs := <[p := null_header]> (hdrs c) |>) xs ∧
    ∀ q, q ≠ p → m !! q = nodes c !! q.
Proof.
  intros Hok Hp Ha. destruct (dlist_init (<[p := mk_links 0 0]> (nodes c)) p) as (m & E & Hd & Ho & _).
  { eexists. apply lookup_insert_eq. }
  assert (∀ q, q ≠ p → m !! q = nodes c !! q) as Ho'.
  { intros q Hq. by rewrite Ho, lookup_insert_ne. }
  exists m. split_and!; [done|by apply dlist_self| |done].
  eapply cache_ok_ext; [exact Hok|done..|]. intros q Hq. simpl. apply Ho'. by intros ->.
Qed.

(** The object returned comes from the front of the cache, or from [malloc] when the
    cache is empty; it is zeroed and linked to itself. *)
Lemma alloc_spec malloc_ok c xs :
  cache_ok c xs →
  ∃ hd c' xs', zv_http_header_alloc malloc_ok c = Some (hd, c') ∧ cache_ok c' xs' ∧
    g_inited c' = true ∧
    (∀ q, q ∉ g_free_headers :: xs → hd ≠ Some q → nodes c' !! q = nodes c !! q) ∧
    match hd with
    | None => malloc_ok = false ∧ xs = [] ∧ xs' = []
    | Some p =>
        (xs = p :: xs' ∨ xs = [] ∧ xs' = [] ∧ nodes c !! p = None) ∧ p ∉ g_free_headers :: xs' ∧
        nodes c' !! p = Some (mk_links p p) ∧ hdrs c' !! p = Some null_header
    end.
Proof.
  intros Hok. destruct (cache_init_ok c xs Hok) as (c1 & E1 & Hok1 & Hi1 & Ho1).
  unfold zv_http_header_alloc. rewrite E1. cbn [mbind option_bind].
  destruct xs as [|x xs].
  - destruct (take_object_empty malloc_ok c1 Hok1 Hi1)
      as [[-> ->]|(-> & p & c2 & -> & Hok2 & Hi2 & Hp1 & Hp & Ha & Ho2)]; cbn [mbind option_bind].
    { exists None, c1, []. split_and!; try done. intros q Hq _. apply Ho1. set_solver. }
    destruct (clear_object c2 [] p Hok2) as (m & Em & Hself & Hok3 & Ho3); [set_solver|done|].
    destruct Ha as [n Ha]. rewrite Ha. cbn [mbind option_bind]. simpl. rewrite Em. simpl.
    eexists (Some p), _, []. split; [done|]. split; [exact Hok3|]. split; [done|]. split.
    + intros q Hq Hne. simpl. rewrite Ho3, Ho2, Ho1; [done|set_solver|congruence..].
    + split; [right; rewrite <-Ho1 by done; done|]. split; [set_solver|]. split; [done|].
      simpl. apply lookup_insert_eq.
  - destruct (take_object_cached malloc_ok c1 x xs Hok1 Hi1) as (c2 & -> & Hok2 & Hi2 & Ha & Ho2).
    cbn [mbind option_bind]. pose proof (cache_ok_inited _ _ Hok1 Hi1) as Hnd.
    assert (x ∉ g_free_headers :: xs) as Hx.
    { apply NoDup_cons in Hnd as [? [??]%NoDup_cons]. set_solver. }
    destruct (clear_object c2 xs x Hok2 Hx Ha) as (m & Em & Hself & Hok3 & Ho3).
    destruct Ha as [n Ha]. rewrite Ha. cbn [mbind option_bind]. simpl. rewrite Em. simpl.
    eexists (Some x), _, xs. split; [done|]. split; [exact Hok3|]. split; [done|]. split.
    + intros q Hq Hne. simpl. rewrite Ho3, Ho2, Ho1; [done|set_solver|set_solver|congruence].
    + split; [by left|]. split; [done|]. split; [done|]. simpl. apply lookup_insert_eq.
Qed.

Lemma free_spec c xs p :
  cache_ok c xs → p ∉ g_free_headers :: xs → allocated (nodes c) p →
  ∃ c' xs', zv_http_header_free (Some p) c = Some c' ∧ cache_ok c' xs' ∧ g_inited c' = true ∧
    (∀ q, q ∉ g_free_headers :: p :: xs → nodes c' !! q = nodes c !! q) ∧
    if decide (length xs = ZV_HEADER_FREELIST_MAX) then xs' = xs ∧ nodes c' !! p = None
    else xs' = p :: xs ∧ hdrs c' !! p = Some null_header.
Proof.
  intros Hok Hp Ha. destruct (cache_init_ok c xs Hok) as (c1 & E1 & Hok1 & Hi1 & Ho1).
  unfold zv_http_header_free. rewrite E1. cbn [mbind option_bind].
  assert (allocated (nodes c1) p) as Ha1 by (unfold allocated; rewrite Ho1; [done|set_solver]).
  pose proof Hok1 as (Hn & Hmax & _). rewrite Hn.
  destruct (Nat.leb_spec ZV_HEADER_FREELIST_MAX (length xs)) as [Hle|Hlt].
  - destruct Ha1 as [n ->]. cbn [mbind option_bind]. eexists _, xs. split; [done|].
    rewrite decide_True by lia. split_and!; simpl; try done.
    + eapply cache_ok_ext; [exact Hok1|done..|]. intros q Hq. simpl.
      rewrite lookup_delete_ne; [done|]. by intros <-.
    + intros q Hq. rewrite lookup_delete_ne, Ho1; [done|set_solver..].
    + apply lookup_delete_eq.
  - destruct (dlist_init _ _ Ha1) as (m & Em & _ & Ho2 & Ha2). simpl. rewrite Em.
    cbn [mbind option_bind].
    assert (dlist m g_free_headers xs) as Hd.
    { eapply dlist_ext; [|by apply (cache_ok_dlist _ _ Hok1)]. intros q Hq. apply Ho2. by intros ->. }
    destruct (dlist_add m g_free_headers xs p Hd Hp Ha2) as (m' & -> & Hd' & Ho3).
    cbn [mbind option_bind]. eexists _, (p :: xs). split; [done|]. rewrite decide_False by lia.
    split_and!; simpl; try done.
    + split_and!; simpl; [lia|lia|by rewrite Hi1].
    + intros q Hq. rewrite Ho3, Ho2, Ho1; [done|set_solver..].
    + apply lookup_insert_eq.
Qed.

(** ** Any order of calls

    [used] are the headers handed out and not given back.  Between two calls their
    owner may write what it wants in them ([CacheOwner]). *)
Inductive cache_step : header_cache * gset nat → header_cache * gset nat → Prop :=
  | CacheAlloc malloc_ok c used p c' :
      zv_http_header_alloc malloc_ok c = Some (Some p, c') →
      cache_step (c, used) (c', {[ p ]} ∪ used)
  | CacheAllocFails malloc_ok c used c' :
      zv_http_header_alloc malloc_ok c = Some (None, c') → cache_step (c, used) (c', used)
  | CacheFree c used p c' :
      p ∈ used → zv_http_header_free (Some p) c = Some c' →
      cache_step (c, used) (c', used ∖ {[ p ]})
  | CacheOwner c used m hs :
      (∀ q, q ∉ used → m !! q = nodes c !! q) → (∀ q, q ∈ used → allocated m q) →
      cache_step (c, used) (c <| nodes := m |> <| hdrs := hs |>, used).

(** Used headers are allocated and not in the cache. *)
Definition shared_ok (s : header_cache * gset nat) : Prop :=
  ∃ xs, cache_ok s.1 xs ∧ ∀ p, p ∈ s.2 → p ∉ g_free_headers :: xs ∧ allocated (nodes s.1) p.

Lemma alloc_shared malloc_ok c used :
  shared_ok (c, used) →
  ∃ hd c', zv_http_header_alloc malloc_ok c = Some (hd, c') ∧
    match hd with
    | None => malloc_ok = false ∧ shared_ok (c', used)
    | Some p => p ∉ used ∧ hdrs c' !! p = Some null_header ∧ shared_ok (c', {[ p ]} ∪ used)
    end.
Proof.
  intros (xs & Hok & Hu). simpl in *.
  destruct (alloc_spec malloc_ok c xs Hok) as (hd & c' & xs' & E & Hok' & _ & Ho & Hhd).
  exists hd, c'. split; [done|]. destruct hd as [p|].
  - destruct Hhd as (Hp & Hp' & Hself & Hnull).
    assert (p ∉ used) as Hpu.
    { intros Hin. destruct (Hu p Hin) as [Hni [n Hn]].
      destruct Hp as [->|(-> & -> & Hnone)]; [set_solver|congruence]. }
    split; [done|]. split; [done|]. exists xs'. split; [done|]. simpl.
    intros q [->%elem_of_singleton|Hq]%elem_of_union; [split; [done|by eexists]|].
    destruct (Hu q Hq) as [Hni Ha]. split.
    + destruct Hp as [->|(-> & -> & _)]; set_solver.
    + unfold allocated. rewrite Ho; [done|done|]. intros [= ->]. done.
  - destruct Hhd as (-> & -> & ->). split; [done|]. exists []. split; [done|]. intros q Hq. simpl in *.
    destruct (Hu q Hq) as [Hni Ha]. split; [done|]. unfold allocated. by rewrite Ho.
Qed.

Lemma free_shared c used p :
  shared_ok (c, used) → p ∈ used →
  ∃ c', zv_http_header_free (Some p) c = Some c' ∧ shared_ok (c', used ∖ {[ p ]}).
Proof.
  intros (xs & Hok & Hu) Hp. simpl in *. destruct (Hu p Hp) as [Hpn Hpa].
  destruct (free_spec c xs p Hok Hpn Hpa) as (c' & xs' & E & Hok' & _ & Ho & Hx).
  exists c'. split; [done|]. exists xs'. split; [done|]. simpl. intros q [Hq Hqp]%elem_of_difference.
  destruct (Hu q Hq) as [Hni Ha]. split.
  - destruct (decide _) as [|]; [destruct Hx as [-> _]; done|destruct Hx as [-> _]; set_solver].
  - unfold allocated. rewrite Ho; [done|set_solver].
Qed.

Lemma cache_step_ok s s' : shared_ok s → cache_step s s' → shared_ok s'.
Proof.
  intros Hs. inversion 1 as [mo c used p c' E|mo c used c' E|c used p c' Hp E|c used m hs Ho Ha]; subst.
  - destruct (alloc_shared mo c used Hs) as (hd & c2 & E2 & Hhd). rewrite E in E2. simplify_eq.
    by destruct Hhd as (_ & _ & ?).
  - destruct (alloc_shared mo c used Hs) as (hd & c2 & E2 & Hhd). rewrite E in E2. simplify_eq.
    by destruct Hhd as (_ & ?).
  - destruct (free_shared c used p Hs Hp) as (c2 & E2 & ?). rewrite E in E2. by simplify_eq.
  - destruct Hs as (xs & Hok & Hu). exists xs. simpl in *. split.
    + eapply cache_ok_ext; [exact Hok|done..|]. intros q Hq. simpl. apply Ho.
      intros Hqu. by apply Hu in Hqu as [].
    + intros p Hp. split; [by apply Hu|by apply Ha].
Qed.

(** C19. Whatever the order of allocations and releases since the program started, and
    whatever the owners write in their headers meanwhile, [zv_http_header_alloc] does not
    fault, returns NULL only when [malloc] fails, and otherwise returns a zeroed header
    that no one else uses; giving back a header in use does not fault; and the cache never
    holds more than its maximum. *)
Theorem header_cache_safe c used malloc_ok :
  star cache_step (boot_cache, ∅) (c, used) →
  g_free_count c ≤ ZV_HEADER_FREELIST_MAX ∧
  (∃ hd c', zv_http_header_alloc malloc_ok c = Some (hd, c') ∧
     match hd with
     | None => malloc_ok = false
     | Some p => p ∉ used ∧ hdrs c' !! p = Some null_header
     end) ∧
  (∀ p, p ∈ used → ∃ c', zv_http_header_free (Some p) c = Some c').
Proof.
  intros Hstar. assert (shared_ok (c, used)) as Hs.
  { apply (star_invariant _ shared_ok _ _ cache_step_ok Hstar).
    exists []. split; [apply boot_ok|]. intros p Hp. simpl in Hp. set_solver. }
  split; [destruct Hs as (xs & (Hn & ? & _) & _); simpl in *; lia|]. split.
  - destruct (alloc_shared malloc_ok c used Hs) as (hd & c' & E & Hhd). exists hd, c'.
    split; [done|]. destruct hd; naive_solver.
  - intros p Hp. destruct (free_shared c used p Hs Hp) as (c' & E & _). eauto.
Qed.

(** Two headers taken, the second given back. *)
Definition demo_cache : header_cache := Eval vm_compute in
  from_option id boot_cache
    ('(a, c) ← zv_http_header_alloc true boot_cache;
     '(b, c) ← zv_http_header_alloc true c;
     zv_http_header_free b c).

Definition demo_used : gset nat := ({[ 2 ]} ∪ ({[ 1 ]} ∪ ∅)) ∖ {[ 2 ]}.

Lemma demo_cache_reachable : star cache_step (boot_cache, ∅) (demo_cache, demo_used).
Proof.
  eapply star_step; [eapply star_step; [eapply star_step; [apply star_refl|]|]|].
  - apply (CacheAlloc true). vm_compute. reflexivity.
  - apply (CacheAlloc true). vm_compute. reflexivity.
  - apply CacheFree; [set_solver|]. vm_compute. reflexivity.
Qed.

Lemma header_cache_safe_witness :
  g_free_count demo_cache ≤ ZV_HEADER_FREELIST_MAX ∧
  (∃ hd c', zv_http_header_alloc false demo_cache = Some (hd, c') ∧
     match hd with
     | None => false = false
     | Some p => p ∉ demo_used ∧ hdrs c' !! p = Some null_header
     end) ∧
  (∀ p, p ∈ demo_used → ∃ c', zv_http_header_free (Some p) demo_cache = Some c').
Proof. exact (header_cache_safe _ _ false demo_cache_reachable). Defined.

(** ** The free list implements [HeaderPool]

    The state is the cache and the headers handed out, the latest first.  A release with
    none handed out is of an object the client took from [malloc] itself. *)
Definition pool_free (s : header_cache * list nat) : header_cache * list nat :=
  let '(c, used) := s in
  let '(p, c, used) :=
    match used with
    | p :: used => (p, c, used)
    | [] => let p := fresh (dom (nodes c)) in
            (p, c <| nodes := <[p := mk_links 0 0]> (nodes c) |>, [])
    end in
  (default c (zv_http_header_free (Some p) c), used).

Definition pool_alloc (s : header_cache * list nat) : option (header_cache * list nat) :=
  '(hd, c) ← zv_http_header_alloc true (fst s);
  p ← hd;
  Some (c, p :: snd s).

Definition pool_ok (s : header_cache * list nat) : Prop :=
  NoDup (snd s) ∧ ∃ xs, cache_ok (fst s) xs ∧
    ∀ p, p ∈ snd s → p ∉ g_free_headers :: xs ∧ allocated (nodes (fst s)) p.

Lemma free_used c xs p (used : list nat) :
  cache_ok c xs → NoDup (p :: used) →
  (∀ q, q ∈ p :: used → q ∉ g_free_headers :: xs ∧ allocated (nodes c) q) →
  let c' := default c (zv_http_header_free (Some p) c) in
  pool_ok (c', used) ∧ g_free_count c' = min ZV_HEADER_FREELIST_MAX (S (length xs)).
Proof.
  intros Hok Hnd Hu. destruct (Hu p ltac:(set_solver)) as [Hp Ha].
  destruct (free_spec c xs p Hok Hp Ha) as (c' & xs' & -> & Hok' & _ & Ho & Hx). simpl.
  apply NoDup_cons in Hnd as [Hpu Hnd]. pose proof Hok as (_ & Hmax & _). pose proof Hok' as (Hn' & _).
  split.
  - split; [done|]. exists xs'. split; [done|]. intros q Hq. simpl in *.
    destruct (Hu q ltac:(set_solver)) as [Hni Hqa].
    assert (q ≠ p) by (intros ->; done). split.
    + destruct (decide _); [destruct Hx as [-> _]; done|destruct Hx as [-> _]; set_solver].
    + unfold allocated. rewrite Ho; [done|set_solver].
  - rewrite Hn'. destruct (decide _) as [E|E]; destruct Hx as [-> _]; cbn [length]; lia.
Qed.

#[refine] Instance cache_pool : HeaderPool (header_cache * list nat) := {
  hp_ok := pool_ok;
  hp_cached s := g_free_count (fst s);
  hp_max := ZV_HEADER_FREELIST_MAX;
  hp_alloc := pool_alloc;
  hp_free := pool_free;
}.
Proof.
  - intros [c used] (_ & xs & (Hn & ? & _) & _). simpl in *. lia.
  - intros [c used] (Hnd & xs & Hok & Hu) Hpos. simpl in *. unfold pool_alloc. simpl.
    pose proof Hok as (Hn & _). destruct xs as [|x xs]; [simpl in Hn; lia|].
    destruct (alloc_spec true c _ Hok) as (hd & c' & xs' & -> & Hok' & _ & Ho & Hhd).
    destruct hd as [p|]; [|naive_solver]. destruct Hhd as ([Hx|[? _]] & Hp & Hself & _); [|done].
    injection Hx as <- <-. simpl. eexists. split; [done|]. pose proof Hok' as (Hn' & _). simpl in *.
    split; [|lia]. split.
    + apply NoDup_cons. split; [|done]. intros Hin. apply Hu in Hin as [Hin _]. set_solver.
    + exists xs. split; [done|]. intros q [->|Hq]%elem_of_cons; [split; [done|by eexists]|].
      destruct (Hu q Hq) as [Hni Ha]. split; [set_solver|]. unfold allocated.
      rewrite Ho; [done|done|]. intros [= ->]. set_solver.
  - intros [c used] p' (Hnd & xs & Hok & Hu) H0. simpl in *. unfold pool_alloc. simpl.
    pose proof Hok as (Hn & _). rewrite H0 in Hn. symmetry in Hn. apply nil_length_inv in Hn as ->.
    destruct (alloc_spec true c _ Hok) as (hd & c' & xs' & -> & Hok' & _ & Ho & Hhd).
    destruct hd as [p|]; [|naive_solver]. destruct Hhd as ([Hx|(_ & -> & Hf)] & Hp & Hself & _); [done|].
    simpl. intros [= <-]. pose proof Hok' as (Hn' & _). split; [|done]. split; simpl.
    + apply NoDup_cons. split; [|done]. intros Hin. apply Hu in Hin as [_ [n Hn]]. congruence.
    + exists []. split; [done|]. intros q [->|Hq]%elem_of_cons; [split; [done|by eexists]|].
      destruct (Hu q Hq) as [Hni Ha]. split; [done|]. unfold allocated.
      rewrite Ho; [done|done|]. intros [= ->]. destruct Ha as [n Ha]. congruence.
  - intros [c used] (Hnd & xs & Hok & Hu). simpl in *. pose proof Hok as (Hn & _).
    unfold pool_free. destruct used as [|p used].
    + set (p := fresh (dom (nodes c))). set (c1 := c <| nodes := <[p := mk_links 0 0]> (nodes c) |>).
      pose proof (is_fresh (dom (nodes c))) as Hf. fold p in Hf. apply not_elem_of_dom in Hf.
      assert (p ∉ g_free_headers :: xs) as Hp.
      { intros Hin. destruct Hok as (_ & _ & Hc). destruct (g_inited c).
        - destruct (dlist_allocated _ _ _ _ Hc Hin). congruence.
        - destruct Hc as [-> [n Hn']]. apply list_elem_of_singleton in Hin. congruence. }
      assert (cache_ok c1 xs) as Hok1.
      { eapply cache_ok_ext; [exact Hok|done..|]. intros q Hq. simpl.
        rewrite lookup_insert_ne; [done|]. intros <-. done. }
      destruct (free_used c1 xs p [] Hok1) as [? ?]; [apply NoDup_singleton| |].
      * intros q ->%list_elem_of_singleton. split; [done|]. eexists. apply lookup_insert_eq.
      * cbn [fst snd]. split; [done|]. etransitivity; [eassumption|by rewrite Hn].
    + destruct (free_used c xs p used Hok Hnd Hu) as [? ?]. cbn [fst snd]. split; [done|]. etransitivity; [eassumption|by rewrite Hn].
Defined.
