(* ===== verification/RequestCache.v ===== *)
(** * The request free list (http_request_cache.c)

    Request objects are cached like headers, but a closed request first goes on a
    deferred list: an event of the current epoll batch may still point to it.  Only the
    [freelist] links are modelled here; [zv_init_request_t] is in Request.v. *)
From S2P Require Import Prelude DList.

Definition ZV_REQUEST_FREELIST_MAX : nat := Z.to_nat 65536.

Lemma REQUEST_FREELIST_value : Z.of_nat ZV_REQUEST_FREELIST_MAX = 65536%Z.
Proof. unfold ZV_REQUEST_FREELIST_MAX. lia. Qed.

Opaque ZV_REQUEST_FREELIST_MAX.

(** The addresses of the two static list heads. *)
Definition g_free_requests : nat := 0.
Definition g_deferred_requests : nat := 1.

Record cache_stats := mk_stats {
  g_get_calls : nat;
  g_get_hits : nat;
  g_get_mallocs : nat;
  g_put_calls : nat;
  g_put_frees : nat;
  g_max_free_count : nat;
}.
#[export] Instance eta_cache_stats : Eta cache_stats := fun s =>
  mk_stats (g_get_calls s) (g_get_hits s) (g_get_mallocs s) (g_put_calls s) (g_put_frees s)
    (g_max_free_count s).

Record request_cache := mk_rcache {
  links : memory;
  free_count : nat;
  inited : bool;
  stats : cache_stats;
}.
#[export] Instance eta_request_cache : Eta request_cache := fun c =>
  mk_rcache (links c) (free_count c) (inited c) (stats c).

Definition boot_rcache : request_cache :=
  mk_rcache {[ g_free_requests := mk_links 0 0; g_deferred_requests := mk_links 0 0 ]} 0 false
    (mk_stats 0 0 0 0 0 0).

Implicit Types (c : request_cache) (fs ds : list nat) (used : gset nat).

(** ** Operations *)

Definition init_once c : option request_cache :=
  if inited c then Some c
  else
    m ← INIT_LIST_HEAD (links c) g_free_requests;
    m ← INIT_LIST_HEAD m g_deferred_requests;
    Some (mk_rcache m 0 true (mk_stats 0 0 0 0 0 0)).

Definition put_internal (r : option nat) c : option request_cache :=
  match r with
  | None => Some c
  | Some p =>
      if ZV_REQUEST_FREELIST_MAX <=? free_count c then
        _ ← links c !! p;
        Some (c <| links := delete p (links c) |>
                <| stats := (stats c) <| g_put_frees := g_put_frees (stats c) + 1 |> |>)
      else
        m ← INIT_LIST_HEAD (links c) p;
        m ← list_add m p g_free_requests;
        let c := c <| links := m |> <| free_count := free_count c + 1 |> in
        Some (if g_max_free_count (stats c) <? free_count c
              then c <| stats := (stats c) <| g_max_free_count := free_count c |> |> else c)
  end.

(** A cached object if there is one, and otherwise one from [malloc]. *)
Definition take_request (malloc_ok : bool) c : option (option nat * request_cache) :=
  empty ← list_empty (links c) g_free_requests;
  if negb empty then
    head ← links c !! g_free_requests;
    let pos := next head in
    m ← list_del (links c) pos;
    let c := c <| links := m |>
               <| stats := (stats c) <| g_get_hits := g_get_hits (stats c) + 1 |> |> in
    Some (Some pos, if 0 <? free_count c then c <| free_count := free_count c - 1 |> else c)
  else if malloc_ok then
    let p := fresh (dom (links c)) in
    Some (Some p,
          c <| links := <[p := mk_links 0 0]> (links c) |>
            <| stats := (stats c) <| g_get_mallocs := g_get_mallocs (stats c) + 1 |> |>)
  else Some (None, c).

(** [zv_init_request_t] sets the free-list link of the object to itself. *)
Definition zv_http_request_get (malloc_ok : bool) c : option (option nat * request_cache) :=
  c ← init_once c;
  let c := c <| stats := (stats c) <| g_get_calls := g_get_calls (stats c) + 1 |> |> in
  '(r, c) ← take_request malloc_ok c;
  match r with
  | None => Some (None, c)
  | Some p => m ← INIT_LIST_HEAD (links c) p; Some (Some p, c <| links := m |>)
  end.

Definition zv_http_request_put (r : option nat) c : option request_cache :=
  match r with
  | None => Some c
  | Some p =>
      c ← init_once c;
      put_internal (Some p)
        (c <| stats := (stats c) <| g_put_calls := g_put_calls (stats c) + 1 |> |>)
  end.

Definition zv_http_request_put_deferred (r : option nat) c : option request_cache :=
  match r with
  | None => Some c
  | Some p =>
      c ← init_once c;
      m ← INIT_LIST_HEAD (links c) p;
      m ← list_add m p g_deferred_requests;
      Some (c <| links := m |>)
  end.

Fixpoint flush_loop (fuel : nat) c : option request_cache :=
  match fuel with
  | O => None
  | S fuel' =>
      empty ← list_empty (links c) g_deferred_requests;
      if empty : bool then Some c
      else
        head ← links c !! g_deferred_requests;
        let pos := next head in
        m ← list_del (links c) pos;
        c ← zv_http_request_put (Some pos) (c <| links := m |>);
        flush_loop fuel' c
  end.

(** Every deferred object is an allocated node, so this is fuel enough. *)
Definition zv_http_request_deferred_flush c : option request_cache :=
  c ← init_once c;
  flush_loop (S (base.size (links c))) c.

(** ** Invariant *)

(** [fs] is the free list and [ds] the deferred one. *)
Definition rcache_ok c fs ds : Prop :=
  free_count c = length fs ∧ length fs ≤ ZV_REQUEST_FREELIST_MAX ∧
  if inited c then
    dlist (links c) g_free_requests fs ∧ dlist (links c) g_deferred_requests ds ∧
    NoDup (g_free_requests :: g_deferred_requests :: fs ++ ds)
  else
    fs = [] ∧ ds = [] ∧ allocated (links c) g_free_requests ∧
    allocated (links c) g_deferred_requests.

Definition listed fs ds : list nat := g_free_requests :: g_deferred_requests :: fs ++ ds.

Lemma boot_rcache_ok : rcache_ok boot_rcache [] [].
Proof. split_and!; [done|simpl; lia|]. by split_and!; try eexists. Qed.

Lemma rcache_ok_ext c c' fs ds :
  rcache_ok c fs ds → free_count c' = free_count c → inited c' = inited c →
  (∀ q, q ∈ listed fs ds → links c' !! q = links c !! q) → rcache_ok c' fs ds.
Proof.
  intros (Hn & Hmax & Hc) En Ei E. split_and!; [congruence|done|]. rewrite Ei.
  unfold listed in E. destruct (inited c).
  - destruct Hc as (Hf & Hd & Hnd).
    split_and!; [eapply dlist_ext; [|exact Hf]; set_solver|
                 eapply dlist_ext; [|exact Hd]; set_solver|done].
  - destruct Hc as (-> & -> & Hf & Hd). unfold allocated. by rewrite !E by set_solver.
Qed.

Lemma rcache_inited c fs ds :
  rcache_ok c fs ds → inited c = true →
  dlist (links c) g_free_requests fs ∧ dlist (links c) g_deferred_requests ds ∧ NoDup (listed fs ds).
Proof. by intros (_ & _ & Hc) Hi; rewrite Hi in Hc. Qed.

Lemma once_spec c fs ds :
  rcache_ok c fs ds →
  ∃ c', init_once c = Some c' ∧ rcache_ok c' fs ds ∧ inited c' = true ∧
    ∀ q, q ∉ listed [] [] → links c' !! q = links c !! q.
Proof.
  intros (Hn & Hmax & Hc). unfold init_once. destruct (inited c) eqn:Ei.
  - exists c. split; [done|]. split; [|done]. by unfold rcache_ok; rewrite Ei.
  - destruct Hc as (-> & -> & Hf & Hd).
    destruct (dlist_init _ _ Hf) as (m & -> & Hdf & Ho & _). simpl.
    destruct (dlist_init m g_deferred_requests) as (m' & -> & Hdd & Ho' & _).
    { unfold allocated. by rewrite Ho. } simpl.
    eexists. split; [done|]. split; [split; [done|split; [done|]]|split; [done|]]; simpl.
    + split; [|split; [done|apply (bool_decide_unpack _); vm_compute; exact I]].
      eapply dlist_ext; [|exact Hdf]. intros q ->%list_elem_of_singleton. by apply Ho'.
    + intros q Hq. unfold listed in Hq. rewrite Ho', Ho; [done|set_solver..].
Qed.

(** ** Two lists in one memory *)
Definition two_lists (m : memory) (h h' : nat) (xs ys : list nat) : Prop :=
  dlist m h xs ∧ dlist m h' ys ∧ NoDup (h :: h' :: xs ++ ys).

Lemma two_lists_sym m h h' xs ys : two_lists m h h' xs ys → two_lists m h' h ys xs.
Proof.
  intros (Hx & Hy & Hnd). split_and!; [done|done|].
  by rewrite perm_swap, (Permutation_app_comm ys xs).
Qed.

Lemma push_spec m h h' xs ys p :
  two_lists m h h' xs ys → p ∉ h :: h' :: xs ++ ys → allocated m p →
  ∃ m1 m2, INIT_LIST_HEAD m p = Some m1 ∧ list_add m1 p h = Some m2 ∧
    two_lists m2 h h' (p :: xs) ys ∧ ∀ q, q ∉ h :: p :: xs → m2 !! q = m !! q.
Proof.
  intros (Hx & Hy & Hnd) Hp Ha. destruct (dlist_init m p Ha) as (m1 & E1 & _ & Ho1 & Ha1).
  assert (dlist m1 h xs) as Hx1.
  { eapply dlist_ext; [|exact Hx]. intros q Hq. apply Ho1. intros ->. set_solver. }
  destruct (dlist_add m1 h xs p Hx1) as (m2 & E2 & Hx2 & Ho2); [set_solver|done|].
  assert (∀ q, q ∉ h :: p :: xs → m2 !! q = m !! q) as Ho.
  { intros q Hq. rewrite Ho2, Ho1; [done|set_solver|done]. }
  exists m1, m2. split; [done|]. split; [done|]. split; [|done]. split; [done|]. split.
  - eapply dlist_ext; [|exact Hy]. intros q Hq. apply Ho.
    rewrite !NoDup_cons, NoDup_app in Hnd. destruct Hnd as (? & ? & ? & Hdis & ?).
    apply elem_of_cons in Hq as [->|Hq]; [set_solver|]. pose proof (Hdis q). set_solver.
  - cbn [app]. rewrite !NoDup_cons in *. set_solver.
Qed.

Lemma pop_spec m h h' x xs ys :
  two_lists m h h' (x :: xs) ys →
  ∃ m', (next <$> m !! h) = Some x ∧ list_del m x = Some m' ∧ two_lists m' h h' xs ys ∧
    x ∉ h :: h' :: xs ++ ys ∧ allocated m' x ∧ ∀ q, q ∉ h :: xs → m' !! q = m !! q.
Proof.
  intros (Hx & Hy & Hnd). pose proof Hx as [_ (Hn & _)].
  destruct (dlist_del m h [] x xs Hx) as (m' & E & Hx' & Hxx & Ho). cbn [app] in *.
  rewrite !NoDup_cons, NoDup_app in Hnd. destruct Hnd as (Hh & Hh' & Hxn & Hxs & Hdis & Hys).
  exists m'. split; [done|]. split; [done|]. split; [split; [done|split]|split; [|split; [|done]]].
  - eapply dlist_ext; [|exact Hy]. intros q Hq. apply Ho.
    apply elem_of_cons in Hq as [->|Hq]; [set_solver|]. pose proof (Hdis q). set_solver.
  - rewrite !NoDup_cons, NoDup_app. set_solver.
  - set_solver.
  - unfold allocated. rewrite Hxx. eapply dlist_allocated; [exact Hx|set_solver].
Qed.

(** ** The operations *)

Lemma put_spec c fs ds p :
  rcache_ok c fs ds → inited c = true → p ∉ listed fs ds → allocated (links c) p →
  ∃ c' fs', zv_http_request_put (Some p) c = Some c' ∧ rcache_ok c' fs' ds ∧ inited c' = true ∧
    (∀ q, q ∉ p :: listed fs [] → links c' !! q = links c !! q) ∧
    (fs' = if decide (length fs = ZV_REQUEST_FREELIST_MAX) then fs else p :: fs).
Proof.
  intros Hok Hi Hp Ha. unfold zv_http_request_put, init_once. rewrite Hi. cbn [mbind option_bind].
  pose proof (rcache_inited _ _ _ Hok Hi) as Htwo. pose proof Hok as (Hn & Hmax & _).
  unfold put_internal. simpl. rewrite Hn.
  destruct (Nat.leb_spec ZV_REQUEST_FREELIST_MAX (length fs)) as [Hle|Hlt].
  - destruct Ha as [n ->]. cbn [mbind option_bind]. eexists _, fs. split; [done|].
    rewrite decide_True by lia. split.
    + eapply rcache_ok_ext; [exact Hok|done..|]. intros q Hq. simpl.
      rewrite lookup_delete_ne; [done|]. by intros <-.
    + split; [done|]. split; [|done]. intros q Hq. simpl. rewrite lookup_delete_ne; [done|set_solver].
  - destruct (push_spec (links c) g_free_requests g_deferred_requests fs ds p Htwo Hp Ha)
      as (m1 & m2 & -> & E2 & Htwo' & Ho). cbn [mbind option_bind].
    rewrite E2. cbn [mbind option_bind].
    eexists _, (p :: fs). split; [done|]. rewrite decide_False by lia. split.
    + destruct (_ <? _); (split; [simpl; lia|]; split; [simpl; lia|]; simpl; rewrite Hi; exact Htwo').
    + split; [by destruct (_ <? _)|]. split; [|done]. intros q Hq.
      assert (m2 !! q = links c !! q) as <- by (apply Ho; unfold listed in Hq; set_solver).
      by destruct (_ <? _).
Qed.

Lemma flush_loop_spec fuel c fs ds :
  rcache_ok c fs ds → inited c = true → length ds < fuel →
  ∃ c' fs', flush_loop fuel c = Some c' ∧ rcache_ok c' fs' [] ∧ inited c' = true ∧
    (∀ q, q ∉ listed fs ds → links c' !! q = links c !! q) ∧
    (∀ q, q ∈ fs' → q ∈ fs ++ ds) ∧
    (length fs + length ds ≤ ZV_REQUEST_FREELIST_MAX → fs' = reverse ds ++ fs).
Proof.
  revert c fs ds. induction fuel as [|fuel IH]; intros c fs ds Hok Hi Hf; [lia|]. cbn [flush_loop].
  pose proof (rcache_inited _ _ _ Hok Hi) as Htwo. pose proof Htwo as (_ & Hd & _).
  rewrite (dlist_empty _ _ _ Hd). cbn [mbind option_bind]. destruct ds as [|d ds].
  { rewrite bool_decide_true by done. exists c, fs. split_and!; try done. intros q. by rewrite app_nil_r. }
  rewrite bool_decide_false by done.
  destruct (pop_spec (links c) g_deferred_requests g_free_requests d ds fs)
    as (m & Hn & E & Htwo' & Hnd & Ha & Ho); [by apply two_lists_sym|].
  destruct (links c !! g_deferred_requests) as [n|]; [|done]. injection Hn as Hn.
  cbn [mbind option_bind]. rewrite Hn, E. cbn [mbind option_bind].
  apply two_lists_sym in Htwo'.
  assert (rcache_ok (c <| links := m |>) fs ds) as Hok1.
  { destruct Hok as (H1 & H2 & _). split; [done|]. split; [done|]. simpl. rewrite Hi. exact Htwo'. }
  destruct (put_spec (c <| links := m |>) fs ds d Hok1) as (c1 & fs1 & -> & Hok2 & Hi2 & Ho2 & Hfs1);
    [done|unfold listed; set_solver|done|].
  cbn [mbind option_bind]. cbn [length] in Hf.
  destruct (IH c1 fs1 ds Hok2 Hi2 ltac:(lia)) as (c' & fs' & E' & Hok' & Hi' & Ho' & Hin & Hrev).
  assert (∀ q, q ∈ fs1 → q ∈ d :: fs) as Hfs1'.
  { rewrite Hfs1. case_decide; set_solver. }
  exists c', fs'. split_and!; try done.
  - intros q Hq. rewrite Ho', Ho2; [simpl; apply Ho|..]; unfold listed in *; set_solver.
  - intros q Hq%Hin. set_solver.
  - intros Hlen. cbn [length] in *. rewrite decide_False in Hfs1 by lia. subst fs1.
    rewrite Hrev by (cbn [length]; lia). by rewrite reverse_cons, <-app_assoc.
Qed.

Lemma rcache_size c fs ds :
  rcache_ok c fs ds → inited c = true → length ds < S (base.size (links c)).
Proof.
  intros Hok Hi. pose proof (rcache_inited _ _ _ Hok Hi) as (_ & Hd & _).
  pose proof Hd as [Hnd _]. apply NoDup_cons in Hnd as [_ Hnd].
  rewrite <-size_dom, <-(size_list_to_set (C := gset nat) ds) by done.
  apply Nat.lt_succ_r, subseteq_size. intros q Hq%elem_of_list_to_set.
  apply elem_of_dom. eapply dlist_allocated; [exact Hd|set_solver].
Qed.

Lemma get_spec malloc_ok c fs ds :
  rcache_ok c fs ds →
  ∃ r c' fs', zv_http_request_get malloc_ok c = Some (r, c') ∧ rcache_ok c' fs' ds ∧
    inited c' = true ∧
    (∀ q, q ∉ listed fs [] → r ≠ Some q → links c' !! q = links c !! q) ∧
    match r with
    | None => malloc_ok = false ∧ fs = [] ∧ fs' = []
    | Some p =>
        (fs = p :: fs' ∨ fs = [] ∧ fs' = [] ∧ links c !! p = None) ∧ p ∉ listed fs' ds ∧
        allocated (links c') p
    end.
Proof.
  intros Hok. destruct (once_spec c fs ds Hok) as (c1 & E1 & Hok1 & Hi1 & Ho1).
  unfold zv_http_request_get. rewrite E1. cbn [mbind option_bind].
  pose proof (rcache_inited _ _ _ Hok1 Hi1) as Htwo. pose proof Htwo as (Hf & Hd & Hnd).
  pose proof Hok1 as (Hn1 & Hmax1 & _).
  unfold take_request. simpl. rewrite (dlist_empty _ _ _ Hf). cbn [mbind option_bind].
  destruct fs as [|x fs].
  - rewrite bool_decide_true by done. cbn [negb]. destruct malloc_ok; cbn [mbind option_bind].
    + pose proof (is_fresh (dom (links c1))) as Hp. set (p := fresh (dom (links c1))) in *.
      apply not_elem_of_dom in Hp.
      assert (p ∉ listed [] ds) as Hpl.
      { intros Hin. assert (p ∈ [g_free_requests] ∨ p ∈ g_deferred_requests :: ds) as [Hq|Hq]
          by (unfold listed in Hin; set_solver).
        - destruct (dlist_allocated _ _ _ _ Hf Hq). congruence.
        - destruct (dlist_allocated _ _ _ _ Hd Hq). congruence. }
      simpl. destruct (dlist_init (<[p := mk_links 0 0]> (links c1)) p) as (m & -> & _ & Ho & Ha).
      { eexists. apply lookup_insert_eq. }
      cbn [mbind option_bind].
      assert (∀ q, q ≠ p → m !! q = links c1 !! q) as Ho2.
      { intros q Hq. by rewrite Ho, lookup_insert_ne. }
      eexists (Some p), _, []. split; [done|]. split.
      { eapply rcache_ok_ext; [exact Hok1|done..|]. intros q Hq. simpl. apply Ho2. by intros ->. }
      split; [done|]. split.
      { intros q Hq Hne. simpl. rewrite Ho2, Ho1; [done|done|congruence]. }
      split; [right; split_and!; try done; rewrite <-Ho1; [done|]|split; done].
      unfold listed in *. set_solver.
    + eexists None, _, []. split; [done|]. split; [exact Hok1|]. split; [done|]. split; [|done].
      intros q Hq _. simpl. by apply Ho1.
  - rewrite bool_decide_false by done. cbn [negb].
    destruct (pop_spec (links c1) g_free_requests g_deferred_requests x fs ds Htwo)
      as (m & Hn & E & Htwo' & Hx & Ha & Ho).
    destruct (links c1 !! g_free_requests) as [n|]; [|done]. injection Hn as Hn.
    cbn [mbind option_bind]. rewrite Hn, E. cbn [mbind option_bind]. rewrite Hn1. simpl.
    destruct (dlist_init m x Ha) as (m2 & -> & _ & Ho2 & Ha2). cbn [mbind option_bind].
    eexists (Some x), _, fs. split; [done|]. split.
    { split; [simpl; lia|]. split; [simpl in Hmax1; simpl; lia|]. simpl. rewrite Hi1.
      destruct Htwo' as (Hf' & Hd' & Hnd').
      split; [|split; [|done]]; (eapply dlist_ext; [|eassumption]); intros q Hq; apply Ho2;
        intros ->; set_solver. }
    split; [done|]. split.
    { intros q Hq Hne. simpl. unfold listed in *. rewrite Ho2, Ho, Ho1; [done|set_solver|set_solver|congruence]. }
    split; [by left|done].
Qed.

Lemma put_deferred_spec c fs ds p :
  rcache_ok c fs ds → p ∉ listed fs ds → allocated (links c) p →
  ∃ c', zv_http_request_put_deferred (Some p) c = Some c' ∧ rcache_ok c' fs (p :: ds) ∧
    ∀ q, q ∉ p :: listed [] ds → links c' !! q = links c !! q.
Proof.
  intros Hok Hp Ha. destruct (once_spec c fs ds Hok) as (c1 & E1 & Hok1 & Hi1 & Ho1).
  unfold zv_http_request_put_deferred. rewrite E1. cbn [mbind option_bind].
  pose proof (rcache_inited _ _ _ Hok1 Hi1) as Htwo. apply two_lists_sym in Htwo.
  assert (allocated (links c1) p) as Ha1.
  { unfold allocated. rewrite Ho1; [done|]. unfold listed in *. set_solver. }
  destruct (push_spec (links c1) g_deferred_requests g_free_requests ds fs p Htwo)
    as (m1 & m2 & -> & E2 & Htwo' & Ho); [unfold listed in Hp; set_solver|done|].
  cbn [mbind option_bind]. rewrite E2. cbn [mbind option_bind]. eexists. split; [done|]. apply two_lists_sym in Htwo'. split.
  - destruct Hok1 as (H1 & H2 & _). split; [done|]. split; [done|]. simpl. rewrite Hi1. exact Htwo'.
  - intros q Hq. simpl. unfold listed in *. rewrite Ho, Ho1; [done|set_solver..].
Qed.

(** ** Any order of calls

    A state is the cache, the requests in use and the requests closed since the last
    flush. *)
Definition cache_state : Type := request_cache * gset nat * gset nat.

Inductive rcache_step : cache_state → cache_state → Prop :=
  | StepGet malloc_ok c used closed p c' :
      zv_http_request_get malloc_ok c = Some (Some p, c') →
      rcache_step (c, used, closed) (c', {[ p ]} ∪ used, closed)
  | StepGetFails malloc_ok c used closed c' :
      zv_http_request_get malloc_ok c = Some (None, c') →
      rcache_step (c, used, closed) (c', used, closed)
  | StepClose c used closed p c' :
      p ∈ used → zv_http_request_put_deferred (Some p) c = Some c' →
      rcache_step (c, used, closed) (c', used ∖ {[ p ]}, {[ p ]} ∪ closed)
  | StepPut c used closed p c' :
      p ∈ used → zv_http_request_put (Some p) c = Some c' →
      rcache_step (c, used, closed) (c', used ∖ {[ p ]}, closed)
  | StepFlush c used closed c' :
      zv_http_request_deferred_flush c = Some c' →
      rcache_step (c, used, closed) (c', used, ∅).

Definition requests_ok (s : cache_state) : Prop :=
  let '(c, used, closed) := s in
  ∃ fs ds, rcache_ok c fs ds ∧ (∀ p, p ∈ closed ↔ p ∈ ds) ∧
    ∀ p, p ∈ used → p ∉ listed fs ds ∧ allocated (links c) p.

Lemma get_requests malloc_ok c used closed :
  requests_ok (c, used, closed) →
  ∃ r c', zv_http_request_get malloc_ok c = Some (r, c') ∧
    match r with
    | None => malloc_ok = false ∧ requests_ok (c', used, closed)
    | Some p => p ∉ used ∧ p ∉ closed ∧ requests_ok (c', {[ p ]} ∪ used, closed)
    end.
Proof.
  intros (fs & ds & Hok & Hcl & Hu).
  destruct (get_spec malloc_ok c fs ds Hok) as (r & c' & fs' & E & Hok' & _ & Ho & Hr).
  exists r, c'. split; [done|]. destruct r as [p|].
  - destruct Hr as (Hp & Hpl & Hpa). assert (p ∉ used) as Hpu.
    { intros Hin. destruct (Hu p Hin) as [Hni [n Hn]]. unfold listed in *.
      destruct Hp as [->|(-> & -> & Hnone)]; [set_solver|congruence]. }
    split; [done|]. split; [rewrite Hcl; unfold listed in Hpl; set_solver|].
    exists fs', ds. split; [done|]. split; [done|].
    intros q [->%elem_of_singleton|Hq]%elem_of_union; [done|].
    destruct (Hu q Hq) as [Hni Ha]. unfold listed in *. split.
    + destruct Hp as [->|(-> & -> & _)]; set_solver.
    + unfold allocated. rewrite Ho; [done|set_solver|]. intros [= ->]. done.
  - destruct Hr as (-> & -> & ->). split; [done|]. exists [], ds. split; [done|]. split; [done|].
    intros q Hq. destruct (Hu q Hq) as [Hni Ha]. split; [done|]. unfold allocated, listed in *.
    rewrite Ho; [done|set_solver|done].
Qed.

Lemma close_requests c used closed p :
  requests_ok (c, used, closed) → p ∈ used →
  ∃ c', zv_http_request_put_deferred (Some p) c = Some c' ∧
    requests_ok (c', used ∖ {[ p ]}, {[ p ]} ∪ closed).
Proof.
  intros (fs & ds & Hok & Hcl & Hu) Hp. destruct (Hu p Hp) as [Hni Ha].
  destruct (put_deferred_spec c fs ds p Hok Hni Ha) as (c' & E & Hok' & Ho).
  exists c'. split; [done|]. exists fs, (p :: ds). split; [done|]. split; [set_solver|].
  intros q [Hq Hqp]%elem_of_difference. destruct (Hu q Hq) as [Hqn Hqa]. unfold listed in *.
  split; [set_solver|]. unfold allocated. rewrite Ho; [done|set_solver].
Qed.

Lemma put_requests c used closed p :
  requests_ok (c, used, closed) → p ∈ used →
  ∃ c', zv_http_request_put (Some p) c = Some c' ∧ requests_ok (c', used ∖ {[ p ]}, closed).
Proof.
  intros (fs & ds & Hok & Hcl & Hu) Hp.
  destruct (once_spec c fs ds Hok) as (c1 & E1 & Hok1 & Hi1 & Ho1). destruct (Hu p Hp) as [Hni Ha].
  assert (zv_http_request_put (Some p) c = zv_http_request_put (Some p) c1) as ->.
  { unfold zv_http_request_put. rewrite E1. unfold init_once. by rewrite Hi1. }
  assert (∀ q, q ∉ listed fs ds → links c1 !! q = links c !! q) as Ho2.
  { intros q Hq. apply Ho1. unfold listed in *. set_solver. }
  destruct (put_spec c1 fs ds p Hok1 Hi1 Hni) as (c' & fs' & E & Hok' & _ & Ho & Hfs).
  { unfold allocated. by rewrite Ho2. }
  exists c'. split; [done|]. exists fs', ds. split; [done|]. split; [done|].
  intros q [Hq Hqp]%elem_of_difference. destruct (Hu q Hq) as [Hqn Hqa]. split.
  - rewrite Hfs. unfold listed in *. case_decide; set_solver.
  - unfold allocated. rewrite Ho, Ho2; [done|done|]. unfold listed in *. set_solver.
Qed.

Lemma flush_requests c used closed :
  requests_ok (c, used, closed) →
  ∃ c', zv_http_request_deferred_flush c = Some c' ∧ requests_ok (c', used, ∅).
Proof.
  intros (fs & ds & Hok & Hcl & Hu).
  destruct (once_spec c fs ds Hok) as (c1 & E1 & Hok1 & Hi1 & Ho1).
  unfold zv_http_request_deferred_flush. rewrite E1. cbn [mbind option_bind].
  destruct (flush_loop_spec _ c1 fs ds Hok1 Hi1 (rcache_size _ _ _ Hok1 Hi1))
    as (c' & fs' & -> & Hok' & _ & Ho & Hin & _).
  exists c'. split; [done|]. exists fs', []. split; [done|]. split; [set_solver|].
  intros p Hp. destruct (Hu p Hp) as [Hni Ha]. split.
  - unfold listed in *. specialize (Hin p). set_solver.
  - unfold allocated. rewrite Ho, Ho1; [done| |done]. unfold listed in *. set_solver.
Qed.

Lemma rcache_step_ok s s' : requests_ok s → rcache_step s s' → requests_ok s'.
Proof.
  intros Hs. inversion 1 as [mo c u cl p c' E|mo c u cl c' E|c u cl p c' Hp E|c u cl p c' Hp E|c u cl c' E];
    subst.
  - destruct (get_requests mo c u cl Hs) as (r & c2 & E2 & Hr). rewrite E in E2. naive_solver.
  - destruct (get_requests mo c u cl Hs) as (r & c2 & E2 & Hr). rewrite E in E2. naive_solver.
  - destruct (close_requests c u cl p Hs Hp) as (c2 & E2 & ?). rewrite E in E2. by simplify_eq.
  - destruct (put_requests c u cl p Hs Hp) as (c2 & E2 & ?). rewrite E in E2. by simplify_eq.
  - destruct (flush_requests c u cl Hs) as (c2 & E2 & ?). rewrite E in E2. by simplify_eq.
Qed.

(** C20. A request object is never handed out while it is in use, nor between its closing
    and the next flush, whatever the order of calls; no call faults, the cache stays
    within its maximum, and a request is refused only when [malloc] fails. *)
Theorem request_cache_safe c used closed malloc_ok :
  star rcache_step (boot_rcache, ∅, ∅) (c, used, closed) →
  free_count c ≤ ZV_REQUEST_FREELIST_MAX ∧
  (∃ r c', zv_http_request_get malloc_ok c = Some (r, c') ∧
     match r with None => malloc_ok = false | Some p => p ∉ used ∧ p ∉ closed end) ∧
  (∀ p, p ∈ used →
     (∃ c', zv_http_request_put_deferred (Some p) c = Some c') ∧
     (∃ c', zv_http_request_put (Some p) c = Some c')) ∧
  (∃ c', zv_http_request_deferred_flush c = Some c').
Proof.
  intros Hstar. assert (requests_ok (c, used, closed)) as Hs.
  { apply (star_invariant _ requests_ok _ _ rcache_step_ok Hstar).
    exists [], []. split; [apply boot_rcache_ok|]. set_solver. }
  split; [destruct Hs as (fs & ds & (Hn & ? & _) & _); simpl in *; lia|]. split_and!.
  - destruct (get_requests malloc_ok c used closed Hs) as (r & c' & E & Hr). exists r, c'.
    split; [done|]. destruct r; naive_solver.
  - intros p Hp. destruct (close_requests c used closed p Hs Hp) as (c1 & ? & _).
    destruct (put_requests c used closed p Hs Hp) as (c2 & ? & _). eauto.
  - destruct (flush_requests c used closed Hs) as (c' & ? & _). eauto.
Qed.

(** A flush makes every deferred request available again, the first deferred first,
    in front of the ones already cached, as long as the cache has room for them. *)
Theorem deferred_flush_exact c fs ds :
  rcache_ok c fs ds → length fs + length ds ≤ ZV_REQUEST_FREELIST_MAX →
  ∃ c', zv_http_request_deferred_flush c = Some c' ∧ rcache_ok c' (reverse ds ++ fs) [].
Proof.
  intros Hok Hlen. destruct (once_spec c fs ds Hok) as (c1 & E1 & Hok1 & Hi1 & Ho1).
  unfold zv_http_request_deferred_flush. rewrite E1. cbn [mbind option_bind].
  destruct (flush_loop_spec _ c1 fs ds Hok1 Hi1 (rcache_size _ _ _ Hok1 Hi1))
    as (c' & fs' & -> & Hok' & _ & _ & _ & Hfs).
  exists c'. split; [done|]. by rewrite <-Hfs.
Qed.

(** Two requests in use, then both closed. *)
Definition demo_rcache : request_cache := Eval vm_compute in
  from_option id boot_rcache
    ('(a, c) ← zv_http_request_get true boot_rcache;
     '(b, c) ← zv_http_request_get true c;
     c ← zv_http_request_put_deferred a c;
     zv_http_request_put_deferred b c).

Definition demo_used : gset nat := (({[ 3 ]} ∪ ({[ 2 ]} ∪ ∅)) ∖ {[ 2 ]}) ∖ {[ 3 ]}.
Definition demo_closed : gset nat := {[ 3 ]} ∪ ({[ 2 ]} ∪ ∅).

Lemma demo_rcache_reachable :
  star rcache_step (boot_rcache, ∅, ∅) (demo_rcache, demo_used, demo_closed).
Proof.
  eapply star_step; [eapply star_step; [eapply star_step; [eapply star_step; [apply star_refl|]|]|]|].
  - apply (StepGet true). vm_compute. reflexivity.
  - apply (StepGet true). vm_compute. reflexivity.
  - apply (StepClose _ _ _ 2); [set_solver|]. vm_compute. reflexivity.
  - apply (StepClose _ _ _ 3); [set_solver|]. vm_compute. reflexivity.
Qed.

Lemma demo_rcache_ok : rcache_ok demo_rcache [] [3; 2].
Proof.
  split; [reflexivity|]. split; [simpl; lia|]. simpl. split_and!.
  - split; [apply (bool_decide_unpack _); vm_compute; exact I|repeat split; vm_compute; reflexivity].
  - split; [apply (bool_decide_unpack _); vm_compute; exact I|repeat split; vm_compute; reflexivity].
  - apply (bool_decide_unpack _); vm_compute; exact I.
Qed.

Lemma request_cache_safe_witness :
  free_count demo_rcache ≤ ZV_REQUEST_FREELIST_MAX ∧
  (∃ r c', zv_http_request_get false demo_rcache = Some (r, c') ∧
     match r with None => false = false | Some p => p ∉ demo_used ∧ p ∉ demo_closed end) ∧
  (∀ p, p ∈ demo_used →
     (∃ c', zv_http_request_put_deferred (Some p) demo_rcache = Some c') ∧
     (∃ c', zv_http_request_put (Some p) demo_rcache = Some c')) ∧
  (∃ c', zv_http_request_deferred_flush demo_rcache = Some c').
Proof. exact (request_cache_safe _ _ _ false demo_rcache_reachable). Defined.

Lemma two_fit : length (@nil nat) + length [3; 2] ≤ ZV_REQUEST_FREELIST_MAX.
Proof. pose proof REQUEST_FREELIST_value. cbn [length]. lia. Qed.

Lemma deferred_flush_exact_witness :
  ∃ c', zv_http_request_deferred_flush demo_rcache = Some c' ∧ rcache_ok c' [2; 3] [].
Proof. exact (deferred_flush_exact demo_rcache [] [3; 2] demo_rcache_ok two_fit). Defined.
