(* ===== verification/Sockets.v ===== *)
(** * Non-blocking descriptors

    What the kernel does to each call is a script: a write takes some of the bytes it is
    offered or fails with an errno; a read delivers what has arrived, the end of the
    stream or an errno.  When the script is exhausted the call fails with EAGAIN, which
    is what a socket that is not ready does.  [EWOULDBLOCK] is [EAGAIN] on Linux. *)
From S2P Require Import Prelude.

Definition EPIPE : Z := 32.
Definition ECONNRESET : Z := 104.

Inductive reply := Accept (n : nat) | Err (errno : Z).

#[export] Instance reply_eq_dec : EqDecision reply.
Proof. solve_decision. Defined.

(** The client's side of a connection: [wire] is all it was ever sent. *)
Record socket := mk_socket { script : list reply; wire : list Z }.

(** [writev] of the concatenation of the buffers. *)
Definition send (s : socket) (data : list Z) : (nat + Z) * socket :=
  match script s with
  | [] => (inr EAGAIN, s)
  | Accept n :: rest =>
      let k := min n (length data) in (inl k, mk_socket rest (wire s ++ take k data))
  | Err e :: rest => (inr e, mk_socket rest (wire s))
  end.

(** [sendfile] of the bytes the file still has in the range: 0 at the end of the file. *)
Definition sendfile (s : socket) (data : list Z) : (nat + Z) * socket :=
  match data with [] => (inl 0, s) | _ => send s data end.

(** The reading end of a pipe: [Arrived bs] are the bytes that are there, [Arrived []] is
    the end of the stream. *)
Inductive arrival := Arrived (bs : list Z) | ReadErr (errno : Z).

Definition pipe := list arrival.

(** [read] of at most [cap] bytes. *)
Definition read (p : pipe) (cap : nat) : (list Z + Z) * pipe :=
  match p with
  | [] => (inr EAGAIN, [])
  | Arrived bs :: rest =>
      (inl (take cap bs), if cap <? length bs then Arrived (drop cap bs) :: rest else rest)
  | ReadErr e :: rest => (inr e, rest)
  end.

(** How much a pipe can still deliver. *)
Definition pipe_size (p : pipe) : nat :=
  sum_list_with (λ a, match a with Arrived bs => S (length bs) | ReadErr _ => 1 end) p.

Lemma read_bytes p cap bs p' :
  0 < cap → read p cap = (inl bs, p') →
  length bs ≤ cap ∧ pipe_size p' < pipe_size p ∧ pipe_size p' + length bs ≤ pipe_size p.
Proof.
  unfold read. intros Hcap. destruct p as [|[l|e] p]; [done| |done]. intros [= <- <-].
  rewrite length_take. destruct (Nat.ltb_spec cap (length l)); simpl; rewrite ?length_drop; lia.
Qed.

(** One more call has been answered. *)
Lemma send_script s data :
  script s = [] ∨ length (script (send s data).2) < length (script s).
Proof.
  unfold send. destruct (script s) as [|[n|e] rest]; [by left|right; simpl; lia..].
Qed.

Lemma send_inl s data n s' :
  send s data = (inl n, s') →
  n ≤ length data ∧ wire s' = wire s ++ take n data ∧ length (script s') < length (script s).
Proof.
  unfold send. destruct (script s) as [|[k|e] rest]; intros [= <- <-]; simpl.
  split_and!; [lia|done|lia].
Qed.

Lemma send_inr s data e s' :
  send s data = (inr e, s') →
  wire s' = wire s ∧ (e = EAGAIN ∨ length (script s') < length (script s)).
Proof.
  unfold send. destruct (script s) as [|[k|e'] rest]; intros [= <- <-]; simpl; auto.
Qed.
