(* ===== verification/Output.v ===== *)
(** * Responses (http.c: appendf, reset_output, try_send, prepare_error, prepare_static)

    A response is a header, an optional body in memory and an optional file, with the
    positions reached in each.  An open file is the list of its bytes.  [open] and the
    date format are parameters. *)
From S2P Require Import Prelude CString Sockets Path.

Definition MAXLINE : nat := Z.to_nat 8192.
Definition ZV_OUT_HEADER_SIZE : nat := Z.to_nat 8192.

Lemma MAXLINE_value : Z.of_nat MAXLINE = 8192%Z.
Proof. unfold MAXLINE. lia. Qed.

Lemma OUT_HEADER_value : Z.of_nat ZV_OUT_HEADER_SIZE = 8192%Z.
Proof. unfold ZV_OUT_HEADER_SIZE. lia. Qed.

Opaque MAXLINE ZV_OUT_HEADER_SIZE.

Definition ZV_HTTP_OK : Z := 200.
Definition ZV_HTTP_NOT_MODIFIED : Z := 304.
Definition ZV_HTTP_NOT_FOUND : Z := 404.

(** The output part of [zv_http_request_t]; the lengths [out_header_len] and
    [out_body_len] are those of the lists, and [out_file] is [None] when
    [out_file_fd] is -1. *)
Record output := mk_output {
  keep_alive : bool;
  writing : bool;
  out_header : list Z;
  out_header_sent : nat;
  out_body : option (list Z);
  out_body_sent : nat;
  out_file : option (list Z);
  out_file_offset : nat;
  out_file_size : nat;
}.
#[export] Instance eta_output : Eta output := fun r =>
  mk_output (keep_alive r) (writing r) (out_header r) (out_header_sent r) (out_body r)
    (out_body_sent r) (out_file r) (out_file_offset r) (out_file_size r).

(** [zv_http_out_t]; [zv_init_out_t] leaves [mtime] uninitialised ([None]). *)
Record out_t := mk_out_t {
  o_keep_alive : bool;
  mtime : option Z;
  modified : bool;
  status : Z;
}.
#[export] Instance eta_out_t : Eta out_t := fun o =>
  mk_out_t (o_keep_alive o) (mtime o) (modified o) (status o).

Definition zv_init_out_t : out_t := mk_out_t false None true 0.

Implicit Types (r : output) (s : socket).

(** ** Building *)

(** The buffer holds [buf]; the return code and the new contents. *)
Definition appendf (cap : nat) (buf text : list Z) : Z * list Z :=
  if cap <=? length buf then ((-1)%Z, buf)
  else if cap - length buf <=? length text then ((-1)%Z, take (cap - 1) (buf ++ text))
  else (0%Z, buf ++ text).

(** A sequence of calls whose return codes are ignored. *)
Definition append_all (cap : nat) (texts : list (list Z)) : list Z :=
  fold_left (fun buf t => (appendf cap buf t).2) texts [].

Definition reset_output r : output :=
  mk_output (keep_alive r) false [] 0 None 0 None 0 0.

(** Seconds, rounded up. *)
Definition keep_alive_timeout_sec (ms : Z) : Z :=
  if (ms =? 0)%Z then 0%Z
  else
    let sec := i32 (u64 (ms + 999) / 1000) in
    if (sec <? 1)%Z then 1%Z else sec.

Definition get_shortmsg_from_status_code (status_code : Z) : list Z :=
  if (status_code =? ZV_HTTP_OK)%Z then str "OK"
  else if (status_code =? ZV_HTTP_NOT_MODIFIED)%Z then str "Not Modified"
  else if (status_code =? ZV_HTTP_NOT_FOUND)%Z then str "Not Found"
  else str "Unknown".

Definition connection_lines (keep : bool) (ms : Z) : list (list Z) :=
  if keep then
    [str "Connection: keep-alive" ++ crlf;
     str "Keep-Alive: timeout=" ++ fmt_int (keep_alive_timeout_sec ms) ++ crlf]
  else [str "Connection: close" ++ crlf].

(** 34 is the double quote. *)
Definition error_body (cause errnum shortmsg longmsg : list Z) : list Z :=
  append_all MAXLINE
    [str "<html><title>Zaver Error</title>";
     str "<body bgcolor=" ++ [34%Z] ++ str "ffffff" ++ [34%Z] ++ str ">" ++ [LF];
     errnum ++ str ": " ++ shortmsg ++ [LF];
     str "<p>" ++ longmsg ++ str ": " ++ cause ++ [LF] ++ str "</p>";
     str "<hr><em>Zaver web server</em>" ++ [LF] ++ str "</body></html>"].

(** [ms] is [r->keep_alive_timeout_ms]; [cause] and the messages are C strings. *)
Definition prepare_error (malloc_ok : bool) (ms : Z) r (cause errnum shortmsg longmsg : list Z)
    (keep : bool) : Z * output :=
  let r := (reset_output r) <| keep_alive := keep |> in
  let body := error_body cause errnum shortmsg longmsg in
  if negb malloc_ok then ((-1)%Z, r)
  else
    let header := append_all ZV_OUT_HEADER_SIZE
      ([str "HTTP/1.1 " ++ errnum ++ str " " ++ shortmsg ++ crlf;
        str "Server: Zaver" ++ crlf;
        str "Content-type: text/html" ++ crlf]
       ++ connection_lines keep ms
       ++ [str "Content-length: " ++ fmt_dec (Z.of_nat (length body)) ++ crlf ++ crlf]) in
    (0%Z, r <| out_body := Some body |> <| out_body_sent := 0 |>
            <| out_header := header |> <| out_header_sent := 0 |> <| out_file := None |>).

Section prepare_static.
(** [strftime] of [localtime_r], and [open] of a file name for reading. *)
Variables (fmt_time : Z → list Z) (open : list Z → option (list Z)).

Definition prepare_static (ms : Z) r (filename : list Z) (filesize : nat) (out : out_t) : Z * output :=
  let file_type := get_file_type (strrchr "."%ch filename) in
  let r := (reset_output r) <| keep_alive := o_keep_alive out |> in
  let header := append_all ZV_OUT_HEADER_SIZE
    ([str "HTTP/1.1 " ++ fmt_int (status out) ++ str " " ++
        get_shortmsg_from_status_code (status out) ++ crlf]
     ++ connection_lines (o_keep_alive out) ms
     ++ (if modified out then
           [str "Content-type: " ++ file_type ++ crlf;
            str "Content-length: " ++ fmt_dec (Z.of_nat filesize) ++ crlf;
            str "Last-Modified: " ++ fmt_time (default 0%Z (mtime out)) ++ crlf]
         else [])
     ++ [str "Server: Zaver" ++ crlf; crlf]) in
  let r := r <| out_header := header |> <| out_header_sent := 0 |> in
  if negb (modified out) then
    (0%Z, r <| out_file := None |> <| out_file_offset := 0 |> <| out_file_size := 0 |>)
  else
    match open filename with
    | None => ((-1)%Z, r)
    | Some bytes =>
        (0%Z, r <| out_file := Some bytes |> <| out_file_offset := 0 |> <| out_file_size := filesize |>)
    end.
End prepare_static.

(** ** Sending *)

Definition header_left r : bool := out_header_sent r <? length (out_header r).

Definition body_left r : bool :=
  match out_body r with Some b => out_body_sent r <? length b | None => false end.

Definition body_bytes r : list Z := default [] (out_body r).

(** The two [iovec]s. *)
Definition iov r : list Z :=
  (if header_left r then drop (out_header_sent r) (out_header r) else []) ++
  (if body_left r then drop (out_body_sent r) (body_bytes r) else []).

(** The bookkeeping after [writev] took [n] bytes. *)
Definition advance r (n : nat) : output :=
  let '(r, rest) :=
    if header_left r then
      let hrem := length (out_header r) - out_header_sent r in
      let hcons := if hrem <=? n then hrem else n in
      (r <| out_header_sent := out_header_sent r + hcons |>, n - hcons)
    else (r, n) in
  if (0 <? rest) && body_left r then
    let brem := length (body_bytes r) - out_body_sent r in
    let bcons := if brem <=? rest then brem else rest in
    r <| out_body_sent := out_body_sent r + bcons |>
  else r.

(** Inner [None]: the loop ends; otherwise the function returns. *)
Fixpoint send_mem (fuel : nat) r s : option (option Z * output * socket) :=
  match fuel with
  | O => None
  | S fuel' =>
      if header_left r || body_left r then
        match send s (iov r) with
        | (inl n, s) =>
            if 0 <? n then send_mem fuel' (advance r n) s
            else Some (Some (-1)%Z, r, s)
        | (inr e, s) =>
            if (e =? EINTR)%Z then send_mem fuel' r s
            else if (e =? EAGAIN)%Z then Some (Some 1%Z, r, s)
            else Some (Some (-1)%Z, r, s)
        end
      else Some (None, r, s)
  end.

Fixpoint send_file (fuel : nat) r s : option (Z * output * socket) :=
  match fuel with
  | O => None
  | S fuel' =>
      match out_file r with
      | Some bytes =>
          if out_file_offset r <? out_file_size r then
            let remaining := out_file_size r - out_file_offset r in
            match sendfile s (take remaining (drop (out_file_offset r) bytes)) with
            | (inl n, s) =>
                if 0 <? n then send_file fuel' (r <| out_file_offset := out_file_offset r + n |>) s
                else Some (0%Z, r, s)
            | (inr e, s) =>
                if (e =? EINTR)%Z then send_file fuel' r s
                else if (e =? EAGAIN)%Z then Some (1%Z, r, s)
                else Some ((-1)%Z, r, s)
            end
          else Some (0%Z, r, s)
      | None => Some (0%Z, r, s)
      end
  end.

(** Every turn of a loop uses up an answer of the script, so this is fuel enough. *)
Definition try_send r s : option (Z * output * socket) :=
  '(rc, r, s) ← send_mem (S (length (script s))) r s;
  match rc with
  | Some rc => Some (rc, r, s)
  | None => send_file (S (length (script s))) r s
  end.

(** ** What remains to be sent *)

Definition mem_pending r : list Z :=
  drop (out_header_sent r) (out_header r) ++ drop (out_body_sent r) (body_bytes r).

Definition file_pending r : list Z :=
  take (out_file_size r - out_file_offset r) (drop (out_file_offset r) (default [] (out_file r))).

Definition pending r : list Z := mem_pending r ++ file_pending r.

(** The whole response. *)
Definition response r : list Z :=
  out_header r ++ body_bytes r ++ take (out_file_size r) (default [] (out_file r)).

(** Only the positions differ. *)
Definition same_response r r' : Prop :=
  keep_alive r' = keep_alive r ∧ writing r' = writing r ∧ out_header r' = out_header r ∧
  out_body r' = out_body r ∧ out_file r' = out_file r ∧ out_file_size r' = out_file_size r.

#[export] Instance same_response_preorder : PreOrder same_response.
Proof. split; unfold same_response; [done|]. intros r1 r2 r3 ??. naive_solver congruence. Qed.

Lemma same_response_eq r r' : same_response r r' → response r' = response r.
Proof. intros (_ & _ & E1 & E2 & E3 & E4). unfold response, body_bytes. by rewrite E1, E2, E3, E4. Qed.

Lemma iov_mem_pending r : iov r = mem_pending r.
Proof.
  unfold iov, mem_pending, header_left, body_left, body_bytes. f_equal.
  - destruct (Nat.ltb_spec (out_header_sent r) (length (out_header r))); [done|].
    by rewrite drop_ge.
  - destruct (out_body r) as [b|]; simpl; [|by rewrite drop_nil].
    destruct (Nat.ltb_spec (out_body_sent r) (length b)); [done|]. by rewrite drop_ge.
Qed.

Lemma left_pending r : header_left r || body_left r = false ↔ mem_pending r = [].
Proof.
  unfold mem_pending, header_left, body_left, body_bytes.
  rewrite orb_false_iff, app_nil, <-!skipn_all_iff, Nat.ltb_ge.
  destruct (out_body r); simpl; [by rewrite Nat.ltb_ge|]. split; [intros [? _]; split; lia|naive_solver].
Qed.

Lemma drop_min {A} (l : list A) i n : drop (i + min n (length l - i)) l = drop n (drop i l).
Proof.
  rewrite drop_drop. destruct (decide (n ≤ length l - i)).
  - by rewrite Nat.min_l.
  - rewrite !drop_ge by lia. done.
Qed.

(** [advance] skips exactly the bytes taken. *)
Lemma advance_pending r n : mem_pending (advance r n) = drop n (mem_pending r).
Proof.
  unfold mem_pending. rewrite drop_app, length_drop.
  set (hrem := length (out_header r) - out_header_sent r).
  assert (∀ a b : nat, (if b <=? a then b else a) = min a b) as Emin by (intros; ztests).
  unfold advance. rewrite Emin. fold hrem.
  assert (∃ k, (if header_left r
                then (r <| out_header_sent := out_header_sent r + min n hrem |>, n - min n hrem)
                else (r, n)) =
               (r <| out_header_sent := k |>, n - hrem) ∧
               drop k (out_header r) = drop n (drop (out_header_sent r) (out_header r)))
    as (k & -> & <-).
  { unfold header_left. destruct (Nat.ltb_spec (out_header_sent r) (length (out_header r))).
    - eexists. split; [f_equal; lia|]. apply drop_min.
    - exists (out_header_sent r). split; [|by rewrite drop_drop, !drop_ge by lia].
      destruct r. simpl in *. f_equal. unfold hrem. simpl. lia. }
  set (m := n - hrem). unfold body_left. cbn [out_body]. simpl.
  destruct (out_body r) as [b|] eqn:Eb; simpl.
  - destruct (Nat.ltb_spec 0 m), (Nat.ltb_spec (out_body_sent r) (length b)); simpl;
      rewrite ?Emin, ?Eb; simpl; unfold body_bytes; simpl; rewrite ?Eb; simpl.
    + by rewrite drop_min.
    + by rewrite drop_drop, !(drop_ge b) by lia.
    + by replace m with 0 by lia.
    + by replace m with 0 by lia.
  - rewrite andb_false_r. unfold body_bytes. simpl. rewrite Eb. simpl. by rewrite !drop_nil.
Qed.

Lemma advance_same r n : same_response r (advance r n).
Proof.
  unfold same_response, advance. destruct (header_left r); simpl; (destruct (_ && _); by simpl).
Qed.

Lemma advance_file r n : file_pending (advance r n) = file_pending r.
Proof.
  unfold file_pending. unfold advance. destruct (header_left r); simpl; (destruct (_ && _); by simpl).
Qed.

Definition offset_ok r : Prop := out_file_offset r ≤ out_file_size r.

Lemma advance_offset r n : out_file_offset (advance r n) = out_file_offset r.
Proof. unfold advance. destruct (header_left r); simpl; (destruct (_ && _); by simpl). Qed.

(** The kernel never takes 0 bytes of a write that offers some. *)
Definition no_zero s : Prop := Accept 0 ∉ script s.

Lemma send_no_zero s data x s' : no_zero s → send s data = (x, s') → no_zero s'.
Proof.
  unfold no_zero, send. destruct (script s) as [|[n|e] rest] eqn:E; intros Hz [= <- <-]; simpl;
    [by rewrite E|set_solver..].
Qed.

Lemma send_zero s data s' : no_zero s → send s data = (inl 0, s') → data = [].
Proof.
  unfold no_zero, send. destruct (script s) as [|[n|e] rest] eqn:E; intros Hz; intros [= En <-].
  destruct data; [done|]. simpl in En. destruct n; [set_solver|lia].
Qed.

Lemma send_mem_spec fuel r s :
  length (script s) < fuel →
  ∃ rc r' s', send_mem fuel r s = Some (rc, r', s') ∧ same_response r r' ∧
    file_pending r' = file_pending r ∧ out_file_offset r' = out_file_offset r ∧
    wire s' ++ mem_pending r' = wire s ++ mem_pending r ∧
    length (script s') ≤ length (script s) ∧ (no_zero s → no_zero s') ∧
    match rc with
    | None => mem_pending r' = []
    | Some c => (c = 1 ∨ c = -1)%Z ∧ mem_pending r' ≠ []
    end.
Proof.
  revert r s. induction fuel as [|fuel IH]; intros r s Hf; [lia|]. cbn [send_mem].
  destruct (header_left r || body_left r) eqn:El.
  2: { exists None, r, s. apply left_pending in El. split_and!; done. }
  assert (mem_pending r ≠ []) as Hp by (rewrite <-left_pending; congruence).
  rewrite iov_mem_pending. destruct (send s (mem_pending r)) as [[n|e] s1] eqn:Es.
  - pose proof (send_inl _ _ _ _ Es) as (Hn & Hw & Hl). destruct (Nat.ltb_spec 0 n).
    + destruct (IH (advance r n) s1) as (rc & r' & s' & E & Hsame & Hfp & Hoff & Hw' & Hl' & Hz & Hrc); [lia|].
      exists rc, r', s'. split_and!; try done.
      * etransitivity; [apply advance_same|exact Hsame].
      * by rewrite Hfp, advance_file.
      * by rewrite Hoff, advance_offset.
      * by rewrite Hw', Hw, advance_pending, <-app_assoc, take_drop.
      * lia.
      * intros Hz0. apply Hz. by eapply send_no_zero.
    + exists (Some (-1)%Z), r, s1. replace n with 0 in * by lia.
      split_and!; try done; [by rewrite Hw, take_0, app_nil_r|lia|by intros; eapply send_no_zero|auto].
  - pose proof (send_inr _ _ _ _ Es) as (Hw & Hl).
    assert (length (script s1) ≤ length (script s)) as Hl'.
    { unfold send in Es. destruct (script s) as [|[k|k] rest] eqn:Esc; simplify_eq; simpl; [by rewrite Esc|lia]. }
    assert (no_zero s → no_zero s1) as Hz by (intros; by eapply send_no_zero).
    destruct (Z.eqb_spec e EINTR) as [->|Hne]; [|destruct (Z.eqb_spec e EAGAIN)].
    + destruct Hl as [Hl|Hl]; [done|].
      destruct (IH r s1) as (rc & r' & s' & E & Hsame & Hfp & Hoff & Hw' & Hl2 & Hz' & Hrc); [lia|].
      exists rc, r', s'. split_and!; try done; [by rewrite Hw', Hw|lia|auto].
    + exists (Some 1%Z), r, s1. split_and!; try done; [by rewrite Hw|auto].
    + exists (Some (-1)%Z), r, s1. split_and!; try done; [by rewrite Hw|auto].
Qed.

Lemma file_advance r n bytes :
  out_file r = Some bytes → out_file_offset r + n ≤ out_file_size r →
  file_pending (r <| out_file_offset := out_file_offset r + n |>) = drop n (file_pending r).
Proof.
  intros Eb Hn. unfold file_pending. simpl. rewrite Eb. simpl.
  rewrite skipn_firstn_comm, drop_drop. f_equal. lia.
Qed.

Lemma send_file_spec fuel r s :
  length (script s) < fuel → offset_ok r →
  ∃ rc r' s', send_file fuel r s = Some (rc, r', s') ∧ same_response r r' ∧
    mem_pending r' = mem_pending r ∧ offset_ok r' ∧
    wire s' ++ file_pending r' = wire s ++ file_pending r ∧
    (rc = 0 ∨ rc = 1 ∨ rc = -1)%Z ∧ (no_zero s → rc = 0%Z → file_pending r' = []) ∧
    (rc = 1%Z → file_pending r' ≠ []).
Proof.
  revert r s. induction fuel as [|fuel IH]; intros r s Hf Ho; [lia|]. cbn [send_file].
  destruct (out_file r) as [bytes|] eqn:Eb.
  2: { exists 0%Z, r, s. split_and!; try done; [auto|]. intros _ _. unfold file_pending.
       rewrite Eb. simpl. by rewrite drop_nil, take_nil. }
  destruct (Nat.ltb_spec (out_file_offset r) (out_file_size r)) as [Hlt|Hge].
  2: { exists 0%Z, r, s. split_and!; try done; [auto|]. intros _ _. unfold file_pending.
       by replace (out_file_size r - out_file_offset r) with 0 by lia. }
  assert (take (out_file_size r - out_file_offset r) (drop (out_file_offset r) bytes) = file_pending r)
    as -> by (unfold file_pending; by rewrite Eb).
  unfold sendfile. destruct (file_pending r) as [|b bs] eqn:Ep.
  { simpl. exists 0%Z, r, s. split_and!; try done; [by rewrite Ep|auto]. }
  rewrite <-Ep. destruct (send s (file_pending r)) as [[n|e] s1] eqn:Es.
  - pose proof (send_inl _ _ _ _ Es) as (Hn & Hw & Hl). destruct (Nat.ltb_spec 0 n).
    + assert (out_file_offset r + n ≤ out_file_size r) as Hle.
      { unfold file_pending in Hn. rewrite length_take in Hn. lia. }
      destruct (IH (r <| out_file_offset := out_file_offset r + n |>) s1)
        as (rc & r' & s' & E & Hsame & Hm & Ho' & Hw' & Hrc & Hz & H1); [lia|exact Hle|].
      exists rc, r', s'. split; [exact E|]. split; [exact Hsame|]. split; [exact Hm|].
      split; [done|]. split; [|split; [done|split; [|done]]].
      * by rewrite Hw', Hw, (file_advance r n bytes), <-app_assoc, take_drop.
      * intros Hz0. apply Hz. by eapply send_no_zero.
    + replace n with 0 in * by lia. exists 0%Z, r, s1.
      split_and!; try done; [by rewrite Hw, take_0, app_nil_r|auto|].
      intros Hz0. by apply (send_zero _ _ _ Hz0) in Es.
  - pose proof (send_inr _ _ _ _ Es) as (Hw & Hl).
    destruct (Z.eqb_spec e EINTR) as [->|Hne]; [|destruct (Z.eqb_spec e EAGAIN)].
    + destruct Hl as [Hl|Hl]; [done|].
      destruct (IH r s1) as (rc & r' & s' & E & Hsame & Hm & Ho' & Hw' & Hrc & Hz & H1); [lia|done|].
      exists rc, r', s'. split_and!; try done; [by rewrite Hw', Hw|].
      intros Hz0. apply Hz. by eapply send_no_zero.
    + exists 1%Z, r, s1. split_and!; try done; [by rewrite Hw|auto|by rewrite Ep].
    + exists (-1)%Z, r, s1. split_and!; try done; [by rewrite Hw|auto].
Qed.

(** ** The contract of [try_send] *)

Lemma try_send_spec r s :
  offset_ok r →
  ∃ rc r' s', try_send r s = Some (rc, r', s') ∧ offset_ok r' ∧ same_response r r' ∧
    wire s' ++ pending r' = wire s ++ pending r ∧ (rc = 0 ∨ rc = 1 ∨ rc = -1)%Z ∧
    (no_zero s → rc = 0%Z → pending r' = []) ∧ (rc = 1%Z → pending r' ≠ []).
Proof.
  intros Ho. unfold try_send.
  destruct (send_mem_spec (S (length (script s))) r s)
    as (rc & r1 & s1 & -> & Hsame & Hfp & Hoff & Hw & _ & Hz & Hrc); [lia|].
  cbn [mbind option_bind].
  assert (wire s1 ++ pending r1 = wire s ++ pending r) as Hw1.
  { unfold pending. by rewrite Hfp, !app_assoc, Hw. }
  assert (offset_ok r1) as Ho1.
  { unfold offset_ok. destruct Hsame as (_ & _ & _ & _ & _ & ->). by rewrite Hoff. }
  destruct rc as [c|].
  - exists c, r1, s1. destruct Hrc as [Hc Hne]. split_and!; try done.
    + destruct Hc as [->| ->]; auto.
    + intros _ ->. by destruct Hc.
    + intros _. unfold pending. intros [? _]%app_nil. done.
  - destruct (send_file_spec (S (length (script s1))) r1 s1)
      as (rc & r2 & s2 & -> & Hsame2 & Hm & Ho2 & Hw2 & Hc & Hz2 & H1); [lia|done|].
    exists rc, r2, s2. split_and!; try done.
    + by etransitivity.
    + rewrite <-Hw1. unfold pending. rewrite Hm, Hrc. exact Hw2.
    + intros Hz0 Hc0. unfold pending. rewrite Hm, Hrc. apply Hz2; auto.
    + intros Hc1. unfold pending. rewrite Hm, Hrc. by apply H1.
Qed.

(** The answers of the kernel are used up from the front, and the client only gets more. *)
Definition continues s s' : Prop := script s' `suffix_of` script s ∧ wire s `prefix_of` wire s'.

#[export] Instance continues_preorder : PreOrder continues.
Proof. split; [done|]. intros s1 s2 s3 [] []. split; by etrans. Qed.

Lemma send_continues s data : continues s (send s data).2.
Proof.
  unfold continues, send. destruct (script s) as [|[n|e] rest] eqn:E; simpl; rewrite ?E.
  - done.
  - split; [by exists [Accept n]|by eexists].
  - split; [by exists [Err e]|done].
Qed.

Lemma send_mem_continues fuel r s x r' s' :
  send_mem fuel r s = Some (x, r', s') → continues s s'.
Proof.
  revert r s. induction fuel as [|fuel IH]; intros r s; cbn [send_mem]; [done|].
  destruct (_ || _); [|by intros [= <- <- <-]]. pose proof (send_continues s (iov r)) as Hs.
  destruct (send s (iov r)) as [[n|e] s1]; simpl in Hs.
  - destruct (0 <? n); [intros E%IH; by etrans|by intros [= <- <- <-]].
  - destruct (e =? EINTR)%Z; [intros E%IH; by etrans|]. destruct (e =? EAGAIN)%Z; by intros [= <- <- <-].
Qed.

Lemma send_file_continues fuel r s x r' s' :
  send_file fuel r s = Some (x, r', s') → continues s s'.
Proof.
  revert r s. induction fuel as [|fuel IH]; intros r s; cbn [send_file]; [done|].
  destruct (out_file r) as [bytes|]; [|by intros [= <- <- <-]].
  destruct (_ <? _); [|by intros [= <- <- <-]]. cbv zeta.
  set (data := take _ _). assert (continues s (sendfile s data).2) as Hs.
  { unfold sendfile. destruct data; [done|apply send_continues]. }
  destruct (sendfile s data) as [[n|e] s1]; simpl in Hs.
  - destruct (0 <? n); [intros E%IH; by etrans|by intros [= <- <- <-]].
  - destruct (e =? EINTR)%Z; [intros E%IH; by etrans|]. destruct (e =? EAGAIN)%Z; by intros [= <- <- <-].
Qed.

Lemma try_send_continues r s rc r' s' : try_send r s = Some (rc, r', s') → continues s s'.
Proof.
  unfold try_send. destruct (send_mem _ r s) as [[[x r1] s1]|] eqn:E; [|done]. cbn [mbind option_bind].
  apply send_mem_continues in E. destruct x; [by intros [= <- <- <-]|]. intros ?%send_file_continues. by etrans.
Qed.

(** The connection does not break: a write fails only to be tried again. *)
Definition retries (a : reply) : Prop :=
  match a with Accept n => 0 < n | Err e => e = EINTR ∨ e = EAGAIN end.

Definition calm s : Prop := Forall retries (script s).

Lemma calm_no_zero s : calm s → no_zero s.
Proof. unfold calm, no_zero. rewrite Forall_forall. intros Hf Hin. specialize (Hf _ Hin). simpl in Hf. lia. Qed.

Lemma calm_continues s s' : continues s s' → calm s → calm s'.
Proof. unfold calm. intros [[k ->] _] [_ Hf]%Forall_app. done. Qed.

Lemma no_zero_continues s s' : continues s s' → no_zero s → no_zero s'.
Proof. unfold no_zero. intros [[k ->] _] Hn Hin. apply Hn. set_solver. Qed.

Lemma calm_err s data e s' : calm s → send s data = (inr e, s') → e = EINTR ∨ e = EAGAIN.
Proof.
  unfold calm, send. destruct (script s) as [|[n|e'] rest]; [by intros _ [= <- <-]; right|done|].
  intros [Hr _]%Forall_cons [= <- <-]. done.
Qed.

Lemma send_mem_calm fuel r s rc r' s' : calm s → send_mem fuel r s = Some (Some rc, r', s') → rc = 1%Z.
Proof.
  revert r s. induction fuel as [|fuel IH]; intros r s Hc; cbn [send_mem]; [done|].
  destruct (_ || _) eqn:El; [|done]. pose proof (send_continues s (iov r)) as Hs.
  destruct (send s (iov r)) as [[n|e] s1] eqn:Es; simpl in Hs.
  - destruct (Nat.ltb_spec 0 n); [intros E; by apply IH in E; [|eapply calm_continues]|].
    replace n with 0 in Es by lia. apply send_zero in Es; [|by apply calm_no_zero].
    rewrite iov_mem_pending, <-left_pending in Es. congruence.
  - destruct (calm_err _ _ _ _ Hc Es) as [-> | ->]; [|by intros [= <- <- <-]].
    intros E. by apply IH in E; [|eapply calm_continues].
Qed.

Lemma send_file_calm fuel r s rc r' s' : calm s → send_file fuel r s = Some (rc, r', s') → rc = 0%Z ∨ rc = 1%Z.
Proof.
  revert r s. induction fuel as [|fuel IH]; intros r s Hc; cbn [send_file]; [done|].
  destruct (out_file r) as [bytes|]; [|intros [= <- <- <-]; by left].
  destruct (_ <? _); [|intros [= <- <- <-]; by left]. cbv zeta. set (data := take _ _).
  unfold sendfile. destruct data as [|x l]; [intros [= <- <- <-]; by left|].
  pose proof (send_continues s (x :: l)) as Hs. destruct (send s (x :: l)) as [[n|e] s1] eqn:Es; simpl in Hs.
  - destruct (0 <? n); [|intros [= <- <- <-]; by left]. intros E. by apply IH in E; [|eapply calm_continues].
  - destruct (calm_err _ _ _ _ Hc Es) as [-> | ->]; [|intros [= <- <- <-]; by right].
    intros E. by apply IH in E; [|eapply calm_continues].
Qed.

Lemma try_send_calm r s rc r' s' : calm s → try_send r s = Some (rc, r', s') → rc = 0%Z ∨ rc = 1%Z.
Proof.
  intros Hc. unfold try_send. destruct (send_mem _ r s) as [[[x r1] s1]|] eqn:E; [|done]. cbn [mbind option_bind].
  destruct x as [x|].
  - intros [= <- <- <-]. right. by eapply send_mem_calm.
  - apply send_mem_continues in E. intros ?%send_file_calm; [done|by eapply calm_continues].
Qed.

(** Answers that always take something. *)
Definition willing s : Prop := Forall (λ a, ∃ n, a = Accept (S n)) (script s).

Lemma send_willing s data :
  willing s → data ≠ [] → script s ≠ [] →
  ∃ n s', send s data = (inl (S n), s') ∧ willing s' ∧ length (script s) = S (length (script s')).
Proof.
  unfold willing, send. destruct (script s) as [|a rest]; [done|].
  intros [[n ->] Hw]%Forall_cons Hd _. destruct data as [|x data]; [done|].
  exists (min n (length data)), (mk_socket rest (wire s ++ take (S (min n (length data))) (x :: data))).
  done.
Qed.

Lemma send_mem_live fuel r s :
  length (script s) < fuel → willing s → length (pending r) ≤ length (script s) →
  ∃ r' s', send_mem fuel r s = Some (None, r', s') ∧ willing s' ∧
    length (script s) + length (pending r') ≤ length (script s') + length (pending r).
Proof.
  revert r s. induction fuel as [|fuel IH]; intros r s Hf Hw Hlen; [lia|]. cbn [send_mem].
  destruct (header_left r || body_left r) eqn:El; [|exists r, s; split_and!; done || lia].
  assert (mem_pending r ≠ []) as Hp by (rewrite <-left_pending; congruence).
  rewrite iov_mem_pending. unfold pending in Hlen. rewrite length_app in Hlen.
  assert (0 < length (mem_pending r)) by (destruct (mem_pending r); simpl; [done|lia]).
  destruct (send_willing s (mem_pending r) Hw Hp) as (n & s1 & Es & Hw1 & Hl1).
  { intros E. rewrite E in Hlen. simpl in Hlen. lia. }
  rewrite Es. cbn [Nat.ltb Nat.leb]. pose proof (send_inl _ _ _ _ Es) as (Hn & _ & _).
  assert (length (pending (advance r (S n))) + S n = length (pending r)) as Hadv.
  { unfold pending. rewrite advance_pending, advance_file, !length_app, length_drop. lia. }
  assert (length (pending r) = length (mem_pending r) + length (file_pending r)) as Hp2
    by (unfold pending; by rewrite length_app).
  destruct (IH (advance r (S n)) s1) as (r' & s' & E & W & L); [lia|done|lia|].
  exists r', s'. split; [done|]. split; [done|]. lia.
Qed.

Lemma send_file_live fuel r s :
  length (script s) < fuel → offset_ok r → willing s → length (file_pending r) ≤ length (script s) →
  ∃ r' s', send_file fuel r s = Some (0%Z, r', s') ∧ willing s' ∧
    length (script s) ≤ length (script s') + length (file_pending r).
Proof.
  revert r s. induction fuel as [|fuel IH]; intros r s Hf Ho Hw Hlen; [lia|]. cbn [send_file].
  assert (∀ r2, ∃ r' s', Some (0%Z, r2, s) = Some (0%Z, r', s') ∧ willing s' ∧
    length (script s) ≤ length (script s') + length (file_pending r)) as Hstop.
  { intros r2. exists r2, s. split; [done|]. split; [done|lia]. }
  destruct (out_file r) as [bytes|] eqn:Eb; [|apply Hstop].
  destruct (Nat.ltb_spec (out_file_offset r) (out_file_size r)) as [Hlt|Hge]; [|apply Hstop].
  assert (take (out_file_size r - out_file_offset r) (drop (out_file_offset r) bytes) = file_pending r)
    as -> by (unfold file_pending; by rewrite Eb).
  unfold sendfile. destruct (file_pending r) as [|b bs] eqn:Ep; [apply Hstop|].
  rewrite <-Ep in *.
  destruct (send_willing s (file_pending r) Hw) as (n & s1 & Es & Hw1 & Hl1).
  { by rewrite Ep. } { intros E. rewrite E, Ep in Hlen. simpl in Hlen. lia. }
  rewrite Es. cbn [Nat.ltb Nat.leb]. pose proof (send_inl _ _ _ _ Es) as (Hn & _ & _).
  assert (out_file_offset r + S n ≤ out_file_size r) as Hle.
  { unfold file_pending in Hn. rewrite length_take in Hn. lia. }
  pose proof (file_advance r (S n) bytes Eb Hle) as Hadv.
  match type of Hadv with file_pending ?x = _ => set (r1 := x) in * end.
  destruct (IH r1 s1) as (r' & s' & E & W & L); [lia|exact Hle|done|rewrite Hadv, length_drop; lia|].
  exists r', s'. split; [exact E|]. split; [done|]. rewrite Hadv, length_drop in L. lia.
Qed.

(** A willing socket takes everything in one call, in at most one write per byte. *)
Lemma try_send_live r s :
  offset_ok r → willing s → length (pending r) ≤ length (script s) →
  ∃ r' s', try_send r s = Some (0%Z, r', s') ∧ same_response r r' ∧ willing s' ∧
    wire s' = wire s ++ pending r ∧ length (script s) ≤ length (script s') + length (pending r).
Proof.
  intros Ho Hw Hlen. assert (∃ r' s', try_send r s = Some (0%Z, r', s') ∧ willing s' ∧
    length (script s) ≤ length (script s') + length (pending r)) as (r' & s' & E & W & L).
  { unfold try_send.
    destruct (send_mem_live (S (length (script s))) r s) as (r1 & s1 & E1 & Hw1 & Hl1); [lia|done..|].
    destruct (send_mem_spec (S (length (script s))) r s)
      as (rc & r1' & s1' & E1' & Hsame & _ & Hoff & _); [lia|].
    rewrite E1 in E1'. injection E1' as <- <- <-. rewrite E1. cbn [mbind option_bind].
    assert (offset_ok r1) as Ho1.
    { unfold offset_ok. destruct Hsame as (_ & _ & _ & _ & _ & ->). by rewrite Hoff. }
    unfold pending in Hl1 at 1. rewrite length_app in Hl1.
    destruct (send_file_live (S (length (script s1))) r1 s1) as (r2 & s2 & E2 & Hw2 & Hl2); [lia|done..|lia|].
    exists r2, s2. split; [exact E2|]. split; [done|lia]. }
  exists r', s'. split; [done|].
  destruct (try_send_spec r s Ho) as (rc & r2 & s2 & E2 & _ & Hsame & Hwire & _ & Hz & _).
  rewrite E in E2. injection E2 as <- <- <-. split; [done|]. split; [done|]. split; [|done].
  rewrite Hz, app_nil_r in Hwire; [done| |done]. unfold no_zero. intros Hin.
  unfold willing in Hw. rewrite Forall_forall in Hw. by destruct (Hw _ Hin).
Qed.

(** C21. [try_send] sends the bytes that remain, in order and each once, whatever the kernel
    accepts: what was sent before and after the call and what remains are together the same
    bytes.  It returns 1 only when bytes remain, 0 only when none do (unless a write of
    some bytes returns 0 or the file has shrunk below its size), and it always returns. *)
Theorem try_send_exact r s :
  offset_ok r →
  ∃ rc r' s', try_send r s = Some (rc, r', s') ∧ offset_ok r' ∧ same_response r r' ∧
    wire s' ++ pending r' = wire s ++ pending r ∧ (rc = 0 ∨ rc = 1 ∨ rc = -1)%Z ∧
    (no_zero s → rc = 0%Z → pending r' = []) ∧ (rc = 1%Z → pending r' ≠ []).
Proof. apply try_send_spec. Qed.

(** [try_send] finishes: if every write takes at least a byte, as many writes as there
    are bytes left are enough for it to return 0, with all of them sent. *)
Theorem try_send_completes r s :
  offset_ok r → willing s → length (pending r) ≤ length (script s) →
  ∃ r' s', try_send r s = Some (0%Z, r', s') ∧ wire s' = wire s ++ pending r.
Proof.
  intros Ho Hw Hlen. destruct (try_send_live r s Ho Hw Hlen) as (r' & s' & E & _ & _ & W & _). eauto.
Qed.

(** The calls of [try_send] for one response: the first, and one per time the socket
    becomes writable while bytes remain. *)
Fixpoint send_rounds (rounds : list (list reply)) r (w : list Z) : option (Z * output * list Z) :=
  match rounds with
  | [] => Some (1%Z, r, w)
  | sc :: rounds =>
      '(rc, r, s) ← try_send r (mk_socket sc w);
      if (rc =? 1)%Z then send_rounds rounds r (wire s) else Some (rc, r, wire s)
  end.

Lemma send_rounds_spec rounds r w :
  offset_ok r → Forall (λ sc, Accept 0 ∉ sc) rounds →
  ∃ rc r' w', send_rounds rounds r w = Some (rc, r', w') ∧
    w' ++ pending r' = w ++ pending r ∧ same_response r r' ∧ (rc = 0%Z → pending r' = []).
Proof.
  revert r w. induction rounds as [|sc rounds IH]; intros r w Ho Hz; cbn [send_rounds].
  { by exists 1%Z, r, w. }
  apply Forall_cons in Hz as [Hz0 Hz].
  destruct (try_send_spec r (mk_socket sc w) Ho) as (rc & r1 & s1 & -> & Ho1 & Hsame & Hw & Hrc & H0 & _).
  cbn [mbind option_bind]. destruct (Z.eqb_spec rc 1) as [->|Hne].
  - destruct (IH r1 (wire s1) Ho1 Hz) as (rc & r' & w' & E & Hw' & Hs & Hp).
    exists rc, r', w'. split_and!; try done; [by rewrite Hw'|by etransitivity].
  - exists rc, r1, (wire s1). split_and!; try done. intros ->. by apply H0.
Qed.

(** However the kernel cuts a response in pieces, the client receives a prefix of it,
    and all of it when the last call returns 0. *)
Theorem response_delivered rounds r :
  out_header_sent r = 0 → out_body_sent r = 0 → out_file_offset r = 0 →
  Forall (λ sc, Accept 0 ∉ sc) rounds →
  ∃ rc r' w, send_rounds rounds r [] = Some (rc, r', w) ∧ w `prefix_of` response r ∧
    (rc = 0%Z → w = response r).
Proof.
  intros Hh Hb Hf Hz.
  destruct (send_rounds_spec rounds r [] ltac:(unfold offset_ok; lia) Hz)
    as (rc & r' & w & E & Hw & _ & Hp).
  assert (pending r = response r) as Er.
  { unfold pending, mem_pending, file_pending, response.
    by rewrite Hh, Hb, Hf, !drop_0, Nat.sub_0_r, app_assoc. }
  rewrite Er in Hw. cbn [app] in Hw. exists rc, r', w. split; [done|]. split; [by eexists|].
  intros ->. by rewrite <-Hw, Hp, app_nil_r.
Qed.

(** ** Headers *)

Lemma appendf_take cap buf text :
  length buf < cap → (appendf cap buf text).2 = take (cap - 1) (buf ++ text).
Proof.
  intros Hb. unfold appendf. rewrite (proj2 (Nat.leb_gt _ _)) by done.
  destruct (Nat.leb_spec (cap - length buf) (length text)); [done|]. simpl.
  rewrite take_ge; [done|]. rewrite length_app. lia.
Qed.

(** Text that does not fit is cut, and nothing is added after that. *)
Lemma append_all_take cap texts : 0 < cap → append_all cap texts = take (cap - 1) (concat texts).
Proof.
  intros Hc. unfold append_all.
  enough (∀ buf, length buf < cap →
            fold_left (fun buf t => (appendf cap buf t).2) texts buf = take (cap - 1) (buf ++ concat texts))
    as E by (apply E; simpl; lia).
  induction texts as [|t texts IH]; intros buf Hb; cbn [fold_left concat].
  - rewrite app_nil_r, take_ge; [done|lia].
  - rewrite appendf_take by done. rewrite IH by (rewrite length_take; lia).
    rewrite (assoc_L (++)). destruct (decide (length (buf ++ t) ≤ cap - 1)) as [Hle|Hgt].
    + by rewrite (take_ge (buf ++ t)).
    + rewrite !(take_app_le _ (concat texts)) by (rewrite ?length_take; lia).
      by rewrite take_take, Nat.min_id.
Qed.

Lemma append_all_fits cap texts : length (concat texts) < cap → append_all cap texts = concat texts.
Proof. intros Hl. rewrite append_all_take by lia. by rewrite take_ge by lia. Qed.

Lemma error_body_length cause errnum shortmsg longmsg :
  length (error_body cause errnum shortmsg longmsg) < MAXLINE.
Proof.
  pose proof MAXLINE_value.
  unfold error_body. rewrite append_all_take, length_take by lia. lia.
Qed.

Lemma keep_alive_timeout_sec_range ms : (- 2 ^ 31 ≤ keep_alive_timeout_sec ms < 2 ^ 31)%Z.
Proof.
  unfold keep_alive_timeout_sec. pose proof (i32_range (u64 (ms + 999) / 1000)).
  destruct (ms =? 0)%Z; [lia|]. destruct (_ <? 1)%Z; lia.
Qed.

Lemma connection_lines_length keep ms : length (concat (connection_lines keep ms)) ≤ 100.
Proof.
  pose proof (fmt_int_length _ (keep_alive_timeout_sec_range ms)) as Hl.
  unfold connection_lines. destruct keep; cbn [concat]; [|vm_compute; lia].
  rewrite !length_app. cbn [length].
  text_lengths. lia.
Qed.

(** The lines of an error response, without the empty one. *)
Definition error_lines (ms : Z) (errnum shortmsg : list Z) (keep : bool) (n : nat) : list (list Z) :=
  [str "HTTP/1.1 " ++ errnum ++ str " " ++ shortmsg; str "Server: Zaver"; str "Content-type: text/html"]
  ++ (if keep then
        [str "Connection: keep-alive";
         str "Keep-Alive: timeout=" ++ fmt_int (keep_alive_timeout_sec ms)]
      else [str "Connection: close"])
  ++ [str "Content-length: " ++ fmt_dec (Z.of_nat n)].

(** Each line ends with CRLF, and an empty line ends the header. *)
Definition http_header (lines : list (list Z)) : list Z := concat ((.++ crlf) <$> lines) ++ crlf.

Lemma connection_lines_concat keep ms :
  concat (connection_lines keep ms) =
  concat ((.++ crlf) <$>
    (if keep then
       [str "Connection: keep-alive";
        str "Keep-Alive: timeout=" ++ fmt_int (keep_alive_timeout_sec ms)]
     else [str "Connection: close"])).
Proof. destruct keep; cbn [connection_lines concat fmap list_fmap]; by rewrite <-?app_assoc. Qed.

Lemma header_concat ms errnum shortmsg keep n :
  concat
    ([str "HTTP/1.1 " ++ errnum ++ str " " ++ shortmsg ++ crlf; str "Server: Zaver" ++ crlf;
      str "Content-type: text/html" ++ crlf] ++
     connection_lines keep ms ++
     [str "Content-length: " ++ fmt_dec (Z.of_nat n) ++ crlf ++ crlf]) =
  http_header (error_lines ms errnum shortmsg keep n).
Proof.
  unfold http_header, error_lines.
  rewrite !fmap_app, !concat_app, connection_lines_concat.
  cbn [concat fmap list_fmap]. by rewrite ?app_nil_r, <-!app_assoc.
Qed.

Lemma prepare_error_ok malloc_ok ms r cause errnum shortmsg longmsg keep :
  length errnum + length shortmsg ≤ 4096 →
  let '(rc, r') := prepare_error malloc_ok ms r cause errnum shortmsg longmsg keep in
  keep_alive r' = keep ∧ writing r' = false ∧
  if malloc_ok then
    rc = 0%Z ∧
    let body := error_body cause errnum shortmsg longmsg in
    out_body r' = Some body ∧
    response r' = http_header (error_lines ms errnum shortmsg keep (length body)) ++ body ∧
    pending r' = response r' ∧ out_file r' = None
  else rc = (-1)%Z ∧ pending r' = [].
Proof.
  intros Hlen. unfold prepare_error. destruct malloc_ok; cbn [negb]; [|by simpl].
  set (body := error_body cause errnum shortmsg longmsg).
  pose proof (error_body_length cause errnum shortmsg longmsg) as Hb. fold body in Hb.
  pose proof MAXLINE_value. pose proof OUT_HEADER_value.
  pose proof (connection_lines_length keep ms) as Hc.
  pose proof (fmt_dec_length (Z.of_nat (length body)) 13 ltac:(lia)) as Hd.
  rewrite append_all_fits.
  2: { rewrite !concat_app, !length_app. cbn [concat]. rewrite !length_app. cbn [length].
       text_lengths. lia. }
  split; [done|]. split; [done|]. split; [done|]. fold body. cbv zeta. split; [done|].
  match goal with |- response ?x = _ ∧ _ => set (r' := x) end.
  assert (pending r' = response r') as Ep.
  { unfold pending, mem_pending, file_pending, response. by rewrite !app_assoc. }
  split; [|done]. rewrite <-header_concat.
  transitivity (out_header r' ++ body ++ take 0 []); [done|]. by rewrite app_nil_r.
Qed.

(** An error response is framed: whatever the texts (a body that does not fit its
    buffer is cut), its Content-length is the length of the body it carries, the
    connection lines say what [keep_alive] says, and the header is whole; without memory
    for the body, -1 is returned and nothing is to be sent. *)
Theorem prepare_error_framed malloc_ok ms r cause errnum shortmsg longmsg keep :
  length errnum + length shortmsg ≤ 4096 →
  let '(rc, r') := prepare_error malloc_ok ms r cause errnum shortmsg longmsg keep in
  keep_alive r' = keep ∧ writing r' = false ∧
  if malloc_ok then
    rc = 0%Z ∧
    let body := error_body cause errnum shortmsg longmsg in
    out_body r' = Some body ∧
    response r' = http_header (error_lines ms errnum shortmsg keep (length body)) ++ body ∧
    pending r' = response r' ∧ out_file r' = None
  else rc = (-1)%Z ∧ pending r' = [].
Proof. apply prepare_error_ok. Qed.

Lemma prepare_error_offset malloc_ok ms r cause errnum shortmsg longmsg keep :
  offset_ok (prepare_error malloc_ok ms r cause errnum shortmsg longmsg keep).2.
Proof. unfold prepare_error. destruct malloc_ok; cbn [negb snd]; unfold offset_ok; simpl; lia. Qed.

Lemma get_file_type_length t : length (get_file_type t) ≤ 30.
Proof.
  unfold get_file_type. destruct t as [t|]; [|vm_compute; lia].
  destruct (List.find _ _) as [[ext value]|] eqn:E; [|vm_compute; lia].
  apply List.find_some in E as [E _].
  assert (Forall (λ x, length x.2 ≤ 30) zaver_mime) as Hall.
  { apply Forall_forall. intros x. unfold zaver_mime. rewrite !elem_of_cons, elem_of_nil.
    intros Hx. repeat destruct Hx as [->|Hx]; vm_compute; lia. }
  rewrite Forall_forall in Hall. by apply (Hall (ext, value)), list_elem_of_In.
Qed.

Lemma shortmsg_length c : length (get_shortmsg_from_status_code c) ≤ 20.
Proof. unfold get_shortmsg_from_status_code. repeat case_match; vm_compute; lia. Qed.

Definition static_lines (fmt_time : Z → list Z) (ms : Z) (filename : list Z) (filesize : nat)
    (out : out_t) : list (list Z) :=
  [str "HTTP/1.1 " ++ fmt_int (status out) ++ str " " ++ get_shortmsg_from_status_code (status out)]
  ++ (if o_keep_alive out then
        [str "Connection: keep-alive";
         str "Keep-Alive: timeout=" ++ fmt_int (keep_alive_timeout_sec ms)]
      else [str "Connection: close"])
  ++ (if modified out then
        [str "Content-type: " ++ get_file_type (strrchr "."%ch filename);
         str "Content-length: " ++ fmt_dec (Z.of_nat filesize);
         str "Last-Modified: " ++ fmt_time (default 0%Z (mtime out))]
      else [])
  ++ [str "Server: Zaver"].

Lemma static_concat (fmt_time : Z → list Z) ms filename filesize out :
  concat
    ([str "HTTP/1.1 " ++ fmt_int (status out) ++ str " " ++
        get_shortmsg_from_status_code (status out) ++ crlf]
     ++ connection_lines (o_keep_alive out) ms
     ++ (if modified out then
           [str "Content-type: " ++ get_file_type (strrchr "."%ch filename) ++ crlf;
            str "Content-length: " ++ fmt_dec (Z.of_nat filesize) ++ crlf;
            str "Last-Modified: " ++ fmt_time (default 0%Z (mtime out)) ++ crlf]
         else [])
     ++ [str "Server: Zaver" ++ crlf; crlf]) =
  http_header (static_lines fmt_time ms filename filesize out).
Proof.
  unfold http_header, static_lines.
  rewrite !fmap_app, !concat_app, connection_lines_concat.
  destruct (modified out); cbn [concat fmap list_fmap]; by rewrite ?app_nil_r, <-!app_assoc.
Qed.

Lemma static_length (fmt_time : Z → list Z) ms filename filesize out :
  (∀ t, length (fmt_time t) < SHORTLINE) → (Z.of_nat filesize < 2 ^ 63)%Z →
  (- 2 ^ 31 ≤ status out < 2 ^ 31)%Z →
  length (http_header (static_lines fmt_time ms filename filesize out)) < ZV_OUT_HEADER_SIZE.
Proof.
  intros Ht Hs Hst. rewrite <-static_concat. pose proof OUT_HEADER_value.
  pose proof (connection_lines_length (o_keep_alive out) ms) as Hc.
  pose proof (fmt_dec_length (Z.of_nat filesize) 63 ltac:(lia)) as Hd.
  pose proof (fmt_int_length _ Hst) as Hi. pose proof (shortmsg_length (status out)) as Hm.
  pose proof (get_file_type_length (strrchr "."%ch filename)) as Hf.
  specialize (Ht (default 0%Z (mtime out))). unfold SHORTLINE in Ht.
  rewrite !concat_app, !length_app.
  assert (length (concat (if modified out then
           [str "Content-type: " ++ get_file_type (strrchr "."%ch filename) ++ crlf;
            str "Content-length: " ++ fmt_dec (Z.of_nat filesize) ++ crlf;
            str "Last-Modified: " ++ fmt_time (default 0%Z (mtime out)) ++ crlf]
         else [])) ≤ 800) as Hmid.
  { destruct (modified out); cbn [concat]; [|simpl; lia]. rewrite !length_app. cbn [length].
    text_lengths. lia. }
  cbn [concat]. rewrite !length_app. cbn [length].
  text_lengths. lia.
Qed.

Lemma prepare_static_ok (fmt_time : Z → list Z) (open : list Z → option (list Z))
    ms r filename filesize out :
  (∀ t, length (fmt_time t) < SHORTLINE) → (Z.of_nat filesize < 2 ^ 63)%Z →
  (- 2 ^ 31 ≤ status out < 2 ^ 31)%Z →
  let '(rc, r') := prepare_static fmt_time open ms r filename filesize out in
  let head := http_header (static_lines fmt_time ms filename filesize out) in
  keep_alive r' = o_keep_alive out ∧ writing r' = false ∧ out_body r' = None ∧
  pending r' = response r' ∧
  match modified out, open filename with
  | false, _ => rc = 0%Z ∧ response r' = head
  | true, Some bytes => rc = 0%Z ∧ response r' = head ++ take filesize bytes
  | true, None => rc = (-1)%Z
  end.
Proof.
  intros Ht Hs Hst. pose proof (static_length fmt_time ms filename filesize out Ht Hs Hst) as Hl.
  unfold prepare_static. rewrite append_all_fits by (by rewrite static_concat).
  rewrite static_concat. set (head := http_header _) in *.
  destruct (modified out); cbn [negb]; [destruct (open filename) as [bytes|]|];
    (split; [done|]; split; [done|]; split; [done|]; split;
      [unfold pending, mem_pending, file_pending, response; simpl;
       by rewrite ?drop_0, ?Nat.sub_0_r, ?app_nil_r|]); try done; split; try done;
    unfold response; simpl; by rewrite ?app_nil_r.
Qed.

(** A static response is framed: the header is whole; a file that can be opened is
    announced with its size as Content-length and its first bytes up to that size follow,
    exactly that many when the file still has them; an unmodified file gives the header
    alone; a file that cannot be opened gives -1.  The connection lines agree with
    [keep_alive], the flag that decides whether the connection is closed. *)
Theorem prepare_static_framed (fmt_time : Z → list Z) (open : list Z → option (list Z))
    ms r filename filesize out :
  (∀ t, length (fmt_time t) < SHORTLINE) → (Z.of_nat filesize < 2 ^ 63)%Z →
  (- 2 ^ 31 ≤ status out < 2 ^ 31)%Z →
  let '(rc, r') := prepare_static fmt_time open ms r filename filesize out in
  let head := http_header (static_lines fmt_time ms filename filesize out) in
  keep_alive r' = o_keep_alive out ∧ writing r' = false ∧ out_body r' = None ∧
  pending r' = response r' ∧
  match modified out, open filename with
  | false, _ => rc = 0%Z ∧ response r' = head
  | true, Some bytes => rc = 0%Z ∧ response r' = head ++ take filesize bytes
  | true, None => rc = (-1)%Z
  end.
Proof. apply prepare_static_ok. Qed.

(** ** Concrete inputs *)
Definition demo_time (t : Z) : list Z := str "Thu, 01 Jan 1970 00:00:00 GMT".
Definition demo_open (f : list Z) : option (list Z) :=
  if strcmp_eq f (str "./html/a.css") then Some (str "body{}") else None.
Definition demo_output : output := mk_output false false [] 0 None 0 None 0 0.
Definition demo_response : output :=
  (prepare_static demo_time demo_open 5000 demo_output (str "./html/a.css") 6
     (mk_out_t true (Some 0%Z) true 200)).2.

Lemma prepare_error_framed_witness :
  length (str "404") + length (str "Not Found") ≤ 4096 ∧
  let '(rc, r') :=
    prepare_error true 5000 demo_output (str "./html/x") (str "404") (str "Not Found") (str "no") true in
  keep_alive r' = true ∧ writing r' = false ∧
  (rc = 0%Z ∧
   let body := error_body (str "./html/x") (str "404") (str "Not Found") (str "no") in
   out_body r' = Some body ∧
   response r' =
     http_header (error_lines 5000 (str "404") (str "Not Found") true (length body)) ++ body ∧
   pending r' = response r' ∧ out_file r' = None).
Proof.
  split; [vm_compute; lia|].
  apply (prepare_error_framed true 5000 demo_output (str "./html/x") (str "404") (str "Not Found")
           (str "no") true). vm_compute. lia.
Defined.

Lemma prepare_static_framed_witness :
  let '(rc, r') :=
    prepare_static demo_time demo_open 5000 demo_output (str "./html/a.css") 6
      (mk_out_t true (Some 0%Z) true 200) in
  let head :=
    http_header (static_lines demo_time 5000 (str "./html/a.css") 6 (mk_out_t true (Some 0%Z) true 200)) in
  keep_alive r' = true ∧ writing r' = false ∧ out_body r' = None ∧ pending r' = response r' ∧
  (rc = 0%Z ∧ response r' = head ++ take 6 (str "body{}")).
Proof.
  apply (prepare_static_framed demo_time demo_open 5000 demo_output (str "./html/a.css") 6
           (mk_out_t true (Some 0%Z) true 200)).
  - intros t. vm_compute. lia.
  - reflexivity.
  - split; vm_compute; discriminate || reflexivity.
Defined.

Lemma try_send_exact_witness :
  ∃ rc r' s', try_send demo_response (mk_socket [Accept 3; Err EINTR; Accept 100] []) = Some (rc, r', s') ∧
    offset_ok r' ∧ same_response demo_response r' ∧
    wire s' ++ pending r' = [] ++ pending demo_response ∧ (rc = 0 ∨ rc = 1 ∨ rc = -1)%Z ∧
    (no_zero (mk_socket [Accept 3; Err EINTR; Accept 100] []) → rc = 0%Z → pending r' = []) ∧
    (rc = 1%Z → pending r' ≠ []).
Proof.
  apply (try_send_exact demo_response (mk_socket [Accept 3; Err EINTR; Accept 100] [])).
  vm_compute. lia.
Defined.

Lemma try_send_completes_witness :
  ∃ r' s', try_send demo_response (mk_socket (replicate 300 (Accept 1)) []) = Some (0%Z, r', s') ∧
    wire s' = [] ++ pending demo_response.
Proof.
  apply (try_send_completes demo_response (mk_socket (replicate 300 (Accept 1)) [])).
  - vm_compute. lia.
  - apply Forall_replicate. by exists 0.
  - vm_compute. lia.
Defined.

Lemma response_delivered_witness :
  ∃ rc r' w, send_rounds [[Accept 7]; []; [Err EINTR; Accept 400; Accept 400]] demo_response []
      = Some (rc, r', w) ∧ w `prefix_of` response demo_response ∧
    (rc = 0%Z → w = response demo_response).
Proof.
  apply (response_delivered [[Accept 7]; []; [Err EINTR; Accept 400; Accept 400]] demo_response);
    [reflexivity..|].
  apply (bool_decide_unpack _). vm_compute. exact I.
Defined.

(** The four rounds of the example do deliver the response. *)
Example demo_delivered :
  (fst <$> send_rounds [[Accept 7]; []; [Err EINTR; Accept 400; Accept 400]] demo_response [])
  ≫= (fun x => Some (fst x)) = Some 0%Z.
Proof. vm_compute. reflexivity. Qed.
