(* ===== verification/Cgi.v ===== *)
(** * CGI responses (cgi.c)

    The output of a script is read from a pipe and streamed to the client with chunked
    transfer encoding, one buffer at a time: the pipe is not read again until the buffer
    is sent.  Buffers are the lists of their used bytes.  What a handler does to the
    rest of the request is its list of [effect]s, in order. *)
From S2P Require Import Prelude CString Sockets Output.

Definition CGI_HDR_BUF : nat := Z.to_nat 4096.
Definition CGI_HTTP_HEADER : nat := Z.to_nat 4096.
Definition CGI_BODY_BUF : nat := Z.to_nat 8192.
Definition CGI_LINE : nat := 512.
Definition CGI_CONTENT_TYPE : nat := 256.
Definition CGI_CHUNK_PREFIX : nat := 32.
Definition CGI_OUT_LIMIT : Z := 1024 * 1024.

Lemma cgi_sizes :
  Z.of_nat CGI_HDR_BUF = 4096%Z ∧ Z.of_nat CGI_HTTP_HEADER = 4096%Z ∧ Z.of_nat CGI_BODY_BUF = 8192%Z.
Proof. unfold CGI_HDR_BUF, CGI_HTTP_HEADER, CGI_BODY_BUF. lia. Qed.

Opaque CGI_HDR_BUF CGI_HTTP_HEADER CGI_BODY_BUF.

Definition EPOLLIN : Z := 1.
Definition EPOLLOUT : Z := 4.

Inductive effect :=
  | DelTimer
  | AddTimer (ms : Z)
  | ArmConn (events : Z)
  | ArmCgi
  | CloseConn.

(** The [cgi_*] fields of [zv_http_request_t].  [cgi_out] is the pipe behind
    [cgi_out_fd], [None] when the descriptor is -1; [cgi_pid] is used only to kill and
    reap the script. *)
Record cgi := mk_cgi {
  cgi_active : bool;
  cgi_out : option pipe;
  cgi_eof : bool;
  cgi_out_total : Z;
  cgi_out_limit : Z;
  cgi_headers_done : bool;
  cgi_hdr_buf : list Z;
  cgi_http_header : list Z;
  cgi_http_header_sent : nat;
  cgi_chunk_prefix : list Z;
  cgi_chunk_prefix_sent : nat;
  cgi_chunk_suffix_sent : nat;
  cgi_final_chunk : list Z;
  cgi_final_chunk_sent : nat;
  cgi_body : list Z;
  cgi_body_sent : nat;
}.
#[export] Instance eta_cgi : Eta cgi := fun c =>
  mk_cgi (cgi_active c) (cgi_out c) (cgi_eof c) (cgi_out_total c) (cgi_out_limit c)
    (cgi_headers_done c) (cgi_hdr_buf c) (cgi_http_header c) (cgi_http_header_sent c)
    (cgi_chunk_prefix c) (cgi_chunk_prefix_sent c) (cgi_chunk_suffix_sent c)
    (cgi_final_chunk c) (cgi_final_chunk_sent c) (cgi_body c) (cgi_body_sent c).

Implicit Types (c : cgi) (s : socket) (p : pipe).

(** [zv_init_request_t] *)
Definition init_cgi : cgi :=
  mk_cgi false None false 0 CGI_OUT_LIMIT false [] [] 0 [] 0 0 [] 0 [] 0.

(** ** Parsing the script's header *)

(** The C string at the start of a buffer. *)
Fixpoint c_string (l : list Z) : list Z :=
  match l with
  | [] => []
  | x :: l => if (x =? 0)%Z then [] else x :: c_string l
  end.

(** [while ( *p == ' ' || *p == '\t') p++;] *)
Fixpoint skip_blanks (l : list Z) : list Z :=
  match l with
  | [] => []
  | x :: l' => if (x =? " "%ch)%Z || (x =? 9)%Z then skip_blanks l' else l
  end.

Definition parse_status_code (line : list Z) : option Z :=
  let p := skip_blanks line in
  if negb (strncasecmp_eq 7 p (str "Status:")) then None
  else
    let code := atoi (skip_blanks (drop 7 p)) in
    if ((100 <=? code) && (code <=? 599))%Z then Some code else None.

(** [while (n > 0 && (p[n - 1] == '\r' || p[n - 1] == '\n')) n--;] *)
Fixpoint strip_eol (rev : list Z) : list Z :=
  match rev with
  | [] => []
  | x :: rev' => if (x =? CR)%Z || (x =? LF)%Z then strip_eol rev' else rev
  end.

Definition parse_content_type (line : list Z) (out_cap : nat) : option (list Z) :=
  let p := skip_blanks line in
  if negb (strncasecmp_eq 13 p (str "Content-Type:")) then None
  else
    let p := skip_blanks (drop 13 p) in
    let v := reverse (strip_eol (reverse p)) in
    if length v =? 0 then None
    else if out_cap <=? length v then None
    else Some v.

Definition reason_phrase (status : Z) : list Z :=
  let reason := get_shortmsg_from_status_code status in
  if strcmp_eq reason (str "Unknown") then
    if (500 <=? status)%Z then str "Internal Server Error"
    else if ((400 <=? status) && (status <? 500))%Z then str "Bad Request"
    else str "OK"
  else reason.

Definition cgi_header_text (status : Z) (content_type : list Z) : list Z :=
  let content_type := match content_type with [] => str "text/plain" | _ => content_type end in
  str "HTTP/1.1 " ++ fmt_int status ++ str " " ++ reason_phrase status ++ crlf ++
  str "Server: Zaver" ++ crlf ++
  str "Connection: close" ++ crlf ++
  str "Content-Type: " ++ content_type ++ crlf ++
  str "Transfer-Encoding: chunked" ++ crlf ++ crlf.

(** [None] for a return code other than 0. *)
Definition build_http_header c (status : Z) (content_type : list Z) : option cgi :=
  let text := cgi_header_text status content_type in
  if CGI_HTTP_HEADER <=? length text then None
  else
    Some (c <| cgi_http_header := text |> <| cgi_http_header_sent := 0 |>
            <| cgi_chunk_prefix := [] |> <| cgi_chunk_prefix_sent := 0 |>
            <| cgi_chunk_suffix_sent := 0 |>
            <| cgi_final_chunk := [] |> <| cgi_final_chunk_sent := 0 |>).

Definition prepare_chunk_prefix c (chunk_len : nat) : option cgi :=
  if chunk_len =? 0 then
    Some (c <| cgi_chunk_prefix := [] |> <| cgi_chunk_prefix_sent := 0 |>
            <| cgi_chunk_suffix_sent := 0 |>)
  else
    let text := fmt_hex (Z.of_nat chunk_len) ++ crlf in
    if CGI_CHUNK_PREFIX <=? length text then None
    else
      Some (c <| cgi_chunk_prefix := text |> <| cgi_chunk_prefix_sent := 0 |>
              <| cgi_chunk_suffix_sent := 0 |>).

(** ["0\r\n\r\n"] *)
Definition final_chunk : list Z := str "0" ++ crlf ++ crlf.

Definition ensure_final_chunk c : cgi :=
  if length (cgi_final_chunk c) =? 0 then
    c <| cgi_final_chunk := final_chunk |> <| cgi_final_chunk_sent := 0 |>
  else c.

(** The end of the first empty line: after LF LF, or CR LF CR LF. *)
Fixpoint find_header_end (i : nat) (hdr : list Z) : option nat :=
  match hdr with
  | a :: (b :: rest) as tl =>
      if ((a =? LF) && (b =? LF))%Z then Some (i + 2)
      else
        match rest with
        | x :: y :: _ =>
            if ((a =? CR) && (b =? LF) && (x =? CR) && (y =? LF))%Z then Some (i + 4)
            else find_header_end (S i) tl
        | _ => find_header_end (S i) tl
        end
  | _ => None
  end.

(** A line and what follows its LF. *)
Fixpoint span_line (l : list Z) : list Z * list Z :=
  match l with
  | [] => ([], [])
  | x :: l =>
      if (x =? LF)%Z then ([], l)
      else let '(line, rest) := span_line l in (x :: line, rest)
  end.

(** The last status and content type given; [None] for a line that is too long. *)
Fixpoint parse_header_lines (fuel : nat) (hdr : list Z) (status : Z) (ctype : list Z)
    : option (Z * list Z) :=
  match fuel with
  | O => None
  | S fuel' =>
      match hdr with
      | [] => Some (status, ctype)
      | _ =>
          let '(line, rest) := span_line hdr in
          if 0 <? length line then
            if CGI_LINE <=? length line then None
            else
              let line := c_string line in
              let status := default status (parse_status_code line) in
              let ctype := default ctype (parse_content_type line CGI_CONTENT_TYPE) in
              parse_header_lines fuel' rest status ctype
          else parse_header_lines fuel' rest status ctype
      end
  end.

(** ** Starting

    Whether [pipe], [fork] and [fcntl] succeed are arguments; [output] is what the script
    will write.  The child's side ([dup2], [execve]) is not modelled. *)
Record spawn := mk_spawn { in_pipe_ok : bool; out_pipe_ok : bool; fork_ok : bool; fcntl_ok : bool }.

(** The return code, the state and the effects. *)
Definition zv_cgi_start (env : spawn) (request_timeout : Z) (output : pipe) c : Z * cgi * list effect :=
  if negb (in_pipe_ok env && out_pipe_ok env && fork_ok env && fcntl_ok env) then ((-1)%Z, c, [])
  else
    (0%Z,
     c <| cgi_active := true |> <| cgi_out := Some output |> <| cgi_eof := false |>
       <| cgi_out_total := 0%Z |> <| cgi_headers_done := false |> <| cgi_hdr_buf := [] |>
       <| cgi_http_header := [] |> <| cgi_http_header_sent := 0 |>
       <| cgi_body := [] |> <| cgi_body_sent := 0 |>,
     [ArmCgi; AddTimer request_timeout]).

(** ** The script's output is ready *)

(** Something of the current buffer is still to be sent. *)
Definition backpressure c : bool :=
  (0 <? length (cgi_body c)) &&
  ((cgi_chunk_prefix_sent c <? length (cgi_chunk_prefix c)) ||
   (cgi_body_sent c <? length (cgi_body c)) ||
   (cgi_chunk_suffix_sent c <? 2)).

(** [bytes] becomes the buffer to send. *)
Definition set_body c (bytes : list Z) : option cgi :=
  prepare_chunk_prefix (c <| cgi_body := bytes |> <| cgi_body_sent := 0 |>) (length bytes).

(** The header buffer is complete: its empty line ends at [body_off]. *)
Definition finish_header c (body_off : nat) : option cgi :=
  let hdr := cgi_hdr_buf c in
  '(status, ctype) ← parse_header_lines (S body_off) (take body_off hdr) 200 [];
  c ← build_http_header c status ctype;
  let c := c <| cgi_headers_done := true |> in
  c ← set_body c (take CGI_BODY_BUF (drop body_off hdr));
  Some (c <| cgi_hdr_buf := [] |>).

(** Outcome of the bytes of one [read]. *)
Inductive ready := Ready (c : cgi) | MoreHeader (c : cgi) | Give_up (c : cgi).

Definition on_bytes c (bytes : list Z) : ready :=
  let c := c <| cgi_out_total := (cgi_out_total c + Z.of_nat (length bytes))%Z |> in
  if (cgi_out_limit c <? cgi_out_total c)%Z then Give_up c
  else if negb (cgi_headers_done c) then
    let space := CGI_HDR_BUF - length (cgi_hdr_buf c) in
    let c := c <| cgi_hdr_buf := cgi_hdr_buf c ++ take space bytes |> in
    match find_header_end 0 (cgi_hdr_buf c) with
    | Some body_off =>
        match finish_header c body_off with
        | Some c => Ready c
        | None => Give_up c
        end
    | None =>
        if CGI_HDR_BUF <=? length (cgi_hdr_buf c) then Give_up c else MoreHeader c
    end
  else
    match set_body c bytes with
    | Some c => Ready c
    | None => Give_up c
    end.

(** The script closed its output before an empty line: after some bytes, or none. *)
Definition eof_with_bytes c : option cgi :=
  c ← build_http_header c 200 (str "text/plain");
  let remain := cgi_hdr_buf c in
  c ← (if CGI_BODY_BUF <? length remain then
         c ← build_http_header c 500 (str "text/plain");
         set_body c (take CGI_BODY_BUF (str "cgi output too large" ++ [LF]))
       else set_body c remain);
  Some (c <| cgi_headers_done := true |> <| cgi_hdr_buf := [] |>).

Definition eof_without_bytes c : option cgi :=
  c ← build_http_header c 500 (str "text/plain");
  c ← set_body c (take CGI_BODY_BUF (str "cgi produced no output" ++ [LF]));
  Some (c <| cgi_headers_done := true |>).

(** The script closed its output. *)
Definition on_eof c : ready :=
  let c := c <| cgi_eof := true |> <| cgi_out := None |> in
  if negb (cgi_headers_done c) then
    match (if 0 <? length (cgi_hdr_buf c) then eof_with_bytes c else eof_without_bytes c) with
    | Some c => Ready c
    | None => Give_up c
    end
  else Ready (ensure_final_chunk c).

(** The effects after [DelTimer]. *)
Fixpoint stdout_loop (fuel : nat) (timeout : Z) c : option (cgi * list effect) :=
  match fuel with
  | O => None
  | S fuel' =>
      let stop := Some (c, (if cgi_active c && bool_decide (is_Some (cgi_out c)) then [ArmCgi] else [])
                             ++ [AddTimer timeout]) in
      if backpressure c then stop
      else
        match cgi_out c with
        | None => None
        | Some p =>
            let '(res, p) := read p CGI_BODY_BUF in
            let c := c <| cgi_out := Some p |> in
            let finish r :=
              match r with
              | Ready c => Some (c, [ArmConn EPOLLOUT; AddTimer timeout])
              | MoreHeader c => stdout_loop fuel' timeout c
              | Give_up c => Some (c, [CloseConn])
              end in
            match res with
            | inl [] => finish (on_eof c)
            | inl bytes => finish (on_bytes c bytes)
            | inr e =>
                if (e =? EINTR)%Z then stdout_loop fuel' timeout c
                else if (e =? EAGAIN)%Z then
                  Some (c, (if cgi_active c then [ArmCgi] else []) ++ [AddTimer timeout])
                else Some (c, [CloseConn])
            end
        end
  end.

(** Every turn of the loop takes something from the pipe. *)
Definition zv_cgi_on_stdout_ready (timeout : Z) c : option (cgi * list effect) :=
  match cgi_out c with
  | Some p =>
      if cgi_active c then
        '(c, es) ← stdout_loop (S (S (pipe_size p))) timeout c;
        Some (c, DelTimer :: es)
      else Some (c, [])
  | None => Some (c, [])
  end.

(** ** The client's socket is writable *)

Definition rest (sent : nat) (buf : list Z) : list Z := if sent <? length buf then drop sent buf else [].

(** The [iovec]s after [ensure_final_chunk]; [None] when there is nothing to send. *)
Definition cgi_iov c : option (list Z) :=
  let header := rest (cgi_http_header_sent c) (cgi_http_header c) in
  if 0 <? length (cgi_body c) then
    Some (header ++ rest (cgi_chunk_prefix_sent c) (cgi_chunk_prefix c)
                 ++ rest (cgi_body_sent c) (cgi_body c)
                 ++ rest (cgi_chunk_suffix_sent c) crlf)
  else if cgi_eof c then Some (header ++ rest (cgi_final_chunk_sent c) (cgi_final_chunk c))
  else None.

(** [n] bytes are consumed from a buffer of which [sent] are already: the new position
    and how many are left of [n]. *)
Definition consume (n sent len : nat) : nat * nat :=
  if (0 <? n) && (sent <? len) then
    let rem := len - sent in
    let cons := if rem <=? n then rem else n in
    (sent + cons, n - cons)
  else (sent, n).

Definition cgi_advance c (n : nat) : cgi :=
  let '(hs, n) := consume n (cgi_http_header_sent c) (length (cgi_http_header c)) in
  let c := c <| cgi_http_header_sent := hs |> in
  let '(c, n) :=
    if (0 <? n) && (0 <? length (cgi_body c)) then
      let '(ps, n) := consume n (cgi_chunk_prefix_sent c) (length (cgi_chunk_prefix c)) in
      let '(bs, n) := consume n (cgi_body_sent c) (length (cgi_body c)) in
      let '(ss, n) := consume n (cgi_chunk_suffix_sent c) 2 in
      let c := c <| cgi_chunk_prefix_sent := ps |> <| cgi_body_sent := bs |>
                 <| cgi_chunk_suffix_sent := ss |> in
      if (ps =? length (cgi_chunk_prefix c)) && (bs =? length (cgi_body c)) && (ss =? 2) then
        (c <| cgi_body := [] |> <| cgi_body_sent := 0 |>
           <| cgi_chunk_prefix := [] |> <| cgi_chunk_prefix_sent := 0 |>
           <| cgi_chunk_suffix_sent := 0 |>, n)
      else (c, n)
    else (c, n) in
  if (0 <? n) && cgi_eof c && (length (cgi_body c) =? 0) && (0 <? length (cgi_final_chunk c)) then
    let '(fs, _) := consume n (cgi_final_chunk_sent c) (length (cgi_final_chunk c)) in
    c <| cgi_final_chunk_sent := fs |>
  else c.

(** The code after the loop; [ArmCgi] when more output is awaited. *)
Definition writable_end c : Z * cgi * list effect :=
  if cgi_eof c then
    let c := ensure_final_chunk c in
    if length (cgi_final_chunk c) <=? cgi_final_chunk_sent c then (0%Z, c, []) else (1%Z, c, [])
  else (2%Z, c, if bool_decide (is_Some (cgi_out c)) then [ArmCgi] else []).

Fixpoint writable_loop (fuel : nat) c s : option (Z * cgi * list effect * socket) :=
  match fuel with
  | O => None
  | S fuel' =>
      let c := if (length (cgi_body c) =? 0) && cgi_eof c then ensure_final_chunk c else c in
      match cgi_iov c with
      | None | Some [] => Some (writable_end c, s)
      | Some data =>
          match send s data with
          | (inl n, s) =>
              if 0 <? n then writable_loop fuel' (cgi_advance c n) s
              else Some ((-1)%Z, c, [], s)
          | (inr e, s) =>
              if (e =? EINTR)%Z then writable_loop fuel' c s
              else if (e =? EAGAIN)%Z then Some (1%Z, c, [], s)
              else Some ((-1)%Z, c, [], s)
          end
      end
  end.

Definition zv_cgi_on_client_writable c s : option (Z * cgi * list effect * socket) :=
  if cgi_active c then writable_loop (S (length (script s))) c s
  else Some ((-1)%Z, c, [], s).

(** ** What remains to be sent *)

Lemma rest_drop sent buf : rest sent buf = drop sent buf.
Proof.
  unfold rest. destruct (Nat.ltb_spec sent (length buf)); [done|]. by rewrite drop_ge.
Qed.

Definition header_pending c : list Z := drop (cgi_http_header_sent c) (cgi_http_header c).

Definition body_pending c : list Z :=
  if 0 <? length (cgi_body c) then
    drop (cgi_chunk_prefix_sent c) (cgi_chunk_prefix c) ++ drop (cgi_body_sent c) (cgi_body c) ++
    drop (cgi_chunk_suffix_sent c) crlf
  else [].

Definition final_pending c : list Z :=
  if cgi_eof c then
    if length (cgi_final_chunk c) =? 0 then final_chunk
    else drop (cgi_final_chunk_sent c) (cgi_final_chunk c)
  else [].

Definition cgi_pending c : list Z := header_pending c ++ body_pending c ++ final_pending c.

(** Positions are inside their buffers, and a buffer being sent is not complete. *)
Record cgi_wf c : Prop := {
  wf_header : cgi_http_header_sent c ≤ length (cgi_http_header c);
  wf_prefix : cgi_chunk_prefix_sent c ≤ length (cgi_chunk_prefix c);
  wf_body : cgi_body_sent c ≤ length (cgi_body c);
  wf_suffix : cgi_chunk_suffix_sent c ≤ 2;
  wf_busy : cgi_body c ≠ [] → backpressure c = true;
  wf_final : cgi_final_chunk c = [] ∨ cgi_final_chunk c = final_chunk;
  wf_final_sent : cgi_final_chunk_sent c ≤ length (cgi_final_chunk c);
  wf_open : cgi_eof c = false → cgi_final_chunk c = [];
}.

Lemma consume_spec n sent (buf : list Z) sent' n' :
  consume n sent (length buf) = (sent', n') →
  drop sent' buf = drop n (drop sent buf) ∧ n' = n - length (drop sent buf) ∧
  (sent ≤ length buf → sent' ≤ length buf) ∧ sent ≤ sent'.
Proof.
  unfold consume. rewrite length_drop.
  destruct (Nat.ltb_spec 0 n); simpl; [|intros [= <- <-]; split_and!; try lia;
    by replace n with 0 by lia].
  destruct (Nat.ltb_spec sent (length buf)).
  - destruct (Nat.leb_spec (length buf - sent) n); intros [= <- <-]; split_and!; try lia.
    + by rewrite drop_drop, !drop_ge by lia.
    + by rewrite drop_drop.
  - intros [= <- <-]. split_and!; try lia. by rewrite drop_drop, !drop_ge by lia.
Qed.

(** The chunk part of [cgi_advance]: [n] bytes of what is left of the current chunk. *)
Definition advance_chunk c (n : nat) : cgi * nat :=
  if (0 <? n) && (0 <? length (cgi_body c)) then
    let '(ps, n) := consume n (cgi_chunk_prefix_sent c) (length (cgi_chunk_prefix c)) in
    let '(bs, n) := consume n (cgi_body_sent c) (length (cgi_body c)) in
    let '(ss, n) := consume n (cgi_chunk_suffix_sent c) 2 in
    let c := c <| cgi_chunk_prefix_sent := ps |> <| cgi_body_sent := bs |>
               <| cgi_chunk_suffix_sent := ss |> in
    if (ps =? length (cgi_chunk_prefix c)) && (bs =? length (cgi_body c)) && (ss =? 2) then
      (c <| cgi_body := [] |> <| cgi_body_sent := 0 |>
         <| cgi_chunk_prefix := [] |> <| cgi_chunk_prefix_sent := 0 |>
         <| cgi_chunk_suffix_sent := 0 |>, n)
    else (c, n)
  else (c, n).

Definition advance_final c (n : nat) : cgi :=
  if (0 <? n) && cgi_eof c && (length (cgi_body c) =? 0) && (0 <? length (cgi_final_chunk c)) then
    let '(fs, _) := consume n (cgi_final_chunk_sent c) (length (cgi_final_chunk c)) in
    c <| cgi_final_chunk_sent := fs |>
  else c.

Lemma cgi_advance_eq c n :
  cgi_advance c n =
  let '(hs, n) := consume n (cgi_http_header_sent c) (length (cgi_http_header c)) in
  let '(c, n) := advance_chunk (c <| cgi_http_header_sent := hs |>) n in
  advance_final c n.
Proof. reflexivity. Qed.

(** What the sending of the header and of the chunk leaves alone. *)
Definition same_rest c c' : Prop :=
  cgi_active c' = cgi_active c ∧ cgi_out c' = cgi_out c ∧ cgi_eof c' = cgi_eof c ∧
  cgi_out_total c' = cgi_out_total c ∧ cgi_out_limit c' = cgi_out_limit c ∧
  cgi_headers_done c' = cgi_headers_done c ∧ cgi_hdr_buf c' = cgi_hdr_buf c.

#[export] Instance same_rest_preorder : PreOrder same_rest.
Proof. split; unfold same_rest; [done|]. intros c1 c2 c3 ??. naive_solver congruence. Qed.

Lemma advance_chunk_spec c n c' n' :
  cgi_wf c → advance_chunk c n = (c', n') →
  cgi_wf c' ∧ same_rest c c' ∧ header_pending c' = header_pending c ∧
  body_pending c' = drop n (body_pending c) ∧ final_pending c' = final_pending c ∧
  n' = n - length (body_pending c) ∧ (cgi_body c = [] → cgi_body c' = []).
Proof.
  intros Hwf. unfold advance_chunk. destruct (Nat.ltb_spec 0 n) as [Hn|Hn]; cbn [andb].
  2: { intros [= <- <-]. replace n with 0 by lia. split_and!; done. }
  destruct (0 <? length (cgi_body c)) eqn:Eb.
  2: { intros [= <- <-]. unfold body_pending. rewrite Eb. simpl. rewrite drop_nil, Nat.sub_0_r.
       split_and!; done. }
  destruct (consume n _ _) as [ps n1] eqn:E1. destruct (consume n1 _ _) as [bs n2] eqn:E2.
  destruct (consume n2 _ _) as [ss n3] eqn:E3.
  apply consume_spec in E1 as (P1 & L1 & W1 & _). apply consume_spec in E2 as (P2 & L2 & W2 & _).
  change 2 with (length crlf) in E3. apply consume_spec in E3 as (P3 & L3 & W3 & _).
  change (length crlf) with 2 in *.
  assert (drop n (body_pending c) =
          drop ps (cgi_chunk_prefix c) ++ drop bs (cgi_body c) ++ drop ss crlf) as Hd.
  { unfold body_pending. rewrite Eb, P1, P2, P3, !drop_app. by subst. }
  assert (n - length (body_pending c) = n3) as Hn3.
  { unfold body_pending. rewrite Eb, !length_app. lia. }
  destruct Hwf as [Wh Wp Wb Ws Wy Wf Wfs Wo]. specialize (W1 Wp). specialize (W2 Wb). specialize (W3 Ws).
  simpl. destruct ((ps =? _) && (bs =? _) && (ss =? 2)) eqn:Edone; intros [= <- <-].
  - apply andb_true_iff in Edone as [[->%Nat.eqb_eq ->%Nat.eqb_eq]%andb_true_iff ->%Nat.eqb_eq].
    rewrite !drop_all in Hd. change (drop 2 crlf) with (@nil Z) in Hd.
    split; [split; simpl; try done; try lia|]. rewrite Hd. split_and!; done.
  - split.
    + split; simpl; try done. intros _. unfold backpressure. simpl. rewrite Eb. cbn [andb].
      apply not_true_iff_false in Edone. rewrite !andb_true_iff, !Nat.eqb_eq in Edone.
      rewrite !orb_true_iff, !Nat.ltb_lt. lia.
    + rewrite Hd. split; [done|]. split; [done|]. split; [unfold body_pending; simpl; by rewrite Eb|].
      split; [done|]. split; [by symmetry|done].
Qed.

Lemma advance_final_spec c n :
  cgi_wf c → length (cgi_final_chunk c) ≠ 0 ∨ n = 0 → (n = 0 ∨ cgi_body c = []) →
  n ≤ length (final_pending c) →
  cgi_wf (advance_final c n) ∧ same_rest c (advance_final c n) ∧
  header_pending (advance_final c n) = header_pending c ∧
  body_pending (advance_final c n) = body_pending c ∧
  final_pending (advance_final c n) = drop n (final_pending c).
Proof.
  intros Hwf Hf Hb Hlen. unfold advance_final. destruct (Nat.ltb_spec 0 n) as [Hn|Hn]; cbn [andb].
  2: { replace n with 0 by lia. split_and!; done. }
  destruct Hf as [Hf|]; [|lia]. destruct Hb as [|Hb]; [lia|].
  rewrite Hb. cbn [length Nat.eqb]. rewrite andb_true_r.
  assert (cgi_eof c = true) as He.
  { destruct (cgi_eof c) eqn:He; [done|]. unfold final_pending in Hlen. rewrite He in Hlen. simpl in Hlen. lia. }
  rewrite He. rewrite (proj2 (Nat.ltb_lt _ _)) by lia. cbn [andb].
  destruct (consume n _ _) as [fs n1] eqn:E. apply consume_spec in E as (P & L & W & _).
  destruct Hwf as [Wh Wp Wb Ws Wy Wf Wfs Wo]. specialize (W Wfs).
  split; [by split|]. split; [done|]. split; [done|]. split; [done|].
  unfold final_pending. simpl. rewrite He, (proj2 (Nat.eqb_neq _ _)) by done. by rewrite P.
Qed.

Lemma cgi_advance_spec c n data :
  cgi_wf c → (cgi_body c = [] → cgi_eof c = true → cgi_final_chunk c ≠ []) →
  cgi_iov c = Some data → n ≤ length data →
  cgi_wf (cgi_advance c n) ∧ same_rest c (cgi_advance c n) ∧
  cgi_pending (cgi_advance c n) = drop n (cgi_pending c).
Proof.
  intros Hwf Hfin Hiov Hn. rewrite cgi_advance_eq.
  destruct (consume n (cgi_http_header_sent c) _) as [hs n1] eqn:E1.
  apply consume_spec in E1 as (P1 & L1 & W1 & _).
  set (c1 := c <| cgi_http_header_sent := hs |>).
  assert (cgi_wf c1) as Hwf1 by (destruct Hwf; split; simpl; auto).
  destruct (advance_chunk c1 n1) as [c2 n2] eqn:E2.
  destruct (advance_chunk_spec c1 n1 c2 n2 Hwf1 E2) as (Hwf2 & Hs2 & Hh2 & Hb2 & Hf2 & Hn2 & Hbn).
  assert (final_pending c1 = final_pending c) as Ef by done.
  assert (body_pending c1 = body_pending c) as Eb by done.
  assert (header_pending c1 = drop n (header_pending c)) as Eh by exact P1.
  rewrite Ef in Hf2. rewrite Eb in Hb2, Hn2. rewrite Eh in Hh2.
  fold (header_pending c) in L1.
  assert (drop n (cgi_pending c) =
          drop n (header_pending c) ++ drop n1 (body_pending c) ++ drop n2 (final_pending c)) as ->.
  { unfold cgi_pending. rewrite !drop_app. by subst. }
  unfold cgi_iov in Hiov. rewrite !rest_drop in Hiov.
  destruct (0 <? length (cgi_body c)) eqn:Ebody.
  - injection Hiov as <-.
    assert (n2 = 0) as ->.
    { subst. unfold body_pending, header_pending in *. rewrite Ebody in *. rewrite !length_app in *. lia. }
    destruct (advance_final_spec c2 0 Hwf2) as (W & S & H1 & H2 & H3); [auto|auto|lia|].
    split; [done|]. split; [by etransitivity|]. unfold cgi_pending.
    by rewrite H1, H2, H3, Hh2, Hb2, Hf2.
  - destruct (cgi_eof c) eqn:Heof; [|done]. injection Hiov as <-.
    assert (cgi_body c = []) as Hnil.
    { destruct (cgi_body c); [done|]. done. }
    specialize (Hfin Hnil eq_refl).
    assert (cgi_final_chunk c2 = cgi_final_chunk c) as Ec2.
    { unfold advance_chunk in E2. simpl in E2. rewrite Ebody, andb_false_r in E2. by injection E2 as <- _. }
    assert (final_pending c = drop (cgi_final_chunk_sent c) (cgi_final_chunk c)) as Efp.
    { unfold final_pending. rewrite Heof. by destruct (cgi_final_chunk c). }
    destruct (advance_final_spec c2 n2 Hwf2) as (W & S & H1 & H2 & H3).
    + left. rewrite Ec2. by destruct (cgi_final_chunk c).
    + right. by apply Hbn.
    + rewrite Hf2, Efp. subst. unfold body_pending. rewrite Ebody. simpl.
      unfold header_pending. rewrite length_app in Hn. lia.
    + split; [done|]. split; [by etransitivity|]. unfold cgi_pending.
      by rewrite H1, H2, H3, Hh2, Hb2, Hf2.
Qed.

(** ** [zv_cgi_on_client_writable] *)

Lemma ensure_final_spec c :
  cgi_wf c → cgi_eof c = true →
  let c' := ensure_final_chunk c in
  cgi_wf c' ∧ same_rest c c' ∧ cgi_pending c' = cgi_pending c ∧ cgi_final_chunk c' ≠ [] ∧
  cgi_body c' = cgi_body c.
Proof.
  intros Hwf He. unfold ensure_final_chunk. destruct (Nat.eqb_spec (length (cgi_final_chunk c)) 0) as [E|E].
  - destruct Hwf as [Wh Wp Wb Ws Wy Wf Wfs Wo]. apply length_zero_iff_nil in E.
    split; [split; simpl; auto; try lia; congruence|]. split; [done|]. split; [|done].
    unfold cgi_pending, header_pending, body_pending, final_pending. simpl. by rewrite He, E.
  - split; [done|]. split; [done|]. split; [done|]. split; [|done]. by intros E'; rewrite E' in E.
Qed.

(** The state in which a turn of the loop works. *)
Definition turn_state c : cgi :=
  if (length (cgi_body c) =? 0) && cgi_eof c then ensure_final_chunk c else c.

Lemma turn_state_spec c :
  cgi_wf c →
  cgi_wf (turn_state c) ∧ same_rest c (turn_state c) ∧ cgi_pending (turn_state c) = cgi_pending c ∧
  cgi_body (turn_state c) = cgi_body c ∧
  (cgi_body (turn_state c) = [] → cgi_eof (turn_state c) = true → cgi_final_chunk (turn_state c) ≠ []).
Proof.
  intros Hwf. unfold turn_state. destruct (Nat.eqb_spec (length (cgi_body c)) 0) as [E|E]; cbn [andb].
  - destruct (cgi_eof c) eqn:He.
    + destruct (ensure_final_spec c Hwf He) as (? & ? & ? & ? & ?). split_and!; done.
    + split_and!; try done. by rewrite He.
  - split_and!; try done. intros Hb. by rewrite Hb in E.
Qed.

(** The offered bytes are the first that remain; nothing is offered only when there is
    nothing left to send for now. *)
Lemma cgi_iov_spec c :
  cgi_wf c → (cgi_body c = [] → cgi_eof c = true → cgi_final_chunk c ≠ []) →
  match cgi_iov c with
  | None => cgi_body c = [] ∧ cgi_eof c = false
  | Some [] => cgi_body c = [] ∧ cgi_eof c = true ∧ cgi_pending c = [] ∧
      length (cgi_final_chunk c) ≤ cgi_final_chunk_sent c
  | Some data => data `prefix_of` cgi_pending c
  end.
Proof.
  intros Hwf Hfin. unfold cgi_iov. rewrite !rest_drop.
  destruct (Nat.ltb_spec 0 (length (cgi_body c))) as [Hb|Hb].
  - assert (cgi_body c ≠ []) as Hne by (destruct (cgi_body c); simpl in *; [lia|done]).
    pose proof (wf_busy _ Hwf Hne) as Hbusy.
    set (data := drop _ _ ++ _). assert (data `prefix_of` cgi_pending c) as Hp.
    { exists (final_pending c). unfold cgi_pending, header_pending, body_pending, data.
      rewrite (proj2 (Nat.ltb_lt _ _)) by done. by rewrite <-!app_assoc. }
    destruct data as [|x data'] eqn:Ed; [|done]. exfalso. unfold data in Ed. clear Hp data.
    apply app_nil in Ed as [_ [E1 [E2 E3]%app_nil]%app_nil].
    apply skipn_all_iff in E1, E2, E3. change (length crlf) with 2 in E3.
    unfold backpressure in Hbusy.
    rewrite (proj2 (Nat.ltb_ge _ (length (cgi_chunk_prefix c)))),
      (proj2 (Nat.ltb_ge (cgi_body_sent c) (length (cgi_body c)))), (proj2 (Nat.ltb_ge _ 2)) in Hbusy by lia.
    by rewrite andb_false_r in Hbusy.
  - assert (cgi_body c = []) as Hnil by (destruct (cgi_body c); simpl in *; [done|lia]).
    destruct (cgi_eof c) eqn:He; [|done]. specialize (Hfin Hnil eq_refl).
    assert (drop (cgi_http_header_sent c) (cgi_http_header c) ++
            drop (cgi_final_chunk_sent c) (cgi_final_chunk c) = cgi_pending c) as ->.
    { unfold cgi_pending, header_pending, body_pending, final_pending. rewrite Hnil, He. simpl.
      by destruct (cgi_final_chunk c). }
    destruct (cgi_pending c) as [|x l] eqn:Ep; [|done]. split_and!; try done.
    unfold cgi_pending, final_pending in Ep. rewrite He in Ep.
    apply app_nil in Ep as [_ [_ Ep]%app_nil]. destruct (cgi_final_chunk c); [done|].
    by apply skipn_all_iff in Ep.
Qed.

Lemma writable_loop_unfold fuel c s :
  writable_loop (S fuel) c s =
  let c := turn_state c in
  match cgi_iov c with
  | None | Some [] => Some (writable_end c, s)
  | Some data =>
      match send s data with
      | (inl n, s) =>
          if 0 <? n then writable_loop fuel (cgi_advance c n) s else Some ((-1)%Z, c, [], s)
      | (inr e, s) =>
          if (e =? EINTR)%Z then writable_loop fuel c s
          else if (e =? EAGAIN)%Z then Some (1%Z, c, [], s)
          else Some ((-1)%Z, c, [], s)
      end
  end.
Proof. reflexivity. Qed.

Lemma writable_loop_spec fuel c s :
  length (script s) < fuel → cgi_wf c →
  ∃ rc c' es s', writable_loop fuel c s = Some (rc, c', es, s') ∧ cgi_wf c' ∧ same_rest c c' ∧
    wire s' ++ cgi_pending c' = wire s ++ cgi_pending c ∧
    (rc = 0 ∧ es = [] ∧ cgi_eof c = true ∧ cgi_pending c' = [] ∨
     rc = 1 ∧ es = [] ∧ cgi_pending c' ≠ [] ∨
     rc = 2 ∧ es = (if bool_decide (is_Some (cgi_out c)) then [ArmCgi] else []) ∧
       cgi_eof c = false ∧ cgi_body c' = [] ∨
     rc = -1 ∧ es = [])%Z.
Proof.
  revert c s. induction fuel as [|fuel IH]; intros c s Hf Hwf; [lia|]. rewrite writable_loop_unfold.
  destruct (turn_state_spec c Hwf) as (Hwf1 & Hs1 & Hp1 & Hb1 & Hfin). cbv zeta.
  set (c1 := turn_state c) in *. pose proof (cgi_iov_spec c1 Hwf1 Hfin) as Hiov.
  pose proof Hs1 as (_ & Eout & Eeof & _).
  destruct (cgi_iov c1) as [[|x data]|] eqn:Ei.
  - destruct Hiov as (Hnil & He & Hpend & Hlen).
    destruct (ensure_final_spec c1 Hwf1 He) as (W & S & P & Hne & _).
    exists 0%Z, (ensure_final_chunk c1), [], s. split.
    { unfold writable_end. rewrite He. unfold ensure_final_chunk in *.
      destruct (length (cgi_final_chunk c1) =? 0) eqn:El; [|by rewrite (proj2 (Nat.leb_le _ _))].
      apply Nat.eqb_eq, length_zero_iff_nil in El. by apply Hfin in El. }
    split; [done|]. split; [by etransitivity|]. split; [by rewrite P, Hp1|].
    left. rewrite <-Eeof, P. done.
  - pose proof Hiov as Hpre. set (d := x :: data) in *.
    destruct (send s d) as [[n|e] s1] eqn:Es.
    + pose proof (send_inl _ _ _ _ Es) as (Hn & Hw & Hl). destruct (Nat.ltb_spec 0 n).
      * destruct (cgi_advance_spec c1 n d Hwf1 Hfin Ei Hn) as (W & S & P).
        destruct (IH (cgi_advance c1 n) s1) as (rc & c' & es & s' & E & W' & S' & P' & Hrc); [lia|done|].
        exists rc, c', es, s'. split; [done|]. split; [done|].
        assert (same_rest c (cgi_advance c1 n)) as S2 by (by etransitivity).
        split; [by etransitivity|]. split.
        -- rewrite P', Hw, P, <-Hp1. destruct Hpre as [k Hk]. rewrite Hk.
           rewrite take_drop_middle || idtac.
           rewrite <-(take_app_le d k n Hn), <-!app_assoc, take_drop. done.
        -- destruct S2 as (_ & Eo & Ee & _). by rewrite Eo, Ee in Hrc.
      * exists (-1)%Z, c1, [], s1. replace n with 0 in * by lia.
        split; [done|]. split; [done|]. split; [done|].
        split; [by rewrite Hw, take_0, app_nil_r, Hp1|auto].
    + pose proof (send_inr _ _ _ _ Es) as (Hw & Hl).
      assert (cgi_pending c1 ≠ []) as Hpne by (destruct Hpre as [k ->]; done).
      destruct (Z.eqb_spec e EINTR) as [->|Hne]; [|destruct (Z.eqb_spec e EAGAIN)].
      * destruct Hl as [Hl|Hl]; [done|].
        destruct (IH c1 s1) as (rc & c' & es & s' & E & W' & S' & P' & Hrc); [lia|done|].
        exists rc, c', es, s'. split; [done|]. split; [done|]. split; [by etransitivity|].
        split; [by rewrite P', Hw, Hp1|]. by rewrite Eout, Eeof in Hrc.
      * exists 1%Z, c1, [], s1. split; [done|]. split; [done|]. split; [done|].
        split; [by rewrite Hw, Hp1|]. right. left. done.
      * exists (-1)%Z, c1, [], s1. split; [done|]. split; [done|]. split; [done|].
        split; [by rewrite Hw, Hp1|auto].
  - destruct Hiov as (Hnil & He). eexists 2%Z, c1, _, s. split.
    { unfold writable_end. rewrite He. reflexivity. }
    split; [done|]. split; [done|]. split; [by rewrite Hp1|]. right. right. left.
    by rewrite <-Eeof, Eout.
Qed.

(** ** The stream the client is to receive *)

(** A chunk of the chunked transfer encoding. *)
Definition chunk (bytes : list Z) : list Z := fmt_hex (Z.of_nat (length bytes)) ++ crlf ++ bytes ++ crlf.

(** All the bytes a pipe delivers. *)
Fixpoint pipe_bytes p : list Z :=
  match p with
  | [] => []
  | Arrived [] :: _ => []
  | Arrived bs :: p => bs ++ pipe_bytes p
  | ReadErr _ :: p => pipe_bytes p
  end.

(** The header and the body for a script that writes [orig]: its own header decides; a
    script that gives none has its output sent as plain text. *)
Definition expected (orig : list Z) : option (list Z * list Z) :=
  match find_header_end 0 orig with
  | Some off =>
      '(status, ctype) ← parse_header_lines (S off) (take off orig) 200 [];
      Some (cgi_header_text status ctype, drop off orig)
  | None =>
      match orig with
      | [] => Some (cgi_header_text 500 (str "text/plain"), str "cgi produced no output" ++ [LF])
      | _ => Some (cgi_header_text 200 (str "text/plain"), orig)
      end
  end.

(** The reads up to the end of the script's header fit in the header buffer. *)
Fixpoint header_fits (buf : list Z) p : Prop :=
  match p with
  | [] => True
  | Arrived [] :: _ => True
  | Arrived bs :: p =>
      length (buf ++ bs) ≤ CGI_HDR_BUF ∧
      (find_header_end 0 (buf ++ bs) = None → header_fits (buf ++ bs) p)
  | ReadErr _ :: p => header_fits buf p
  end.

(** What the server keeps of the output, when [buf] is in the header buffer: of the read that
    ends the header, only what the header buffer has room for. *)
Fixpoint kept (buf : list Z) p : list Z :=
  match p with
  | [] => []
  | Arrived [] :: _ => []
  | Arrived bs :: p =>
      let got := take (CGI_HDR_BUF - length buf) (take CGI_BODY_BUF bs) in
      got ++ match find_header_end 0 (buf ++ got) with
             | Some _ => drop CGI_BODY_BUF bs ++ pipe_bytes p
             | None => kept (buf ++ got) p
             end
  | ReadErr _ :: p => kept buf p
  end.

Definition piece_ok (b : list Z) : Prop := 0 < length b ≤ CGI_BODY_BUF.

(** [w] has been sent of the output [orig]. *)
Definition stream_inv (orig : list Z) c (w : list Z) : Prop :=
  cgi_wf c ∧ cgi_active c = true ∧
  if cgi_headers_done c then
    ∃ hdr body pieces, expected orig = Some (hdr, body) ∧ Forall piece_ok pieces ∧
      w ++ cgi_pending c = hdr ++ concat (chunk <$> pieces) ++ (if cgi_eof c then final_chunk else []) ∧
      match cgi_out c with
      | Some p => concat pieces ++ pipe_bytes p = body ∧ cgi_eof c = false
      | None => concat pieces = body ∧ cgi_eof c = true
      end
  else
    w = [] ∧ cgi_pending c = [] ∧ cgi_eof c = false ∧
    ∃ p, cgi_out c = Some p ∧ cgi_hdr_buf c ++ kept (cgi_hdr_buf c) p = orig ∧
      find_header_end 0 (cgi_hdr_buf c) = None ∧ length (cgi_hdr_buf c) ≤ CGI_HDR_BUF.

(** What was sent stays sent. *)
Lemma writable_loop_wire fuel c s rc c' es s' :
  writable_loop fuel c s = Some (rc, c', es, s') → wire s `prefix_of` wire s'.
Proof.
  revert c s. induction fuel as [|fuel IH]; intros c s; [done|]. rewrite writable_loop_unfold. cbv zeta.
  destruct (cgi_iov (turn_state c)) as [[|x data]|]; [by intros; simplify_eq| |by intros; simplify_eq].
  destruct (send s (x :: data)) as [[n|e] s1] eqn:Es.
  - apply send_inl in Es as (_ & Ew & _). destruct (0 <? n).
    + intros Hl%IH. etransitivity; [|exact Hl]. rewrite Ew. by apply prefix_app_r.
    + intros; simplify_eq. rewrite Ew. by apply prefix_app_r.
  - apply send_inr in Es as (Ew & _). destruct (e =? EINTR)%Z; [by rewrite <-Ew; apply IH|].
    destruct (e =? EAGAIN)%Z; intros; simplify_eq; by rewrite Ew.
Qed.

Lemma find_header_end_cons i a b l :
  find_header_end i (a :: b :: l) =
  if ((a =? LF) && (b =? LF))%Z then Some (i + 2)
  else if ((a =? CR) && (b =? LF))%Z && bool_decide (take 2 l = [CR; LF]) then Some (i + 4)
  else find_header_end (S i) (b :: l).
Proof.
  cbn [find_header_end]. destruct ((a =? LF) && (b =? LF))%Z; [done|].
  destruct l as [|x [|y l]]; cbn [take];
    [by rewrite bool_decide_false, andb_false_r..|].
  assert ((x =? CR) && (y =? LF) = bool_decide (x :: y :: take 0 l = [CR; LF]))%Z as <-.
  { destruct (Z.eqb_spec x CR) as [->|], (Z.eqb_spec y LF) as [->|]; cbn [andb]; symmetry;
      [by apply bool_decide_true|apply bool_decide_false; congruence..]. }
  by rewrite (andb_assoc ((a =? CR) && (b =? LF))%Z).
Qed.

Lemma find_header_end_app i l k off :
  find_header_end i l = Some off → find_header_end i (l ++ k) = Some off ∧ off ≤ i + length l.
Proof.
  revert i off. induction l as [|a l IH]; intros i off; [done|].
  destruct l as [|b l]; [done|]. cbn [app]. rewrite !find_header_end_cons.
  destruct ((a =? LF) && (b =? LF))%Z; [intros [= <-]; simpl; split; [done|lia]|].
  destruct ((a =? CR) && (b =? LF))%Z eqn:E; cbn [andb].
  - case_bool_decide as Ht.
    + intros [= <-]. rewrite bool_decide_true; [split; [done|]|].
      * destruct l as [|x [|y l]]; [done|done|]. simpl. lia.
      * destruct l as [|x [|y l]]; [done|done|]. by injection Ht as -> ->.
    + intros Ho. pose proof (IH _ _ Ho) as [Ho' ?]. rewrite bool_decide_false.
      * split; [exact Ho'|]. simpl in *. lia.
      * intros Hk. apply Ht. destruct l as [|x [|y l]]; [| |done]; exfalso.
        -- done.
        -- apply andb_true_iff in E as [_ ->%Z.eqb_eq]. destruct k as [|y k]; [done|].
           injection Hk as -> ->. done.
  - intros Ho. pose proof (IH _ _ Ho) as [Ho' ?]. split; [exact Ho'|]. simpl in *. lia.
Qed.

(** ** One read *)

Lemma read_inl p bs p' :
  read p CGI_BODY_BUF = (inl bs, p') →
  length bs ≤ CGI_BODY_BUF ∧ pipe_size p' < pipe_size p ∧
  (bs = [] → pipe_bytes p = []) ∧ (bs ≠ [] → pipe_bytes p = bs ++ pipe_bytes p').
Proof.
  unfold read. destruct p as [|[l|e] p]; [done| |done]. intros [= <- <-].
  pose proof cgi_sizes as (_ & _ & Hbuf).
  rewrite length_take. split; [lia|].
  destruct (Nat.ltb_spec CGI_BODY_BUF (length l)) as [Hl|Hl].
  - split; [simpl; rewrite length_drop; lia|].
    assert (take CGI_BODY_BUF l ≠ []) as Hne.
    { intros E. apply (f_equal length) in E. rewrite length_take in E. simpl in E. lia. }
    split; [done|]. intros _. destruct l as [|x l]; [simpl in Hl; lia|].
    cbn [pipe_bytes]. destruct (drop CGI_BODY_BUF (x :: l)) as [|y d] eqn:Ed.
    { apply skipn_all_iff in Ed. lia. }
    cbn [pipe_bytes]. by rewrite (assoc_L (++)), <-Ed, take_drop.
  - rewrite take_ge by done. split; [simpl; lia|]. split; [by intros ->|]. by destruct l.
Qed.

Lemma read_inr p e p' :
  read p CGI_BODY_BUF = (inr e, p') →
  pipe_bytes p' = pipe_bytes p ∧ (e = EAGAIN ∨ pipe_size p' < pipe_size p) ∧
  ∀ buf, kept buf p' = kept buf p.
Proof.
  unfold read. destruct p as [|[l|x] p]; intros [= <- <-]; simpl; auto.
Qed.

Lemma kept_eof buf p p' : read p CGI_BODY_BUF = (inl [], p') → kept buf p = [].
Proof.
  unfold read. destruct p as [|[[|x l]|e] p]; try done.
Qed.

(** One read of bytes: those the header buffer has room for are kept. *)
Lemma kept_read buf p bs p' :
  read p CGI_BODY_BUF = (inl bs, p') → bs ≠ [] →
  let got := take (CGI_HDR_BUF - length buf) bs in
  (is_Some (find_header_end 0 (buf ++ got)) → kept buf p = got ++ pipe_bytes p') ∧
  (find_header_end 0 (buf ++ got) = None → length (buf ++ got) < CGI_HDR_BUF → kept buf p = got ++ kept (buf ++ got) p').
Proof.
  unfold read. destruct p as [|[l|x] p]; [done| |done]. intros [= <- <-] Hne.
  destruct l as [|x l]; [by rewrite take_nil in Hne|]. cbn [kept]. cbv zeta. set (l' := x :: l) in *.
  set (got := take _ (take _ l')). split.
  - intros [off ->]. destruct (Nat.ltb_spec CGI_BODY_BUF (length l')) as [Hl|Hl].
    + assert (drop CGI_BODY_BUF l' ≠ []) as Hd by (by intros ?%skipn_all_iff; lia).
      destruct (drop CGI_BODY_BUF l') eqn:E; [done|]. done.
    + by rewrite (drop_ge l') by lia.
  - intros ->. destruct (Nat.ltb_spec CGI_BODY_BUF (length l')) as [Hl|Hl]; [|done].
    pose proof cgi_sizes. unfold got. rewrite length_app, !length_take. lia.
Qed.

(** When the reads up to the end of the header fit, nothing is lost. *)
Lemma kept_fits buf p : header_fits buf p → kept buf p = pipe_bytes p.
Proof.
  pose proof cgi_sizes. revert buf. induction p as [|[[|x l]|e] p IH]; intros buf; [done|done| |apply IH].
  cbn [header_fits kept pipe_bytes]. set (l' := x :: l). intros [Hl Hf]. rewrite length_app in Hl.
  rewrite (take_ge l') by lia. rewrite take_ge by lia. rewrite (drop_ge l') by lia. f_equal.
  destruct (find_header_end 0 (buf ++ l')); [done|]. by apply IH, Hf.
Qed.

(** ** Filling the buffer *)

Definition with_body c (bytes : list Z) : cgi :=
  c <| cgi_body := bytes |> <| cgi_body_sent := 0 |>
    <| cgi_chunk_prefix :=
         (match bytes with [] => [] | _ => fmt_hex (Z.of_nat (length bytes)) ++ crlf end) |>
    <| cgi_chunk_prefix_sent := 0 |> <| cgi_chunk_suffix_sent := 0 |>.

Lemma set_body_eq c bytes :
  length bytes ≤ CGI_BODY_BUF → set_body c bytes = Some (with_body c bytes).
Proof.
  intros Hl. unfold set_body, prepare_chunk_prefix, with_body. destruct bytes as [|x bytes]; [done|].
  cbn [length Nat.eqb] in *.
  pose proof (fmt_hex_length (Z.of_nat (S (length bytes))) 14) as Hh.
  rewrite (proj2 (Nat.leb_gt _ _)); [done|]. rewrite length_app. change (length crlf) with 2.
  pose proof cgi_sizes. unfold CGI_CHUNK_PREFIX. lia.
Qed.

Lemma with_body_spec c bytes :
  cgi_wf c →
  cgi_wf (with_body c bytes) ∧ header_pending (with_body c bytes) = header_pending c ∧
  final_pending (with_body c bytes) = final_pending c ∧
  body_pending (with_body c bytes) = (match bytes with [] => [] | _ => chunk bytes end).
Proof.
  intros [Wh Wp Wb Ws Wy Wf Wfs Wo]. split_and!; [|done|done|].
  - split; simpl; auto; try lia. intros Hne. unfold backpressure. simpl.
    change (0 <? 2) with true. rewrite orb_true_r. by destruct bytes.
  - unfold body_pending. simpl. destruct bytes; [done|]. cbn [length Nat.ltb Nat.leb].
    rewrite !drop_0. unfold chunk. by rewrite <-!app_assoc.
Qed.

Lemma build_header_eq c status ctype :
  build_http_header c status ctype = None ∨
  ∃ c', build_http_header c status ctype = Some c' ∧ same_rest c c' ∧
    cgi_body c' = cgi_body c ∧ cgi_body_sent c' = cgi_body_sent c ∧
    cgi_http_header c' = cgi_header_text status ctype ∧ cgi_http_header_sent c' = 0 ∧
    cgi_chunk_prefix c' = [] ∧ cgi_chunk_prefix_sent c' = 0 ∧ cgi_chunk_suffix_sent c' = 0 ∧
    cgi_final_chunk c' = [] ∧ cgi_final_chunk_sent c' = 0.
Proof.
  unfold build_http_header. destruct (_ <=? _); [by left|right]. eexists. split; [done|].
  split_and!; done.
Qed.

(** A first buffer behind the header just made. *)
Definition load c (bytes hbuf : list Z) : cgi :=
  (with_body c bytes) <| cgi_headers_done := true |> <| cgi_hdr_buf := hbuf |>.

Lemma load_eq c bytes hbuf :
  (with_body (c <| cgi_headers_done := true |>) bytes) <| cgi_hdr_buf := hbuf |> = load c bytes hbuf.
Proof. by destruct c. Qed.

Lemma load_keep c bytes :
  (with_body c bytes) <| cgi_headers_done := true |> = load c bytes (cgi_hdr_buf c).
Proof. by destruct c. Qed.

Lemma load_fields c bytes hbuf :
  cgi_active (load c bytes hbuf) = cgi_active c ∧ cgi_out (load c bytes hbuf) = cgi_out c ∧
  cgi_eof (load c bytes hbuf) = cgi_eof c ∧ cgi_headers_done (load c bytes hbuf) = true ∧
  cgi_pending (load c bytes hbuf) = cgi_pending (with_body c bytes).
Proof. destruct c. split_and!; reflexivity. Qed.

Lemma load_wf c bytes hbuf : cgi_wf (with_body c bytes) → cgi_wf (load c bytes hbuf).
Proof. destruct c. by intros []. Qed.

Opaque load.

(** A header and a first buffer, ready to be sent. *)
Lemma header_and_body c status ctype c1 bytes hbuf :
  cgi_wf c → cgi_body c = [] → build_http_header c status ctype = Some c1 →
  let c2 := load c1 bytes hbuf in
  cgi_wf c2 ∧ cgi_active c2 = cgi_active c ∧ cgi_out c2 = cgi_out c ∧ cgi_eof c2 = cgi_eof c ∧
  cgi_headers_done c2 = true ∧
  cgi_pending c2 = cgi_header_text status ctype ++
    concat (chunk <$> (match bytes with [] => [] | _ => [bytes] end)) ++
    (if cgi_eof c then final_chunk else []).
Proof.
  intros Hwf Hb E. destruct (build_header_eq c status ctype) as
    [E'|(c' & E' & (Sa & So & Se & _) & Hbody & Hbs & Hh & Hhs & Hp & Hps & Hss & Hf & Hfs)]; [congruence|].
  rewrite E in E'. injection E' as <-.
  assert (cgi_wf c1) as W1.
  { split; rewrite ?Hh, ?Hhs, ?Hp, ?Hps, ?Hss, ?Hf, ?Hfs, ?Hbody, ?Hbs, ?Hb; simpl; try done; auto; try lia.
    destruct Hwf as [_ _ Wb _ _ _ _ _]. by rewrite Hb in Wb. }
  destruct (with_body_spec c1 bytes W1) as (W & P1 & P2 & P3).
  cbv zeta. destruct (load_fields c1 bytes hbuf) as (-> & -> & -> & -> & ->).
  split; [by apply load_wf|]. split; [done|]. split; [done|]. split; [done|]. split; [done|].
  unfold cgi_pending. rewrite P1, P2, P3. unfold header_pending, final_pending.
  rewrite Hhs, Hh, Hf, drop_0, Se. f_equal. f_equal. destruct bytes; [done|]. simpl. by rewrite app_nil_r.
Qed.

Lemma idle_body c : cgi_wf c → backpressure c = false → cgi_body c = [].
Proof.
  intros Hwf Hb. destruct (cgi_body c) eqn:E; [done|].
  assert (backpressure c = true) by (apply Hwf; congruence). congruence.
Qed.

Lemma empty_pending_body c : cgi_wf c → cgi_pending c = [] → cgi_body c = [].
Proof.
  intros Hwf Hp. apply idle_body; [done|]. apply not_true_iff_false. intros Hb.
  unfold backpressure in Hb. apply andb_true_iff in Hb as [Hlen Hb].
  apply app_nil in Hp as [_ [Hp _]%app_nil]. unfold body_pending in Hp. rewrite Hlen in Hp.
  apply app_nil in Hp as [E1 [E2 E3]%app_nil]. apply skipn_all_iff in E1, E2, E3.
  change (length crlf) with 2 in E3. rewrite !orb_true_iff, !Nat.ltb_lt in Hb. lia.
Qed.

(** A buffer is ready for a stream whose header is already made. *)
Lemma ready_body orig c w p bytes p' :
  stream_inv orig c w → cgi_headers_done c = true → backpressure c = false → cgi_out c = Some p →
  length bytes ≤ CGI_BODY_BUF → bytes ≠ [] → pipe_bytes p = bytes ++ pipe_bytes p' →
  ∀ total, stream_inv orig (with_body (c <| cgi_out := Some p' |> <| cgi_out_total := total |>) bytes) w.
Proof.
  intros (Hwf & Ha & Hs) Hdone Hbp Ho Hlen Hne Hpb total. rewrite Hdone, Ho in Hs.
  destruct Hs as (hdr & body & pieces & Hexp & Hok & Hw & Hbody & He).
  pose proof (idle_body _ Hwf Hbp) as Hnil. set (c1 := c <| cgi_out := Some p' |> <| cgi_out_total := total |>).
  assert (cgi_wf c1) as W1 by (by destruct Hwf).
  destruct (with_body_spec c1 bytes W1) as (W & P1 & P2 & P3).
  split; [done|]. split; [done|]. simpl. rewrite Hdone, He.
  exists hdr, body, (pieces ++ [bytes]). split; [done|]. split.
  { apply Forall_app. split; [done|]. apply Forall_singleton. split; [|done].
    destruct bytes; [done|]. simpl. lia. }
  rewrite fmap_app, !concat_app. cbn [fmap list_fmap concat]. rewrite !app_nil_r.
  split; [|split; [by rewrite <-app_assoc, <-Hpb|done]].
  rewrite He, app_nil_r in Hw. rewrite (assoc_L (++) hdr), <-Hw. unfold cgi_pending. rewrite P1, P2, P3.
  assert (body_pending c = []) as -> by (unfold body_pending; by rewrite Hnil).
  assert (final_pending c = []) as -> by (unfold final_pending; by rewrite He).
  assert (final_pending c1 = []) as -> by (unfold final_pending; simpl; by rewrite He).
  destruct bytes; [done|]. by rewrite !app_nil_r, <-app_assoc.
Qed.

Lemma finish_header_ready orig c off c' p :
  cgi_wf c → cgi_active c = true → cgi_pending c = [] → cgi_eof c = false → cgi_out c = Some p →
  cgi_hdr_buf c ++ pipe_bytes p = orig → length (cgi_hdr_buf c) ≤ CGI_HDR_BUF →
  find_header_end 0 (cgi_hdr_buf c) = Some off → finish_header c off = Some c' →
  stream_inv orig c' [].
Proof.
  intros Hwf Ha Hpend He Ho Horig Hlen Hend Hfin.
  apply bind_Some in Hfin as ([status ctype] & Eparse & Hfin).
  apply bind_Some in Hfin as (c1 & Ebuild & Hfin). apply bind_Some in Hfin as (c0 & Ebody & Hfin).
  destruct (find_header_end_app _ _ (pipe_bytes p) _ Hend) as [Hend' Hoff]. simpl in Hoff.
  set (bytes := drop off (cgi_hdr_buf c)) in *. pose proof cgi_sizes.
  assert (length bytes ≤ CGI_BODY_BUF) as Hbl by (unfold bytes; rewrite length_drop; lia).
  rewrite take_ge, set_body_eq in Ebody by done.
  apply (inj Some) in Ebody as <-, Hfin as <-. rewrite load_eq.
  destruct (header_and_body c status ctype c1 bytes [] Hwf (empty_pending_body _ Hwf Hpend) Ebuild)
    as (W & Ea & Eo & Ee & Ed & P).
  set (c2 := load c1 bytes []) in *. clearbody c2.
  split; [done|]. split; [congruence|]. rewrite Ed, Eo, Ee, Ho, He. rewrite He in P.
  exists (cgi_header_text status ctype), (drop off orig), (match bytes with [] => [] | _ => [bytes] end).
  split.
  { unfold expected. rewrite <-Horig, Hend', take_app_le by lia. by rewrite Eparse. }
  split. { destruct bytes; [constructor|]. apply Forall_singleton. split; [simpl; lia|done]. }
  split; [exact P|]. split; [|done]. rewrite <-Horig, drop_app_le by lia. fold bytes.
  destruct bytes; [done|]. simpl. by rewrite app_nil_r.
Qed.

Lemma on_bytes_spec orig c w p bytes p' :
  stream_inv orig c w → cgi_out c = Some p → backpressure c = false →
  read p CGI_BODY_BUF = (inl bytes, p') → bytes ≠ [] →
  match on_bytes (c <| cgi_out := Some p' |>) bytes with
  | Ready c' => stream_inv orig c' w
  | MoreHeader c' => stream_inv orig c' w ∧ cgi_out c' = Some p' ∧ backpressure c' = false
  | Give_up _ => True
  end.
Proof.
  intros Hinv Ho Hbp Hread Hne. pose proof (read_inl _ _ _ Hread) as (Hlen & _ & _ & Hpb).
  specialize (Hpb Hne). unfold on_bytes. cbv zeta.
  set (total := (cgi_out_total (c <| cgi_out := Some p' |>) + _)%Z).
  set (c1 := c <| cgi_out := Some p' |> <| cgi_out_total := total |>).
  destruct (_ <? _)%Z; [done|]. destruct (cgi_headers_done c) eqn:Hdone.
  - change (cgi_headers_done c1) with (cgi_headers_done c). rewrite Hdone. cbn [negb].
    rewrite set_body_eq by done. by eapply ready_body.
  - change (cgi_headers_done c1) with (cgi_headers_done c). rewrite Hdone. cbn [negb].
    destruct Hinv as (Hwf & Ha & Hs). rewrite Hdone in Hs.
    destruct Hs as (-> & Hpend & He & p0 & Ho' & Horig & Hnone & Hroom).
    rewrite Ho in Ho'. injection Ho' as <-.
    destruct (kept_read (cgi_hdr_buf c) _ _ _ Hread Hne) as [Hend Hmore].
    change (cgi_hdr_buf c1) with (cgi_hdr_buf c). set (got := take _ bytes) in *.
    set (c2 := c1 <| cgi_hdr_buf := cgi_hdr_buf c ++ got |>).
    assert (cgi_wf c2) as W2 by (by destruct Hwf).
    change (cgi_hdr_buf c2) with (cgi_hdr_buf c ++ got).
    assert (length (cgi_hdr_buf c ++ got) ≤ CGI_HDR_BUF) as Hl.
    { unfold got. rewrite length_app, length_take. lia. }
    destruct (find_header_end 0 (cgi_hdr_buf c ++ got)) as [off|] eqn:Eend.
    + destruct (finish_header c2 off) as [c3|] eqn:Efin; [|done].
      apply (finish_header_ready orig c2 off c3 p'); try done.
      change (cgi_hdr_buf c2) with (cgi_hdr_buf c ++ got). by rewrite <-app_assoc, <-Hend by eauto.
    + destruct (_ <=? _) eqn:Hfull; [done|]. apply Nat.leb_gt in Hfull.
      split; [|split; [done|exact Hbp]]. split; [done|]. split; [done|].
      change (cgi_headers_done c2) with (cgi_headers_done c). rewrite Hdone.
      split; [done|]. split; [done|]. split; [done|]. exists p'. split; [done|].
      change (cgi_hdr_buf c2) with (cgi_hdr_buf c ++ got). by rewrite <-app_assoc, <-Hmore.
Qed.

(** The output ended without a header: [bytes] are sent under a header of our own. *)
Lemma eof_ready orig c status bytes c2 hbuf :
  cgi_wf c → cgi_active c = true → cgi_body c = [] → cgi_eof c = true → cgi_out c = None →
  build_http_header c status (str "text/plain") = Some c2 →
  expected orig = Some (cgi_header_text status (str "text/plain"), bytes) →
  0 < length bytes ≤ CGI_BODY_BUF →
  stream_inv orig (load c2 bytes hbuf) [].
Proof.
  intros Hwf Ha Hnil He Ho E Hexp Hl.
  destruct (header_and_body c status _ c2 bytes hbuf Hwf Hnil E) as (W & Ea & Eo & Ee & Ed & P).
  set (c3 := load c2 bytes hbuf) in *. clearbody c3. rewrite He in P.
  split; [done|]. split; [congruence|]. rewrite Ed, Eo, Ee, Ho, He.
  exists (cgi_header_text status (str "text/plain")), bytes, [bytes].
  split; [done|]. split; [by apply Forall_singleton|].
  split; [|split; [by cbn [concat]; rewrite app_nil_r|done]].
  destruct bytes; [simpl in Hl; lia|]. exact P.
Qed.

Lemma build_header_hdr c status ctype c' :
  build_http_header c status ctype = Some c' → cgi_hdr_buf c' = cgi_hdr_buf c.
Proof.
  intros E. destruct (build_header_eq c status ctype) as [E'|(c2 & E' & (_ & _ & _ & _ & _ & _ & Eh) & _)];
    congruence.
Qed.

(** The two ways of [on_eof] without a header. *)
Lemma eof_partial orig c :
  cgi_wf c → cgi_active c = true → cgi_body c = [] → cgi_eof c = true → cgi_out c = None →
  0 < length (cgi_hdr_buf c) ≤ CGI_HDR_BUF →
  expected orig = Some (cgi_header_text 200 (str "text/plain"), cgi_hdr_buf c) →
  match eof_with_bytes c with Some c' => stream_inv orig c' [] | None => True end.
Proof.
  intros Hwf Ha Hnil He Ho Hl Hexp. destruct (eof_with_bytes c) as [c'|] eqn:E; [|done].
  pose proof cgi_sizes.
  apply bind_Some in E as (c2 & E2 & E). apply bind_Some in E as (c3 & E3 & E).
  rewrite (build_header_hdr _ _ _ _ E2) in E3.
  rewrite (proj2 (Nat.ltb_ge _ _)), set_body_eq in E3 by lia. apply (inj Some) in E3 as <-, E as <-.
  apply (eof_ready orig c 200 (cgi_hdr_buf c) c2 []); auto. lia.
Qed.

Lemma eof_silent orig c :
  cgi_wf c → cgi_active c = true → cgi_body c = [] → cgi_eof c = true → cgi_out c = None →
  expected orig = Some (cgi_header_text 500 (str "text/plain"), str "cgi produced no output" ++ [LF]) →
  match eof_without_bytes c with Some c' => stream_inv orig c' [] | None => True end.
Proof.
  intros Hwf Ha Hnil He Ho Hexp. destruct (eof_without_bytes c) as [c'|] eqn:E; [|done].
  pose proof cgi_sizes. unfold eof_without_bytes in E.
  remember (str "cgi produced no output" ++ [LF]) as msg eqn:Emsg.
  assert (length msg = 23) as Hm by (by rewrite Emsg).
  apply bind_Some in E as (c2 & E2 & E). apply bind_Some in E as (c3 & E3 & E).
  rewrite take_ge, set_body_eq in E3 by lia. apply (inj Some) in E3 as <-, E as <-.
  rewrite load_keep.
  apply (eof_ready orig c 500 msg c2 (cgi_hdr_buf c2)); auto. lia.
Qed.

Lemma on_eof_spec orig c w p p' :
  stream_inv orig c w → cgi_out c = Some p → backpressure c = false →
  read p CGI_BODY_BUF = (inl [], p') →
  match on_eof (c <| cgi_out := Some p' |>) with
  | Ready c' => stream_inv orig c' w
  | MoreHeader c' => False
  | Give_up _ => True
  end.
Proof.
  intros (Hwf & Ha & Hs) Ho Hbp Hread. pose proof (read_inl _ _ _ Hread) as (_ & _ & Hpb & _).
  specialize (Hpb eq_refl). unfold on_eof. cbv zeta.
  set (c1 := (c <| cgi_out := Some p' |>) <| cgi_eof := true |> <| cgi_out := None |>).
  pose proof (idle_body _ Hwf Hbp) as Hnil.
  assert (cgi_wf c1) as W1 by (by destruct Hwf).
  destruct (cgi_headers_done c) eqn:Hdone; change (cgi_headers_done c1) with (cgi_headers_done c);
    rewrite Hdone; cbn [negb].
  - rewrite Ho in Hs. destruct Hs as (hdr & body & pieces & Hexp & Hok & Hw & Hbody & He).
    destruct (ensure_final_spec c1 W1 eq_refl) as (W & (Ea & Eo & Ee & _ & _ & Eh & _) & P & _ & _).
    split; [done|]. split; [by rewrite Ea|]. rewrite Eh, Ee, Eo. simpl. rewrite Hdone.
    exists hdr, body, pieces. split; [done|]. split; [done|]. rewrite Hpb, app_nil_r in Hbody.
    split; [|done]. rewrite He, app_nil_r in Hw. rewrite P, (assoc_L (++) hdr), <-Hw, <-app_assoc. f_equal.
    unfold cgi_pending.
    assert (header_pending c1 = header_pending c) as -> by done.
    assert (body_pending c1 = []) as -> by (unfold body_pending; simpl; by rewrite Hnil).
    assert (body_pending c = []) as -> by (unfold body_pending; by rewrite Hnil).
    assert (final_pending c = []) as -> by (unfold final_pending; by rewrite He).
    rewrite app_nil_r. f_equal. cbn [app]. unfold final_pending. simpl.
    by rewrite (wf_open _ Hwf He).
  - destruct Hs as (-> & Hpend & He & p0 & Ho' & Horig & Hnone & Hlen).
    rewrite Ho in Ho'. injection Ho' as <-. rewrite (kept_eof _ _ _ Hread), app_nil_r in Horig.
    pose proof cgi_sizes as (Hs1 & _ & Hs3).
    change (cgi_hdr_buf c1) with (cgi_hdr_buf c). destruct (Nat.ltb_spec 0 (length (cgi_hdr_buf c))) as [Hpos|H0].
    + assert (match eof_with_bytes c1 with Some c' => stream_inv orig c' [] | None => True end) as H.
      { apply (eof_partial orig c1); [done..|]. unfold expected. rewrite <-Horig, Hnone.
        change (cgi_hdr_buf c1) with (cgi_hdr_buf c).
        destruct (cgi_hdr_buf c); [simpl in Hpos; lia|done]. }
      by destruct (eof_with_bytes c1).
    + assert (match eof_without_bytes c1 with Some c' => stream_inv orig c' [] | None => True end) as H.
      { apply (eof_silent orig c1); [done..|]. unfold expected. rewrite <-Horig, Hnone.
        by assert (cgi_hdr_buf c = []) as -> by (apply length_zero_iff_nil; lia). }
      by destruct (eof_without_bytes c1).
Qed.

(** A read that fails takes nothing from the stream. *)
Lemma inv_read_error orig c w p e p' :
  stream_inv orig c w → cgi_out c = Some p → read p CGI_BODY_BUF = (inr e, p') →
  stream_inv orig (c <| cgi_out := Some p' |>) w.
Proof.
  intros (Hwf & Ha & Hs) Ho Hread. destruct (read_inr _ _ _ Hread) as (Hpb & Hsize & Hkept).
  split; [by destruct Hwf|]. split; [done|]. simpl. destruct (cgi_headers_done c).
  - rewrite Ho in Hs. by rewrite Hpb.
  - destruct Hs as (-> & Hp & He & p0 & Ho0 & H1 & H2 & H3). rewrite Ho in Ho0.
    injection Ho0 as <-. split; [done|]. split; [done|]. split; [done|]. exists p'.
    rewrite Hkept. by split_and!.
Qed.

Lemma stdout_loop_spec fuel timeout orig c w p :
  pipe_size p + 1 < fuel → stream_inv orig c w → cgi_out c = Some p →
  ∃ c' es, stdout_loop fuel timeout c = Some (c', es) ∧
    (es = [CloseConn] ∨
     stream_inv orig c' w ∧
       (es = [ArmConn EPOLLOUT; AddTimer timeout] ∨
        es = [ArmCgi; AddTimer timeout] ∧ is_Some (cgi_out c'))).
Proof.
  revert c p. induction fuel as [|fuel IH]; intros c p Hf Hinv Ho; [lia|]. cbn [stdout_loop].
  pose proof Hinv as (_ & Ha & _). destruct (backpressure c) eqn:Hbp.
  { eexists _, _. split; [done|]. right. split; [done|]. right. rewrite Ha, Ho. done. }
  rewrite Ho. destruct (read p CGI_BODY_BUF) as [[bytes|e] p'] eqn:Hread.
  - pose proof (read_inl _ _ _ Hread) as (_ & Hsize & _).
    destruct (decide (bytes = [])) as [->|Hne].
    + pose proof (on_eof_spec orig c w p p' Hinv Ho Hbp Hread) as Hr.
      destruct (on_eof _) as [c'|c'|c']; [|done|]; eexists _, _; (split; [done|]).
      * right. split; [exact Hr|by left].
      * by left.
    + assert (∀ X (a b : X), (match bytes with [] => a | _ => b end) = b) as Hm by (intros; by destruct bytes).
      rewrite Hm. pose proof (on_bytes_spec orig c w p bytes p' Hinv Ho Hbp Hread Hne) as Hr.
      destruct (on_bytes _ bytes) as [c'|c'|c'].
      * eexists _, _. split; [done|]. right. split; [exact Hr|by left].
      * destruct Hr as (Hinv' & Ho' & _). apply (IH c' p'); [lia|done|done].
      * eexists _, _. split; [done|]. by left.
  - destruct (read_inr _ _ _ Hread) as (Hpb & Hsize & Hfits).
    pose proof (inv_read_error orig c w p e p' Hinv Ho Hread) as Hinv'.
    destruct (Z.eqb_spec e EINTR) as [->|]; [|destruct (Z.eqb_spec e EAGAIN)].
    + destruct Hsize as [|Hsize]; [done|]. apply (IH _ p'); [lia|done|done].
    + eexists _, _. split; [done|]. right. split; [done|]. right. simpl. by rewrite Ha.
    + eexists _, _. split; [done|]. by left.
Qed.

(** ** Bounds *)

Lemma parse_status_range line code : parse_status_code line = Some code → (100 ≤ code ≤ 599)%Z.
Proof.
  unfold parse_status_code. destruct (negb _); [done|]. destruct (_ && _) eqn:E; [|done].
  intros [= <-]. apply andb_true_iff in E as [?%Z.leb_le ?%Z.leb_le]. lia.
Qed.

Lemma parse_content_type_length line cap v :
  parse_content_type line cap = Some v → 0 < length v < cap.
Proof.
  unfold parse_content_type. destruct (negb _); [done|].
  set (w := reverse _). destruct (Nat.eqb_spec (length w) 0); [done|].
  destruct (Nat.leb_spec cap (length w)); [done|]. intros [= <-]. lia.
Qed.

Lemma parse_header_range fuel hdr status ctype status' ctype' :
  parse_header_lines fuel hdr status ctype = Some (status', ctype') →
  (100 ≤ status ≤ 599)%Z → length ctype < CGI_CONTENT_TYPE →
  (100 ≤ status' ≤ 599)%Z ∧ length ctype' < CGI_CONTENT_TYPE.
Proof.
  revert hdr status ctype. induction fuel as [|fuel IH]; intros hdr status ctype; [done|].
  cbn [parse_header_lines]. destruct hdr as [|x hdr]; [by intros [= -> ->]|].
  destruct (span_line (x :: hdr)) as [line rest]. destruct (0 <? length line); [|by apply IH].
  destruct (CGI_LINE <=? length line); [done|]. intros E Hs Hc. eapply IH; [exact E| |].
  - destruct (parse_status_code _) eqn:Es; [|done]. by eapply parse_status_range.
  - destruct (parse_content_type _ _) eqn:Ec; [|done].
    by pose proof (parse_content_type_length _ _ _ Ec) as [_ ?].
Qed.

Lemma reason_length status : length (reason_phrase status) ≤ 21.
Proof.
  unfold reason_phrase, get_shortmsg_from_status_code. ztests; simpl; try lia; ztests; simpl; lia.
Qed.

Lemma cgi_header_length status ctype :
  (100 ≤ status ≤ 599)%Z → length (cgi_header_text status ctype) ≤ 190 + length ctype.
Proof.
  intros Hs. unfold cgi_header_text. rewrite !length_app.
  pose proof (fmt_int_length status ltac:(lia)). pose proof (reason_length status).
  destruct ctype; text_lengths; cbn [length]; lia.
Qed.

Lemma span_line_spec l line rest :
  l ≠ [] → span_line l = (line, rest) →
  LF ∉ line ∧ length rest < length l ∧ ∃ sep, l = line ++ sep ++ rest.
Proof.
  revert line rest. induction l as [|x l IH]; intros line rest Hne; [done|]. cbn [span_line].
  destruct (Z.eqb_spec x LF) as [->|Hx].
  - intros [= <- <-]. split; [by apply not_elem_of_nil|]. split; [simpl; lia|]. by exists [LF].
  - destruct (span_line l) as [line' rest'] eqn:E. intros [= <- <-].
    destruct l as [|y l]; [injection E as <- <-|].
    + split; [by apply not_elem_of_cons; split; [congruence|apply not_elem_of_nil]|].
      split; [simpl; lia|]. by exists [].
    + destruct (IH line' rest' ltac:(done) eq_refl) as (Hno & Hlen & sep & Hs).
      split; [by apply not_elem_of_cons; split; [congruence|]|]. split; [simpl in *; lia|].
      exists sep. rewrite Hs. done.
Qed.

(** The header lines are rejected only for a line that is too long. *)
Lemma header_rejected fuel hdr status ctype :
  length hdr < fuel → parse_header_lines fuel hdr status ctype = None →
  ∃ pre line post, hdr = pre ++ line ++ post ∧ CGI_LINE ≤ length line ∧ LF ∉ line.
Proof.
  revert hdr status ctype. induction fuel as [|fuel IH]; intros hdr status ctype Hf; [lia|].
  cbn [parse_header_lines]. destruct hdr as [|x hdr]; [done|].
  destruct (span_line (x :: hdr)) as [line rest] eqn:Espan.
  destruct (span_line_spec (x :: hdr) line rest ltac:(done) Espan) as (Hno & Hlt & sep & Hs).
  assert (∀ st ct, parse_header_lines fuel rest st ct = None →
    ∃ pre line0 post, x :: hdr = pre ++ line0 ++ post ∧ CGI_LINE ≤ length line0 ∧ LF ∉ line0) as Hrest.
  { intros st ct E. destruct (IH rest st ct ltac:(lia) E) as (pre & line0 & post & -> & ? & ?).
    exists (line ++ sep ++ pre), line0, post. by rewrite Hs, <-!app_assoc. }
  destruct (0 <? length line); [|apply Hrest]. destruct (Nat.leb_spec CGI_LINE (length line)); [|apply Hrest].
  intros _. exists [], line, (sep ++ rest). done.
Qed.

Lemma build_header_some c status ctype :
  (100 ≤ status ≤ 599)%Z → length ctype < CGI_CONTENT_TYPE → is_Some (build_http_header c status ctype).
Proof.
  intros Hs Hc. pose proof (cgi_header_length status ctype Hs). pose proof cgi_sizes.
  unfold build_http_header. rewrite (proj2 (Nat.leb_gt _ _)); [by eexists|]. unfold CGI_CONTENT_TYPE in Hc. lia.
Qed.

(** C27. What the server takes from a script's header is bounded: the status is a status
    code, the content type fits its buffer and the response header fits its own, so a
    complete header is refused only when one of its lines has 512 bytes or more. *)
Theorem cgi_header_bounds c body_off :
  length (take body_off (cgi_hdr_buf c)) = body_off →
  match parse_header_lines (S body_off) (take body_off (cgi_hdr_buf c)) 200 [] with
  | Some (status, ctype) =>
      (100 ≤ status ≤ 599)%Z ∧ length ctype < CGI_CONTENT_TYPE ∧
      length (cgi_header_text status ctype) < CGI_HTTP_HEADER ∧
      is_Some (build_http_header c status ctype) ∧ is_Some (finish_header c body_off)
  | None =>
      finish_header c body_off = None ∧
      ∃ pre line post, take body_off (cgi_hdr_buf c) = pre ++ line ++ post ∧
        CGI_LINE ≤ length line ∧ LF ∉ line
  end.
Proof.
  intros Hlen. destruct (parse_header_lines _ _ _ _) as [[status ctype]|] eqn:E.
  - destruct (parse_header_range _ _ _ _ _ _ E) as [Hs Hc]; [lia|unfold CGI_CONTENT_TYPE; simpl; lia|].
    pose proof (cgi_header_length status ctype Hs). pose proof cgi_sizes.
    assert (length (cgi_header_text status ctype) < CGI_HTTP_HEADER) as Ht.
    { unfold CGI_CONTENT_TYPE in Hc. lia. }
    split; [done|]. split; [done|]. split; [done|].
    destruct (build_header_some c status ctype Hs Hc) as [c1 E1].
    split; [by rewrite E1|]. eexists. apply bind_Some. exists (status, ctype). split; [exact E|].
    apply bind_Some. exists c1. split; [exact E1|]. apply bind_Some. eexists.
    split; [apply set_body_eq; rewrite length_take; lia|reflexivity].
  - split; [unfold finish_header; by rewrite E|]. apply (header_rejected (S body_off) _ 200%Z []); [lia|done].
Qed.

Lemma cgi_header_bounds_witness :
  let c := init_cgi <| cgi_hdr_buf := str "Status: 404" ++ [LF; LF] ++ str "x" |> in
  length (take 13 (cgi_hdr_buf c)) = 13 ∧ is_Some (finish_header c 13).
Proof.
  intros c. split; [reflexivity|]. pose proof (cgi_header_bounds c 13 eq_refl) as H.
  destruct (parse_header_lines 14 (take 13 (cgi_hdr_buf c)) 200 []) as [[status ctype]|] eqn:E.
  - exact (proj2 (proj2 (proj2 (proj2 H)))).
  - vm_compute in E. discriminate E.
Defined.
