(* ===== verification/CgiStream.v ===== *)
(** * A CGI exchange, event by event

    The two handlers of cgi.c and the CGI branch of [do_write] (http.c) run when epoll
    reports the descriptor they armed; descriptors are armed for one event.  The file
    follows an exchange from [zv_cgi_start] to the closing of the connection and compares
    what the client received with what the script wrote. *)
From S2P Require Import Prelude CString Sockets Output Cgi.

(** ** The client's decoder of the chunked transfer encoding *)

Definition hex_digit (c : Z) : option Z :=
  if (("0"%ch <=? c) && (c <=? "9"%ch))%Z then Some (c - "0"%ch)%Z
  else if (("a"%ch <=? c) && (c <=? "f"%ch))%Z then Some (c - "a"%ch + 10)%Z
  else None.

Fixpoint span_hex (l : list Z) : list Z * list Z :=
  match l with
  | [] => ([], [])
  | c :: l' =>
      match hex_digit c with
      | Some d => let '(ds, rest) := span_hex l' in (d :: ds, rest)
      | None => ([], l)
      end
  end.

Definition strip_crlf (l : list Z) : option (list Z) :=
  match l with
  | a :: b :: rest => if ((a =? CR) && (b =? LF))%Z then Some rest else None
  | _ => None
  end.

Fixpoint unchunk (fuel : nat) (l : list Z) : option (list Z) :=
  match fuel with
  | O => None
  | S fuel' =>
      let '(ds, rest) := span_hex l in
      if length ds =? 0 then None
      else
        rest ← strip_crlf rest;
        let n := Z.to_nat (of_digits 16 ds) in
        if length rest <? n then None
        else
          after ← strip_crlf (drop n rest);
          if n =? 0 then match after with [] => Some [] | _ => None end
          else
            body ← unchunk fuel' after;
            Some (take n rest ++ body)
  end.

(** ** The exchange *)

(** [st_conn] and [st_pipe] say what the connection and the pipe are armed for;
    [st_closed] is set when the connection is closed, to [true] if that is after the last
    byte of the response. *)
Record stream := mk_stream {
  st_cgi : cgi;
  st_wire : list Z;
  st_conn : option Z;
  st_pipe : bool;
  st_timer : option Z;
  st_closed : option bool;
}.
#[export] Instance eta_stream : Eta stream := fun st =>
  mk_stream (st_cgi st) (st_wire st) (st_conn st) (st_pipe st) (st_timer st) (st_closed st).

Implicit Types (st : stream) (c : cgi) (p : pipe).

Definition apply_effect (complete : bool) st (e : effect) : stream :=
  match e with
  | DelTimer => st <| st_timer := None |>
  | AddTimer ms => st <| st_timer := Some ms |>
  | ArmConn events => st <| st_conn := Some events |>
  | ArmCgi => st <| st_pipe := true |>
  | CloseConn =>
      st <| st_conn := None |> <| st_pipe := false |> <| st_timer := None |>
         <| st_closed := Some complete |>
  end.

(** The CGI branch of [do_write]: the new state, its effects, the socket, and whether the
    response is complete. *)
Definition do_write_cgi (timeout : Z) c (s : socket) : option (cgi * list effect * socket * bool) :=
  '(rc, c, es, s) ← zv_cgi_on_client_writable c s;
  let after :=
    if (rc =? 1)%Z then [ArmConn EPOLLOUT; AddTimer timeout]
    else if (rc =? 2)%Z then [AddTimer timeout]
    else [CloseConn] in
  Some (c, DelTimer :: es ++ after, s, (rc =? 0)%Z).

(** Epoll reports the pipe, or the connection; the event disarms its descriptor. *)
Definition stdout_event (timeout : Z) st : option stream :=
  '(c, es) ← zv_cgi_on_stdout_ready timeout (st_cgi st);
  Some (foldl (apply_effect false) (st <| st_pipe := false |> <| st_cgi := c |>) es).

Definition writable_event (timeout : Z) (replies : list reply) st : option stream :=
  '(c, es, s, complete) ← do_write_cgi timeout (st_cgi st) (mk_socket replies (st_wire st));
  Some (foldl (apply_effect complete)
          (st <| st_conn := None |> <| st_cgi := c |> <| st_wire := wire s |>) es).

Definition start_event (timeout : Z) p : stream :=
  let '(_, c, es) := zv_cgi_start (mk_spawn true true true true) timeout p init_cgi in
  foldl (apply_effect false) (mk_stream c [] None false None None) es.

Inductive stream_step (timeout : Z) : stream → stream → Prop :=
  | step_stdout st st' :
      st_pipe st = true → stdout_event timeout st = Some st' → stream_step timeout st st'
  | step_writable st replies st' :
      st_conn st = Some EPOLLOUT → writable_event timeout replies st = Some st' →
      stream_step timeout st st'
  | step_timeout st ms :
      st_timer st = Some ms → stream_step timeout st (apply_effect false st CloseConn).

(** What a client holding the bytes [w] has of the output [orig]. *)
Definition received (orig w : list Z) (complete : bool) : Prop :=
  (w = [] ∧ complete = false) ∨
  ∃ hdr body pieces, expected orig = Some (hdr, body) ∧ Forall piece_ok pieces ∧
    concat pieces `prefix_of` body ∧
    w `prefix_of` hdr ++ concat (chunk <$> pieces) ++ final_chunk ∧
    (complete = true → concat pieces = body ∧ w = hdr ++ concat (chunk <$> pieces) ++ final_chunk).

(** Exactly one descriptor is armed and the timer is set, until the connection is closed. *)
Definition stream_ok (timeout : Z) (orig : list Z) st : Prop :=
  match st_closed st with
  | None =>
      stream_inv orig (st_cgi st) (st_wire st) ∧ st_timer st = Some timeout ∧
      (st_conn st = Some EPOLLOUT ∧ st_pipe st = false ∨
       st_conn st = None ∧ st_pipe st = true ∧ is_Some (cgi_out (st_cgi st)))
  | Some complete =>
      st_conn st = None ∧ st_pipe st = false ∧ st_timer st = None ∧
      received orig (st_wire st) complete
  end.

Lemma inv_received orig c w : stream_inv orig c w → received orig w false.
Proof.
  intros (_ & _ & Hs). destruct (cgi_headers_done c); [|left; by destruct Hs as [-> _]]. right.
  destruct Hs as (hdr & body & pieces & Hexp & Hok & Hw & Ho).
  exists hdr, body, pieces. split; [done|]. split; [done|]. split_and!; [..|done].
  - destruct (cgi_out c) as [p|]; [|by destruct Ho as [-> _]]. destruct Ho as [<- _]. by eexists.
  - transitivity (w ++ cgi_pending c); [by eexists|]. rewrite Hw. destruct (cgi_eof c).
    + done.
    + rewrite app_nil_r. exists final_chunk. by rewrite <-app_assoc.
Qed.

Lemma inv_complete orig c w :
  stream_inv orig c w → cgi_eof c = true → cgi_pending c = [] → received orig w true.
Proof.
  intros (_ & _ & Hs) He Hp. rewrite He, Hp in Hs. destruct (cgi_headers_done c).
  - destruct Hs as (hdr & body & pieces & Hexp & Hok & Hw & Ho). rewrite app_nil_r in Hw.
    right. exists hdr, body, pieces. split; [done|]. split; [done|].
    destruct (cgi_out c) as [p|]; [by destruct Ho|]. destruct Ho as [-> _]. by rewrite Hw.
  - by destruct Hs as (_ & _ & ? & _).
Qed.

(** The writer changes only what is sent. *)
Lemma inv_writable orig c w c' w' :
  stream_inv orig c w → cgi_wf c' → same_rest c c' → w' ++ cgi_pending c' = w ++ cgi_pending c →
  stream_inv orig c' w'.
Proof.
  intros (_ & Ha & Hs) Hwf (Ea & Eo & Ee & _ & _ & Ed & Eh) Hw.
  split; [done|]. split; [congruence|]. rewrite Ed, Eo, Ee, Eh.
  destruct (cgi_headers_done c).
  - destruct Hs as (hdr & body & pieces & Hexp & Hok & Hw0 & Ho). exists hdr, body, pieces.
    by rewrite Hw, Hw0.
  - destruct Hs as (-> & Hp & Hs). rewrite Hp in Hw. by apply app_nil in Hw as [-> ->].
Qed.

Lemma inv_out_open orig c w : stream_inv orig c w → cgi_eof c = false → is_Some (cgi_out c).
Proof.
  intros (_ & _ & Hs) He. destruct (cgi_headers_done c).
  - destruct Hs as (hdr & body & pieces & _ & _ & _ & Ho). destruct (cgi_out c); [done|].
    destruct Ho. congruence.
  - by destruct Hs as (_ & _ & _ & p & -> & _).
Qed.

Lemma stdout_event_ok timeout orig st :
  stream_ok timeout orig st → st_pipe st = true →
  ∃ st', stdout_event timeout st = Some st' ∧ stream_ok timeout orig st'.
Proof.
  unfold stream_ok at 1. intros Hok Hp. destruct (st_closed st) as [|] eqn:Hc; [destruct Hok as (_ & ? & _); congruence|].
  destruct Hok as (Hinv & Ht & [[_ ?]|(Hconn & _ & p & Ho)]); [congruence|].
  pose proof (inv_received _ _ _ Hinv) as Hrec. pose proof Hinv as (_ & Ha & _).
  destruct (stdout_loop_spec (S (S (pipe_size p))) timeout orig (st_cgi st) (st_wire st) p)
    as (c' & es & E & Hes); [lia|done|done|].
  unfold stdout_event, zv_cgi_on_stdout_ready. rewrite Ho, Ha, E. cbn [mbind option_bind].
  eexists. split; [reflexivity|].
  destruct Hes as [->|(Hinv' & [->|(-> & Ho')])]; unfold stream_ok; simpl; rewrite ?Hc, ?Hconn.
  - by split_and!.
  - split; [done|]. split; [done|]. by left.
  - split; [done|]. split; [done|]. by right.
Qed.

Lemma writable_event_ok timeout orig st replies :
  stream_ok timeout orig st → st_conn st = Some EPOLLOUT →
  ∃ st', writable_event timeout replies st = Some st' ∧ stream_ok timeout orig st'.
Proof.
  unfold stream_ok at 1. intros Hok Hp. destruct (st_closed st) as [|] eqn:Hc; [destruct Hok; congruence|].
  destruct Hok as (Hinv & Ht & [[_ Hpipe]|(Hconn & _)]); [|congruence].
  pose proof Hinv as (Hwf & Ha & _).
  destruct (writable_loop_spec (S (length replies)) (st_cgi st) (mk_socket replies (st_wire st)))
    as (rc & c' & es & s' & E & W & S & Hw & Hrc); [simpl; lia|done|].
  pose proof (inv_writable _ _ _ _ _ Hinv W S Hw) as Hinv'.
  pose proof S as (_ & Eo & Ee & _). pose proof (inv_received _ _ _ Hinv') as Hrec.
  unfold writable_event, do_write_cgi, zv_cgi_on_client_writable. rewrite Ha. simpl script.
  rewrite E. cbn [mbind option_bind]. eexists. split; [reflexivity|].
  destruct Hrc as [(-> & -> & He & Hnil)|[(-> & -> & _)|[(-> & -> & He & _)|(-> & ->)]]];
    unfold stream_ok; simpl; rewrite ?Hc, ?Hpipe.
  - split_and!; try done. apply (inv_complete orig c'); [done|congruence|done].
  - split; [done|]. split; [done|]. by left.
  - destruct (inv_out_open _ _ _ Hinv He) as [p Hop]. rewrite Hop. simpl.
    split_and!; [done..|]. right. by rewrite Eo, Hop.
  - by split_and!.
Qed.

Lemma start_ok timeout p :
  stream_ok timeout (kept [] p) (start_event timeout p).
Proof.
  unfold stream_ok. simpl. split; [|split; [done|right; by eauto]].
  split; [by split; simpl; auto; try lia|]. split; [done|]. simpl.
  split_and!; [done..|]. exists p. split_and!; try done. simpl. lia.
Qed.

Lemma stream_step_ok timeout orig st st' :
  stream_ok timeout orig st → stream_step timeout st st' → stream_ok timeout orig st'.
Proof.
  intros Hok Hstep. destruct Hstep as [st st' Hp E|st replies st' Hc E|st ms Ht].
  - destruct (stdout_event_ok _ _ _ Hok Hp) as (st2 & E2 & Hok2). congruence.
  - destruct (writable_event_ok _ _ _ replies Hok Hc) as (st2 & E2 & Hok2). congruence.
  - unfold stream_ok in *. simpl. destruct (st_closed st); [by destruct Hok as (_ & _ & ? & _); congruence|].
    destruct Hok as (Hinv & _). split_and!; try done. by apply (inv_received orig (st_cgi st)).
Qed.

(** ** Decoding *)

Lemma hex_digit_char d : (0 ≤ d < 16)%Z → hex_digit (digit_char d) = Some d.
Proof.
  intros Hd. unfold hex_digit, digit_char.
  change "0"%ch with 48%Z. change "9"%ch with 57%Z. change "a"%ch with 97%Z. change "f"%ch with 102%Z.
  ztests; simpl; try lia; f_equal; lia.
Qed.

Lemma span_hex_digits ds k :
  Forall (λ d, 0 ≤ d < 16)%Z ds → span_hex ((digit_char <$> ds) ++ crlf ++ k) = (ds, crlf ++ k).
Proof.
  induction 1 as [|d ds Hd _ IH]; [done|]. cbn [fmap list_fmap app span_hex].
  rewrite hex_digit_char by done. fold (fmap digit_char ds). by rewrite IH.
Qed.

Lemma span_hex_fmt n k :
  span_hex (fmt_hex (Z.of_nat n) ++ crlf ++ k) = (digits (digits_fuel (Z.of_nat n)) 16 (Z.of_nat n) [], crlf ++ k).
Proof. unfold fmt_hex. apply span_hex_digits, digits_Forall; [lia..|constructor]. Qed.

Lemma strip_crlf_app k : strip_crlf (crlf ++ k) = Some k.
Proof. reflexivity. Qed.

Lemma unchunk_step fuel (b : list Z) k :
  b ≠ [] → unchunk (S fuel) (chunk b ++ k) = body ← unchunk fuel k; Some (b ++ body).
Proof.
  intros Hb. unfold chunk. rewrite <-!app_assoc. cbn [unchunk]. rewrite span_hex_fmt.
  set (ds := digits _ _ _ _). assert (ds ≠ []) as Hds by apply digits_nonempty.
  assert (of_digits 16 ds = Z.of_nat (length b)) as Hv by (apply of_digits_digits; lia).
  destruct ds as [|d ds]; [done|]. cbn [length Nat.eqb]. rewrite strip_crlf_app. cbn [mbind option_bind].
  rewrite Hv, Nat2Z.id. rewrite (proj2 (Nat.ltb_ge _ _)) by (rewrite length_app; lia).
  rewrite drop_app_length, take_app_length, strip_crlf_app. cbn [mbind option_bind].
  by destruct b.
Qed.

Lemma unchunk_chunks fuel pieces :
  Forall piece_ok pieces → length pieces < fuel →
  unchunk fuel (concat (chunk <$> pieces) ++ final_chunk) = Some (concat pieces).
Proof.
  intros Hp. revert fuel. induction Hp as [|b pieces [Hb _] _ IH]; intros [|fuel] Hf; simpl in Hf; try lia.
  - reflexivity.
  - rewrite fmap_cons. cbn [concat]. rewrite <-app_assoc.
    rewrite unchunk_step by (intros ->; simpl in Hb; lia). by rewrite IH by lia.
Qed.

Lemma chunks_length pieces : length pieces ≤ length (concat (chunk <$> pieces)).
Proof.
  induction pieces as [|b pieces IH]; [done|]. rewrite fmap_cons. cbn [concat].
  assert (1 ≤ length (chunk b)).
  { unfold chunk. rewrite !length_app. change (length crlf) with 2. lia. }
  rewrite length_app. cbn [length]. lia.
Qed.

(** ** The exchange as a whole *)


(** C26. At any moment of a CGI exchange the client holds a prefix of the response that the
    output of its script calls for, cut at chunk boundaries of the server's choosing; when
    the server closes the connection after the last byte, the client decodes exactly the
    body.  The output is what the server keeps of it: everything the script writes when the
    reads up to the end of its header fit in the header buffer of 4096 bytes, and otherwise
    without the rest of the read that overflows it. *)
Theorem cgi_response_decodes timeout p st :
  star (stream_step timeout) (start_event timeout p) st →
  received (kept [] p) (st_wire st) false ∧
  (st_closed st = Some true →
   ∃ hdr body enc, expected (kept [] p) = Some (hdr, body) ∧ st_wire st = hdr ++ enc ∧
     unchunk (length enc) enc = Some body) ∧
  (header_fits [] p → kept [] p = pipe_bytes p).
Proof.
  intros Hstar.
  pose proof (star_invariant _ (stream_ok timeout (kept [] p)) _ _ (stream_step_ok timeout _) Hstar (start_ok timeout p)) as Hok.
  enough (received (kept [] p) (st_wire st) false ∧
    (st_closed st = Some true → ∃ hdr body enc, expected (kept [] p) = Some (hdr, body) ∧ st_wire st = hdr ++ enc ∧
       unchunk (length enc) enc = Some body)) as [? ?] by (split; [done|split; [done|apply kept_fits]]).
  unfold stream_ok in Hok. destruct (st_closed st) as [complete|].
  2: { split; [|done]. by destruct Hok as (?%inv_received & _). }
  destruct Hok as (_ & _ & _ & Hrec). split.
  { destruct Hrec as [[-> _]|(hdr & body & pieces & ? & ? & ? & ? & _)]; [by left|right].
    by exists hdr, body, pieces. }
  intros [= ->]. destruct Hrec as [[_ ?]|(hdr & body & pieces & Hexp & Hok & _ & _ & Hc)]; [done|].
  destruct (Hc eq_refl) as [<- ->]. eexists hdr, _, _. split; [done|]. split; [done|].
  apply unchunk_chunks; [done|]. rewrite length_app. pose proof (chunks_length pieces).
  change (length final_chunk) with 5. lia.
Qed.

(** ** An exchange: a header and five bytes, the first write cut short *)

Definition demo_pipe : pipe :=
  [Arrived (str "Status: 404" ++ [LF]); ReadErr EINTR; Arrived ([LF] ++ str "hello"); Arrived []].

Definition demo0 : stream := start_event 3000 demo_pipe.
Definition demo1 : stream := default demo0 (stdout_event 3000 demo0).
Definition demo2 : stream := default demo1 (writable_event 3000 [Accept 30; Err EINTR] demo1).
Definition demo3 : stream := default demo2 (writable_event 3000 [Accept 1000] demo2).
Definition demo4 : stream := default demo3 (stdout_event 3000 demo3).
Definition demo5 : stream := default demo4 (writable_event 3000 [Accept 1000] demo4).

Lemma demo_steps : star (stream_step 3000) demo0 demo5.
Proof.
  eapply star_step; [eapply star_step; [eapply star_step; [eapply star_step; [eapply star_step;
    [apply star_refl|]|]|]|]|].
  - apply (step_stdout _ demo0 demo1); vm_compute; reflexivity.
  - apply (step_writable _ demo1 [Accept 30; Err EINTR] demo2); vm_compute; reflexivity.
  - apply (step_writable _ demo2 [Accept 1000] demo3); vm_compute; reflexivity.
  - apply (step_stdout _ demo3 demo4); vm_compute; reflexivity.
  - apply (step_writable _ demo4 [Accept 1000] demo5); vm_compute; reflexivity.
Qed.

Lemma demo_pipe_fits : header_fits [] demo_pipe.
Proof.
  pose proof cgi_sizes. unfold demo_pipe. cbn [header_fits app].
  split; [simpl; lia|]. intros _. split; [simpl; lia|]. done.
Qed.


Lemma cgi_response_decodes_witness :
  header_fits [] demo_pipe ∧ star (stream_step 3000) demo0 demo5 ∧
  ∃ hdr body enc, expected (pipe_bytes demo_pipe) = Some (hdr, body) ∧ body = str "hello" ∧
    st_wire demo5 = hdr ++ enc ∧ unchunk (length enc) enc = Some body.
Proof.
  split; [exact demo_pipe_fits|]. split; [exact demo_steps|].
  destruct (cgi_response_decodes 3000 demo_pipe demo5 demo_steps) as (_ & Hd & Hk).
  rewrite (Hk demo_pipe_fits) in Hd. destruct Hd as (hdr & body & enc & E & Hw & Hd); [vm_compute; reflexivity|].
  exists hdr, body, enc. split; [exact E|]. split; [|split; [exact Hw|exact Hd]].
  assert (snd <$> expected (pipe_bytes demo_pipe) = Some (str "hello")) as E' by (vm_compute; reflexivity).
  rewrite E in E'. exact (Some_inj _ _ E').
Defined.
