(* ===== verification/Scripts.v ===== *)
(** * What the client of a script hears (cgi.c)

    The response to a request for a script, from the side of the client: what it has at any
    moment is the beginning of a chunked response that decodes to the script's body, and a
    script that behaves is never given up, so that its response is sent to the end. *)
From S2P Require Import Prelude CString Sockets Output Cgi CgiStream.

Implicit Types (c : cgi) (p : pipe).

(** ** The response *)

Definition encodes (enc body : list Z) : Prop := unchunk (length enc) enc = Some body.

(** [w] is what a client may have of the response to the script that writes [orig], and what
    it has when the response is complete. *)
Definition heard (orig w : list Z) : Prop :=
  w = [] ∨ ∃ hdr body enc, expected orig = Some (hdr, body) ∧ encodes enc body ∧ w `prefix_of` hdr ++ enc.

Definition heard_out (orig w : list Z) : Prop :=
  ∃ hdr body enc, expected orig = Some (hdr, body) ∧ encodes enc body ∧ w = hdr ++ enc.

Lemma pieces_encode pieces : Forall piece_ok pieces → encodes (concat (chunk <$> pieces) ++ final_chunk) (concat pieces).
Proof.
  intros Hp. apply unchunk_chunks; [done|]. rewrite length_app. pose proof (chunks_length pieces).
  change (length final_chunk) with 5. lia.
Qed.

(** Any text can be sent in pieces. *)
Lemma pieces_of (l : list Z) : ∃ pieces, Forall piece_ok pieces ∧ concat pieces = l.
Proof.
  exists ((λ x, [x]) <$> l). pose proof cgi_sizes as (_ & _ & Hs). split.
  - apply Forall_fmap, Forall_true. intros x. split; simpl; lia.
  - induction l as [|x l IH]; [done|]. rewrite fmap_cons. cbn [concat]. by rewrite IH.
Qed.

Lemma inv_heard orig c w : stream_inv orig c w → heard orig w.
Proof.
  intros (_ & _ & Hs). destruct (cgi_headers_done c); [right|left; by destruct Hs].
  destruct Hs as (hdr & body & pieces & Hexp & Hok & Hw & Ho). exists hdr, body.
  assert (w `prefix_of` hdr ++ concat (chunk <$> pieces) ++ (if cgi_eof c then final_chunk else [])) as Hpre.
  { rewrite <-Hw. by eexists. }
  destruct (cgi_out c) as [p|]; destruct Ho as [<- He]; rewrite He in Hpre.
  - destruct (pieces_of (pipe_bytes p)) as (more & Hmore & Emore).
    exists (concat (chunk <$> pieces ++ more) ++ final_chunk). split; [done|]. split.
    + rewrite <-Emore, <-concat_app. apply pieces_encode. by apply Forall_app.
    + etrans; [exact Hpre|]. rewrite fmap_app, concat_app, app_nil_r, <-app_assoc. apply prefix_app. by eexists.
  - eexists. split; [done|]. split; [by apply pieces_encode|exact Hpre].
Qed.

Lemma inv_heard_out orig c w :
  stream_inv orig c w → cgi_eof c = true → cgi_pending c = [] → heard_out orig w.
Proof.
  intros Hinv He Hp. destruct (inv_complete _ _ _ Hinv He Hp) as [[_ ?]|(hdr & body & pieces & Hexp & Hok & _ & _ & Hc)]; [done|].
  destruct (Hc eq_refl) as [<- ->]. eexists hdr, _, _. split; [done|]. split; [by apply pieces_encode|done].
Qed.

Lemma heard_out_heard orig w : heard_out orig w → heard orig w.
Proof. intros (hdr & body & enc & He & Hc & ->). right. by exists hdr, body, enc. Qed.

(** ** Scripts that behave *)

(** A read delivers bytes, the end of the stream, or says to try again. *)
Definition reads (a : arrival) : Prop :=
  match a with Arrived _ => True | ReadErr e => e = EINTR ∨ e = EAGAIN end.

(** The reads up to the end of the script's header, which [buf] does not hold, fit in the
    header buffer and do not fill it. *)
Fixpoint header_room (buf : list Z) p : Prop :=
  match p with
  | [] => True
  | Arrived [] :: _ => True
  | Arrived bs :: p =>
      length (buf ++ bs) ≤ CGI_HDR_BUF ∧
      (find_header_end 0 (buf ++ bs) = None → length (buf ++ bs) < CGI_HDR_BUF ∧ header_room (buf ++ bs) p)
  | ReadErr _ :: p => header_room buf p
  end.

Lemma room_fits buf p : header_room buf p → header_fits buf p.
Proof.
  revert buf. induction p as [|[[|x l]|e] p IH]; intros buf; [done|done| |apply IH].
  cbn [header_room header_fits]. intros [Hl Hr]. split; [done|]. intros E. by apply IH, Hr.
Qed.

Record behaves p : Prop := {
  bh_size : (Z.of_nat (length (pipe_bytes p)) ≤ CGI_OUT_LIMIT)%Z;
  bh_header : is_Some (expected (pipe_bytes p));
  bh_room : header_room [] p;
  bh_reads : Forall reads p;
}.

Lemma behaves_kept p : behaves p → kept [] p = pipe_bytes p.
Proof. intros Hb. by apply kept_fits, room_fits, Hb. Qed.

(** The script of [c], which was to write [orig], behaves from here on. *)
Definition tame (orig : list Z) c : Prop :=
  cgi_out_limit c = CGI_OUT_LIMIT ∧ (Z.of_nat (length orig) ≤ CGI_OUT_LIMIT)%Z ∧ is_Some (expected orig) ∧
  ∀ p, cgi_out c = Some p →
    Forall reads p ∧ (cgi_out_total c + Z.of_nat (length (pipe_bytes p)) ≤ Z.of_nat (length orig))%Z ∧
    (cgi_headers_done c = false → header_room (cgi_hdr_buf c) p).

Lemma tame_same orig c c' : same_rest c c' → tame orig c → tame orig c'.
Proof.
  intros (_ & Eo & _ & Et & El & Ed & Eh) (Hl & Hs & He & Hp). unfold tame. rewrite Eo, Et, El, Ed, Eh. done.
Qed.

Lemma tame_closed orig c c' :
  tame orig c → cgi_out_limit c' = cgi_out_limit c → cgi_out c' = None → tame orig c'.
Proof. intros (Hl & Hs & He & _) El Eo. unfold tame. rewrite El, Eo. by split_and!. Qed.

Lemma started_tame p c : behaves p → cgi_out_limit c = CGI_OUT_LIMIT → cgi_out c = Some p →
  cgi_out_total c = 0%Z → cgi_hdr_buf c = [] → tame (kept [] p) c.
Proof.
  intros Hb. rewrite behaves_kept by done. destruct Hb as [Hs Hh Hr Hf].
  intros El Eo Et Eh. unfold tame. rewrite El, Eo, Et, Eh. split_and!; try done.
  intros p' [= <-]. split_and!; done || lia.
Qed.

(** ** Reading *)

Lemma reads_read p cap x p' : Forall reads p → read p cap = (x, p') → Forall reads p'.
Proof.
  intros Hf. unfold read. destruct p as [|[l|e] p]; intros [= <- <-]; [done|..];
    apply Forall_cons in Hf as [_ Hf]; [|done]. destruct (cap <? length l); [by constructor|done].
Qed.

Lemma room_read buf p bs p' :
  header_room buf p → read p CGI_BODY_BUF = (inl bs, p') → bs ≠ [] →
  length (buf ++ bs) ≤ CGI_HDR_BUF ∧
  (find_header_end 0 (buf ++ bs) = None → length (buf ++ bs) < CGI_HDR_BUF ∧ header_room (buf ++ bs) p').
Proof.
  unfold read. destruct p as [|[l|x] p]; [done| |done]. intros Hf [= <- <-] Hne.
  destruct l as [|x l]; [by rewrite take_nil in Hne|]. cbn [header_room] in Hf. destruct Hf as [Hl Hf].
  assert (length (x :: l) ≤ CGI_BODY_BUF) as Hle.
  { pose proof cgi_sizes. rewrite length_app in Hl. lia. }
  rewrite take_ge by done. by rewrite (proj2 (Nat.ltb_ge _ _)).
Qed.

(** A complete header is accepted when the whole output has an acceptable one. *)
Lemma finish_header_tame orig c off p :
  find_header_end 0 (cgi_hdr_buf c) = Some off → cgi_hdr_buf c ++ pipe_bytes p = orig → is_Some (expected orig) →
  ∃ c', finish_header c off = Some c' ∧ cgi_out c' = cgi_out c ∧ cgi_out_total c' = cgi_out_total c ∧
    cgi_out_limit c' = cgi_out_limit c ∧ cgi_headers_done c' = true.
Proof.
  intros Hend Horig [[hdr body] Hexp]. destruct (find_header_end_app _ _ (pipe_bytes p) _ Hend) as [Hend' Hoff].
  simpl in Hoff. unfold expected in Hexp. rewrite <-Horig, Hend', take_app_le in Hexp by lia.
  apply bind_Some in Hexp as ([status ctype] & Eparse & _).
  destruct (parse_header_range _ _ _ _ _ _ Eparse) as [Hs Hc]; [lia|unfold CGI_CONTENT_TYPE; simpl; lia|].
  destruct (build_header_some c status ctype Hs Hc) as [c1 E1].
  destruct (build_header_eq c status ctype) as [E|(c2 & E & (_ & Eo & _ & Et & El & _) & _)]; [congruence|].
  rewrite E1 in E. injection E as <-.
  eexists. split.
  - apply bind_Some. exists (status, ctype). split; [exact Eparse|]. apply bind_Some. exists c1. split; [exact E1|].
    apply bind_Some. eexists. split; [apply set_body_eq; rewrite length_take; lia|reflexivity].
  - by split_and!.
Qed.

Lemma on_bytes_tame orig c w p bytes p' :
  stream_inv orig c w → tame orig c → cgi_out c = Some p →
  read p CGI_BODY_BUF = (inl bytes, p') → bytes ≠ [] →
  match on_bytes (c <| cgi_out := Some p' |>) bytes with
  | Ready c' | MoreHeader c' => tame orig c'
  | Give_up _ => False
  end.
Proof.
  intros Hinv (Hlim & Hsize & Hexp & Hp) Ho Hread Hne.
  pose proof (read_inl _ _ _ Hread) as (Hlen & _ & _ & Hpb). specialize (Hpb Hne).
  destruct (Hp p Ho) as (Hreads & Htotal & Hroom). pose proof (reads_read _ _ _ _ Hreads Hread) as Hreads'.
  rewrite Hpb, length_app in Htotal. unfold on_bytes. cbv zeta.
  set (total := (cgi_out_total (c <| cgi_out := Some p' |>) + _)%Z).
  set (c1 := c <| cgi_out := Some p' |> <| cgi_out_total := total |>).
  assert (total + Z.of_nat (length (pipe_bytes p')) ≤ Z.of_nat (length orig))%Z as Htotal' by (unfold total; simpl; lia).
  change (cgi_out_limit c1) with (cgi_out_limit c). change (cgi_out_total c1) with total.
  rewrite (proj2 (Z.ltb_ge _ _)) by lia. change (cgi_headers_done c1) with (cgi_headers_done c).
  destruct (cgi_headers_done c) eqn:Hdone; cbn [negb].
  - rewrite set_body_eq by done. split; [done|]. split; [done|]. split; [done|]. simpl. rewrite Hdone.
    intros q [= <-]. by split_and!.
  - destruct Hinv as (_ & _ & Hs). rewrite Hdone in Hs.
    destruct Hs as (_ & _ & _ & p0 & Ho' & Horig & _). rewrite Ho in Ho'. injection Ho' as <-.
    rewrite (kept_fits _ _ (room_fits _ _ (Hroom eq_refl))) in Horig.
    destruct (room_read _ _ _ _ (Hroom eq_refl) Hread Hne) as [Hl Hmore].
    assert (take (CGI_HDR_BUF - length (cgi_hdr_buf c1)) bytes = bytes) as ->.
    { apply take_ge. rewrite length_app in Hl. simpl. lia. }
    set (c2 := c1 <| cgi_hdr_buf := cgi_hdr_buf c1 ++ bytes |>).
    change (cgi_hdr_buf c2) with (cgi_hdr_buf c ++ bytes) in *.
    destruct (find_header_end 0 (cgi_hdr_buf c ++ bytes)) as [off|] eqn:Eend.
    + destruct (finish_header_tame orig c2 off p' Eend) as (c3 & -> & Eo & Et & El & Ed); [|done|].
      { simpl. by rewrite <-app_assoc, <-Hpb. }
      unfold tame. rewrite Eo, Et, El, Ed. split; [done|]. split; [done|]. split; [done|]. intros q [= <-]. by split_and!.
    + destruct (Hmore eq_refl) as [Hlt Hroom']. rewrite (proj2 (Nat.leb_gt _ _)) by done.
      split; [done|]. split; [done|]. split; [done|]. simpl. intros q [= <-]. by split_and!.
Qed.

Lemma on_eof_tame orig c w p p' :
  stream_inv orig c w → tame orig c → cgi_out c = Some p →
  match on_eof (c <| cgi_out := Some p' |>) with
  | Ready c' => tame orig c'
  | MoreHeader _ | Give_up _ => False
  end.
Proof.
  intros Hinv Htame Ho. unfold on_eof. cbv zeta.
  set (c1 := (c <| cgi_out := Some p' |>) <| cgi_eof := true |> <| cgi_out := None |>).
  change (cgi_headers_done c1) with (cgi_headers_done c).
  assert (∀ status c0, (100 ≤ status ≤ 599)%Z → ∃ c2, build_http_header c0 status (str "text/plain") = Some c2 ∧ same_rest c0 c2) as Hbuild.
  { intros status c0 Hs. destruct (build_header_some c0 status (str "text/plain") Hs) as [c2 E].
    { unfold CGI_CONTENT_TYPE. simpl. lia. }
    exists c2. split; [done|]. destruct (build_header_eq c0 status (str "text/plain")) as [E'|(c3 & E' & ? & _)]; congruence. }
  pose proof cgi_sizes as (Hs1 & _ & Hs3). destruct (cgi_headers_done c) eqn:Hdone; cbn [negb].
  - unfold ensure_final_chunk. destruct (_ =? 0); by eapply tame_closed.
  - destruct Hinv as (_ & _ & Hs). rewrite Hdone in Hs. destruct Hs as (_ & _ & _ & _ & _ & _ & _ & Hlen).
    change (cgi_hdr_buf c1) with (cgi_hdr_buf c). destruct (0 <? length (cgi_hdr_buf c)).
    + unfold eof_with_bytes. destruct (Hbuild 200%Z c1 ltac:(lia)) as (c2 & -> & (_ & Eo & _ & _ & El & _ & Eh)).
      cbn [mbind option_bind]. rewrite Eh. change (cgi_hdr_buf c1) with (cgi_hdr_buf c).
      rewrite (proj2 (Nat.ltb_ge _ _)) by lia. rewrite set_body_eq by lia. cbn [mbind option_bind].
      by eapply tame_closed.
    + unfold eof_without_bytes. destruct (Hbuild 500%Z c1 ltac:(lia)) as (c2 & -> & (_ & Eo & _ & _ & El & _ & Eh)).
      cbn [mbind option_bind]. rewrite set_body_eq by (rewrite length_take; lia). cbn [mbind option_bind].
      by eapply tame_closed.
Qed.

(** A script that behaves is not given up. *)
Lemma stdout_loop_tame fuel timeout orig c w p c' es :
  stream_inv orig c w → tame orig c → cgi_out c = Some p →
  stdout_loop fuel timeout c = Some (c', es) → es ≠ [CloseConn] ∧ tame orig c'.
Proof.
  revert c p. induction fuel as [|fuel IH]; intros c p Hinv Htame Ho; [done|]. cbn [stdout_loop].
  pose proof Hinv as (_ & Ha & _). destruct (backpressure c) eqn:Hbp.
  { rewrite Ha, Ho. intros [= <- <-]. by split. }
  rewrite Ho. destruct (read p CGI_BODY_BUF) as [[bytes|e] p'] eqn:Hread.
  - destruct (decide (bytes = [])) as [->|Hne].
    + pose proof (on_eof_tame orig c w p p' Hinv Htame Ho) as Hr.
      destruct (on_eof _) as [c2|c2|c2]; [|done..]. intros [= <- <-]. by split.
    + assert (∀ X (a b : X), (match bytes with [] => a | _ => b end) = b) as Hm by (intros; by destruct bytes).
      rewrite Hm. pose proof (on_bytes_spec orig c w p bytes p' Hinv Ho Hbp Hread Hne) as Hr.
      pose proof (on_bytes_tame orig c w p bytes p' Hinv Htame Ho Hread Hne) as Ht.
      destruct (on_bytes _ bytes) as [c2|c2|c2]; [|destruct Hr as (Hinv' & Ho' & _); by apply (IH c2 p')|done].
      intros [= <- <-]. by split.
  - pose proof (inv_read_error orig c w p e p' Hinv Ho Hread) as Hinv'.
    assert (tame orig (c <| cgi_out := Some p' |>)) as Htame'.
    { destruct Htame as (Hl & Hs & He & Hp). destruct (Hp p Ho) as (Hf & Ht & Hr).
      destruct (read_inr _ _ _ Hread) as (Hpb & _). split; [done|]. split; [done|]. split; [done|]. simpl.
      intros q [= <-]. rewrite Hpb. split; [by eapply reads_read|]. split; [done|]. intros Hd.
      specialize (Hr Hd). unfold read in Hread. destruct p as [|[l|x] p]; [|done|]; by injection Hread as <- <-. }
    destruct (Z.eqb_spec e EINTR) as [->|Hne1]; [by apply (IH _ p')|].
    destruct (Z.eqb_spec e EAGAIN) as [->|Hne2]; [intros [= <- <-]; rewrite Ha; by split|].
    exfalso. destruct Htame as (_ & _ & _ & Hp). destruct (Hp p Ho) as (Hf & _).
    unfold read in Hread. destruct p as [|[l|x] p]; [by injection Hread as <- <-|done|].
    injection Hread as <- <-. apply Forall_cons in Hf as [Hx _]. simpl in Hx. by destruct Hx.
Qed.

(** ** Writing *)

(** A socket on which nothing fails does not end the response. *)
Lemma writable_loop_calm fuel c s rc c' es s' :
  calm s → writable_loop fuel c s = Some (rc, c', es, s') → rc ≠ (-1)%Z.
Proof.
  revert c s. induction fuel as [|fuel IH]; intros c s Hc; [done|]. rewrite writable_loop_unfold. cbv zeta.
  assert (∀ c, (writable_end c).1.1 ≠ (-1)%Z) as Hend.
  { intros c0. unfold writable_end. destruct (cgi_eof c0); [|done]. by destruct (_ <=? _). }
  destruct (cgi_iov (turn_state c)) as [[|x data]|].
  - pose proof (Hend (turn_state c)) as He. destruct (writable_end _) as [[? ?] ?]. intros [= <- <- <- <-]. exact He.
  - unfold send. unfold calm in Hc. destruct (script s) as [|[n|e] rest] eqn:Es; [by intros [= <- <- <- <-]|..];
      apply Forall_cons in Hc as [Hx Hc]; simpl in Hx.
    + destruct (Nat.ltb_spec 0 (n `min` length (x :: data))); [by apply IH|simpl in *; lia].
    + destruct Hx as [->| ->]; [by apply IH|by intros [= <- <- <- <-]].
  - pose proof (Hend (turn_state c)) as He. destruct (writable_end _) as [[? ?] ?]. intros [= <- <- <- <-]. exact He.
Qed.

(** A willing socket takes what is ready; the loop ends with the response, or waits for more
    output. *)
Lemma writable_loop_willing fuel c s rc c' es s' :
  cgi_wf c → willing s → length (cgi_pending c) ≤ length (script s) →
  writable_loop fuel c s = Some (rc, c', es, s') → rc = 0%Z ∨ rc = 2%Z.
Proof.
  revert c s. induction fuel as [|fuel IH]; intros c s Hwf Hw Hlen; [done|]. rewrite writable_loop_unfold. cbv zeta.
  destruct (turn_state_spec c Hwf) as (Hwf1 & _ & Hp1 & _ & Hfin). rewrite <-Hp1 in Hlen.
  set (c1 := turn_state c) in *. clearbody c1. pose proof (cgi_iov_spec c1 Hwf1 Hfin) as Hiov.
  destruct (cgi_iov c1) as [[|x data]|] eqn:Ei.
  - destruct Hiov as (Hnil & He & _ & Hle). specialize (Hfin Hnil He). unfold writable_end, ensure_final_chunk. rewrite He.
    destruct (Nat.eqb_spec (length (cgi_final_chunk c1)) 0) as [E|_]; [by apply length_zero_iff_nil in E|].
    rewrite (proj2 (Nat.leb_le _ _)) by done. intros [= <- <- <- <-]. by left.
  - set (d := x :: data) in *. destruct Hiov as [k Hk].
    assert (0 < length (script s)) as Hs by (rewrite Hk in Hlen; simpl in Hlen; lia).
    destruct (send_willing s d Hw) as (n & s1 & Es & Hw1 & Hl1); [done|by destruct (script s); simpl in Hs; [lia|]|].
    rewrite Es. cbn [Nat.ltb Nat.leb]. pose proof (send_inl _ _ _ _ Es) as (Hn & _ & _).
    destruct (cgi_advance_spec c1 (S n) d Hwf1 Hfin Ei Hn) as (W & _ & P). apply IH; [done|done|].
    rewrite P, length_drop. lia.
  - destruct Hiov as [_ He]. unfold writable_end. rewrite He. intros [= <- <- <- <-]. by right.
Qed.

(** ** Progress *)

(** The end of the output is still to be read. *)
Definition flows c : Prop := ∀ p, cgi_out c = Some p → Arrived [] ∈ p.

Definition left_to_read c : nat := match cgi_out c with Some p => S (pipe_size p) | None => 0 end.

Lemma read_flows p bytes p' :
  Arrived [] ∈ p → read p CGI_BODY_BUF = (inl bytes, p') → bytes ≠ [] → Arrived [] ∈ p'.
Proof.
  unfold read. destruct p as [|[l|e] p]; [done| |done]. intros Hin [= <- <-] Hne.
  assert (Arrived [] ∈ p) as Hp by (apply elem_of_cons in Hin as [[= <-]|?]; [by rewrite take_nil in Hne|done]).
  destruct (_ <? _); [by right|done].
Qed.

Lemma read_err_flows p e p' : Arrived [] ∈ p → read p CGI_BODY_BUF = (inr e, p') → Arrived [] ∈ p' ∧ pipe_size p' < pipe_size p.
Proof.
  unfold read. destruct p as [|[l|x] p]; [by intros ?%elem_of_nil|done|]. intros Hin [= <- <-].
  apply elem_of_cons in Hin as [[=]|Hin]. split; [done|simpl; lia].
Qed.

Lemma build_out c status ctype c' : build_http_header c status ctype = Some c' → cgi_out c' = cgi_out c.
Proof.
  intros E. destruct (build_header_eq c status ctype) as [E'|(c2 & E' & (_ & Eo & _) & _)]; rewrite E in E'; [done|].
  by injection E' as <-.
Qed.

Lemma set_body_out c bytes c' : set_body c bytes = Some c' → cgi_out c' = cgi_out c.
Proof. unfold set_body, prepare_chunk_prefix. repeat case_match; intros; by simplify_eq. Qed.

Lemma finish_header_out c off c' : finish_header c off = Some c' → cgi_out c' = cgi_out c.
Proof.
  unfold finish_header. intros E. apply bind_Some in E as ([status ctype] & _ & E).
  apply bind_Some in E as (c2 & E2%build_out & E). rewrite <-E2. clear E2.
  apply bind_Some in E as (c3 & E3%set_body_out & E). injection E as <-. exact E3.
Qed.

Lemma on_bytes_out c bytes : match on_bytes c bytes with Ready c' | MoreHeader c' => cgi_out c' = cgi_out c | Give_up _ => True end.
Proof.
  unfold on_bytes. cbv zeta. destruct (_ <? _)%Z; [done|]. destruct (negb _).
  - destruct (find_header_end _ _) as [off|]; [|by destruct (_ <=? _)].
    match goal with |- context [finish_header ?x off] => destruct (finish_header x off) as [c'|] eqn:E; [|done] end.
    by apply finish_header_out in E.
  - match goal with |- context [set_body ?x bytes] => destruct (set_body x bytes) as [c'|] eqn:E; [|done] end.
    by apply set_body_out in E.
Qed.

Lemma eof_with_bytes_out c c' : eof_with_bytes c = Some c' → cgi_out c' = cgi_out c.
Proof.
  unfold eof_with_bytes. intros E. apply bind_Some in E as (c2 & E2%build_out & E). rewrite <-E2. clear E2.
  apply bind_Some in E as (c3 & E3 & E). injection E as <-. change (cgi_out c3 = cgi_out c2).
  destruct (_ <? _); [apply bind_Some in E3 as (c4 & E4%build_out & E3); rewrite <-E4|]; by apply set_body_out in E3.
Qed.

Lemma eof_without_bytes_out c c' : eof_without_bytes c = Some c' → cgi_out c' = cgi_out c.
Proof.
  unfold eof_without_bytes. intros E. apply bind_Some in E as (c2 & E2%build_out & E). rewrite <-E2. clear E2.
  apply bind_Some in E as (c3 & E3%set_body_out & E). injection E as <-. exact E3.
Qed.

Lemma on_eof_out c : match on_eof c with Ready c' | MoreHeader c' => cgi_out c' = None | Give_up _ => True end.
Proof.
  unfold on_eof. cbv zeta. destruct (negb _); [|unfold ensure_final_chunk; by destruct (_ =? _)].
  match goal with |- context [if ?b then eof_with_bytes ?x else _] => destruct b; [destruct (eof_with_bytes x) eqn:E|destruct (eof_without_bytes x) eqn:E] end;
    try done; [apply eof_with_bytes_out in E|apply eof_without_bytes_out in E]; by rewrite E.
Qed.

(** Every event of the pipe reads something of an output that has an end, and the pipe is
    waited for only when nothing waits for the socket. *)
Lemma stdout_loop_moves fuel timeout orig c w p c' es :
  stream_inv orig c w → cgi_out c = Some p → backpressure c = false → Arrived [] ∈ p →
  stdout_loop fuel timeout c = Some (c', es) → es ≠ [CloseConn] →
  flows c' ∧ left_to_read c' < S (pipe_size p) ∧ (∀ t, es = [ArmCgi; AddTimer t] → backpressure c' = false).
Proof.
  revert c p. induction fuel as [|fuel IH]; intros c p Hinv Ho Hbp Hend; [done|]. cbn [stdout_loop]. rewrite Hbp, Ho.
  assert (∀ c1 p1, cgi_out c1 = Some p1 → Arrived [] ∈ p1 → pipe_size p1 < pipe_size p →
    flows c1 ∧ left_to_read c1 < S (pipe_size p)) as Hstep.
  { intros c1 p1 Ho1 Hend1 Hlt. unfold flows, left_to_read. rewrite Ho1. split; [by intros q [= <-]|lia]. }
  assert (∀ c1 p1, stream_inv orig c1 w → cgi_out c1 = Some p1 → backpressure c1 = false → Arrived [] ∈ p1 →
    pipe_size p1 < pipe_size p → stdout_loop fuel timeout c1 = Some (c', es) → es ≠ [CloseConn] →
    flows c' ∧ left_to_read c' < S (pipe_size p) ∧ (∀ t, es = [ArmCgi; AddTimer t] → backpressure c' = false)) as Hrest.
  { intros c1 p1 Hinv1 Ho1 Hbp1 Hend1 Hlt E Hes. destruct (IH c1 p1 Hinv1 Ho1 Hbp1 Hend1 E Hes) as (? & ? & ?). split_and!; try done. lia. }
  destruct (read p CGI_BODY_BUF) as [[bytes|e] p'] eqn:Hread.
  - pose proof (read_inl _ _ _ Hread) as (_ & Hlt & _). destruct (decide (bytes = [])) as [->|Hne].
    + pose proof (on_eof_out (c <| cgi_out := Some p' |>)) as Hout. pose proof (on_eof_spec _ _ _ _ _ Hinv Ho Hbp Hread) as Hr.
      destruct (on_eof _) as [c2|c2|c2]; [|done|by intros [= <- <-]]. intros [= <- <-] _.
      unfold flows, left_to_read. rewrite Hout. split; [done|]. split; [lia|done].
    + assert (∀ X (a b : X), (match bytes with [] => a | _ => b end) = b) as Hm by (intros; by destruct bytes).
      rewrite Hm. pose proof (on_bytes_out (c <| cgi_out := Some p' |>) bytes) as Hout.
      pose proof (on_bytes_spec _ _ _ _ _ _ Hinv Ho Hbp Hread Hne) as Hr. pose proof (read_flows _ _ _ Hend Hread Hne) as Hend'.
      destruct (on_bytes _ bytes) as [c2|c2|c2]; [| |by intros [= <- <-]].
      * intros [= <- <-] _. destruct (Hstep c2 p' Hout Hend' Hlt). by split_and!.
      * destruct Hr as (Hinv' & Ho' & Hbp'). by apply (Hrest c2 p').
  - destruct (read_err_flows _ _ _ Hend Hread) as [Hend' Hlt]. pose proof (inv_read_error _ _ _ _ _ _ Hinv Ho Hread) as Hinv'.
    destruct (e =? EINTR)%Z; [by apply (Hrest _ p')|]. destruct (e =? EAGAIN)%Z; [|by intros [= <- <-]].
    set (c1 := c <| cgi_out := Some p' |>) in *. assert (cgi_out c1 = Some p') as Ho1 by done.
    intros [= <- <-] _. destruct (Hstep c1 p' Ho1 Hend' Hlt). by split_and!.
Qed.

Lemma flows_same c c' : same_rest c c' → flows c → flows c' ∧ left_to_read c' = left_to_read c.
Proof. intros (_ & Eo & _). unfold flows, left_to_read. by rewrite Eo. Qed.
