(* ===== verification/Request.v ===== *)
(** * Requests (http_request.c)

    The life of a [zv_http_request_t]: initialisation, the header handlers, release.
    The fields are grouped by the component that uses them; those of the epoll items are
    left out.  [strptime] followed by [mktime] is a parameter, and so is [uninit], the
    number an uninitialised [mtime] holds. *)
From S2P Require Import Prelude CString ByteMachine HeaderPool HttpParse RequestLine HeaderBlock Sockets Output Cgi.

Record request := mk_request {
  r_parser : parser;
  r_out : output;
  r_cgi : cgi;
  keep_alive_timeout_ms : Z;
  request_timeout_ms : Z;
}.
#[export] Instance eta_request : Eta request := fun r =>
  mk_request (r_parser r) (r_out r) (r_cgi r) (keep_alive_timeout_ms r) (request_timeout_ms r).

Implicit Types (r : request) (o : out_t).

Definition ZV_DEFAULT_KEEP_ALIVE_TIMEOUT_MS : Z := 5000.
Definition ZV_DEFAULT_REQUEST_TIMEOUT_MS : Z := 5000.

Definition init_output : output := mk_output false false [] 0 None 0 None 0 0.

(** [old] is what the block of memory held; [keep_ms] and [req_ms] come from the
    configuration. *)
Definition zv_init_request_t (keep_ms req_ms : Z) (old : request) : request :=
  mk_request (init_parser (buf (r_parser old))) init_output init_cgi
    (if (0 <? keep_ms)%Z then keep_ms else ZV_DEFAULT_KEEP_ALIVE_TIMEOUT_MS)
    (if (0 <? req_ms)%Z then req_ms else ZV_DEFAULT_REQUEST_TIMEOUT_MS).

(** ** Header handlers *)

Definition zv_http_process_connection o (data : list Z) (len : nat) : out_t :=
  if strncasecmp_eq len (str "keep-alive") data then o <| o_keep_alive := true |>
  else if strncasecmp_eq len (str "close") data then o <| o_keep_alive := false |>
  else o.

Inductive header_handler := process_ignore | process_connection | process_if_modified_since.

Definition zv_http_headers_in : list (list Z * header_handler) :=
  [(str "Host", process_ignore);
   (str "Connection", process_connection);
   (str "If-Modified-Since", process_if_modified_since)].

(** The handler of the first name the key, [len] characters long, compares equal to. *)
Fixpoint find_handler (key : list Z) (len : nat) (table : list (list Z * header_handler))
    : option header_handler :=
  match table with
  | [] => None
  | (name, handler) :: table' =>
      if strncmp_eq len key name then Some handler else find_handler key len table'
  end.

Section handlers.
Context `{HeaderPool P} (strptime : list Z → option Z) (uninit : Z).

Definition zv_http_process_if_modified_since o (data : list Z) : out_t :=
  match strptime data with
  | None => o
  | Some client_time =>
      if (default uninit (mtime o) =? client_time)%Z then
        o <| modified := false |> <| status := ZV_HTTP_NOT_MODIFIED |>
      else o
  end.

Definition handle_one (bf : list Z) (h : header) o : option out_t :=
  match key_start h, key_end h, value_start h, value_end h with
  | Some ks, Some ke, Some vs, Some ve =>
      Some match find_handler (drop ks bf) (ke - ks) zv_http_headers_in with
           | None | Some process_ignore => o
           | Some process_connection => zv_http_process_connection o (drop vs bf) (ve - vs)
           | Some process_if_modified_since => zv_http_process_if_modified_since o (drop vs bf)
           end
  | _, _, _, _ => None
  end.

(** The walk over [r->list]; every header goes back to the pool. *)
Fixpoint handle_list (bf : list Z) (l : list header) o (pool : P) : option (out_t * P) :=
  match l with
  | [] => Some (o, pool)
  | h :: l' => o ← handle_one bf h o; handle_list bf l' o (hp_free pool)
  end.

(** The new parser, with an empty list. *)
Definition zv_http_handle_header (r : parser) o (pool : P) : option (parser * out_t * P) :=
  let f := rl r in
  let o := o <| o_keep_alive :=
    ((1 <? http_major f)%Z || ((http_major f =? 1)%Z && (1 <=? http_minor f)%Z)) |> in
  '(o, pool) ← handle_list (buf r) (headers (hd r)) o pool;
  Some (r <| hd := (hd r) <| headers := [] |> |>, o, pool).

(** ** Release *)

(** The headers still listed go back to the pool; the script, if it runs, is killed. *)
Definition zv_free_request_t r (pool : P) : request * P :=
  let pool := hp_free_n (length (headers (hd (r_parser r)))) pool in
  let ps := (r_parser r) <| hd := (hd (r_parser r)) <| headers := [] |> |> in
  let out := (r_out r) <| out_body := None |> <| out_file := None |> in
  let c :=
    if cgi_active (r_cgi r) then (r_cgi r) <| cgi_out := None |> <| cgi_active := false |>
    else r_cgi r in
  (r <| r_parser := ps |> <| r_out := out |> <| r_cgi := c |>, pool).

(** Closing the socket and deferring the request are the effect [CloseConn]. *)
Definition zv_http_close_conn r (pool : P) : request * P * list effect :=
  let '(r, pool) := zv_free_request_t r pool in (r, pool, [CloseConn]).
End handlers.

(** ** What the handlers decide *)

Definition name_matches (key name : list Z) : bool := bool_decide (key `prefix_of` name).

Definition value_matches (value token : list Z) : bool :=
  bool_decide (to_lower <$> value `prefix_of` to_lower <$> token).

(** What one header says of the connection.  A name or a value is recognised by any of
    its prefixes. *)
Definition connection_decision (kv : list Z * list Z) : option bool :=
  let '(key, value) := kv in
  if name_matches key (str "Host") then None
  else if name_matches key (str "Connection") then
    if value_matches value (str "keep-alive") then Some true
    else if value_matches value (str "close") then Some false
    else None
  else None.

(** The header is taken for [If-Modified-Since]. *)
Definition dated (kv : list Z * list Z) : bool :=
  negb (name_matches kv.1 (str "Host")) && negb (name_matches kv.1 (str "Connection")) &&
  name_matches kv.1 (str "If-Modified-Since").

(** The first header that says something decides, else the version. *)
Definition keep_alive_of (major minor : Z) (kvs : list (list Z * list Z)) : bool :=
  foldr (λ kv d, default d (connection_decision kv))
    ((1 <? major)%Z || ((major =? 1)%Z && (1 <=? minor)%Z)) kvs.

Lemma to_lower_zero c : to_lower c = 0%Z ↔ c = 0%Z.
Proof.
  unfold to_lower. change "A"%ch with 65%Z. change "Z"%ch with 90%Z. ztests; lia.
Qed.

(** On a value without NUL, comparing as many characters as it has tests for a prefix. *)
Lemma strncasecmp_prefix value rest token :
  Forall (λ c, c ≠ 0%Z) value →
  strncasecmp_eq (length value) token (value ++ rest) = value_matches value token.
Proof.
  intros Hv. unfold value_matches. revert token.
  induction Hv as [|c value Hc Hv IH]; intros token; cbn [length strncasecmp_eq app List.hd tl].
  { symmetry. apply bool_decide_true. apply prefix_nil. }
  destruct token as [|d token]; rewrite ?fmap_cons; cbn [List.hd tl].
  - destruct (Z.eqb_spec (to_lower 0) (to_lower c)) as [E|E].
    + change (to_lower 0) with 0%Z in E. by destruct (Hc (proj1 (to_lower_zero c) (eq_sym E))).
    + symmetry. apply bool_decide_false. by intros [k Hk].
  - destruct (Z.eqb_spec (to_lower d) (to_lower c)) as [E|E].
    + rewrite E. destruct (Z.eqb_spec (to_lower c) 0) as [E0|_]; [by destruct (Hc (proj1 (to_lower_zero c) E0))|].
      rewrite IH. apply bool_decide_ext. split; [by apply prefix_cons|by apply prefix_cons_inv_2].
    + symmetry. apply bool_decide_false. intros Hp. by apply prefix_cons_inv_1 in Hp.
Qed.

Lemma strncmp_matches key rest name :
  Forall (λ c, c ≠ 0%Z) key → strncmp_eq (length key) (key ++ rest) name = name_matches key name.
Proof.
  intros Hk. apply eq_true_iff_eq. rewrite strncmp_eq_prefix by done.
  unfold name_matches. by rewrite bool_decide_eq_true.
Qed.

(** [h] points to the key and the value [kv] in the buffer. *)
Definition header_at (bf : list Z) (h : header) (kv : list Z * list Z) : Prop :=
  ∃ ks vs t u,
    h = mk_header (Some ks) (Some (ks + length kv.1)) (Some vs) (Some (vs + length kv.2)) ∧
    drop ks bf = kv.1 ++ t ∧ drop vs bf = kv.2 ++ u.

Definition no_nul (kv : list Z * list Z) : Prop :=
  Forall (λ c, c ≠ 0%Z) kv.1 ∧ Forall (λ c, c ≠ 0%Z) kv.2.

Lemma hline_header_at bf pos h t :
  drop pos bf = print_hline h ++ t → header_at bf (hline_header pos h) (h_key h, h_value h).
Proof.
  intros Hd. unfold print_hline in Hd. rewrite <-app_assoc in Hd.
  eexists _, _, _, (crlf ++ t). split; [reflexivity|]. split; [exact Hd|].
  rewrite <-!drop_drop, Hd, drop_app_length. repeat (rewrite <-!app_assoc; simpl).
  rewrite drop_app_eq by (unfold spaces; by rewrite length_replicate). simpl.
  rewrite drop_0. by rewrite drop_app_eq by (unfold spaces; by rewrite length_replicate).
Qed.

Lemma block_headers_at hs pos f bf t kvs :
  drop pos bf = concat (print_hline <$> hs) ++ t → Forall2 (header_at bf) (headers f) kvs →
  Forall2 (header_at bf) (headers (block_fields pos hs f))
    (reverse ((λ h, (h_key h, h_value h)) <$> hs) ++ kvs).
Proof.
  revert pos f kvs. induction hs as [|h hs IH]; intros pos f kvs Hd Hf; [done|].
  rewrite fmap_cons in Hd. cbn [concat] in Hd. rewrite <-app_assoc in Hd. cbn [block_fields].
  rewrite fmap_cons, reverse_cons, <-app_assoc. apply IH.
  - by rewrite <-drop_drop, Hd, drop_app_length.
  - cbn [hline_fields headers]. constructor; [|done]. by eapply hline_header_at.
Qed.

Section handle_facts.
Context `{HeaderPool P} (strptime : list Z → option Z) (uninit : Z).

(** One of the headers names the date [d], in its value and what follows it in the buffer. *)
Definition names_date (kvs : list (list Z * list Z)) (d : Z) : Prop :=
  ∃ kv tail, kv ∈ kvs ∧ dated kv = true ∧ strptime (kv.2 ++ tail) = Some d.

(** What a handler may do besides [keep_alive]. *)
Definition same_date (kvs : list (list Z * list Z)) o o' : Prop :=
  mtime o' = mtime o ∧
  (modified o' = modified o ∧ status o' = status o ∨
   modified o' = false ∧ status o' = ZV_HTTP_NOT_MODIFIED ∧ names_date kvs (default uninit (mtime o))).

Lemma same_date_refl kvs o : same_date kvs o o.
Proof. split; auto. Qed.

Lemma names_date_weaken kvs1 kvs2 d : kvs1 ⊆ kvs2 → names_date kvs1 d → names_date kvs2 d.
Proof. intros Hs (kv & tail & Hin & Hkv). exists kv, tail. split; [by apply Hs|done]. Qed.

Lemma same_date_trans kvs1 kvs2 kvs o1 o2 o3 :
  kvs1 ⊆ kvs → kvs2 ⊆ kvs → same_date kvs1 o1 o2 → same_date kvs2 o2 o3 → same_date kvs o1 o3.
Proof.
  unfold same_date. intros S1 S2 [E1 H1] [E2 H2]. rewrite E1 in *. split; [done|].
  destruct H2 as [[-> ->]|(-> & -> & Hd)]; [|right; eauto using names_date_weaken].
  destruct H1 as [[-> ->]|(-> & -> & Hd)]; [by left|right; eauto using names_date_weaken].
Qed.

Lemma handle_one_spec bf h kv o :
  header_at bf h kv → no_nul kv →
  ∃ o', handle_one strptime uninit bf h o = Some o' ∧
    o_keep_alive o' = default (o_keep_alive o) (connection_decision kv) ∧ same_date [kv] o o'.
Proof.
  destruct kv as [k v]. intros (ks & vs & t & u & -> & Hk & Hv) [Nk Nv]. cbn [fst snd] in *.
  unfold handle_one. cbn [key_start key_end value_start value_end].
  rewrite Hk, Hv. replace (ks + length k - ks) with (length k) by lia.
  replace (vs + length v - vs) with (length v) by lia.
  eexists. split; [reflexivity|]. unfold find_handler, zv_http_headers_in, connection_decision.
  rewrite !(strncmp_matches _ _ _ Nk).
  destruct (name_matches k (str "Host")) eqn:Nhost; [split; [done|apply same_date_refl]|].
  destruct (name_matches k (str "Connection")) eqn:Nconn.
  { unfold zv_http_process_connection. rewrite !(strncasecmp_prefix _ _ _ Nv).
    destruct (value_matches v (str "keep-alive")); [split; [done|split; auto]|].
    destruct (value_matches v (str "close")); (split; [done|split; auto]). }
  destruct (name_matches k (str "If-Modified-Since")) eqn:Nsince; [|split; [done|apply same_date_refl]].
  unfold zv_http_process_if_modified_since.
  destruct (strptime (v ++ u)) as [tm|] eqn:E; [|split; [done|apply same_date_refl]].
  destruct (Z.eqb_spec (default uninit (mtime o)) tm); [|split; [done|apply same_date_refl]].
  split; [done|]. split; [done|]. right. subst tm. do 2 (split; [done|]). exists (k, v), u. split; [by left|].
  unfold dated. cbn [fst snd]. by rewrite Nhost, Nconn, Nsince.
Qed.

Lemma handle_list_spec bf l kvs o (pool : P) :
  Forall2 (header_at bf) l kvs → Forall no_nul kvs →
  ∃ o', handle_list strptime uninit bf l o pool = Some (o', hp_free_n (length l) pool) ∧
    o_keep_alive o' = fold_left (λ d kv, default d (connection_decision kv)) kvs (o_keep_alive o) ∧
    same_date kvs o o'.
Proof.
  intros Hl. revert o pool. induction Hl as [|h kv l kvs Hh _ IH]; intros o pool Hn.
  { exists o. split; [done|]. split; [done|apply same_date_refl]. }
  inversion Hn as [|? ? Hkv Hn']; subst. destruct (handle_one_spec bf h kv o Hh Hkv) as (o1 & E1 & K1 & D1).
  destruct (IH o1 (hp_free pool) Hn') as (o' & E & K & D). exists o'. cbn [handle_list].
  rewrite E1. cbn [mbind option_bind]. rewrite E. split; [done|].
  split; [by rewrite K, K1|]. eapply (same_date_trans [kv] kvs); [| |done|done]; set_solver.
Qed.

Lemma handle_header_spec (r : parser) o (pool : P) kvs :
  Forall2 (header_at (buf r)) (headers (hd r)) (reverse kvs) → Forall no_nul kvs →
  ∃ (r' : parser) o', zv_http_handle_header strptime uninit r o pool = Some (r', o', hp_free_n (length kvs) pool) ∧
    r' = r <| hd := (hd r) <| headers := [] |> |> ∧
    o_keep_alive o' = keep_alive_of (http_major (rl r)) (http_minor (rl r)) kvs ∧
    mtime o' = mtime o ∧
    (modified o' = modified o ∧ status o' = status o ∨
     modified o' = false ∧ status o' = ZV_HTTP_NOT_MODIFIED ∧ names_date kvs (default uninit (mtime o))).
Proof.
  intros Hl Hn. unfold zv_http_handle_header. set (o1 := o <| o_keep_alive := _ |>).
  destruct (handle_list_spec (buf r) _ _ o1 pool Hl) as (o' & E & K & [Dm D]).
  { by apply Forall_reverse. }
  assert (∀ d, names_date (reverse kvs) d → names_date kvs d) as Hrev.
  { intros d. apply names_date_weaken. intros kv. by rewrite elem_of_reverse. }
  rewrite E. cbn [mbind option_bind].
  assert (length (headers (hd r)) = length kvs) as ->.
  { apply Forall2_length in Hl. by rewrite length_reverse in Hl. }
  eexists _, o'. split; [reflexivity|]. split; [done|]. split; [|split; [done|naive_solver]].
  rewrite K. unfold keep_alive_of. rewrite <-fold_left_rev_right.
  rewrite rev_alt.
  change (rev_append (reverse kvs) []) with (reverse (reverse kvs)). by rewrite reverse_involutive.
Qed.

(** C28. The request's headers decide about the connection: the first header, in order of
    arrival, whose name is a prefix of [Connection] and whose value is a prefix, in any
    case, of [keep-alive] or [close] settles it, and without one the version does.  The
    list ends empty with every header given back, and the answer is 304 only when a date
    equals the number the uninitialised [mtime] happens to hold. *)
Theorem handle_header_exact (r : parser) o (pool : P) kvs :
  Forall2 (header_at (buf r)) (headers (hd r)) (reverse kvs) → Forall no_nul kvs →
  ∃ (r' : parser) o', zv_http_handle_header strptime uninit r o pool = Some (r', o', hp_free_n (length kvs) pool) ∧
    r' = r <| hd := (hd r) <| headers := [] |> |> ∧
    o_keep_alive o' = keep_alive_of (http_major (rl r)) (http_minor (rl r)) kvs ∧
    mtime o' = mtime o ∧
    (modified o' = modified o ∧ status o' = status o ∨
     modified o' = false ∧ status o' = ZV_HTTP_NOT_MODIFIED ∧
       ∃ data, strptime data = Some (default uninit (mtime o))).
Proof.
  intros Hl Hn. destruct (handle_header_spec r o pool kvs Hl Hn) as (r' & o' & E & Er & Ek & Em & Hd).
  exists r', o'. do 4 (split; [done|]). destruct Hd as [Hd|(? & ? & kv & tail & _ & _ & Hd)]; [by left|right; by eauto].
Qed.
End handle_facts.

(** ["Host: a", "Connection: close", "Conn: Keep"] on HTTP/1.1: the second decides. *)
Definition demo_hlines : list header_line :=
  [mk_hline (str "Host") 0 1 (str "a"); mk_hline (str "Connection") 0 1 (str "close");
   mk_hline (str "Conn") 0 0 (str "Keep")].

Definition demo_handled : parser :=
  let r := recv (init_parser demo_buf) (print_block demo_hlines) in
  (block_parsed r demo_hlines) <| rl := (rl r) <| http_major := 1%Z |> <| http_minor := 1%Z |> |>.

Definition demo_kvs : list (list Z * list Z) := (λ h, (h_key h, h_value h)) <$> demo_hlines.

Lemma handle_header_exact_witness :
  Forall2 (header_at (buf demo_handled)) (headers (hd demo_handled)) (reverse demo_kvs) ∧
  Forall no_nul demo_kvs ∧
  ∃ (r' : parser) o', zv_http_handle_header (P := nat) (λ _, None) 0 demo_handled zv_init_out_t 5 = Some (r', o', 8) ∧
    o_keep_alive o' = false.
Proof.
  assert (Forall2 (header_at (buf demo_handled)) (headers (hd demo_handled)) (reverse demo_kvs)) as H1.
  { rewrite <-(app_nil_r (reverse demo_kvs)). unfold demo_kvs, demo_handled. cbn [hd].
    eapply block_headers_at; [vm_compute; reflexivity|constructor]. }
  assert (Forall no_nul demo_kvs) as H2.
  { unfold demo_kvs, demo_hlines. repeat constructor; simpl; repeat constructor; done. }
  split; [exact H1|]. split; [exact H2|].
  destruct (handle_header_exact (P := nat) (λ _, None) 0 demo_handled zv_init_out_t 5 demo_kvs H1 H2)
    as (r' & o' & E & _ & K & _).
  exists r', o'. split; [rewrite E; vm_compute; reflexivity|rewrite K; vm_compute; reflexivity].
Defined.
