(* ===== verification/Http.v ===== *)
(** * Serving a connection (http.c)

    [do_request], [handle_cgi_mvp] and [do_write], composed of the parsers, the path
    mapping, the responses and the CGI handlers.  The file system, the date functions and
    the scripts are parameters; [None] from a function with fuel is a loop that does not
    end. *)
From S2P Require Import Prelude CString HeaderPool HttpParse Path Sockets Output Cgi CgiStream Request.

(** What [stat] tells. *)
Record file_stat := mk_stat {
  is_reg : bool;
  user_read : bool;
  user_exec : bool;
  st_size : nat;
  st_mtime : Z;
}.

(** A connection: the request object, what the kernel will answer on the socket in both
    directions, and the pool of header objects it shares with the others. *)
Record conn {P : Type} := mk_conn {
  c_req : request;
  c_sock : socket;
  c_in : pipe;
  c_pool : P;
}.
Arguments conn P : clear implicits.
#[export] Instance eta_conn {P} : Eta (conn P) := fun c =>
  mk_conn P (c_req c) (c_sock c) (c_in c) (c_pool c).

Definition c_parser {P} (c : conn P) : parser := r_parser (c_req c).
Definition c_out {P} (c : conn P) : output := r_out (c_req c).
Definition set_parser {P} (c : conn P) (ps : parser) : conn P :=
  c <| c_req := (c_req c) <| r_parser := ps |> |>.
Definition set_out {P} (c : conn P) (out : output) : conn P :=
  c <| c_req := (c_req c) <| r_out := out |> |>.
Definition set_cgi {P} (c : conn P) (g : cgi) : conn P :=
  c <| c_req := (c_req c) <| r_cgi := g |> |>.

(** Return codes of [handle_cgi_mvp]. *)
Definition ZV_CGI_NOT : Z := 0.
Definition ZV_CGI_RETURN : Z := 1.
Definition ZV_CGI_CLOSE : Z := 2.

(** ["%s"] with a NULL pointer, the root of a configuration that has none. *)
Definition printed (s : option (list Z)) : list Z := default (str "(null)") s.

Section http.
Context `{HeaderPool P}.
Variables (ROOT : option (list Z)) (stat : list Z → option file_stat) (open : list Z → option (list Z))
  (realpath : list Z → option (list Z)) (fmt_time : Z → list Z) (strptime : list Z → option Z)
  (uninit : Z) (malloc_ok : bool) (spawn_env : spawn)
  (script : list Z → list Z → option (list Z) → pipe).
Implicit Types c : conn P.

(** [zv_http_close_conn] *)
Definition close_conn c : conn P * list effect :=
  let '(r, pool, es) := zv_http_close_conn (c_req c) (c_pool c) in
  (c <| c_req := r |> <| c_pool := pool |>, es).

(** [prepare_error] and [try_send]; -1 if either fails. *)
Definition send_error c (cause errnum shortmsg longmsg : list Z) (keep : bool) : option (Z * conn P) :=
  let '(rc, out) := prepare_error malloc_ok (keep_alive_timeout_ms (c_req c)) (c_out c)
                      cause errnum shortmsg longmsg keep in
  if (rc <? 0)%Z then Some ((-1)%Z, set_out c out)
  else
    '(rc, out, s) ← try_send out (c_sock c);
    Some (rc, (set_out c out) <| c_sock := s |>).

(** The socket is full: the rest is sent by [do_write]. *)
Definition wait_writable c : conn P * list effect :=
  (set_out c ((c_out c) <| writing := true |>),
   [ArmConn EPOLLOUT; AddTimer (request_timeout_ms (c_req c))]).

(** An error page of [handle_cgi_mvp]. *)
Definition cgi_error c (cause errnum shortmsg longmsg : list Z) : option (Z * conn P * list effect) :=
  '(rc, c) ← send_error c cause errnum shortmsg longmsg false;
  if (rc <? 0)%Z then Some ((-1)%Z, c, [])
  else if (rc =? 1)%Z then let '(c, es) := wait_writable c in Some (ZV_CGI_RETURN, c, es)
  else Some (ZV_CGI_CLOSE, c, []).

(** [zv_http_handle_header(r, o)] *)
Definition handle_header c (o : out_t) : option (conn P * out_t) :=
  '(ps, o, pool) ← zv_http_handle_header strptime uninit (c_parser c) o (c_pool c);
  Some ((set_parser c ps) <| c_pool := pool |>, o).

(** The text after the ['?'], cut to its buffer. *)
Definition cgi_query (uri : list Z) (path_len : nat) : option (list Z) :=
  if path_len <? length uri then
    let qlen := length uri - path_len - 1 in
    if 0 <? qlen then
      let qlen := if SHORTLINE <=? qlen then SHORTLINE - 1 else qlen in
      Some (take qlen (drop (path_len + 1) uri))
    else None
  else None.

Definition bad_request : list Z := str "Bad Request".

(** From the file name on: the script must be an executable file under the root. *)
Definition cgi_run c (filename script_name : list Z) (qs : option (list Z))
    : option (Z * conn P * list effect) :=
  match stat filename with
  | Some sb =>
      if negb (is_reg sb) || negb (user_exec sb) then
        cgi_error c filename (str "404") (str "Not Found") (str "cgi not found")
      else if negb (is_path_under_root_real realpath ROOT filename) then
        cgi_error c filename (str "403") (str "Forbidden") (str "cgi path is outside docroot")
      else
        let '(rc, g, es) := zv_cgi_start spawn_env (request_timeout_ms (c_req c))
                              (script filename script_name qs) (r_cgi (c_req c)) in
        if negb (rc =? 0)%Z then
          cgi_error c (str "cgi") (str "500") (str "Internal Server Error") (str "cgi start failed")
        else Some (ZV_CGI_RETURN, set_out (set_cgi c g) ((c_out c) <| keep_alive := false |>), es)
  | None => cgi_error c filename (str "404") (str "Not Found") (str "cgi not found")
  end.

Definition handle_cgi_mvp c : option (Z * conn P * list effect) :=
  let ps := c_parser c in
  match uri_start (rl ps), uri_end (rl ps) with
  | Some us, Some ue =>
      let uri := slice us ue (buf ps) in
      let path_len := query_pos uri in
      if (path_len <? 9) || negb (strncmp_eq 9 (drop us (buf ps)) (str "/cgi-bin/")) then
        Some (ZV_CGI_NOT, c, [])
      else if negb (method (rl ps) =? ZV_HTTP_GET)%Z then
        cgi_error c (str "cgi") (str "405") (str "Method Not Allowed") (str "cgi GET only")
      else
        '(c, _) ← handle_header c zv_init_out_t;
        if SHORTLINE <=? path_len then
          cgi_error c (str "cgi uri too long") (str "400") bad_request (str "cgi uri too long")
        else
          let script_name := take path_len uri in
          match percent_decode script_name SHORTLINE with
          | None => cgi_error c (str "invalid cgi uri") (str "400") bad_request (str "invalid cgi uri")
          | Some decoded =>
              match normalize_abs_path decoded SHORTLINE with
              | None => cgi_error c (str "invalid cgi uri") (str "400") bad_request (str "invalid cgi uri")
              | Some (norm, _) =>
                  if negb (strncmp_eq 9 norm (str "/cgi-bin/")) then
                    cgi_error c (str "invalid cgi uri") (str "403") (str "Forbidden") (str "invalid cgi uri")
                  else
                    let filename := printed ROOT ++ norm in
                    if SHORTLINE <=? length filename then
                      cgi_error c (str "cgi path too long") (str "400") bad_request (str "cgi path too long")
                    else cgi_run c filename script_name (cgi_query uri path_len)
              end
          end
  | _, _ => Some (ZV_CGI_NOT, c, [])
  end.

(** How the handling of one request ends: [goto err] or [goto close], a [return] after
    the given effects, or the label [request_done] with [out->keep_alive]. *)
Inductive served := Goto_close | Returned (es : list effect) | Request_done (keep : bool).

(** After a response of the static branch: wait for the socket, or done with it. *)
Definition finish_response c (rc : Z) (keep : bool) : served * conn P :=
  if (rc <? 0)%Z then (Goto_close, c)
  else if (rc =? 1)%Z then (Request_done keep, set_out c ((c_out c) <| writing := true |>))
  else (Request_done keep, set_out c (reset_output (c_out c))).

Definition static_error c (cause errnum shortmsg longmsg : list Z) (keep : bool)
    : option (served * conn P) :=
  '(rc, c) ← send_error c cause errnum shortmsg longmsg keep;
  Some (finish_response c rc keep).

(** The static branch, once the file name and the headers are known. *)
Definition serve_file c (filename : list Z) (o : out_t) : option (served * conn P) :=
  match stat filename with
  | None =>
      static_error c filename (str "404") (str "Not Found") (str "zaver can't find the file")
        (o_keep_alive o)
  | Some sb =>
      if negb (is_path_under_root_real realpath ROOT filename) then
        static_error c filename (str "403") (str "Forbidden") (str "path is outside docroot")
          (o_keep_alive o)
      else if negb (is_reg sb) || negb (user_read sb) then
        static_error c filename (str "403") (str "Forbidden") (str "zaver can't read the file")
          (o_keep_alive o)
      else
        let o := o <| mtime := Some (st_mtime sb) |> in
        let o := if (status o =? 0)%Z then o <| status := ZV_HTTP_OK |> else o in
        let '(rc, out) := prepare_static fmt_time open (keep_alive_timeout_ms (c_req c)) (c_out c)
                            filename (st_size sb) o in
        if (rc <? 0)%Z then Some (Goto_close, set_out c out)
        else
          '(rc, out, s) ← try_send out (c_sock c);
          Some (finish_response ((set_out c out) <| c_sock := s |>) rc (o_keep_alive o))
  end.

(** A complete request, up to [request_done]. *)
Definition serve c : option (served * conn P) :=
  '(rc, c, es) ← handle_cgi_mvp c;
  if (rc <? 0)%Z then Some (Goto_close, c)
  else if (rc =? ZV_CGI_RETURN)%Z then Some (Returned es, c)
  else if (rc =? ZV_CGI_CLOSE)%Z then Some (Goto_close, c)
  else
    let ps := c_parser c in
    let uri := match uri_start (rl ps), uri_end (rl ps) with
               | Some us, Some ue => slice us ue (buf ps)
               | _, _ => []
               end in
    match parse_uri ROOT uri SHORTLINE with
    | None =>
        '(rc, c) ← send_error c (str "invalid uri") (str "400") bad_request (str "invalid uri") false;
        if (rc <? 0)%Z then Some (Goto_close, c)
        else if (rc =? 1)%Z then let '(c, es) := wait_writable c in Some (Returned es, c)
        else Some (Goto_close, set_out c (reset_output (c_out c)))
    | Some filename =>
        '(c, o) ← handle_header c zv_init_out_t;
        serve_file c filename o
    end.

(** The label [request_done]: the bytes of the next request move to the front. *)
Definition compact (ps : parser) : parser :=
  let ps :=
    if 0 <? parse_pos ps then
      let remaining := last ps - parse_pos ps in
      ps <| buf := take remaining (drop (parse_pos ps) (buf ps)) ++ drop remaining (buf ps) |>
         <| last := remaining |>
    else ps in
  ps <| parse_pos := 0 |> <| request_line_state := sw_start |> <| header_state := hd_start |>
     <| parse_phase := 0%Z |>
     <| rl := (rl ps) <| request_start := None |> <| method_end := None |> <| uri_start := None |>
                <| uri_end := None |> <| request_end := None |> |>.

(** The labels [err] and [close]. *)
Definition close_request c : conn P * list effect := close_conn (set_out c (reset_output (c_out c))).

(** After the loop: wait for more of the request, or for the next one. *)
Definition wait_readable c : conn P * list effect :=
  let ps := c_parser c in
  let tmo := if (0 <? last ps) || negb (parse_phase ps =? 0)%Z
             then request_timeout_ms (c_req c) else keep_alive_timeout_ms (c_req c) in
  (c, [ArmConn EPOLLIN; AddTimer tmo]).

(** The parsing phases: [PAgain] is [continue], [POk] goes on, [PError] is [goto err]. *)
Definition parse_headers c : option (parse_exit (conn P)) :=
  let ps := c_parser c in
  '(rc, (ps, pool)) ← (if (parse_phase ps =? 1)%Z then
                         '(rc, (ps, pool)) ← zv_http_parse_request_body ps (c_pool c);
                         Some (rc, (if (rc =? ZV_OK)%Z then ps <| parse_phase := 2%Z |> else ps, pool))
                       else Some (ZV_OK, (ps, c_pool c)));
  let c := (set_parser c ps) <| c_pool := pool |> in
  if (rc =? ZV_AGAIN)%Z then Some (PAgain c)
  else if negb (rc =? ZV_OK)%Z then Some (PError rc c)
  else Some (POk c).

Definition parse_request c : option (parse_exit (conn P)) :=
  let ps := c_parser c in
  if (parse_phase ps =? 0)%Z then
    '(rc, ps) ← zv_http_parse_request_line ps;
    if (rc =? ZV_AGAIN)%Z then Some (PAgain (set_parser c ps))
    else if negb (rc =? ZV_OK)%Z then Some (PError rc (set_parser c ps))
    else parse_headers (set_parser c (ps <| parse_phase := 1%Z |>))
  else parse_headers c.

(** The read at the head of the loop: the new connection, or how the loop ends. *)
Inductive received_input := Input c | Read_failed c | Read_blocked c.

Definition read_input c : received_input :=
  let ps := c_parser c in
  if last ps <=? parse_pos ps then
    if MAX_BUF - 1 <=? last ps then Read_failed c
    else
      let '(res, inp) := read (c_in c) (MAX_BUF - last ps - 1) in
      let c := c <| c_in := inp |> in
      match res with
      | inl [] => Read_failed c
      | inl bs => Input (set_parser c (recv ps bs))
      | inr e => if negb (e =? EAGAIN)%Z then Read_failed c else Read_blocked c
      end
  else Input c.

(** One turn of the [for (;;)] of [do_request]: go round again, or leave the function
    after the given effects. *)
Inductive turn := Continue c | Leave c (es : list effect).

Definition leave (ces : conn P * list effect) : turn := Leave ces.1 ces.2.

(** From the label [request_done] on. *)
Definition request_done c (keep : bool) : turn :=
  if last (c_parser c) <? parse_pos (c_parser c) then leave (close_request c)
  else
    let c := set_parser c (compact (c_parser c)) in
    if writing (c_out c) then
      Leave c [ArmConn EPOLLOUT; AddTimer (request_timeout_ms (c_req c))]
    else if negb keep then leave (close_request c)
    else Continue c.

Definition request_turn c : option turn :=
  match read_input c with
  | Read_failed c => Some (leave (close_request c))
  | Read_blocked c => Some (leave (wait_readable c))
  | Input c =>
      e ← parse_request c;
      match e with
      | PAgain c => Some (Continue c)
      | PError _ c => Some (leave (close_request c))
      | PFault => None
      | POk c =>
          '(res, c) ← serve c;
          Some match res with
               | Goto_close => leave (close_request c)
               | Returned es => Leave c es
               | Request_done keep => request_done c keep
               end
      end
  end.

Fixpoint request_loop (fuel : nat) c : option (conn P * list effect) :=
  match fuel with
  | O => None
  | S fuel' =>
      t ← request_turn c;
      match t with
      | Continue c => request_loop fuel' c
      | Leave c es => Some (c, es)
      end
  end.

(** Every turn of the loop uses up input. *)
Definition do_request (fuel : nat) c : option (conn P * list effect) :=
  '(c, es) ← request_loop fuel c;
  Some (c, DelTimer :: es).

(** The handlers of cgi.c close the connection through [CloseConn]. *)
Definition closes (es : list effect) : bool :=
  existsb (λ e, match e with CloseConn => true | _ => false end) es.

Definition after_handler c (es : list effect) : conn P :=
  if closes es then (close_conn c).1 else c.

Definition do_write c : option (conn P * list effect) :=
  if cgi_active (r_cgi (c_req c)) then
    '(g, es, s, _) ← do_write_cgi (request_timeout_ms (c_req c)) (r_cgi (c_req c)) (c_sock c);
    Some (after_handler ((set_cgi c g) <| c_sock := s |>) es, es)
  else
    '(rc, out, s) ← try_send (c_out c) (c_sock c);
    let c := (set_out c out) <| c_sock := s |> in
    if (rc =? 1)%Z then
      let '(c, es) := wait_writable c in Some (c, DelTimer :: es)
    else
      let c := set_out c (reset_output (c_out c)) in
      if (rc <? 0)%Z || negb (keep_alive (c_out c)) then
        let '(c, es) := close_conn c in Some (c, DelTimer :: es)
      else
        Some (c, [DelTimer; ArmConn EPOLLIN; AddTimer (keep_alive_timeout_ms (c_req c))]).

(** [zv_cgi_on_stdout_ready], on the connection. *)
Definition cgi_readable c : option (conn P * list effect) :=
  '(g, es) ← zv_cgi_on_stdout_ready (request_timeout_ms (c_req c)) (r_cgi (c_req c));
  Some (after_handler (set_cgi c g) es, es).
End http.

(** ** A concrete server *)

(** The connection of a request object just initialised: what will arrive, and what the
    socket will take. *)
Definition open_conn {P : Type} (input : pipe) (answers : list reply) (pool : P) : conn P :=
  mk_conn P
    (zv_init_request_t 0 0
       (mk_request (init_parser (replicate MAX_BUF 0%Z)) init_output init_cgi 0 0))
    (mk_socket answers []) input pool.

Definition demo_stat (f : list Z) : option file_stat :=
  if strcmp_eq f (str "./html/a.css") then Some (mk_stat true true false 6 0)
  else if strcmp_eq f (str "./html/cgi-bin/hello") then Some (mk_stat true false true 9 0)
  else None.

Definition demo_http_realpath (f : list Z) : option (list Z) :=
  if strcmp_eq f (str "./html/cgi-bin/hello") then Some (str "/srv/html/cgi-bin/hello")
  else demo_realpath f.

Definition demo_spawn : spawn := mk_spawn true true true true.

(** The server on the files above, with a pool that counts. *)
Abbreviation demo_do_request :=
  (do_request (Some demo_root) demo_stat demo_open demo_http_realpath demo_time (λ _, None) 0 true
    demo_spawn (λ _ _ _, [])).
