(* ===== verification/Serve.v ===== *)
(** * The handlers of a connection return (http.c)

    Every path of [do_request] and [do_write]: what they leave of the connection, what
    they arm, and the one input on which [do_request] does not return. *)
From S2P Require Import Prelude CString HeaderPool HttpParse RequestLine HeaderBlock Path Sockets Output Cgi CgiStream Request Http.

Section serve.
Context `{HeaderPool P}.
Variables (ROOT : option (list Z)) (stat : list Z → option file_stat) (open : list Z → option (list Z))
  (realpath : list Z → option (list Z)) (fmt_time : Z → list Z) (strptime : list Z → option Z)
  (uninit : Z) (malloc_ok : bool) (spawn_env : spawn)
  (script : list Z → list Z → option (list Z) → pipe).
Implicit Types c : conn P.

Notation serve_c := (serve ROOT stat open realpath fmt_time strptime uninit malloc_ok spawn_env script).
Notation loop := (request_loop ROOT stat open realpath fmt_time strptime uninit malloc_ok spawn_env script).

(** ** Parsers between two events *)

Record parser_ok (ps : parser) : Prop := {
  pok_wf : parser_wf ps;
  pok_set : hd_set (header_state ps) (hd ps);
  pok_phase : (parse_phase ps = 0%Z ∧ header_state ps = hd_start) ∨ parse_phase ps = 1%Z;
}.

(** The line begun in the buffer is one the parser rejects with the number that also
    means "again". *)
Definition stuck (ps : parser) : Prop :=
  parse_phase ps = 0%Z ∧ ∃ ps', request_line_exit ps = PError ZV_HTTP_PARSE_INVALID_REQUEST ps'.

(** A complete request has been parsed. *)
Record parsed_ok (ps : parser) : Prop := {
  psd_wf : parser_wf ps;
  psd_headers : Forall set_header (headers (hd ps));
  psd_state : header_state ps = hd_start;
}.

(** The steps of the parsing phases touch only the parser and the pool. *)
Definition parse_frame c c' : Prop :=
  c_in c' = c_in c ∧ c_sock c' = c_sock c ∧ c_out c' = c_out c ∧
  r_cgi (c_req c') = r_cgi (c_req c) ∧ buf (c_parser c') = buf (c_parser c) ∧
  last (c_parser c') = last (c_parser c) ∧
  keep_alive_timeout_ms (c_req c') = keep_alive_timeout_ms (c_req c) ∧
  request_timeout_ms (c_req c') = request_timeout_ms (c_req c).

Lemma parse_frame_intro c ps pool :
  buf ps = buf (c_parser c) → last ps = last (c_parser c) →
  parse_frame c ((set_parser c ps) <| c_pool := pool |>).
Proof. intros Eb El. unfold parse_frame. split_and!; done. Qed.

Lemma parse_frame_trans c1 c2 c3 : parse_frame c1 c2 → parse_frame c2 c3 → parse_frame c1 c3.
Proof.
  unfold parse_frame. intros (?&?&?&?&?&?&?&?) (?&?&?&?&?&?&?&?). split_and!; congruence.
Qed.

(** What the parsing of [c], of which bytes are left, may end with. *)
Definition parse_result c (e : option (parse_exit (conn P))) : Prop :=
  match e with
  | Some (PAgain c') =>
      parse_frame c c' ∧ hp_ok (c_pool c') ∧
      (parser_ok (c_parser c') ∧ parse_pos (c_parser c') = last (c_parser c) ∨
       stuck (c_parser c) ∧ c' = set_parser c (c_parser c') ∧ parser_ok (c_parser c') ∧
       stuck (c_parser c') ∧ parse_pos (c_parser c') = parse_pos (c_parser c))
  | Some (POk c') =>
      parse_frame c c' ∧ hp_ok (c_pool c') ∧ parsed_ok (c_parser c') ∧
      parse_pos (c_parser c) < parse_pos (c_parser c') ≤ last (c_parser c)
  | Some (PError _ c') => hp_ok (c_pool c')
  | Some PFault | None => False
  end.

Lemma parse_headers_spec c :
  parser_ok (c_parser c) → parse_phase (c_parser c) = 1%Z → hp_ok (c_pool c) →
  match parse_headers c with
  | Some (PAgain c') =>
      parse_frame c c' ∧ hp_ok (c_pool c') ∧ parser_ok (c_parser c') ∧
      parse_pos (c_parser c') = last (c_parser c)
  | Some (POk c') =>
      parse_frame c c' ∧ hp_ok (c_pool c') ∧ parsed_ok (c_parser c') ∧
      parse_pos (c_parser c) < parse_pos (c_parser c') ≤ last (c_parser c)
  | Some (PError _ c') => hp_ok (c_pool c')
  | Some PFault | None => False
  end.
Proof.
  intros [Hwf Hset _] Hph Hok. unfold parse_headers, zv_http_parse_request_body. cbv zeta.
  rewrite Hph. cbn [Z.eqb].
  pose proof (body_exit_safe _ (c_pool c) Hwf Hset Hok) as Hs.
  destruct (request_body_exit _ _) as [[ps pool]|[ps pool]|e [ps pool]|]; [| | |done];
    cbn [return_value mbind option_bind].
  - destruct Hs as (W & Eb & El & Ep & _ & Eph & S & O).
    split; [by apply parse_frame_intro|]. split; [done|]. split; [|done].
    split; [done|done|]. right. exact (eq_trans Eph Hph).
  - destruct Hs as (W & Eb & El & Ep & _ & Eph & S & F & O).
    split; [by apply parse_frame_intro|]. split; [done|]. split; [|done].
    by split; [destruct W|..].
  - destruct Hs as ([-> | ->] & O); done.
Qed.

Lemma set_parser_same c ps : c_parser (set_parser c ps) = ps.
Proof. done. Qed.

Lemma parse_request_spec c :
  parser_ok (c_parser c) → hp_ok (c_pool c) → parse_result c (parse_request c).
Proof.
  intros Hps Hok. pose proof Hps as [Hwf Hset Hph]. unfold parse_request. cbv zeta.
  destruct Hph as [[Hph Hst]|Hph]; rewrite Hph; cbn [Z.eqb].
  - unfold zv_http_parse_request_line. pose proof (line_exit_safe _ Hwf) as Hs.
    pose proof (line_exit_keeps (c_parser c)) as Hk.
    destruct (request_line_exit (c_parser c)) as [ps|ps|e ps|] eqn:E; [| | |done];
      cbn [return_value mbind option_bind].
    + destruct Hs as (W & Eb & El & Ep), Hk as (Ehd & Est & Eph). rewrite Z.eqb_refl. unfold parse_result.
      split; [by apply (parse_frame_intro c ps (c_pool c))|]. split; [done|]. left. split; [|done].
      split; [done|by rewrite set_parser_same, Est, Ehd|]. left. rewrite set_parser_same. split; congruence.
    + destruct Hs as (W & Eb & El & Ep), Hk as (Ehd & Est & Eph). change (ZV_OK =? ZV_AGAIN)%Z with false. cbn [negb Z.eqb ZV_OK].
      set (c1 := set_parser c (ps <| parse_phase := 1%Z |>)).
      assert (parse_frame c c1) as F1 by (by apply (parse_frame_intro c _ (c_pool c))).
      assert (parser_ok (c_parser c1)) as Hps1.
      { split; [by destruct W|simpl; by rewrite Est, Ehd|by right]. }
      pose proof (parse_headers_spec c1 Hps1 eq_refl Hok) as Hs.
      assert (last (c_parser c1) = last (c_parser c)) as El1 by done.
      assert (parse_pos (c_parser c) < parse_pos (c_parser c1) ≤ last (c_parser c)) as Ep1 by done.
      unfold parse_result. destruct (parse_headers c1) as [[c'|c'|e c'|]|]; try done.
      * destruct Hs as (F & O & W' & E'). split; [by eapply parse_frame_trans|]. split; [done|].
        left. split; [done|congruence].
      * destruct Hs as (F & O & W' & E'). split; [by eapply parse_frame_trans|]. split; [done|].
        split; [done|lia].
    + destruct (line_rejected_again _ _ _ Hwf E) as (W & _ & Ep & El & _ & Eagain).
      destruct Hk as (Ehd & Est & Eph). destruct Hs as [-> | ->]; [done|].
      change (ZV_HTTP_PARSE_INVALID_REQUEST =? ZV_AGAIN)%Z with true. unfold parse_result.
      split; [apply (parse_frame_intro c ps (c_pool c)); [|done]|].
      { by destruct (line_rejected_again _ _ _ Hwf E) as (_ & ? & _). }
      split; [done|]. right. rewrite set_parser_same.
      split; [split; [done|by eexists]|]. split; [done|]. split; [|split; [split; [congruence|done]|done]].
      split; [done|by rewrite Est, Ehd|]. left. split; congruence.
  - pose proof (parse_headers_spec c Hps Hph Hok) as Hs. unfold parse_result.
    destruct (parse_headers c) as [[c'|c'|e c'|]|]; try done.
    destruct Hs as (F & O & W & E). split; [done|]. split; [done|]. by left.
Qed.

(** ** Reading *)

Definition input_frame c c' : Prop :=
  c_sock c' = c_sock c ∧ c_out c' = c_out c ∧ r_cgi (c_req c') = r_cgi (c_req c) ∧
  c_pool c' = c_pool c ∧
  keep_alive_timeout_ms (c_req c') = keep_alive_timeout_ms (c_req c) ∧
  request_timeout_ms (c_req c') = request_timeout_ms (c_req c).

(** Bytes of the input that have not been parsed. *)
Definition input_left c : nat :=
  pipe_size (c_in c) + (last (c_parser c) - parse_pos (c_parser c)).

Lemma recv_parser_ok ps bs : parser_ok ps → fits ps bs → parser_ok (recv ps bs).
Proof. intros [Hwf Hset Hph] Hf. split; [by apply recv_wf|done|done]. Qed.

Lemma read_input_spec c :
  parser_ok (c_parser c) →
  match read_input c with
  | Input c' =>
      input_frame c c' ∧ parser_ok (c_parser c') ∧ input_left c' ≤ input_left c ∧
      parse_pos (c_parser c') < last (c_parser c')
  | Read_failed c' => input_frame c c'
  | Read_blocked c' => input_frame c c' ∧ c_parser c' = c_parser c
  end.
Proof.
  intros Hps. pose proof Hps as [[Hsz Hc Hl _] _ _]. unfold read_input. cbv zeta.
  destruct (Nat.leb_spec (last (c_parser c)) (parse_pos (c_parser c))) as [Hle|Hlt];
    [|by split_and!].
  destruct (Nat.leb_spec (MAX_BUF - 1) (last (c_parser c))) as [|Hroom]; [by split_and!|].
  destruct (read (c_in c) (MAX_BUF - last (c_parser c) - 1)) as [[bs|e] inp] eqn:E.
  - apply read_bytes in E as (Hlen & Hsize & Hsum); [|lia]. destruct bs as [|x bs]; [by split_and!|].
    assert (fits (c_parser c) (x :: bs)) as Hfit by (unfold fits; lia).
    split; [by split_and!|]. split; [by apply recv_parser_ok|].
    unfold input_left. simpl in *. change (c_parser (set_parser _ ?ps)) with ps. simpl. lia.
  - destruct (negb _); by split_and!.
Qed.

(** ** Serving a parsed request *)

(** Of the parser only the header list changes. *)
Definition serve_frame c c' : Prop :=
  c_in c' = c_in c ∧ hp_ok (c_pool c') ∧ parsed_ok (c_parser c') ∧
  buf (c_parser c') = buf (c_parser c) ∧ last (c_parser c') = last (c_parser c) ∧
  parse_pos (c_parser c') = parse_pos (c_parser c) ∧ rl (c_parser c') = rl (c_parser c) ∧
  keep_alive_timeout_ms (c_req c') = keep_alive_timeout_ms (c_req c) ∧
  request_timeout_ms (c_req c') = request_timeout_ms (c_req c).

Definition request_ready c : Prop := parsed_ok (c_parser c) ∧ hp_ok (c_pool c).

Lemma serve_frame_refl c : request_ready c → serve_frame c c.
Proof. intros []. unfold serve_frame. split_and!; done. Qed.

Lemma serve_frame_trans c1 c2 c3 : serve_frame c1 c2 → serve_frame c2 c3 → serve_frame c1 c3.
Proof.
  unfold serve_frame. intros (?&?&?&?&?&?&?&?&?) (?&?&?&?&?&?&?&?&?).
  split_and!; try congruence; done.
Qed.

Lemma serve_frame_ready c c' : serve_frame c c' → request_ready c'.
Proof. unfold serve_frame, request_ready. naive_solver. Qed.

(** Writing changes only the output and the socket. *)
Lemma serve_frame_out c out : request_ready c → serve_frame c (set_out c out).
Proof. intros []. unfold serve_frame. split_and!; done. Qed.

Lemma serve_frame_sent c out (s : socket) :
  request_ready c → serve_frame c ((set_out c out) <| c_sock := s |>).
Proof. intros []. unfold serve_frame. split_and!; done. Qed.

Lemma handle_list_total bf l o (pool : P) :
  Forall set_header l → hp_ok pool →
  ∃ o' pool', handle_list strptime uninit bf l o pool = Some (o', pool') ∧ hp_ok pool'.
Proof.
  intros Hl. revert o pool. induction Hl as [|h l (? & ? & ? & ?) _ IH]; intros o pool Hp; [by eauto|].
  cbn [handle_list]. unfold handle_one.
  destruct (key_start h), (key_end h), (value_start h), (value_end h); try by (destruct_and?; exfalso; eapply is_Some_None).
  cbn [mbind option_bind]. apply IH. by apply hp_free_spec.
Qed.

Lemma handle_header_total c o :
  request_ready c →
  ∃ c' o', handle_header strptime uninit c o = Some (c', o') ∧ serve_frame c c' ∧
    c_sock c' = c_sock c ∧ c_out c' = c_out c ∧ r_cgi (c_req c') = r_cgi (c_req c).
Proof.
  intros [[Hwf Hh Hst] Hp]. unfold handle_header, zv_http_handle_header. cbv zeta.
  destruct (handle_list_total (buf (c_parser c)) (headers (hd (c_parser c)))
    (o <| o_keep_alive := ((1 <? http_major (rl (c_parser c)))%Z ||
       ((http_major (rl (c_parser c)) =? 1)%Z && (1 <=? http_minor (rl (c_parser c)))%Z)) |>)
    (c_pool c) Hh Hp) as (o' & pool' & -> & Hp').
  cbn [mbind option_bind]. eexists _, _. split; [reflexivity|]. split; [|done].
  unfold serve_frame. split_and!; try done. split; [by destruct Hwf|done|done].
Qed.

(** Waiting for the socket with part of a response in hand. *)
Definition waiting c (es : list effect) : Prop :=
  es = [ArmConn EPOLLOUT; AddTimer (request_timeout_ms (c_req c))] ∧
  writing (c_out c) = true ∧ offset_ok (c_out c).

Lemma send_error_total c cause errnum shortmsg longmsg keep :
  request_ready c →
  ∃ rc c', send_error malloc_ok c cause errnum shortmsg longmsg keep = Some (rc, c') ∧
    serve_frame c c' ∧ r_cgi (c_req c') = r_cgi (c_req c) ∧ offset_ok (c_out c') ∧
    keep_alive (c_out c') = keep ∧ writing (c_out c') = false ∧ (rc = 0 ∨ rc = 1 ∨ rc = -1)%Z.
Proof.
  intros Hr. unfold send_error. unfold prepare_error. destruct malloc_ok; cbn [negb].
  2: { eexists _, _. split; [reflexivity|]. split; [by apply serve_frame_out|].
       split; [done|]. split; [|by auto]. unfold offset_ok. simpl. lia. }
  cbn [Z.ltb Z.compare].
  match goal with |- context [try_send ?x ?y] =>
    destruct (try_send_spec x y) as (rc & out' & s' & E & Ho & Hs & _ & Hrc & _) end.
  { unfold offset_ok. simpl. lia. }
  rewrite E. cbn [mbind option_bind]. destruct Hs as (Ek & Ew & _).
  eexists _, _. split; [reflexivity|]. split; [by apply serve_frame_sent|].
  split; [done|]. split; [exact Ho|]. by split_and!.
Qed.

Lemma waiting_intro c : offset_ok (c_out c) → waiting (wait_writable c).1 (wait_writable c).2.
Proof. done. Qed.

(** The outcomes of an error page of the CGI branch. *)
Definition cgi_answered c (rc : Z) c' (es : list effect) : Prop :=
  serve_frame c c' ∧ r_cgi (c_req c') = r_cgi (c_req c) ∧
  ((rc = -1)%Z ∨ rc = ZV_CGI_CLOSE ∨
   rc = ZV_CGI_RETURN ∧ waiting c' es ∧ keep_alive (c_out c') = false).

Lemma cgi_error_total c cause errnum shortmsg longmsg :
  request_ready c →
  ∃ rc c' es, cgi_error malloc_ok c cause errnum shortmsg longmsg = Some (rc, c', es) ∧
    cgi_answered c rc c' es.
Proof.
  intros Hr. unfold cgi_error.
  destruct (send_error_total c cause errnum shortmsg longmsg false Hr)
    as (rc & c1 & -> & F & Eg & Ho & Ek & _ & Hrc). cbn [mbind option_bind].
  destruct Hrc as [-> |[-> | ->]]; cbn [Z.ltb Z.eqb Z.compare Pos.eqb];
    (eexists _, _, _; split; [reflexivity|]); unfold cgi_answered; auto.
  split; [|split; [exact Eg|]].
  - eapply serve_frame_trans; [exact F|]. apply serve_frame_out. by eapply serve_frame_ready.
  - right. right. by split_and!.
Qed.

(** A script that may run: an executable file, really under the root. *)
Definition may_run (filename : list Z) : Prop :=
  is_path_under_root_real realpath ROOT filename = true ∧
  ∃ sb, stat filename = Some sb ∧ is_reg sb = true ∧ user_exec sb = true.

(** The script is running and its pipe is watched. *)
Definition cgi_started c c' (es : list effect) : Prop :=
  keep_alive (c_out c') = false ∧ c_sock c' = c_sock c ∧
  ∃ filename name qs, may_run filename ∧
    zv_cgi_start spawn_env (request_timeout_ms (c_req c)) (script filename name qs) (r_cgi (c_req c))
    = (0%Z, r_cgi (c_req c'), es).

Definition cgi_outcome c (rc : Z) c' (es : list effect) : Prop :=
  cgi_answered c rc c' es ∨ (rc = ZV_CGI_NOT ∧ c' = c ∧ es = []) ∨
  (rc = ZV_CGI_RETURN ∧ serve_frame c c' ∧ cgi_started c c' es).

Lemma cgi_error_outcome c0 c cause errnum shortmsg longmsg :
  serve_frame c0 c → r_cgi (c_req c) = r_cgi (c_req c0) →
  ∃ rc c' es, cgi_error malloc_ok c cause errnum shortmsg longmsg = Some (rc, c', es) ∧
    cgi_outcome c0 rc c' es.
Proof.
  intros F Eg. destruct (cgi_error_total c cause errnum shortmsg longmsg) as (rc & c' & es & E & F' & Eg' & Ho).
  { by eapply serve_frame_ready. }
  exists rc, c', es. split; [done|]. left. split; [by eapply serve_frame_trans|]. split; [congruence|done].
Qed.

Lemma cgi_run_total c0 c filename name qs :
  serve_frame c0 c → r_cgi (c_req c) = r_cgi (c_req c0) → c_sock c = c_sock c0 →
  ∃ rc c' es,
    cgi_run ROOT stat realpath malloc_ok spawn_env script c filename name qs = Some (rc, c', es) ∧
    cgi_outcome c0 rc c' es.
Proof.
  intros F Eg Es. unfold cgi_run. destruct (stat filename) as [sb|] eqn:Est; [|by apply cgi_error_outcome].
  destruct (is_reg sb) eqn:Ereg; cbn [negb orb]; [|by apply cgi_error_outcome].
  destruct (user_exec sb) eqn:Ex; cbn [negb]; [|by apply cgi_error_outcome].
  destruct (is_path_under_root_real realpath ROOT filename) eqn:Eroot; cbn [negb]; [|by apply cgi_error_outcome].
  destruct (zv_cgi_start _ _ _ _) as [[rc g] es] eqn:Estart.
  destruct (Z.eqb_spec rc 0) as [->|Hrc]; cbn [negb]; [|by apply cgi_error_outcome].
  eexists _, _, _. split; [reflexivity|]. right. right. split; [done|]. split.
  - eapply serve_frame_trans; [exact F|]. apply serve_frame_ready in F as [? ?].
    unfold serve_frame. split_and!; done.
  - split; [done|]. split; [done|]. exists filename, name, qs. split; [by split; eauto|].
    destruct F as (_ & _ & _ & _ & _ & _ & _ & _ & Et). by rewrite <-Et, <-Eg.
Qed.

Lemma handle_cgi_total c :
  request_ready c →
  ∃ rc c' es,
    handle_cgi_mvp ROOT stat realpath strptime uninit malloc_ok spawn_env script c = Some (rc, c', es) ∧
    cgi_outcome c rc c' es.
Proof.
  intros Hr. pose proof (serve_frame_refl c Hr) as F0. unfold handle_cgi_mvp. cbv zeta.
  assert (∃ rc c' es, Some (ZV_CGI_NOT, c, []) = Some (rc, c', es) ∧ cgi_outcome c rc c' es) as Hnot.
  { eexists _, _, _. split; [reflexivity|]. right. by left. }
  destruct (uri_start _) as [us|]; [|exact Hnot]. destruct (uri_end _) as [ue|]; [|exact Hnot].
  destruct (_ || _); [exact Hnot|]. destruct (negb _); [by apply cgi_error_outcome|].
  destruct (handle_header_total c zv_init_out_t Hr) as (c1 & o & -> & F & Es & _ & Eg).
  cbn [mbind option_bind]. destruct (SHORTLINE <=? _); [by apply cgi_error_outcome|].
  destruct (percent_decode _ _) as [decoded|]; [|by apply cgi_error_outcome].
  destruct (normalize_abs_path _ _) as [[norm t]|]; [|by apply cgi_error_outcome].
  destruct (negb _); [by apply cgi_error_outcome|].
  destruct (SHORTLINE <=? _); [by apply cgi_error_outcome|]. by apply cgi_run_total.
Qed.

(** What one request leaves, before [request_done]. *)
Definition served_ok c (res : served) c' : Prop :=
  serve_frame c c' ∧
  match res with
  | Goto_close => True
  | Returned es =>
      waiting c' es ∧ keep_alive (c_out c') = false ∧ r_cgi (c_req c') = r_cgi (c_req c) ∨
      cgi_started c c' es
  | Request_done keep =>
      keep_alive (c_out c') = keep ∧ offset_ok (c_out c') ∧ r_cgi (c_req c') = r_cgi (c_req c)
  end.

Lemma finish_response_ok c0 c rc keep :
  serve_frame c0 c → r_cgi (c_req c) = r_cgi (c_req c0) → offset_ok (c_out c) →
  keep_alive (c_out c) = keep → (rc = 0 ∨ rc = 1 ∨ rc = -1)%Z →
  served_ok c0 (finish_response c rc keep).1 (finish_response c rc keep).2.
Proof.
  intros F Eg Ho Ek Hrc. unfold finish_response.
  destruct Hrc as [-> |[-> | ->]]; cbn [Z.ltb Z.eqb Z.compare Pos.eqb fst snd]; [..|by split].
  - split; [eapply serve_frame_trans; [exact F|apply serve_frame_out; by eapply serve_frame_ready]|].
    split; [done|]. split; [|done]. unfold offset_ok. simpl. lia.
  - split; [eapply serve_frame_trans; [exact F|apply serve_frame_out; by eapply serve_frame_ready]|].
    done.
Qed.

Lemma static_error_total c0 c cause errnum shortmsg longmsg keep :
  serve_frame c0 c → r_cgi (c_req c) = r_cgi (c_req c0) →
  ∃ res c', static_error malloc_ok c cause errnum shortmsg longmsg keep = Some (res, c') ∧
    served_ok c0 res c'.
Proof.
  intros F Eg. unfold static_error.
  destruct (send_error_total c cause errnum shortmsg longmsg keep)
    as (rc & c1 & -> & F1 & Eg1 & Ho & Ek & _ & Hrc); [by eapply serve_frame_ready|].
  cbn [mbind option_bind].
  destruct (finish_response c1 rc keep) as [res c'] eqn:E. exists res, c'. split; [done|].
  pose proof (finish_response_ok c0 c1 rc keep) as Hf. rewrite E in Hf. apply Hf; try done.
  - by eapply serve_frame_trans.
  - congruence.
Qed.

Lemma prepare_static_spec ms out filename size o :
  let '(rc, out') := prepare_static fmt_time open ms out filename size o in
  (rc = 0 ∨ rc = -1)%Z ∧ offset_ok out' ∧ keep_alive out' = o_keep_alive o ∧ writing out' = false.
Proof.
  unfold prepare_static. cbv zeta. destruct (negb _); [|destruct (open filename)];
    (split; [auto|]); (split; [unfold offset_ok; simpl; lia|done]).
Qed.

Lemma serve_file_total c0 c filename o :
  serve_frame c0 c → r_cgi (c_req c) = r_cgi (c_req c0) →
  ∃ res c', serve_file ROOT stat open realpath fmt_time malloc_ok c filename o = Some (res, c') ∧
    served_ok c0 res c'.
Proof.
  intros F Eg. pose proof (serve_frame_ready _ _ F) as Hr. unfold serve_file. cbv zeta.
  destruct (stat filename) as [sb|]; [|by apply static_error_total].
  destruct (negb _); [by apply static_error_total|]. destruct (_ || _); [by apply static_error_total|].
  set (o1 := o <| mtime := Some (st_mtime sb) |>).
  set (o2 := if (status o1 =? 0)%Z then _ else _).
  pose proof (prepare_static_spec (keep_alive_timeout_ms (c_req c)) (c_out c) filename (st_size sb) o2) as Hs.
  destruct (prepare_static _ _ _ _ _ _ _) as [rc out]. destruct Hs as (Hrc & Ho & Ek & Ew).
  destruct Hrc as [-> | ->]; cbn [Z.ltb Z.compare].
  - destruct (try_send_spec out (c_sock c) Ho) as (rc & out' & s' & -> & Ho' & Hsame & _ & Hrc & _).
    cbn [mbind option_bind]. eexists _, _. split; [by rewrite <-surjective_pairing|].
    apply finish_response_ok; [|done|done| |done].
    + eapply serve_frame_trans; [exact F|]. by apply serve_frame_sent.
    + destruct Hsame as (Hk & _). exact (eq_trans Hk Ek).
  - eexists _, _. split; [reflexivity|]. split; [|done].
    eapply serve_frame_trans; [exact F|]. by apply serve_frame_out.
Qed.

Lemma serve_total c : request_ready c → ∃ res c', serve_c c = Some (res, c') ∧ served_ok c res c'.
Proof.
  intros Hr. unfold serve. destruct (handle_cgi_total c Hr) as (rc & c1 & es & -> & Hout).
  cbn [mbind option_bind].
  destruct Hout as [(F & Eg & [-> |[-> |(-> & Hw & Hk)]])|[(-> & -> & ->)|(-> & F & Hst)]];
    cbn [Z.ltb Z.eqb Z.compare Pos.eqb ZV_CGI_RETURN ZV_CGI_CLOSE ZV_CGI_NOT].
  - eexists _, _. by split; [reflexivity|split].
  - eexists _, _. by split; [reflexivity|split].
  - eexists _, _. split; [reflexivity|]. split; [done|]. left. by split_and!.
  - cbv zeta. destruct (parse_uri _ _ _) as [filename|].
    + destruct (handle_header_total c zv_init_out_t Hr) as (c1 & o & -> & F & _ & _ & Eg).
      cbn [mbind option_bind]. by apply serve_file_total.
    + destruct (send_error_total c (str "invalid uri") (str "400") bad_request (str "invalid uri") false Hr)
        as (rc & c1 & -> & F & Eg & Ho & Ek & _ & Hrc). cbn [mbind option_bind].
      pose proof (serve_frame_ready _ _ F) as Hr1.
      destruct Hrc as [-> |[-> | ->]]; cbn [Z.ltb Z.eqb Z.compare Pos.eqb];
        (eexists _, _; split; [reflexivity|]); (split; [|try done]).
      * eapply serve_frame_trans; [exact F|by apply serve_frame_out].
      * eapply serve_frame_trans; [exact F|by apply serve_frame_out].
      * left. by split_and!.
      * exact F.
  - eexists _, _. split; [reflexivity|]. split; [done|]. by right.
Qed.

(** ** The loop of [do_request] *)

Lemma compact_ok ps :
  parsed_ok ps → parser_ok (compact ps) ∧ last (compact ps) - parse_pos (compact ps) = last ps - parse_pos ps.
Proof.
  intros [[Hsz Hc Hl Hm] Hh Hst]. unfold compact. destruct (Nat.ltb_spec 0 (parse_pos ps)) as [Hp|Hp].
  - split; [|simpl; lia]. split; [split; simpl; try done; try lia|by split|by left].
    rewrite length_app, length_take, !length_drop. lia.
  - split; [|simpl; lia]. split; [split; simpl; try done; lia|by split|by left].
Qed.

(** What [do_request] leaves: a closed connection, a response to finish, a request to
    wait for, or a running script. *)
Definition request_result c c' (es : list effect) : Prop :=
  hp_ok (c_pool c') ∧
  (es = [CloseConn] ∨
   request_timeout_ms (c_req c') = request_timeout_ms (c_req c) ∧
   keep_alive_timeout_ms (c_req c') = keep_alive_timeout_ms (c_req c) ∧
   ((waiting c' es ∧ r_cgi (c_req c') = r_cgi (c_req c) ∧
       (keep_alive (c_out c') = true → parser_ok (c_parser c'))) ∨
    (parser_ok (c_parser c') ∧ r_cgi (c_req c') = r_cgi (c_req c) ∧
       ∃ t, es = [ArmConn EPOLLIN; AddTimer t] ∧
         (t = request_timeout_ms (c_req c) ∨ t = keep_alive_timeout_ms (c_req c))) ∨
    (∃ c1, r_cgi (c_req c1) = r_cgi (c_req c) ∧
       request_timeout_ms (c_req c1) = request_timeout_ms (c_req c) ∧ cgi_started c1 c' es))).

Lemma close_pool c : hp_ok (c_pool c) → hp_ok (c_pool (close_request c).1) ∧ (close_request c).2 = [CloseConn].
Proof.
  intros Hp. unfold close_request, close_conn, zv_http_close_conn, zv_free_request_t. cbv zeta.
  split; [|done]. apply hp_free_n_spec. done.
Qed.

Lemma close_result c0 c :
  hp_ok (c_pool c) → ∃ c' es, close_request c = (c', es) ∧ request_result c0 c' es.
Proof.
  intros Hp. destruct (close_pool c Hp) as [H1 H2]. destruct (close_request c) as [c' es].
  exists c', es. split; [done|]. split; [done|by left].
Qed.

(** A result for [c'] is one for [c] when the scripts and timeouts are those of [c]. *)
Lemma request_result_from c c1 c' es :
  r_cgi (c_req c1) = r_cgi (c_req c) →
  request_timeout_ms (c_req c1) = request_timeout_ms (c_req c) →
  keep_alive_timeout_ms (c_req c1) = keep_alive_timeout_ms (c_req c) →
  request_result c1 c' es → request_result c c' es.
Proof.
  intros Eg Er Ek [Hp Hres]. split; [done|]. unfold request_result in Hres.
  rewrite Eg, Er, Ek in Hres. exact Hres.
Qed.

Notation request c fuel := (do_request ROOT stat open realpath fmt_time strptime uninit malloc_ok spawn_env script fuel c).
Notation turn_c := (request_turn ROOT stat open realpath fmt_time strptime uninit malloc_ok spawn_env script).

(** The loop goes round from the first connection to the second. *)
Definition goes_round c c' : Prop := turn_c c = Some (Continue c').

(** A line that the parser rejects is at the cursor of a buffer with bytes to parse. *)
Record spinning c : Prop := {
  spin_parser : parser_ok (c_parser c);
  spin_stuck : stuck (c_parser c);
  spin_bytes : parse_pos (c_parser c) < last (c_parser c);
}.

Lemma spinning_turn c : spinning c → ∃ c', goes_round c c' ∧ spinning c'.
Proof.
  intros [Hps [Hph [ps' E]] Hlt]. pose proof Hps as [Hwf Hset Hphase].
  exists (set_parser c ps'). split.
  - unfold goes_round, request_turn, read_input. cbv zeta. rewrite (proj2 (Nat.leb_gt _ _)) by done.
    unfold parse_request, zv_http_parse_request_line. cbv zeta. by rewrite Hph, E.
  - pose proof (line_exit_keeps (c_parser c)) as Hk. rewrite E in Hk. destruct Hk as (Ehd & Est & Eph).
    destruct (line_rejected_again _ _ _ Hwf E) as (W & _ & Ep & El & _ & Eagain).
    split; rewrite set_parser_same.
    + split; [done|by rewrite Est, Ehd|]. left. split; [congruence|].
      destruct Hphase as [[_ ?]|?]; congruence.
    + split; [congruence|done].
    + congruence.
Qed.

Lemma loop_round c c' fuel : goes_round c c' → loop (S fuel) c = loop fuel c'.
Proof. intros E. cbn [request_loop]. by rewrite E. Qed.

(** More fuel changes no result. *)
Lemma loop_mono fuel fuel' c x : loop fuel c = Some x → fuel ≤ fuel' → loop fuel' c = Some x.
Proof.
  revert fuel' c. induction fuel as [|fuel IH]; intros [|fuel'] c Hl Hle; [done..|lia|].
  cbn [request_loop] in Hl |- *. destruct (turn_c c) as [[c'|c' es]|]; [|done..].
  apply IH; [exact Hl|lia].
Qed.

Lemma spinning_loop c fuel : spinning c → loop fuel c = None.
Proof.
  revert c. induction fuel as [|fuel IH]; intros c Hc; [done|].
  destruct (spinning_turn c Hc) as (c' & Hr & Hc'). rewrite (loop_round _ _ _ Hr). by apply IH.
Qed.

Lemma star_loop c c' fuel : star goes_round c c' → spinning c' → loop fuel c = None.
Proof.
  intros Hs Hc'. revert fuel. assert (∀ fuel, loop fuel c' = None) as Hf by (intros; by apply spinning_loop).
  clear Hc'. induction Hs as [|c1 c2 c3 Hs IH Hr]; [done|].
  apply IH. intros [|fuel]; [done|]. by rewrite (loop_round _ _ _ Hr).
Qed.

(** What a turn of the loop does. *)
Definition turn_outcome c (t : turn) : Prop :=
  match t with
  | Leave c' es => request_result c c' es
  | Continue c' =>
      spinning c' ∨
      (input_left c' < input_left c ∧ parser_ok (c_parser c') ∧ hp_ok (c_pool c') ∧
       r_cgi (c_req c') = r_cgi (c_req c) ∧
       request_timeout_ms (c_req c') = request_timeout_ms (c_req c) ∧
       keep_alive_timeout_ms (c_req c') = keep_alive_timeout_ms (c_req c))
  end.

Lemma turn_outcome_close c0 c : hp_ok (c_pool c) → turn_outcome c0 (leave (close_request c)).
Proof. intros Hp. destruct (close_result c0 c Hp) as (c' & es & E & Hres). unfold leave. by rewrite E. Qed.

(** From the first connection to the second the request object keeps its settings. *)
Definition same_settings c c' : Prop :=
  r_cgi (c_req c') = r_cgi (c_req c) ∧
  request_timeout_ms (c_req c') = request_timeout_ms (c_req c) ∧
  keep_alive_timeout_ms (c_req c') = keep_alive_timeout_ms (c_req c).

Lemma request_done_outcome c0 c keep :
  same_settings c0 c → parsed_ok (c_parser c) → hp_ok (c_pool c) → offset_ok (c_out c) →
  keep_alive (c_out c) = keep →
  pipe_size (c_in c) + (last (c_parser c) - parse_pos (c_parser c)) < input_left c0 →
  turn_outcome c0 (request_done c keep).
Proof.
  intros (Eg & Er & Ek) Hps Hp Ho Hkeep Hleft. pose proof Hps as [[_ Hc _ _] _ _].
  destruct (compact_ok (c_parser c) Hps) as [Hpsc Hleftc]. unfold request_done. cbv zeta.
  rewrite (proj2 (Nat.ltb_ge _ _)) by done. set (c4 := set_parser c (compact (c_parser c))).
  change (c_out c4) with (c_out c). destruct (writing (c_out c)) eqn:Ew; [|destruct keep; cbn [negb]].
  - split; [done|]. right. split; [done|]. split; [done|]. left.
    split; [|split; [done|intros _; exact Hpsc]]. split; [|done].
    by change (c_req c4) with ((c_req c) <| r_parser := compact (c_parser c) |>).
  - right. split_and!; try done. unfold input_left at 1.
    change (c_parser c4) with (compact (c_parser c)). change (c_in c4) with (c_in c). lia.
  - by apply turn_outcome_close.
Qed.

(** A complete request. *)
Lemma parsed_outcome c c1 c2 :
  input_frame c c1 → input_left c1 ≤ input_left c → parse_frame c1 c2 → hp_ok (c_pool c2) →
  parsed_ok (c_parser c2) → parse_pos (c_parser c1) < parse_pos (c_parser c2) ≤ last (c_parser c1) →
  ∃ t, (' (res, c) ← serve_c c2;
        Some match res with
             | Goto_close => leave (close_request c)
             | Returned es => Leave c es
             | Request_done keep => request_done c keep
             end) = Some t ∧ turn_outcome c t.
Proof.
  intros (_ & _ & Eg1 & _ & Eka1 & Erq1) Hleft (Ein & _ & _ & Eg2 & _ & El2 & Eka2 & Erq2) Hp2 Hps2 Hpos2.
  destruct (serve_total c2 (conj Hps2 Hp2)) as (res & c3 & -> & F3 & Hres3).
  cbn [mbind option_bind]. eexists. split; [reflexivity|].
  pose proof F3 as (Ein3 & Hp3 & Hps3 & Eb3 & El3 & Epos3 & _ & Eka3 & Erq3).
  destruct res as [|es|keep].
  - by apply turn_outcome_close.
  - split; [done|]. right. split; [congruence|]. split; [congruence|].
    destruct Hres3 as [(Hw & Hk3 & Eg3)|Hst].
    + left. split_and!; [done|congruence|congruence].
    + right. right. exists c2. split_and!; [congruence..|done].
  - destruct Hres3 as (Hk3 & Ho3 & Eg3). apply request_done_outcome; try done.
    + unfold same_settings. split_and!; congruence.
    + unfold input_left in *. rewrite Ein3, Ein. lia.
Qed.

Lemma turn_spec c :
  parser_ok (c_parser c) → hp_ok (c_pool c) → ∃ t, turn_c c = Some t ∧ turn_outcome c t.
Proof.
  intros Hps Hp. unfold request_turn.
  pose proof (read_input_spec c Hps) as Hread. destruct (read_input c) as [c1|c1|c1].
  2: { destruct Hread as (_ & _ & _ & Epool & _). eexists. split; [reflexivity|].
       apply turn_outcome_close. congruence. }
  2: { destruct Hread as [(_ & _ & Eg & Epool & Eka & Erq) Eps]. eexists. split; [reflexivity|].
       split; [simpl; congruence|]. right. split; [done|]. split; [done|]. right. left.
       split; [simpl; by rewrite Eps|]. split; [done|]. eexists. split; [reflexivity|].
       destruct (_ || _); [left|right]; done. }
  destruct Hread as (F1 & Hps1 & Hleft1 & Hlt1). pose proof F1 as (_ & _ & Eg1 & Epool1 & Eka1 & Erq1).
  pose proof (parse_request_spec c1 Hps1 ltac:(congruence)) as Hparse.
  unfold parse_result in Hparse.
  destruct (parse_request c1) as [[c2|c2|e c2|]|]; cbn [mbind option_bind]; [| | |done..].
  - destruct Hparse as ((Ein & _ & _ & Eg2 & _ & El2 & Eka2 & Erq2) & Hp2 & Hagain).
    eexists. split; [reflexivity|].
    destruct Hagain as [[Hps2 Epos]|(_ & _ & Hps2 & Hst2 & Epos)].
    + right. split_and!; try done; try congruence. unfold input_left in *. rewrite Ein. lia.
    + left. split; [done|done|lia].
  - destruct Hparse as (F2 & Hp2 & Hps2 & Hpos2). by apply (parsed_outcome c c1 c2).
  - eexists. split; [reflexivity|]. by apply turn_outcome_close.
Qed.

(** The result, or the loop without end, of what the loop has become. *)
Lemma loop_spec k c :
  input_left c < k → parser_ok (c_parser c) → hp_ok (c_pool c) →
  (∃ c' es, request_result c c' es ∧ ∀ fuel, input_left c < fuel → loop fuel c = Some (c', es)) ∨
  (∃ c', star goes_round c c' ∧ spinning c').
Proof.
  revert c. induction k as [|k IH]; intros c Hk Hps Hp; [lia|].
  destruct (turn_spec c Hps Hp) as ([c1|c' es] & E & Hout).
  - destruct Hout as [Hspin|(Hlt & Hps1 & Hp1 & Eg & Er & Ek)].
    { right. exists c1. split; [by apply star_one|done]. }
    destruct (IH c1 ltac:(lia) Hps1 Hp1) as [(c' & es & Hres & Hl)|(c' & Hs & Hspin)].
    + left. exists c', es. split; [by eapply request_result_from|].
      intros [|fuel] Hf; [lia|]. rewrite (loop_round _ _ _ E). apply Hl. lia.
    + right. exists c'. split; [|done]. eapply star_trans; [by apply star_one|done].
  - left. exists c', es. split; [done|]. intros [|fuel] Hf; [lia|]. cbn [request_loop]. by rewrite E.
Qed.

Lemma request_spins c c' fuel : star goes_round c c' → spinning c' → request c fuel = None.
Proof. intros Hs Hspin. unfold do_request. by rewrite (star_loop c c'). Qed.


(** C23. A rejected request line hangs the worker: from the moment such a line is at the
    cursor, no number of turns makes [do_request] return. *)
Theorem invalid_line_spins c c' :
  star goes_round c c' → spinning c' → ∀ fuel, request c fuel = None.
Proof. intros Hs Hspin fuel. by eapply request_spins. Qed.
End serve.

(** ** Concrete inputs *)

Lemma demo_conn_ok input answers (pool : nat) :
  parser_ok (c_parser (open_conn input answers pool)).
Proof.
  split; [|by split|by left]. apply init_parser_wf, length_replicate.
Qed.

(** ["GET /a.css HTTP/1.1\r\n\r\n"], of which the last two bytes come later. *)
Definition demo_conn : conn nat :=
  open_conn [Arrived (str "GET /a.css HTTP/1.1" ++ crlf)] [Accept 1000; Accept 1000] 5.

Lemma demo_conn_waits :
  snd <$> demo_do_request 30 demo_conn = Some [DelTimer; ArmConn EPOLLIN; AddTimer 5000].
Proof. vm_compute. reflexivity. Qed.

Lemma demo_pool_ok : hp_ok (c_pool demo_conn).
Proof. unfold hp_ok. simpl. unfold count_max. lia. Qed.

Lemma demo_input_left : input_left demo_conn < 30.
Proof. apply Nat.ltb_lt. vm_compute. reflexivity. Qed.


(** ["GET x"] *)
Definition demo_invalid : conn nat :=
  set_parser (open_conn [] [] 5) (recv (init_parser (replicate MAX_BUF 0%Z)) (str "GET x")).

Lemma demo_invalid_spins : spinning demo_invalid.
Proof.
  split.
  - split; [|by split|by left]. apply recv_wf; [|unfold fits; vm_compute; lia].
    apply init_parser_wf, length_replicate.
  - split; [done|]. eexists. vm_compute. reflexivity.
  - vm_compute. lia.
Qed.

Lemma invalid_line_spins_witness :
  spinning demo_invalid ∧ ∀ fuel, demo_do_request fuel demo_invalid = None.
Proof.
  split; [apply demo_invalid_spins|].
  exact (invalid_line_spins (Some demo_root) demo_stat demo_open demo_http_realpath demo_time (λ _, None) 0
    true demo_spawn (λ _ _ _, []) demo_invalid demo_invalid (star_refl _ _) demo_invalid_spins).
Defined.
