(* ===== verification/Confine.v ===== *)
(** * What a connection can read (http.c)

    Two servers whose files and scripts differ only outside the document root cannot be
    told apart by a client. *)
From S2P Require Import Prelude CString Path Sockets Output Cgi CgiStream Request HeaderPool HttpParse Http.

(** A regular file the server's user may read, really below the root. *)
Definition may_open (stat : list Z → option file_stat) (realpath : list Z → option (list Z))
    (ROOT : option (list Z)) (f : list Z) : Prop :=
  under_docroot realpath ROOT f ∧ ∃ sb, stat f = Some sb ∧ is_reg sb = true ∧ user_read sb = true.

(** An executable file, really below the root. *)
Definition may_exec (stat : list Z → option file_stat) (realpath : list Z → option (list Z))
    (ROOT : option (list Z)) (f : list Z) : Prop :=
  under_docroot realpath ROOT f ∧ ∃ sb, stat f = Some sb ∧ is_reg sb = true ∧ user_exec sb = true.

Section confine.
Context `{HeaderPool P}.
Variables (ROOT : option (list Z)) (stat : list Z → option file_stat) (realpath : list Z → option (list Z))
  (fmt_time : Z → list Z) (strptime : list Z → option Z) (uninit : Z) (malloc_ok : bool) (spawn_env : spawn).
Hypothesis realpath_string : ∀ p q, realpath p = Some q → Forall (λ c, c ≠ 0%Z) q.

(** The contents of the files and the output of the scripts of the two servers. *)
Variables (open1 open2 : list Z → option (list Z)) (script1 script2 : list Z → list Z → option (list Z) → pipe).
Hypothesis same_files : ∀ f, may_open stat realpath ROOT f → open1 f = open2 f.
Hypothesis same_scripts : ∀ f name qs, may_exec stat realpath ROOT f → script1 f name qs = script2 f name qs.
Implicit Types c : conn P.

Lemma cgi_run_confined c filename name qs :
  cgi_run ROOT stat realpath malloc_ok spawn_env script1 c filename name qs =
  cgi_run ROOT stat realpath malloc_ok spawn_env script2 c filename name qs.
Proof.
  unfold cgi_run. destruct (stat filename) as [sb|] eqn:Es; [|done].
  destruct (negb (is_reg sb) || negb (user_exec sb)) eqn:Eb; [done|].
  destruct (is_path_under_root_real realpath ROOT filename) eqn:Er; cbn [negb]; [|done].
  rewrite same_scripts; [done|]. split; [by apply under_root_iff|].
  apply orb_false_iff in Eb as [?%negb_false_iff ?%negb_false_iff]. eauto.
Qed.

Lemma handle_cgi_confined c :
  handle_cgi_mvp ROOT stat realpath strptime uninit malloc_ok spawn_env script1 c =
  handle_cgi_mvp ROOT stat realpath strptime uninit malloc_ok spawn_env script2 c.
Proof.
  unfold handle_cgi_mvp. cbv zeta. destruct (uri_start (rl (c_parser c))); [|reflexivity].
  destruct (uri_end (rl (c_parser c))); [|reflexivity].
  destruct (_ || _); [reflexivity|]. destruct (negb _); [reflexivity|].
  destruct (handle_header _ _ _ _) as [[c' o]|]; [|reflexivity]. cbn [mbind option_bind].
  destruct (SHORTLINE <=? _); [reflexivity|]. destruct (percent_decode _ _); [|reflexivity].
  destruct (normalize_abs_path _ _) as [[norm t]|]; [|reflexivity].
  destruct (negb _); [reflexivity|]. destruct (SHORTLINE <=? _); [reflexivity|]. apply cgi_run_confined.
Qed.

Lemma serve_file_confined c filename o :
  serve_file ROOT stat open1 realpath fmt_time malloc_ok c filename o =
  serve_file ROOT stat open2 realpath fmt_time malloc_ok c filename o.
Proof.
  unfold serve_file. cbv zeta. destruct (stat filename) as [sb|] eqn:Es; [|done].
  destruct (is_path_under_root_real realpath ROOT filename) eqn:Er; cbn [negb]; [|done].
  destruct (negb (is_reg sb) || negb (user_read sb)) eqn:Eb; [done|].
  unfold prepare_static. rewrite same_files; [done|]. split; [by apply under_root_iff|].
  apply orb_false_iff in Eb as [?%negb_false_iff ?%negb_false_iff]. eauto.
Qed.

Lemma serve_confined c :
  serve ROOT stat open1 realpath fmt_time strptime uninit malloc_ok spawn_env script1 c =
  serve ROOT stat open2 realpath fmt_time strptime uninit malloc_ok spawn_env script2 c.
Proof.
  unfold serve. rewrite handle_cgi_confined.
  destruct (handle_cgi_mvp _ _ _ _ _ _ _ _ _) as [[[rc c'] es]|]; [|done]. cbn [mbind option_bind].
  repeat (destruct (_ : bool); [done|]). cbv zeta.
  destruct (parse_uri _ _ _); [|done]. destruct (handle_header _ _ _ _) as [[c1 o]|]; [|done].
  cbn [mbind option_bind]. apply serve_file_confined.
Qed.

Lemma loop_confined fuel c :
  request_loop ROOT stat open1 realpath fmt_time strptime uninit malloc_ok spawn_env script1 fuel c =
  request_loop ROOT stat open2 realpath fmt_time strptime uninit malloc_ok spawn_env script2 fuel c.
Proof.
  revert c. induction fuel as [|fuel IH]; intros c; [done|]. cbn [request_loop].
  assert (request_turn ROOT stat open1 realpath fmt_time strptime uninit malloc_ok spawn_env script1 c =
          request_turn ROOT stat open2 realpath fmt_time strptime uninit malloc_ok spawn_env script2 c) as ->.
  { unfold request_turn. destruct (read_input c); try done.
    destruct (parse_request _) as [[]|]; try done. cbn [mbind option_bind]. by rewrite serve_confined. }
  destruct (request_turn _ _ _ _ _ _ _ _ _ _ _) as [[]|]; try done. apply IH.
Qed.

End confine.

(** C24. Confinement: no bytes from outside the document root reach a client.  What a
    connection does, all it is sent included, is the same on two servers that agree on
    the readable regular files whose real path is below the root, and on the output of
    the executable ones; links and encodings in the request cannot reach the others. *)
Theorem do_request_confined `{HeaderPool P} ROOT stat realpath (fmt_time : Z → list Z)
    (strptime : list Z → option Z) uninit malloc_ok spawn_env open1 open2 script1 script2 fuel (c : conn P) :
  (∀ p q, realpath p = Some q → Forall (λ c, c ≠ 0%Z) q) →
  (∀ f, may_open stat realpath ROOT f → open1 f = open2 f) →
  (∀ f name qs, may_exec stat realpath ROOT f → script1 f name qs = script2 f name qs) →
  do_request ROOT stat open1 realpath fmt_time strptime uninit malloc_ok spawn_env script1 fuel c =
  do_request ROOT stat open2 realpath fmt_time strptime uninit malloc_ok spawn_env script2 fuel c.
Proof. intros Hr Ho Hs. unfold do_request. by rewrite (loop_confined _ _ _ _ _ _ _ _ Hr _ _ _ _ Ho Hs). Qed.

(** ** Concrete input: a link that leaves the root *)

Definition link_stat (f : list Z) : option file_stat :=
  if strcmp_eq f (str "./html/link.txt") then Some (mk_stat true true true 6 0) else None.

Definition link_open (secret : list Z) (f : list Z) : option (list Z) :=
  if strcmp_eq f (str "./html/link.txt") then Some secret else None.

Definition link_realpath (f : list Z) : option (list Z) :=
  if strcmp_eq f (str "./html") then Some (str "/srv/html")
  else if strcmp_eq f (str "./html/link.txt") then Some (str "/srv/html2/secret")
  else None.

Lemma link_realpath_ok p q : link_realpath p = Some q → Forall (λ c, c ≠ 0%Z) q.
Proof. unfold link_realpath. repeat case_match; intros; simplify_eq; simpl; repeat constructor; lia. Qed.

Lemma link_outside f : ¬ may_open link_stat link_realpath (Some demo_root) f.
Proof.
  intros [Hu (sb & Hs & _)]. unfold link_stat in Hs.
  destruct (strcmp_eq f (str "./html/link.txt")) eqn:E; [|done]. apply strcmp_eq_true in E as ->.
  apply under_root_iff in Hu; [|apply link_realpath_ok]. by vm_compute in Hu.
Qed.

(** ["GET /link HTTP/1.1"]: whatever the file behind the link holds, the answer is the same. *)
Definition demo_link_conn : conn nat :=
  open_conn [Arrived (str "GET /link.txt HTTP/1.1" ++ crlf ++ crlf)] [Accept 1000] 5.

Lemma do_request_confined_witness :
  (∀ f, ¬ may_open link_stat link_realpath (Some demo_root) f) ∧
  ∀ secret,
  do_request (Some demo_root) link_stat (link_open secret) link_realpath demo_time (λ _, None) 0 true
    demo_spawn (λ _ _ _, []) 40 demo_link_conn =
  do_request (Some demo_root) link_stat (link_open []) link_realpath demo_time (λ _, None) 0 true
    demo_spawn (λ _ _ _, []) 40 demo_link_conn.
Proof.
  split; [apply link_outside|]. intros secret. apply do_request_confined.
  - apply link_realpath_ok.
  - intros f Hf. by apply link_outside in Hf.
  - done.
Defined.
