(* ===== verification/Pieces.v ===== *)
(** * Requests that arrive in pieces (http.c, http_parse.c)

    The parsing phases of [do_request] do not see how the kernel cuts the stream: a parse
    that asked for more goes on where it stopped, one that had its request is not changed
    by what comes after, and neither depends on the objects of the header cache.  The
    requests of the grammar of RequestLine.v and HeaderBlock.v are found wherever they start. *)
From S2P Require Import Prelude CString ByteMachine HeaderPool HttpParse RequestLine HeaderBlock Path Sockets Output Cgi CgiStream Request Http Serve.

(** ** Requests in pieces *)

Section feeding.
Context `{HeaderPool P}.
Implicit Types c : conn P.

(** The bytes [b] arrive in the buffer of the connection. *)
Definition feed c (b : list Z) : conn P := set_parser c (recv (c_parser c) b).

Lemma feed_nil c : feed c [] = c.
Proof. unfold feed. rewrite recv_nil. by destruct c as [[] ? ? ?]. Qed.

Lemma feed_feed c a b :
  length (buf (c_parser c)) = MAX_BUF → fits (c_parser c) (a ++ b) → feed (feed c a) b = feed c (a ++ b).
Proof.
  intros Hl Hf. unfold feed. rewrite set_parser_same, recv_recv by done. done.
Qed.

(** A parse after a further delivery ends with a request as one parse of everything would:
    either the parse before it asked for more, or it had the request. *)
Definition parse_continues (parse : conn P → option (parse_exit (conn P))) c (b : list Z) c2 : Prop :=
  (∃ c1, parse c = Some (PAgain c1) ∧ parse_request (feed c1 b) = Some (POk c2) ∧
     parse_frame c c1 ∧ parser_ok (c_parser c1) ∧ hp_ok (c_pool c1) ∧
     parse_pos (c_parser c1) = last (c_parser c)) ∨
  (∃ c1, parse c = Some (POk c1) ∧ c2 = feed c1 b).

(** The parsing phases in terms of the exits of the parsers. *)
Definition headers_exit c (e : parse_exit (parser * P)) : option (parse_exit (conn P)) :=
  match e with
  | PAgain (ps, pool) => Some (PAgain ((set_parser c ps) <| c_pool := pool |>))
  | POk (ps, pool) => Some (POk ((set_parser c (ps <| parse_phase := 2%Z |>)) <| c_pool := pool |>))
  | PError e (ps, pool) => Some (PError e ((set_parser c ps) <| c_pool := pool |>))
  | PFault => None
  end.

Lemma parse_headers_exit c :
  parser_ok (c_parser c) → parse_phase (c_parser c) = 1%Z → hp_ok (c_pool c) →
  parse_headers c = headers_exit c (request_body_exit (c_parser c) (c_pool c)).
Proof.
  intros [Hwf Hset _] Hph Hok. pose proof (body_exit_safe _ (c_pool c) Hwf Hset Hok) as Hs.
  unfold parse_headers, zv_http_parse_request_body. cbv zeta. rewrite Hph. cbn [Z.eqb Pos.eqb].
  destruct (request_body_exit _ _) as [[ps pool]|[ps pool]|e [ps pool]|]; [reflexivity..| |reflexivity].
  by destruct Hs as ([-> | ->] & _).
Qed.

Definition line_exit c (e : parse_exit parser) : option (parse_exit (conn P)) :=
  match e with
  | PAgain ps => Some (PAgain (set_parser c ps))
  | POk ps => parse_headers (set_parser c (ps <| parse_phase := 1%Z |>))
  | PError e ps => Some (if (e =? ZV_AGAIN)%Z then PAgain (set_parser c ps) else PError e (set_parser c ps))
  | PFault => None
  end.

Lemma parse_request_line c :
  parser_ok (c_parser c) → parse_phase (c_parser c) = 0%Z →
  parse_request c = line_exit c (request_line_exit (c_parser c)).
Proof.
  intros [Hwf _ _] Hph. pose proof (line_exit_safe _ Hwf) as Hs.
  unfold parse_request, zv_http_parse_request_line. cbv zeta. rewrite Hph. cbn [Z.eqb].
  destruct (request_line_exit _) as [ps|ps|e ps|]; [reflexivity..| |reflexivity].
  by destruct Hs as [-> | ->].
Qed.

Lemma parse_request_headers c : parse_phase (c_parser c) = 1%Z → parse_request c = parse_headers c.
Proof. intros Hph. unfold parse_request. cbv zeta. by rewrite Hph. Qed.

Lemma feed_ok c b : parser_ok (c_parser c) → fits (c_parser c) b → parser_ok (c_parser (feed c b)).
Proof. apply recv_parser_ok. Qed.

Lemma parse_headers_feed c b c2 :
  parser_ok (c_parser c) → parse_phase (c_parser c) = 1%Z → hp_ok (c_pool c) →
  fits (c_parser c) b → parse_headers (feed c b) = Some (POk c2) →
  parse_continues parse_headers c b c2.
Proof.
  intros Hps Hph Hok Hfit Hp. pose proof (parse_headers_spec c Hps Hph Hok) as Hspec.
  pose proof (request_body_feed_aux (c_parser c) (c_pool c) b (pok_wf _ Hps) Hfit) as Haux.
  unfold parse_continues. rewrite (parse_headers_exit c) in Hspec |- * by done.
  rewrite (parse_headers_exit (feed c b)) in Hp by (done || by apply feed_ok).
  change (c_parser (feed c b)) with (recv (c_parser c) b) in Hp.
  change (c_pool (feed c b)) with (c_pool c) in Hp.
  destruct (request_body_exit (recv (c_parser c) b) (c_pool c)) as [[]|[ps2 pool2]|? []|];
    cbn [headers_exit] in Hp; simplify_eq.
  destruct (request_body_exit (c_parser c) (c_pool c)) as [[ps pool]|[ps pool]|? []|] eqn:E;
    cbn [headers_exit exit_map same_body_exit] in Haux, Hspec |- *; simplify_eq.
  - left. destruct Hspec as (F & O & W & Epos). eexists. split; [reflexivity|]. split; [|done].
    match goal with |- context [feed ?x b] => set (c1 := x) in * end.
    assert (parse_phase (c_parser c1) = 1%Z) as Eph.
    { pose proof (body_exit_safe _ (c_pool c) (pok_wf _ Hps) (pok_set _ Hps) Hok) as Hs. rewrite E in Hs.
      destruct Hs as (_ & _ & _ & _ & _ & Eph & _). exact (eq_trans Eph Hph). }
    assert (fits (c_parser c1) b) as Hfit1 by (destruct F as (_ & _ & _ & _ & _ & El & _); unfold fits; by rewrite El).
    rewrite parse_request_headers, parse_headers_exit by (done || by apply feed_ok).
    change (c_parser (feed c1 b)) with (recv ps b). change (c_pool (feed c1 b)) with pool.
    by rewrite <-Haux.
  - right. eexists. by split; [reflexivity|].
Qed.

Lemma parse_request_feed c b c2 :
  parser_ok (c_parser c) → hp_ok (c_pool c) → fits (c_parser c) b →
  parse_request (feed c b) = Some (POk c2) → parse_continues parse_request c b c2.
Proof.
  intros Hps Hok Hfit Hp. destruct (pok_phase _ Hps) as [[Hph _]|Hph].
  2: { rewrite parse_request_headers in Hp by done. unfold parse_continues.
       rewrite parse_request_headers by done. by apply parse_headers_feed. }
  pose proof (line_exit_safe _ (pok_wf _ Hps)) as Hs. pose proof (line_exit_keeps (c_parser c)) as Hk.
  pose proof (request_line_feed_aux (c_parser c) b (pok_wf _ Hps) Hfit) as Haux.
  rewrite parse_request_line in Hp by (done || by apply feed_ok).
  change (c_parser (feed c b)) with (recv (c_parser c) b) in Hp.
  destruct (request_line_exit (recv (c_parser c) b)) as [|ps2|e|] eqn:E2; cbn [line_exit] in Hp;
    [done| |by destruct (e =? ZV_AGAIN)%Z|done].
  unfold parse_continues. rewrite (parse_request_line c) by done.
  destruct (request_line_exit (c_parser c)) as [ps|ps|? ?|] eqn:E;
    cbn [line_exit exit_map same_line_exit] in Haux |- *; simplify_eq.
  - left. destruct Hs as (W & Eb & El & Ep), Hk as (Ehd & Est & Eph).
    assert (parser_ok ps) as Hps1.
    { destruct Hps as [? ? Hphase]. split; [done|by rewrite Est, Ehd|]. by rewrite Eph, Est. }
    eexists. split; [reflexivity|]. split; [|split_and!; try done; by apply (parse_frame_intro c ps (c_pool c))].
    rewrite parse_request_line; [|apply feed_ok; [done|unfold fits; by rewrite set_parser_same, El]|exact (eq_trans Eph Hph)].
    change (c_parser (feed (set_parser c ps) b)) with (recv ps b). by rewrite <-Haux.
  - destruct Hs as (W & Eb & El & Ep), Hk as (Ehd & Est & Eph).
    set (c1 := set_parser c (ps <| parse_phase := 1%Z |>)).
    assert (parser_ok (c_parser c1)) as Hps1.
    { destruct Hps as [? ? ?]. split; [by destruct W|simpl; by rewrite Est, Ehd|by right]. }
    destruct (parse_headers_feed c1 b c2) as [(c3 & E3 & Hp3 & F & O3 & P3 & L3)|(c3 & E3 & ->)]; try done.
    + unfold fits in *. change (last (c_parser c1)) with (last ps). by rewrite El.
    + left. exists c3. split; [done|]. split; [done|]. split; [|split_and!; try done].
      * eapply parse_frame_trans; [|exact F]. by apply (parse_frame_intro c _ (c_pool c)).
      * exact (eq_trans L3 El).
    + right. by exists c3.
Qed.
(** A request that is complete is not changed by what arrives after it. *)
Lemma parse_headers_stable c b c1 :
  parser_ok (c_parser c) → parse_phase (c_parser c) = 1%Z → hp_ok (c_pool c) → fits (c_parser c) b →
  parse_headers c = Some (POk c1) → parse_headers (feed c b) = Some (POk (feed c1 b)).
Proof.
  intros Hps Hph Hok Hfit Hp. pose proof (request_body_feed_aux (c_parser c) (c_pool c) b (pok_wf _ Hps) Hfit) as Haux.
  rewrite parse_headers_exit in Hp |- * by (done || by apply feed_ok).
  change (c_parser (feed c b)) with (recv (c_parser c) b). change (c_pool (feed c b)) with (c_pool c).
  destruct (request_body_exit (c_parser c) (c_pool c)) as [[]|[ps pool]|? []|]; cbn [headers_exit] in Hp; simplify_eq.
  cbn [exit_map] in Haux. destruct (request_body_exit (recv (c_parser c) b) (c_pool c)) as [[]|[ps2 pool2]|? []|];
    cbn [same_body_exit] in Haux; try discriminate Haux. by injection Haux as -> ->.
Qed.

Lemma parse_request_stable c b c1 :
  parser_ok (c_parser c) → hp_ok (c_pool c) → fits (c_parser c) b →
  parse_request c = Some (POk c1) → parse_request (feed c b) = Some (POk (feed c1 b)).
Proof.
  intros Hps Hok Hfit Hp. destruct (pok_phase _ Hps) as [[Hph _]|Hph].
  2: { rewrite parse_request_headers in Hp |- * by done. by apply parse_headers_stable. }
  pose proof (line_exit_safe _ (pok_wf _ Hps)) as Hs. pose proof (line_exit_keeps (c_parser c)) as Hk.
  pose proof (request_line_feed_aux (c_parser c) b (pok_wf _ Hps) Hfit) as Haux.
  rewrite parse_request_line in Hp |- * by (done || by apply feed_ok).
  change (c_parser (feed c b)) with (recv (c_parser c) b).
  destruct (request_line_exit (c_parser c)) as [|ps|e|]; cbn [line_exit] in Hp;
    [done| |by destruct (e =? ZV_AGAIN)%Z|done].
  cbn [exit_map] in Haux. destruct (request_line_exit (recv (c_parser c) b)) as [|ps2|? ?|];
    cbn [same_line_exit] in Haux; try discriminate Haux. injection Haux as ->. cbn [line_exit].
  destruct Hs as (W & Eb & El & Ep), Hk as (Ehd & Est & Eph).
  change (set_parser (feed c b) ((recv ps b) <| parse_phase := 1%Z |>)) with (feed (set_parser c (ps <| parse_phase := 1%Z |>)) b).
  apply parse_headers_stable; try done.
  - destruct Hps as [? ? ?]. split; [by destruct W|simpl; by rewrite Est, Ehd|by right].
  - unfold fits in *. change (last (c_parser (set_parser c (ps <| parse_phase := 1%Z |>)))) with (last ps). by rewrite El.
Qed.
End feeding.

(** ** Requests of the grammar *)

Record get_request := mk_get { g_line : request_line; g_headers : list header_line }.

Definition print_get (g : get_request) : list Z := print_line (g_line g) ++ print_block (g_headers g).

Definition g_kvs (g : get_request) : list (list Z * list Z) := (λ h, (h_key h, h_value h)) <$> g_headers g.

Definition g_keep (g : get_request) : bool :=
  keep_alive_of (version_value (l_major (g_line g))) (version_value (l_minor (g_line g))) (g_kvs g).

(** A URI that [handle_cgi_mvp] takes for a script. *)
Definition for_script (uri : list Z) : Prop := str "/cgi-bin/" `prefix_of` uri.
#[export] Instance for_script_dec uri : Decision (for_script uri).
Proof. unfold for_script. apply _. Defined.

(** A method that leaves its mark in the request object: an unknown one of three or four
    letters is taken for that of the request before. *)
Definition known_method (m : list Z) : Prop :=
  m = str "GET" ∨ m = str "POST" ∨ m = str "HEAD" ∨ length m ≠ 3 ∧ length m ≠ 4.

(** A well-formed request. *)
Record get_ok (g : get_request) : Prop := {
  gok_line : line_ok (g_line g);
  gok_headers : block_ok (g_headers g);
  gok_no_nul : Forall no_nul (g_kvs g);
  gok_method : for_script (l_uri (g_line g)) → known_method (l_method (g_line g));
}.

Lemma known_method_get old m :
  known_method m → (method_of old m =? ZV_HTTP_GET)%Z = strcmp_eq m (str "GET").
Proof.
  unfold method_of. intros [->|[->|[->|[H3 H4]]]]; [reflexivity..|].
  assert (∀ w, length w = 3 ∨ length w = 4 → strcmp_eq m w = false) as Hne.
  { intros w Hw. apply not_true_iff_false. rewrite strcmp_eq_true. intros ->. lia. }
  rewrite !Hne by (simpl; auto). by rewrite (proj2 (Nat.eqb_neq _ _) H3), (proj2 (Nat.eqb_neq _ _) H4).
Qed.

Lemma print_get_pos g : 0 < length (print_get g).
Proof. unfold print_get. rewrite length_app. pose proof (print_block_pos (g_headers g)). lia. Qed.

(** Between two requests. *)
Record fresh (ps : parser) : Prop := {
  fr_ok : parser_ok ps;
  fr_line : request_line_state ps = sw_start;
  fr_header : header_state ps = hd_start;
  fr_phase : parse_phase ps = 0%Z;
  fr_headers : headers (hd ps) = [];
}.

(** The cursors of a header lie before position [n]. *)
Definition header_below (n : nat) (h : header) : Prop :=
  ∃ ke ve, key_end h = Some ke ∧ value_end h = Some ve ∧ ke ≤ n ∧ ve ≤ n.

Lemma block_headers_below hs pos f n :
  pos + length (concat (print_hline <$> hs)) ≤ n → Forall (header_below n) (headers f) →
  Forall (header_below n) (headers (block_fields pos hs f)).
Proof.
  revert pos f. induction hs as [|h hs IH]; intros pos f Hn Hf; [done|].
  rewrite fmap_cons in Hn. cbn [concat] in Hn. rewrite length_app in Hn. cbn [block_fields].
  apply IH; [lia|]. cbn [hline_fields headers]. constructor; [|done].
  eexists _, _. split; [reflexivity|]. split; [reflexivity|]. unfold print_hline in Hn.
  repeat (rewrite ?length_app in Hn; cbn [length] in Hn). unfold spaces in Hn. rewrite !length_replicate in Hn.
  split; lia.
Qed.

(** The parser holds the request [g]. *)
Record holds (g : get_request) (ps : parser) : Prop := {
  hld_parsed : parsed_ok ps;
  hld_uri : ∃ us ue, uri_start (rl ps) = Some us ∧ uri_end (rl ps) = Some ue ∧ ue ≤ parse_pos ps ∧
    slice us ue (buf ps) = l_uri (g_line g) ∧ ue = us + length (l_uri (g_line g));
  hld_major : http_major (rl ps) = version_value (l_major (g_line g));
  hld_minor : http_minor (rl ps) = version_value (l_minor (g_line g));
  hld_method : for_script (l_uri (g_line g)) → (method (rl ps) =? ZV_HTTP_GET)%Z = strcmp_eq (l_method (g_line g)) (str "GET");
  hld_headers : Forall2 (header_at (buf ps)) (headers (hd ps)) (reverse (g_kvs g));
  hld_below : Forall (header_below (parse_pos ps)) (headers (hd ps));
}.

(** A text found in the buffer after a delivery, before the place of the delivery, was
    there before it. *)
Lemma recv_slice ps b i j :
  length (buf ps) = MAX_BUF → last ps < MAX_BUF → j ≤ last ps → slice i j (buf (recv ps b)) = slice i j (buf ps).
Proof.
  intros Hl Hlt Hj. unfold slice, recv. simpl. destruct (decide (i ≤ j)).
  - rewrite drop_app_le by (rewrite length_take; lia).
    rewrite take_app_le by (rewrite length_drop, length_take; lia).
    rewrite !take_drop_commute, take_take. do 2 f_equal. lia.
  - by replace (j - i) with 0 by lia.
Qed.

Lemma text_at_slice i k (bf : list Z) t : drop i bf = k ++ t → slice i (i + length k) bf = k.
Proof. intros Hd. by eapply slice_of_drop. Qed.

Lemma slice_text_at i k (bf : list Z) : slice i (i + length k) bf = k → drop i bf = k ++ drop (i + length k) bf.
Proof.
  intros Hs. unfold slice in Hs. replace (i + length k - i) with (length k) in Hs by lia.
  rewrite <-drop_drop, <-(take_drop (length k) (drop i bf)) at 1. by rewrite Hs.
Qed.

Lemma recv_header_at ps b h kv :
  length (buf ps) = MAX_BUF → last ps < MAX_BUF → header_below (last ps) h →
  header_at (buf (recv ps b)) h kv ↔ header_at (buf ps) h kv.
Proof.
  intros Hl Hlt (ke & ve & Eke & Eve & Hke & Hve).
  split; intros (ks & vs & t & u & -> & Hk & Hv); simpl in Eke, Eve; simplify_eq; apply text_at_slice in Hk, Hv;
    [rewrite recv_slice in Hk, Hv by done|rewrite <-(recv_slice ps b) in Hk, Hv by done];
    eexists ks, vs, _, _; (split; [reflexivity|]); split; by apply slice_text_at.
Qed.

Lemma holds_recv g ps b : parsed_ok ps → fits ps b → holds g (recv ps b) ↔ holds g ps.
Proof.
  intros Hps Hfit. pose proof Hps as [[Hsz Hc Hl Hm] Hhd Hst].
  assert (∀ hs, Forall (header_below (parse_pos ps)) hs →
    Forall2 (header_at (buf (recv ps b))) hs (reverse (g_kvs g)) ↔ Forall2 (header_at (buf ps)) hs (reverse (g_kvs g))) as Hall.
  { intros hs. generalize (reverse (g_kvs g)). induction hs as [|h hs IH]; intros kvs Hb; [by destruct kvs; split; inversion 1|].
    apply Forall_cons in Hb as [(ke & ve & ? & ? & ? & ?) Hb]. destruct kvs as [|kv kvs]; [by split; inversion 1|].
    rewrite !Forall2_cons, IH, (recv_header_at ps b) by (done || (exists ke, ve; split_and!; done || lia)). done. }
  split; intros [Hp (us & ue & E1 & E2 & Hpos & Huri & Eue) Hma Hmi Hme Hh Hb];
    change (parse_pos (recv ps b)) with (parse_pos ps) in *; change (headers (hd (recv ps b))) with (headers (hd ps)) in *;
    (split; try done; [..|by apply Hall]).
  - exists us, ue. split_and!; try done. rewrite recv_slice in Huri; [done|done|done|lia].
  - split; [by apply recv_wf|done|done].
  - exists us, ue. split_and!; try done. rewrite recv_slice; [done|done|done|lia].
Qed.

Section requests.
Context `{HeaderPool P}.
Implicit Types c : conn P.

(** [malloc] does not fail. *)
Hypothesis pool_supplies : ∀ p : P, hp_ok p → is_Some (hp_alloc p).

Lemma pool_alloc_n n (p : P) : hp_ok p → ∃ p', alloc_n n p = Some p' ∧ hp_ok p'.
Proof.
  revert p. induction n as [|n IH]; intros p Hp; [by exists p|]. cbn [alloc_n].
  destruct (pool_supplies p Hp) as [p1 E]. rewrite E. cbn [mbind option_bind].
  apply IH. by eapply hp_alloc_ok.
Qed.

Lemma print_line_uri pos bf l t :
  drop pos bf = print_line l ++ t →
  let us := pos + length (l_blank l) + length (l_method l) + 1 + l_sp1 l in
  slice us (us + length (l_uri l)) bf = l_uri l ∧ us + length (l_uri l) ≤ pos + length (print_line l).
Proof.
  intros Hd. unfold print_line in *. cbv zeta. split.
  - eapply text_at_slice. rewrite <-!drop_drop, Hd, <-!app_assoc, drop_app_length, drop_app_length.
    simpl. rewrite drop_0, <-!app_assoc, drop_app_eq; [reflexivity|]. unfold spaces. by rewrite length_replicate.
  - repeat (rewrite ?length_app; cbn [length]). unfold spaces. rewrite !length_replicate. lia.
Qed.

Lemma fresh_parses c g rest :
  fresh (c_parser c) → hp_ok (c_pool c) → get_ok g → unparsed (c_parser c) = print_get g ++ rest →
  ∃ c2, parse_request c = Some (POk c2) ∧ holds g (c_parser c2) ∧ unparsed (c_parser c2) = rest.
Proof.
  intros [Hps Hst Hhst Hph Hhd] Hok [Hline Hblock Hnul Hmeth] Hu. pose proof Hps as [Hwf Hset _].
  unfold print_get in Hu. rewrite <-app_assoc in Hu. set (ps := c_parser c) in *.
  pose proof (line_accepted ps (g_line g) _ Hwf Hst Hline Hu) as Eline.
  pose proof (line_exit_safe ps Hwf) as Hs. rewrite Eline in Hs. destruct Hs as (Hwf1 & Eb1 & El1 & Ep1).
  set (ps1 := (line_parsed ps (g_line g)) <| parse_phase := 1%Z |>).
  assert (parser_wf ps1) as Hwf1' by (by destruct Hwf1).
  pose proof (unparsed_drop ps Hwf) as Hd. rewrite Hu, <-app_assoc in Hd.
  assert (unparsed ps1 = print_block (g_headers g) ++ rest) as Hu1.
  { unfold unparsed in *. by apply slice_advance in Hu. }
  destruct (pool_alloc_n (length (g_headers g)) (c_pool c) Hok) as (pool' & Ealloc & Hok').
  pose proof (block_accepted ps1 (c_pool c) (g_headers g) rest pool' Hwf1' Hhst Hblock Hu1 Ealloc) as Ebody.
  assert (parser_ok ps1) as Hps1 by (split; [done|by destruct Hset|by right]).
  pose proof (body_exit_safe ps1 (c_pool c) Hwf1' (pok_set _ Hps1) Hok) as Hs. rewrite Ebody in Hs.
  destruct Hs as (Hwf2 & Eb2 & El2 & Ep2 & Erl2 & _ & Est2 & Hset2 & _).
  eexists. split.
  { rewrite parse_request_line by done. fold ps. rewrite Eline. cbn [line_exit].
    rewrite (parse_headers_exit (set_parser c ps1)) by (done || exact Hps1).
    change (c_parser (set_parser c ps1)) with ps1. change (c_pool (set_parser c ps1)) with (c_pool c).
    rewrite Ebody. reflexivity. }
  set (ps2 := (block_parsed ps1 (g_headers g)) <| parse_phase := 2%Z |>).
  change (holds g ps2 ∧ unparsed ps2 = rest).
  pose proof (unparsed_drop ps1 Hwf1') as Hd1. rewrite Hu1 in Hd1. unfold print_block in Hd1.
  rewrite <-!app_assoc in Hd1. split.
  - destruct (print_line_uri _ _ _ _ Hd) as [Huri Hle]. split; try done.
    + split; [by destruct Hwf2|done|done].
    + eexists _, _. split; [reflexivity|]. split; [reflexivity|]. split; [|split; [exact Huri|reflexivity]].
      change (parse_pos ps2) with (parse_pos ps + length (print_line (g_line g)) + length (print_block (g_headers g))).
      cbv zeta in Hle. lia.
    + intros Hsc. change (method (rl ps2)) with (method_of (method (rl ps)) (l_method (g_line g))).
      by apply known_method_get, Hmeth.
    + change (headers (hd ps2)) with (headers (block_fields (parse_pos ps1) (g_headers g) (hd ps))).
      rewrite <-(app_nil_r (reverse _)). unfold g_kvs.
      eapply block_headers_at; [exact Hd1|]. rewrite Hhd. constructor.
    + change (headers (hd ps2)) with (headers (block_fields (parse_pos ps1) (g_headers g) (hd ps))).
      apply block_headers_below; [|rewrite Hhd; constructor].
      change (parse_pos ps2) with (parse_pos ps1 + length (print_block (g_headers g))).
      unfold print_block. rewrite length_app. lia.
  - unfold unparsed in *. by apply slice_advance in Hu1.
Qed.
(** What is parsed does not depend on the objects in the header cache. *)
Lemma run_pools bs pi st f p1 p2 pi' f' p1' :
  hp_ok p1 → hp_ok p2 → run hd_step bs pi st (f, p1) = LDone pi' (f', p1') →
  ∃ p2', hp_ok p2' ∧ run hd_step bs pi st (f, p2) = LDone pi' (f', p2').
Proof.
  revert pi st f p1 p2. induction bs as [|ch bs IH]; intros pi st f p1 p2 Hp1 Hp2; cbn [run]; [done|].
  destruct st; cbn [hd_step];
    repeat (match goal with |- context [if ?x then _ else _] => destruct x end); try done; try (by apply IH).
  - destruct (pool_supplies p1 Hp1) as [q1 E1], (pool_supplies p2 Hp2) as [q2 E2]. rewrite E1, E2.
    apply IH; [exact (hp_alloc_ok _ _ Hp1 E1)|exact (hp_alloc_ok _ _ Hp2 E2)].
  - intros [= <- <- <-]. by exists p2.
Qed.

Lemma body_exit_pools ps p1 p2 ps' p1' :
  parser_wf ps → hp_ok p1 → hp_ok p2 → request_body_exit ps p1 = POk (ps', p1') →
  ∃ p2', hp_ok p2' ∧ request_body_exit ps p2 = POk (ps', p2').
Proof.
  intros Hwf Hp1 Hp2. rewrite !request_body_exit_run by done.
  destruct (run hd_step _ _ _ (hd ps, p1)) as [? ? []|pi [f p]|? []|] eqn:E; cbn [request_body_end]; try done.
  intros [= <- <-]. destruct (run_pools _ _ _ _ _ p2 _ _ _ Hp1 Hp2 E) as (p2' & Hok & ->). by exists p2'.
Qed.

(** Nor on anything of the connection but its parser. *)
Lemma parse_headers_pools c c' c1 :
  parser_ok (c_parser c) → parse_phase (c_parser c) = 1%Z → hp_ok (c_pool c) → hp_ok (c_pool c') →
  c_parser c' = c_parser c → parse_headers c = Some (POk c1) →
  ∃ c1', parse_headers c' = Some (POk c1') ∧ c_parser c1' = c_parser c1 ∧ hp_ok (c_pool c1') ∧ parse_frame c' c1'.
Proof.
  intros Hps Hph Hok Hok' E Hp.
  rewrite parse_headers_exit in Hp by done. pose proof (parse_headers_spec c') as Hspec. rewrite E in Hspec.
  specialize (Hspec Hps Hph Hok'). rewrite parse_headers_exit in Hspec |- * by (by rewrite ?E).
  destruct (request_body_exit (c_parser c) (c_pool c)) as [[]|[ps pool]|? []|] eqn:Eb; cbn [headers_exit] in Hp; simplify_eq.
  destruct (body_exit_pools _ _ (c_pool c') _ _ (pok_wf _ Hps) Hok Hok' Eb) as (p2 & Hp2 & E2).
  rewrite E, E2 in Hspec |- *. cbn [headers_exit] in Hspec |- *.
  eexists. split; [reflexivity|]. split; [done|]. by destruct Hspec as (F & O & _).
Qed.

Lemma parse_request_pools c c' c1 :
  parser_ok (c_parser c) → hp_ok (c_pool c) → hp_ok (c_pool c') → c_parser c' = c_parser c →
  parse_request c = Some (POk c1) →
  ∃ c1', parse_request c' = Some (POk c1') ∧ c_parser c1' = c_parser c1.
Proof.
  intros Hps Hok Hok' E Hp. destruct (pok_phase _ Hps) as [[Hph _]|Hph].
  2: { rewrite parse_request_headers in Hp |- * by (by rewrite ?E).
       destruct (parse_headers_pools c c' c1) as (c1' & ? & ? & _); eauto. }
  pose proof (line_exit_safe _ (pok_wf _ Hps)) as Hs. pose proof (line_exit_keeps (c_parser c)) as Hk.
  rewrite parse_request_line in Hp |- * by (by rewrite ?E). rewrite E.
  destruct (request_line_exit (c_parser c)) as [|ps|e|]; cbn [line_exit] in Hp |- *;
    [done| |by destruct (e =? ZV_AGAIN)%Z|done].
  destruct Hs as (W & Eb & El & Ep), Hk as (Ehd & Est & Eph).
  destruct (parse_headers_pools (set_parser c (ps <| parse_phase := 1%Z |>)) (set_parser c' (ps <| parse_phase := 1%Z |>)) c1)
    as (c1' & ? & ? & _); try done; [|by eauto].
  destruct Hps as [? ? ?]. split; [by destruct W|simpl; by rewrite Est, Ehd|by right].
Qed.
End requests.
