(* ===== verification/Answers.v ===== *)
(** * What a request is answered (http.c)

    The abstract server: it answers a well-formed request with a page, after which the
    connection is kept or not, or with the output of a script, or not at all when a file
    cannot be opened although its mode says so.  Only a date in a request leaves it a
    choice, which the server makes by the number in uninitialised memory.
    [do_request] answers a request that has been parsed with one response, prepared whole,
    or starts the script. *)
From S2P Require Import Prelude CString ByteMachine HeaderPool HttpParse RequestLine HeaderBlock Path Sockets Output Cgi CgiStream Request Http Serve Pieces.

(** ** The abstract server *)

Section answering.
Context `{HeaderPool P}.
Variables (ROOT : option (list Z)) (stat : list Z → option file_stat) (open : list Z → option (list Z))
  (realpath : list Z → option (list Z)) (fmt_time : Z → list Z) (strptime : list Z → option Z)
  (uninit : Z) (spawn_env : spawn) (script : list Z → list Z → option (list Z) → pipe).
Implicit Types c : conn P.

(** The HTML page of an error. *)
Definition error_page (ms : Z) (cause errnum shortmsg longmsg : list Z) (keep : bool) : list Z :=
  let body := error_body cause errnum shortmsg longmsg in
  http_header (error_lines ms errnum shortmsg keep (length body)) ++ body.

(** The answer to a request for the file [f], whose date is found the same or not; [None]
    for a file that can be read by its mode and cannot be opened: there is no answer. *)
Definition file_page (ms : Z) (f : list Z) (keep same : bool) : option (list Z) :=
  match stat f with
  | None => Some (error_page ms f (str "404") (str "Not Found") (str "zaver can't find the file") keep)
  | Some sb =>
      if negb (is_path_under_root_real realpath ROOT f) then
        Some (error_page ms f (str "403") (str "Forbidden") (str "path is outside docroot") keep)
      else if negb (is_reg sb) || negb (user_read sb) then
        Some (error_page ms f (str "403") (str "Forbidden") (str "zaver can't read the file") keep)
      else if same then
        Some (http_header (static_lines fmt_time ms f (st_size sb) (mk_out_t keep (Some (st_mtime sb)) false 304)))
      else
        bytes ← open f;
        Some (http_header (static_lines fmt_time ms f (st_size sb) (mk_out_t keep (Some (st_mtime sb)) true 200))
              ++ take (st_size sb) bytes)
  end.

(** How the server reacts to a request: with a page, after which the connection goes on or
    not, or by running a script. *)
Inductive reaction := Page (page : list Z) (keep : bool) | Runs (output : pipe).

(** The request for a script is refused. *)
Definition refusal (ms : Z) (cause errnum shortmsg longmsg : list Z) : reaction :=
  Page (error_page ms cause errnum shortmsg longmsg false) false.

(** [pipe], [fork] and [fcntl] succeed. *)
Definition can_spawn : bool :=
  in_pipe_ok spawn_env && out_pipe_ok spawn_env && fork_ok spawn_env && fcntl_ok spawn_env.

(** An executable file that is really under the root. *)
Definition run_answer (ms : Z) (f name : list Z) (qs : option (list Z)) : reaction :=
  match stat f with
  | None => refusal ms f (str "404") (str "Not Found") (str "cgi not found")
  | Some sb =>
      if negb (is_reg sb) || negb (user_exec sb) then
        refusal ms f (str "404") (str "Not Found") (str "cgi not found")
      else if negb (is_path_under_root_real realpath ROOT f) then
        refusal ms f (str "403") (str "Forbidden") (str "cgi path is outside docroot")
      else if can_spawn then Runs (script f name qs)
      else refusal ms (str "cgi") (str "500") (str "Internal Server Error") (str "cgi start failed")
  end.

(** The normalised path of a script; [None] for one that cannot be decoded or leads out of
    the root. *)
Definition script_path (name : list Z) : option (list Z) :=
  decoded ← percent_decode name SHORTLINE; fst <$> normalize_abs_path decoded SHORTLINE.

Definition script_answer (ms : Z) (get : bool) (uri : list Z) : reaction :=
  let name := take (query_pos uri) uri in
  if negb get then refusal ms (str "cgi") (str "405") (str "Method Not Allowed") (str "cgi GET only")
  else if SHORTLINE <=? query_pos uri then
    refusal ms (str "cgi uri too long") (str "400") bad_request (str "cgi uri too long")
  else
    match script_path name with
    | None => refusal ms (str "invalid cgi uri") (str "400") bad_request (str "invalid cgi uri")
    | Some norm =>
        if negb (strncmp_eq 9 norm (str "/cgi-bin/")) then
          refusal ms (str "invalid cgi uri") (str "403") (str "Forbidden") (str "invalid cgi uri")
        else if SHORTLINE <=? length (printed ROOT ++ norm) then
          refusal ms (str "cgi path too long") (str "400") bad_request (str "cgi path too long")
        else run_answer ms (printed ROOT ++ norm) name (cgi_query uri (query_pos uri))
    end.

(** The answer to a request for something else than a script; without an answer the
    connection is closed. *)
Definition file_answer (ms : Z) (same : bool) (g : get_request) : list Z * bool :=
  match parse_uri ROOT (l_uri (g_line g)) SHORTLINE with
  | None => (error_page ms (str "invalid uri") (str "400") bad_request (str "invalid uri") false, false)
  | Some f =>
      match file_page ms f (g_keep g) same with
      | Some page => (page, g_keep g)
      | None => ([], false)
      end
  end.

Definition answer (ms : Z) (same : bool) (g : get_request) : reaction :=
  if decide (for_script (l_uri (g_line g))) then
    script_answer ms (strcmp_eq (l_method (g_line g)) (str "GET")) (l_uri (g_line g))
  else let '(page, keep) := file_answer ms same g in Page page keep.

(** A reaction to [g]: the date of the file is found the same only if [g] names the date
    that uninitialised memory holds. *)
Definition may_answer (ms : Z) (g : get_request) (r : reaction) : Prop :=
  ∃ same, (same = true → names_date strptime (g_kvs g) uninit) ∧ r = answer ms same g.

(** How requests in a row end: with a page, or with the output of a script. *)
Inductive ending := Then (keep : bool) | Stream (output : pipe).

(** The answers to requests in a row, up to the one after which the connection closes or
    belongs to a script. *)
Inductive answers (ms : Z) : list get_request → list Z → ending → Prop :=
  | Answers_none : answers ms [] [] (Then true)
  | Answers_page g gs page pages e :
      may_answer ms g (Page page true) → answers ms gs pages e → answers ms (g :: gs) (page ++ pages) e
  | Answers_last g gs page : may_answer ms g (Page page false) → answers ms (g :: gs) page (Then false)
  | Answers_script g gs output : may_answer ms g (Runs output) → answers ms (g :: gs) [] (Stream output).

(** The answers when no date is found the same. *)
Fixpoint plain_answers (ms : Z) (gs : list get_request) : list Z * ending :=
  match gs with
  | [] => ([], Then true)
  | g :: gs' =>
      match answer ms false g with
      | Page page true => let '(pages, e) := plain_answers ms gs' in (page ++ pages, e)
      | Page page false => (page, Then false)
      | Runs output => ([], Stream output)
      end
  end.

Lemma plain_answers_spec ms gs : answers ms gs (plain_answers ms gs).1 (plain_answers ms gs).2.
Proof.
  induction gs as [|g gs IH]; [constructor|]. cbn [plain_answers].
  assert (∀ r, answer ms false g = r → may_answer ms g r) as Hm by (intros r <-; by exists false).
  destruct (answer ms false g) as [page []|output]; [|by apply Answers_last, Hm|by apply Answers_script, Hm].
  destruct (plain_answers ms gs) as [pages e]. by apply Answers_page; [apply Hm|].
Qed.

(** Requests that name no such date have one answer. *)
Lemma answers_unique ms gs pages1 e1 pages2 e2 :
  Forall (λ g, ¬ names_date strptime (g_kvs g) uninit) gs →
  answers ms gs pages1 e1 → answers ms gs pages2 e2 → pages1 = pages2 ∧ e1 = e2.
Proof.
  intros Hn H1. revert Hn pages2 e2.
  assert (∀ g r1 r2, ¬ names_date strptime (g_kvs g) uninit → may_answer ms g r1 → may_answer ms g r2 → r1 = r2) as Hone.
  { intros g r1 r2 Hd (s1 & Hs1 & ->) (s2 & Hs2 & ->). destruct s1, s2; naive_solver. }
  induction H1 as [|g gs page pages e Hm _ IH|g gs page Hm|g gs output Hm]; intros Hn pages2 e2 H2.
  - by inversion H2.
  - apply Forall_cons in Hn as [Hg Hn]. inversion H2 as [|? ? ? ? ? Hm2 H2'|? ? ? Hm2|? ? ? Hm2]; subst;
      pose proof (Hone g _ _ Hg Hm Hm2) as E; try done. injection E as ->. by destruct (IH Hn _ _ H2') as [-> ->].
  - apply Forall_cons in Hn as [Hg _]. inversion H2 as [|? ? ? ? ? Hm2 H2'|? ? ? Hm2|? ? ? Hm2]; subst;
      pose proof (Hone g _ _ Hg Hm Hm2) as E; try done. by injection E as ->.
  - apply Forall_cons in Hn as [Hg _]. inversion H2 as [|? ? ? ? ? Hm2 H2'|? ? ? Hm2|? ? ? Hm2]; subst;
      pose proof (Hone g _ _ Hg Hm Hm2) as E; try done. by injection E as ->.
Qed.

Lemma answers_plain ms gs pages e :
  Forall (λ g, ¬ names_date strptime (g_kvs g) uninit) gs → answers ms gs pages e → plain_answers ms gs = (pages, e).
Proof.
  intros Hn Ha. destruct (answers_unique _ _ _ _ _ _ Hn (plain_answers_spec ms gs) Ha) as [<- <-].
  by destruct (plain_answers ms gs).
Qed.

(** ** Serving a request *)

Hypothesis pool_supplies : ∀ p : P, hp_ok p → is_Some (hp_alloc p).
Hypothesis fmt_time_short : ∀ t, length (fmt_time t) < SHORTLINE.
Hypothesis sizes_small : ∀ f sb, stat f = Some sb → (Z.of_nat (st_size sb) < 2 ^ 63)%Z.

Notation serve_c := (serve ROOT stat open realpath fmt_time strptime uninit true spawn_env script).

(** The socket takes [n] bytes. *)
Definition takes (s : socket) (n : nat) : Prop := willing s ∧ n ≤ length (Sockets.script s).

Lemma try_send_takes out s n :
  offset_ok out → takes s (length (pending out) + n) →
  ∃ out' s', try_send out s = Some (0%Z, out', s') ∧ same_response out out' ∧
    wire s' = wire s ++ pending out ∧ takes s' n.
Proof.
  intros Ho [Hw Hn]. destruct (try_send_live out s) as (out' & s' & E & Hsame & Hw' & Ewire & Hl); [done|done|lia|].
  exists out', s'. split_and!; try done. split; [done|lia].
Qed.

(** A response in hand, to be sent from the connection [c]: what follows depends on the
    return code of [try_send]. *)
Definition send_out c (out : output) (after : conn P → Z → served * conn P) : option (served * conn P) :=
  '(rc, out, s) ← try_send out (c_sock c);
  Some (after ((set_out c out) <| c_sock := s |>) rc).

(** [out] is [page], of which nothing has been sent. *)
Definition is_page (out : output) (page : list Z) (keep : bool) : Prop :=
  offset_ok out ∧ pending out = page ∧ keep_alive out = keep ∧ writing out = false.

Lemma send_error_prepares c cause errnum shortmsg longmsg keep :
  length errnum + length shortmsg ≤ 4096 →
  ∃ out, is_page out (error_page (keep_alive_timeout_ms (c_req c)) cause errnum shortmsg longmsg keep) keep ∧
    send_error true c cause errnum shortmsg longmsg keep =
      ('(rc, out, s) ← try_send out (c_sock c); Some (rc, (set_out c out) <| c_sock := s |>)).
Proof.
  intros Hlen. unfold send_error.
  pose proof (prepare_error_ok true (keep_alive_timeout_ms (c_req c)) (c_out c) cause errnum shortmsg longmsg
    keep Hlen) as Hp.
  pose proof (prepare_error_offset true (keep_alive_timeout_ms (c_req c)) (c_out c) cause errnum shortmsg
    longmsg keep) as Ho.
  destruct (prepare_error _ _ _ _ _ _ _ _) as [rc out]. destruct Hp as (Ek & Ew & -> & _ & Er & Epend & Ef).
  exists out. split; [|done]. split; [exact Ho|]. by rewrite Epend, Er.
Qed.

Lemma static_error_prepares c cause errnum shortmsg longmsg keep :
  length errnum + length shortmsg ≤ 4096 →
  ∃ out, is_page out (error_page (keep_alive_timeout_ms (c_req c)) cause errnum shortmsg longmsg keep) keep ∧
    static_error true c cause errnum shortmsg longmsg keep =
      send_out c out (λ c rc, finish_response c rc keep).
Proof.
  intros Hlen. destruct (send_error_prepares c cause errnum shortmsg longmsg keep Hlen) as (out & Hp & E).
  exists out. split; [done|]. unfold static_error, send_out. rewrite E.
  by destruct (try_send out (c_sock c)) as [[[rc out'] s]|].
Qed.

Lemma query_pos_le uri : query_pos uri ≤ length uri.
Proof. induction uri as [|x uri IH]; simpl; [lia|]. destruct (x =? _)%Z; lia. Qed.

Lemma not_a_script c g :
  holds g (c_parser c) → ¬ for_script (l_uri (g_line g)) →
  handle_cgi_mvp ROOT stat realpath strptime uninit true spawn_env script c = Some (ZV_CGI_NOT, c, []).
Proof.
  intros [_ (us & ue & Eus & Eue & Hpos & Huri & ->) _ _ _ _ _] Hnot. unfold handle_cgi_mvp. cbv zeta.
  rewrite Eus, Eue, Huri. set (uri := l_uri (g_line g)) in *.
  destruct (Nat.ltb_spec (query_pos uri) 9) as [|Hq]; [reflexivity|]. cbn [orb].
  destruct (strncmp_eq 9 _ _) eqn:E; [|reflexivity]. exfalso. apply Hnot.
  apply (strncmp_prefix_sym _ (str "/cgi-bin/")) in E; [|repeat constructor; done]. destruct E as [t E].
  apply slice_text_at in Huri. rewrite Huri in E.
  assert (query_pos uri ≤ length uri) as Hle by apply query_pos_le.
  apply (f_equal (take 9)) in E. rewrite take_app_le in E by lia.
  change (take 9 (str "/cgi-bin/" ++ t)) with (str "/cgi-bin/") in E. unfold for_script. rewrite <-E. apply prefix_take.
Qed.

Lemma headers_handled c g :
  holds g (c_parser c) → get_ok g → hp_ok (c_pool c) →
  ∃ pool same, hp_ok pool ∧ (same = true → names_date strptime (g_kvs g) uninit) ∧
    handle_header strptime uninit c zv_init_out_t =
    Some ((set_parser c ((c_parser c) <| hd := (hd (c_parser c)) <| headers := [] |> |>)) <| c_pool := pool |>,
          mk_out_t (g_keep g) None (negb same) (if same then 304 else 0)).
Proof.
  intros [_ _ Hma Hmi _ Hh _] [_ _ Hnul _] Hok. unfold handle_header.
  destruct (handle_header_spec strptime uninit (c_parser c) zv_init_out_t (c_pool c) (g_kvs g) Hh Hnul)
    as (r' & o' & -> & -> & Hk & Hm & Hd). cbn [mbind option_bind].
  destruct o' as [k m md st]. simpl in *. rewrite Hma, Hmi in Hk. subst k m.
  destruct Hd as [[-> ->]|(-> & -> & Hd)]; eexists; [exists false|exists true];
    (split; [by apply hp_free_n_spec|]); split; done.
Qed.

Lemma static_prepares c f sb (o : out_t) page :
  stat f = Some sb → (- 2 ^ 31 ≤ status o < 2 ^ 31)%Z →
  (if modified o then bytes ← open f; Some (http_header (static_lines fmt_time (keep_alive_timeout_ms (c_req c)) f (st_size sb) o) ++ take (st_size sb) bytes)
   else Some (http_header (static_lines fmt_time (keep_alive_timeout_ms (c_req c)) f (st_size sb) o))) = page →
  let '(rc, out) := prepare_static fmt_time open (keep_alive_timeout_ms (c_req c)) (c_out c) f (st_size sb) o in
  match page with
  | Some page => rc = 0%Z ∧ is_page out page (o_keep_alive o)
  | None => rc = (-1)%Z ∧ writing out = false
  end.
Proof.
  intros Es Hst <-.
  pose proof (prepare_static_ok fmt_time open (keep_alive_timeout_ms (c_req c)) (c_out c) f (st_size sb) o
    fmt_time_short (sizes_small f sb Es) Hst) as Hp.
  pose proof (prepare_static_spec open fmt_time (keep_alive_timeout_ms (c_req c)) (c_out c) f (st_size sb) o) as Hq.
  destruct (prepare_static _ _ _ _ _ _ _) as [rc out]. destruct Hq as (_ & Ho & _).
  cbv zeta in Hp. destruct Hp as (Ek & Ew & _ & Epend & Hr).
  destruct (modified o); [destruct (open f) as [bytes|]|]; cbn [mbind option_bind]; [destruct Hr as [-> Er]|done|destruct Hr as [-> Er]];
    (split; [done|]); (split; [exact Ho|]); by rewrite Epend, Er.
Qed.

(** [file_page] is what [serve_file] prepares; without a page it goes to the label [close]. *)
Lemma file_prepares c f keep same :
  match file_page (keep_alive_timeout_ms (c_req c)) f keep same with
  | Some page => ∃ out, is_page out page keep ∧
      serve_file ROOT stat open realpath fmt_time true c f (mk_out_t keep None (negb same) (if same then 304 else 0)) =
        send_out c out (λ c rc, finish_response c rc keep)
  | None => ∃ out, writing out = false ∧
      serve_file ROOT stat open realpath fmt_time true c f (mk_out_t keep None (negb same) (if same then 304 else 0)) =
        Some (Goto_close, set_out c out)
  end.
Proof.
  unfold serve_file, file_page. cbv zeta.
  destruct (stat f) as [sb|] eqn:Es; [|apply static_error_prepares; vm_compute; lia].
  destruct (is_path_under_root_real realpath ROOT f); cbn [negb]; [|apply static_error_prepares; vm_compute; lia].
  destruct (is_reg sb) eqn:Ereg, (user_read sb) eqn:Eread; cbn [negb orb];
    try (apply static_error_prepares; vm_compute; lia).
  set (o := mk_out_t keep (Some (st_mtime sb)) (negb same) (if same then 304 else 200)%Z).
  assert (∀ o1, o1 = mk_out_t keep None (negb same) (if same then 304 else 0)%Z →
    (if (status (o1 <| mtime := Some (st_mtime sb) |>) =? 0)%Z then o1 <| mtime := Some (st_mtime sb) |> <| status := ZV_HTTP_OK |>
     else o1 <| mtime := Some (st_mtime sb) |>) = o) as Eo by (intros o1 ->; by destruct same).
  rewrite (Eo _ eq_refl).
  pose proof (static_prepares c f sb o _ Es ltac:(by destruct same) eq_refl) as Hp.
  destruct (prepare_static _ _ _ _ _ _ _) as [rc out]. destruct same; cbn [modified o negb] in Hp.
  - destruct Hp as [-> Hp]. by exists out.
  - cbn [negb o]. destruct (open f) as [bytes|]; cbn [mbind option_bind] in Hp |- *; destruct Hp as [-> Hp]; by exists out.
Qed.

Definition no_headers (ps : parser) : parser := ps <| hd := (hd ps) <| headers := [] |> |>.

(** The settings of the request object and what is to be read stay. *)
Definition serve_keeps c c' : Prop :=
  c_in c' = c_in c ∧ c_sock c' = c_sock c ∧ hp_ok (c_pool c') ∧ r_cgi (c_req c') = r_cgi (c_req c) ∧
  keep_alive_timeout_ms (c_req c') = keep_alive_timeout_ms (c_req c) ∧
  request_timeout_ms (c_req c') = request_timeout_ms (c_req c).

(** What follows the last page of a connection: the label [close], or waiting for the
    socket. *)
Definition closes_after (after : conn P → Z → served * conn P) : Prop :=
  ∀ c, after c (-1)%Z = (Goto_close, c) ∧ after c 1%Z = (let '(c, es) := wait_writable c in (Returned es, c)) ∧
    (after c 0%Z = (Goto_close, c) ∨ after c 0%Z = (Goto_close, set_out c (reset_output (c_out c)))).

(** After the page for a name that [parse_uri] rejects, and after one for a script. *)
Definition finish_closing c (rc : Z) : served * conn P :=
  if (rc <? 0)%Z then (Goto_close, c)
  else if (rc =? 1)%Z then let '(c, es) := wait_writable c in (Returned es, c)
  else (Goto_close, set_out c (reset_output (c_out c))).

Definition finish_refused c (rc : Z) : served * conn P :=
  if (rc <? 0)%Z then (Goto_close, c)
  else if (rc =? 1)%Z then let '(c, es) := wait_writable c in (Returned es, c)
  else (Goto_close, c).

Lemma finish_closes : closes_after finish_closing ∧ closes_after finish_refused.
Proof. split; intros c; (split; [done|]); (split; [done|]); [by right|by left]. Qed.

(** One call of [try_send] answers with [page], and then the connection is kept or not; or
    there is no page and the connection is to be closed. *)
Definition prepares c (page : list Z) (keep : bool) (res : option (served * conn P)) : Prop :=
  (∃ c1, serve_keeps c c1 ∧ page = [] ∧ keep = false ∧ writing (c_out c1) = false ∧ res = Some (Goto_close, c1)) ∨
  ∃ c1 out, serve_keeps c c1 ∧ is_page out page keep ∧
    (res = send_out c1 out (λ c rc, finish_response c rc keep) ∧ c_parser c1 = no_headers (c_parser c) ∨
     ∃ after, res = send_out c1 out after ∧ closes_after after ∧ keep = false).

(** A request for a file. *)
Lemma file_served c g :
  holds g (c_parser c) → get_ok g → ¬ for_script (l_uri (g_line g)) → hp_ok (c_pool c) →
  ∃ same, (same = true → names_date strptime (g_kvs g) uninit) ∧
    let '(page, keep) := file_answer (keep_alive_timeout_ms (c_req c)) same g in prepares c page keep (serve_c c).
Proof.
  intros Hh Hg Hstatic Hok. pose proof Hh as [_ (us & ue & Eus & Eue & _ & Huri & _) _ _ _ _ _].
  unfold file_answer, serve. rewrite (not_a_script c g Hh Hstatic). cbn [mbind option_bind].
  change (ZV_CGI_NOT <? 0)%Z with false. change (ZV_CGI_NOT =? ZV_CGI_RETURN)%Z with false.
  change (ZV_CGI_NOT =? ZV_CGI_CLOSE)%Z with false. cbv zeta iota. rewrite Eus, Eue, Huri.
  destruct (parse_uri _ _ _) as [f|].
  - destruct (headers_handled c g Hh Hg Hok) as (pool & same & Hok' & Hsame & ->). exists same. split; [done|].
    cbn [mbind option_bind].
    match goal with |- context [serve_file _ _ _ _ _ _ ?x] => set (c1 := x) end.
    pose proof (file_prepares c1 f (g_keep g) same) as Hf.
    change (keep_alive_timeout_ms (c_req c1)) with (keep_alive_timeout_ms (c_req c)) in Hf.
    destruct (file_page _ _ _ _) as [page|]; destruct Hf as (out & Hp & ->).
    + right. exists c1, out. split; [by split_and!|]. split; [exact Hp|]. by left.
    + left. eexists. split; [|split; [done|split; [done|split; [|reflexivity]]]]; [by split_and!|exact Hp].
  - exists false. split; [done|]. right. destruct (send_error_prepares c (str "invalid uri") (str "400") bad_request (str "invalid uri") false)
      as (out & Hp & ->); [vm_compute; lia|].
    exists c, out. split; [by split_and!|]. split; [done|]. right. exists finish_closing.
    split; [|split; [apply finish_closes|done]].
    unfold send_out, finish_closing. destruct (try_send out (c_sock c)) as [[[rc out'] s]|]; [|done].
    cbn [mbind option_bind]. destruct (rc <? 0)%Z; [done|]. by destruct (rc =? 1)%Z.
Qed.

(** ** Serving a request for a script *)

(** The script runs, with [output] still to be read. *)
Record runs_script c (output : pipe) c' (es : list effect) : Prop := {
  rs_in : c_in c' = c_in c;
  rs_sock : c_sock c' = c_sock c;
  rs_pool : hp_ok (c_pool c');
  rs_keep_ms : keep_alive_timeout_ms (c_req c') = keep_alive_timeout_ms (c_req c);
  rs_request_ms : request_timeout_ms (c_req c') = request_timeout_ms (c_req c);
  rs_start : zv_cgi_start spawn_env (request_timeout_ms (c_req c)) output (r_cgi (c_req c)) = (0%Z, r_cgi (c_req c'), es);
}.

(** The end of [handle_cgi_mvp] with a page. *)
Definition cgi_page c (out : output) : option (Z * conn P * list effect) :=
  '(rc, out, s) ← try_send out (c_sock c);
  let c := (set_out c out) <| c_sock := s |> in
  Some (if (rc <? 0)%Z then ((-1)%Z, c, [])
        else if (rc =? 1)%Z then let '(c, es) := wait_writable c in (ZV_CGI_RETURN, c, es)
        else (ZV_CGI_CLOSE, c, [])).

(** What [handle_cgi_mvp] does is the reaction [r]. *)
Definition reacts c (r : reaction) (res : option (Z * conn P * list effect)) : Prop :=
  match r with
  | Page page keep => keep = false ∧ ∃ c1 out, serve_keeps c c1 ∧ is_page out page false ∧ res = cgi_page c1 out
  | Runs output => ∃ c' es, res = Some (ZV_CGI_RETURN, c', es) ∧ runs_script c output c' es
  end.

Lemma refusal_reacts c c1 cause errnum shortmsg longmsg :
  serve_keeps c c1 → length errnum + length shortmsg ≤ 4096 →
  reacts c (refusal (keep_alive_timeout_ms (c_req c)) cause errnum shortmsg longmsg)
    (cgi_error true c1 cause errnum shortmsg longmsg).
Proof.
  intros Hk Hlen. split; [done|]. destruct (send_error_prepares c1 cause errnum shortmsg longmsg false Hlen) as (out & Hp & E).
  pose proof Hk as (_ & _ & _ & _ & Ems & _). rewrite Ems in Hp. exists c1, out. split; [done|]. split; [done|].
  unfold cgi_error, cgi_page. rewrite E. destruct (try_send out (c_sock c1)) as [[[rc out'] s]|]; [|done].
  cbn [mbind option_bind]. destruct (rc <? 0)%Z; [done|]. by destruct (rc =? 1)%Z.
Qed.

Lemma run_reacts c c1 f name qs :
  serve_keeps c c1 →
  reacts c (run_answer (keep_alive_timeout_ms (c_req c)) f name qs)
    (cgi_run ROOT stat realpath true spawn_env script c1 f name qs).
Proof.
  intros Hk. unfold run_answer, cgi_run.
  destruct (stat f) as [sb|]; [|apply refusal_reacts; [done|vm_compute; lia]].
  destruct (_ || _); [apply refusal_reacts; [done|vm_compute; lia]|].
  destruct (negb _); [apply refusal_reacts; [done|vm_compute; lia]|].
  unfold zv_cgi_start. fold can_spawn. destruct can_spawn eqn:Espawn; cbn [negb];
    [|apply refusal_reacts; [done|vm_compute; lia]].
  cbn [Z.eqb negb]. destruct Hk as (Ein & Es & Hok & Eg & Ems & Erq).
  eexists _, _. split; [reflexivity|]. split; try done. unfold zv_cgi_start. fold can_spawn. rewrite Espawn. cbn [negb].
  by rewrite <-Eg, <-Erq.
Qed.

Lemma query_pos_script uri : for_script uri → query_pos uri <? 9 = false.
Proof. intros [t ->]. apply Nat.ltb_ge. change (query_pos (str "/cgi-bin/" ++ t)) with (9 + query_pos t). lia. Qed.

Lemma script_reacts c g :
  holds g (c_parser c) → get_ok g → for_script (l_uri (g_line g)) → hp_ok (c_pool c) →
  reacts c (script_answer (keep_alive_timeout_ms (c_req c)) (strcmp_eq (l_method (g_line g)) (str "GET")) (l_uri (g_line g)))
    (handle_cgi_mvp ROOT stat realpath strptime uninit true spawn_env script c).
Proof.
  intros Hh Hg Hsc Hok. pose proof Hh as [_ (us & ue & Eus & Eue & _ & Huri & Eue') _ _ Hm _ _].
  unfold handle_cgi_mvp, script_answer, script_path. cbv zeta. rewrite Eus, Eue, Huri, Hm by done.
  rewrite (query_pos_script _ Hsc). cbn [orb].
  assert (strncmp_eq 9 (drop us (buf (c_parser c))) (str "/cgi-bin/") = true) as ->.
  { apply (strncmp_prefix_sym _ (str "/cgi-bin/")); [repeat constructor; done|]. rewrite Eue' in Huri.
    apply slice_text_at in Huri. rewrite Huri. destruct Hsc as [t ->]. eexists. by rewrite <-app_assoc. }
  cbn [negb]. destruct (strcmp_eq _ _); cbn [negb]; [|apply refusal_reacts; [done|vm_compute; lia]].
  destruct (headers_handled c g Hh Hg Hok) as (pool & same & Hok' & _ & ->). cbn [mbind option_bind].
  match goal with |- reacts c _ (if _ then cgi_error _ ?x _ _ _ _ else _) => set (c1 := x) end.
  assert (serve_keeps c c1) as Hk by (by split_and!).
  destruct (_ <=? _); [apply refusal_reacts; [done|vm_compute; lia]|].
  destruct (percent_decode _ _) as [decoded|]; cbn [mbind option_bind]; [|apply refusal_reacts; [done|vm_compute; lia]].
  destruct (normalize_abs_path _ _) as [[norm sl]|]; cbn [fmap option_fmap option_map fst]; [|apply refusal_reacts; [done|vm_compute; lia]].
  destruct (negb _); [apply refusal_reacts; [done|vm_compute; lia]|].
  destruct (_ <=? _); [apply refusal_reacts; [done|vm_compute; lia]|]. by apply run_reacts.
Qed.

Lemma runs_a_script ms g output : may_answer ms g (Runs output) → ∃ f name qs, output = script f name qs.
Proof.
  intros (same & _ & E). revert E. unfold answer. case_decide; [|by destruct (file_answer ms same g)].
  unfold script_answer, run_answer, refusal. repeat case_match; try done; intros [= ->]; eauto.
Qed.

(** A well-formed request is answered as by the abstract server. *)
Lemma serve_prepares c g :
  holds g (c_parser c) → get_ok g → hp_ok (c_pool c) →
  ∃ r, may_answer (keep_alive_timeout_ms (c_req c)) g r ∧
    match r with
    | Page page keep => prepares c page keep (serve_c c)
    | Runs output => ∃ c' es, serve_c c = Some (Returned es, c') ∧ runs_script c output c' es
    end.
Proof.
  intros Hh Hg Hok. destruct (decide (for_script (l_uri (g_line g)))) as [Hsc|Hsc].
  2: { destruct (file_served c g Hh Hg Hsc Hok) as (same & Hsame & Hf). eexists. split; [by exists same|].
       unfold answer. rewrite decide_False by done. by destruct (file_answer _ same g). }
  pose proof (script_reacts c g Hh Hg Hsc Hok) as Hr. eexists. split; [by exists false|].
  unfold answer. rewrite decide_True by done. unfold serve.
  destruct (script_answer _ _ _) as [page keep|output]; cbn [reacts] in Hr.
  - destruct Hr as (-> & c1 & out & Hk & Hp & ->). right. exists c1, out. split; [done|]. split; [done|]. right.
    exists finish_refused. split; [|split; [apply finish_closes|done]].
    unfold cgi_page, send_out, finish_refused. destruct (try_send out (c_sock c1)) as [[[rc out'] s]|]; [|done].
    cbn [mbind option_bind]. destruct (rc <? 0)%Z; [done|]. by destruct (rc =? 1)%Z.
  - destruct Hr as (c' & es & -> & Hrun). cbn [mbind option_bind]. by exists c', es.
Qed.

(** The request of [c] was answered with [page], which leaves the parser [ps]. *)
Record replied c (ps : parser) c' (page : list Z) : Prop := {
  rep_in : c_in c' = c_in c;
  rep_pool : hp_ok (c_pool c');
  rep_parser : c_parser c' = ps;
  rep_keep_ms : keep_alive_timeout_ms (c_req c') = keep_alive_timeout_ms (c_req c);
  rep_request_ms : request_timeout_ms (c_req c') = request_timeout_ms (c_req c);
  rep_writing : writing (c_out c') = false;
  rep_wire : wire (c_sock c') = wire (c_sock c) ++ page;
}.

Lemma page_answers c page keep n :
  prepares c page keep (serve_c c) → takes (c_sock c) (length page + n) →
  ∃ res c' ps, serve_c c = Some (res, c') ∧ replied c ps c' page ∧ takes (c_sock c') n ∧
    (res = Goto_close ∧ keep = false ∨ res = Request_done keep ∧ ps = no_headers (c_parser c)).
Proof.
  intros [(c1 & (Ein & Es & Hok1 & _ & Ems & Erq) & -> & -> & Ew & ->)|
          (c1 & out & (Ein & Es & Hok1 & _ & Ems & Erq) & (Ho & Epage & Ek & Ew) & Hserve)] Ht.
  { exists Goto_close, c1, (c_parser c1). split; [done|]. split; [split; try done; by rewrite Es, app_nil_r|].
    rewrite Es. split; [done|by left]. }
  destruct (try_send_takes out (c_sock c1) n Ho) as (out' & s' & E & (_ & Ew' & _) & Ewire & Ht'); [by rewrite Epage, Es|].
  rewrite Epage, Es in Ewire. unfold send_out in Hserve. rewrite E in Hserve. cbn [mbind option_bind] in Hserve.
  destruct Hserve as [[-> Eps]|(after & -> & Hafter & Ekeep)].
  - exists (Request_done keep). eexists _, _. split; [reflexivity|]. split; [by split|]. split; [done|]. by right.
  - destruct (Hafter ((set_out c1 out') <| c_sock := s' |>)) as (_ & _ & [-> | ->]);
      exists Goto_close; eexists _, _; (split; [reflexivity|]);
      (split; [split; done || exact (eq_trans Ew' Ew)|]); (split; [done|]); by left.
Qed.

End answering.
