(* ===== verification/Pipeline.v ===== *)
(** * What a client is answered (http.c)

    The refinement of [do_request]: for clients that send well-formed requests for files,
    one after the other on a connection and in any pieces, the server delivers exactly
    the answers of an abstract server, in order. *)
From S2P Require Import Prelude CString ByteMachine HeaderPool HttpParse RequestLine HeaderBlock Path Sockets Output Cgi CgiStream Request Http Serve Pieces Answers.

Section pipeline.
Context `{HeaderPool P}.
Variables (ROOT : option (list Z)) (stat : list Z → option file_stat) (open : list Z → option (list Z))
  (realpath : list Z → option (list Z)) (fmt_time : Z → list Z) (strptime : list Z → option Z)
  (uninit : Z) (spawn_env : spawn) (script : list Z → list Z → option (list Z) → pipe).
Implicit Types c : conn P.

Notation may_answer := (may_answer ROOT stat open realpath fmt_time strptime uninit spawn_env script).
Notation answers := (answers ROOT stat open realpath fmt_time strptime uninit spawn_env script).
Notation serve_c := (serve ROOT stat open realpath fmt_time strptime uninit true spawn_env script).
Notation turn_c := (request_turn ROOT stat open realpath fmt_time strptime uninit true spawn_env script).
Notation loop := (request_loop ROOT stat open realpath fmt_time strptime uninit true spawn_env script).

Hypothesis pool_supplies : ∀ p : P, hp_ok p → is_Some (hp_alloc p).
Hypothesis fmt_time_short : ∀ t, length (fmt_time t) < SHORTLINE.
Hypothesis sizes_small : ∀ f sb, stat f = Some sb → (Z.of_nat (st_size sb) < 2 ^ 63)%Z.

(** ** The stream of requests *)

Lemma compact_last ps : last (compact ps) ≤ last ps.
Proof. unfold compact. destruct (Nat.ltb_spec 0 (parse_pos ps)); simpl; lia. Qed.

Lemma compact_unparsed ps : parser_wf ps → unparsed (compact ps) = unparsed ps.
Proof.
  intros [Hsz Hc Hl _]. unfold unparsed, slice, compact.
  destruct (Nat.ltb_spec 0 (parse_pos ps)); simpl; [|by replace (parse_pos ps) with 0 by lia].
  rewrite drop_0, Nat.sub_0_r. apply take_app_eq. rewrite length_take, length_drop. lia.
Qed.

(** What is parsed does not depend on what is still to arrive. *)
Lemma parse_request_in c p :
  parse_request (c <| c_in := p |>) = exit_map (λ c, c <| c_in := p |>) <$> parse_request c.
Proof.
  assert (∀ c, parse_headers (c <| c_in := p |>) = exit_map (λ c, c <| c_in := p |>) <$> parse_headers c) as Hh.
  { clear c. intros c. unfold parse_headers. cbv zeta.
    change (c_parser (c <| c_in := p |>)) with (c_parser c). change (c_pool (c <| c_in := p |>)) with (c_pool c).
    destruct (if (parse_phase (c_parser c) =? 1)%Z then _ else _) as [[rc [ps pool]]|]; [|reflexivity].
    cbn [mbind option_bind]. destruct (rc =? ZV_AGAIN)%Z; [reflexivity|]. by destruct (negb _). }
  unfold parse_request. cbv zeta. change (c_parser (c <| c_in := p |>)) with (c_parser c).
  destruct (parse_phase (c_parser c) =? 0)%Z; [|apply Hh].
  destruct (zv_http_parse_request_line _) as [[rc ps]|]; [|reflexivity]. cbn [mbind option_bind].
  destruct (rc =? ZV_AGAIN)%Z; [reflexivity|]. destruct (negb _); [reflexivity|]. apply (Hh (set_parser c _)).
Qed.

(** [c] is in the middle of the requests [gs], of which [chunks] are still to arrive. *)
Record streams c (chunks : list (list Z)) (gs : list get_request) : Prop := {
  st_ok : parser_ok (c_parser c);
  st_pool : hp_ok (c_pool c);
  st_in : c_in c = Arrived <$> chunks;
  st_chunks : Forall (λ b, b ≠ []) chunks;
  st_fits : fits (c_parser c) (concat chunks);
  st_gs : Forall get_ok gs;
  st_takes : ∀ pages e, answers (keep_alive_timeout_ms (c_req c)) gs pages e → takes (c_sock c) (length pages);
  st_next :
    match gs with
    | [] => chunks = [] ∧ parse_pos (c_parser c) = 0 ∧ last (c_parser c) = 0 ∧ parse_phase (c_parser c) = 0%Z
    | g :: gs' => ∃ c2, parse_request (feed c (concat chunks)) = Some (POk c2) ∧
        holds g (c_parser c2) ∧ unparsed (c_parser c2) = concat (print_get <$> gs')
    end;
}.

Lemma fresh_recv ps b : fresh ps → fits ps b → fresh (recv ps b).
Proof. intros [? ? ? ? ?] Hf. split; try done. by apply recv_parser_ok. Qed.

Lemma streams_start c chunks gs :
  fresh (c_parser c) → parse_pos (c_parser c) = 0 → hp_ok (c_pool c) → c_in c = Arrived <$> chunks →
  Forall (λ b, b ≠ []) chunks → fits (c_parser c) (concat chunks) → Forall get_ok gs →
  (∀ pages e, answers (keep_alive_timeout_ms (c_req c)) gs pages e → takes (c_sock c) (length pages)) →
  unparsed (c_parser c) ++ concat chunks = concat (print_get <$> gs) → streams c chunks gs.
Proof.
  intros Hfr Hpos Hok Hin Hch Hfit Hgs Ht Hu. pose proof (fr_ok _ Hfr) as Hps.
  split; try done. destruct gs as [|g gs].
  - apply app_nil in Hu as [Hu Hc]. apply (f_equal length) in Hu.
    rewrite (unparsed_length _ (pok_wf _ Hps)) in Hu. simpl in Hu. split_and!; [|done|lia|by destruct Hfr].
    destruct Hch as [|b chunks Hb _]; [done|]. by destruct b.
  - apply Forall_cons in Hgs as [Hg Hgs]. rewrite fmap_cons in Hu. cbn [concat] in Hu.
    destruct (fresh_parses pool_supplies (feed c (concat chunks)) g (concat (print_get <$> gs)))
      as (c2 & E & Hh & Hrest); [by apply fresh_recv|done|done| |by exists c2].
    change (c_parser (feed c (concat chunks))) with (recv (c_parser c) (concat chunks)).
    by rewrite unparsed_recv by (done || by destruct Hps).
Qed.

(** The read at the head of a turn, when a request is to come. *)
Lemma streams_input c chunks g gs :
  streams c chunks (g :: gs) →
  ∃ c1 chunks1, read_input c = Input c1 ∧ streams c1 chunks1 (g :: gs) ∧
    parse_pos (c_parser c1) < last (c_parser c1) ∧ input_left c1 ≤ input_left c ∧
    c_sock c1 = c_sock c ∧ keep_alive_timeout_ms (c_req c1) = keep_alive_timeout_ms (c_req c) ∧
    request_timeout_ms (c_req c1) = request_timeout_ms (c_req c).
Proof.
  intros Hs. pose proof Hs as [Hps Hok Hin Hch Hfit Hgs Ht (c2 & E & Hh & Hu)].
  pose proof Hps as [[Hsz Hc Hl _] _ _]. unfold read_input. cbv zeta.
  destruct (Nat.leb_spec (last (c_parser c)) (parse_pos (c_parser c))) as [Hle|Hlt].
  2: { exists c, chunks. split_and!; done || lia. }
  destruct chunks as [|b chunks].
  { exfalso. cbn [concat] in E. rewrite feed_nil in E.
    pose proof (parse_request_spec c Hps Hok) as Hspec. rewrite E in Hspec.
    destruct Hspec as (_ & _ & _ & Hpos). lia. }
  apply Forall_cons in Hch as [Hb Hch]. cbn [concat] in *.
  assert (0 < length b) as Hpos by (destruct b; simpl; [done|lia]).
  pose proof Hfit as Hfit'. unfold fits in Hfit'. rewrite length_app in Hfit'.
  rewrite (proj2 (Nat.leb_gt _ _)) by lia. rewrite Hin, fmap_cons. cbn [read].
  rewrite (take_ge b) by lia. rewrite (proj2 (Nat.ltb_ge _ _)) by lia.
  destruct b as [|x b]; [done|]. destruct (fits_app _ (x :: b) _ Hfit) as [Hf1 Hf2].
  exists (feed (c <| c_in := Arrived <$> chunks |>) (x :: b)), chunks.
  split; [reflexivity|]. split; [|split; [|split; [|done]]].
  - split; try done; [by apply recv_parser_ok|].
    exists (c2 <| c_in := Arrived <$> chunks |>). split; [|done].
    rewrite feed_feed by done.
    change (feed (c <| c_in := ?p |>) ?b) with ((feed c b) <| c_in := p |>).
    by rewrite parse_request_in, E.
  - change (c_parser (feed (c <| c_in := Arrived <$> chunks |>) (x :: b))) with (recv (c_parser c) (x :: b)).
    simpl. lia.
  - unfold input_left. change (c_parser (feed (c <| c_in := Arrived <$> chunks |>) (x :: b))) with (recv (c_parser c) (x :: b)).
    change (c_in (feed (c <| c_in := Arrived <$> chunks |>) (x :: b))) with (Arrived <$> chunks).
    rewrite Hin, fmap_cons. simpl. lia.
Qed.

(** The effects with which answers that end with [e] leave the connection. *)
Definition final_effects (ms request_ms : Z) (e : ending) : list effect :=
  match e with
  | Then true => [ArmConn EPOLLIN; AddTimer ms]
  | Then false => [CloseConn]
  | Stream _ => [ArmCgi; AddTimer request_ms]
  end.

(** The script that the answers end with runs, and none of its output has been read. *)
Definition script_started (e : ending) c : Prop :=
  match e with
  | Stream output => cgi_active (r_cgi (c_req c)) = true ∧ cgi_out (r_cgi (c_req c)) = Some output
  | Then _ => True
  end.

Lemma runs_started c output c' es :
  runs_script spawn_env c output c' es →
  es = [ArmCgi; AddTimer (request_timeout_ms (c_req c))] ∧
  cgi_active (r_cgi (c_req c')) = true ∧ cgi_out (r_cgi (c_req c')) = Some output.
Proof.
  intros [_ _ _ _ _ Hs]. unfold zv_cgi_start in Hs. destruct (negb _); [done|]. injection Hs as Eg <-.
  rewrite <-Eg. by split.
Qed.

(** The request is complete: it is answered, and the rest goes on. *)
Lemma streams_done c c1 c2 chunks g gs :
  read_input c = Input c1 → parse_request c1 = Some (POk c2) →
  streams c1 chunks (g :: gs) → holds g (c_parser c2) → parsed_ok (c_parser c2) → hp_ok (c_pool c2) →
  parse_frame c1 c2 → unparsed (c_parser c2) ++ concat chunks = concat (print_get <$> gs) →
  ∃ r, may_answer (keep_alive_timeout_ms (c_req c1)) g r ∧
  match r with
  | Page page true =>
      ∃ c4, turn_c c = Some (Continue c4) ∧ streams c4 chunks gs ∧ wire (c_sock c4) = wire (c_sock c1) ++ page ∧
        keep_alive_timeout_ms (c_req c4) = keep_alive_timeout_ms (c_req c1) ∧
        request_timeout_ms (c_req c4) = request_timeout_ms (c_req c1) ∧ input_left c4 = input_left c2
  | Page page false =>
      ∃ c4, turn_c c = Some (Leave c4 [CloseConn]) ∧ wire (c_sock c4) = wire (c_sock c1) ++ page
  | Runs output =>
      ∃ c4, turn_c c = Some (Leave c4 [ArmCgi; AddTimer (request_timeout_ms (c_req c1))]) ∧
        wire (c_sock c4) = wire (c_sock c1) ∧
        cgi_active (r_cgi (c_req c4)) = true ∧ cgi_out (r_cgi (c_req c4)) = Some output
  end.
Proof.
  intros Er Ep Hs Hh Hps2 Hok2 (Ein & Esock & _ & _ & Ebuf & Elast & Ems & Erq) Hu.
  pose proof (st_takes _ _ _ Hs) as Ht.
  assert (get_ok g) as Hg by exact (Forall_inv (st_gs _ _ _ Hs)).
  unfold request_turn. rewrite Er, Ep. cbn [mbind option_bind].
  destruct (serve_prepares ROOT stat open realpath fmt_time strptime uninit spawn_env script fmt_time_short
    sizes_small c2 g Hh Hg Hok2) as (r & Ha & Hserve). rewrite Ems in Ha. exists r. split; [exact Ha|].
  destruct r as [page keep|output].
  2: { destruct Hserve as (c4 & es & -> & Hrun). cbn [mbind option_bind].
       destruct (runs_started _ _ _ _ Hrun) as (-> & Hact & Hout). exists c4. rewrite Erq. split; [done|].
       split; [|by split]. by rewrite (rs_sock _ _ _ _ _ Hrun), Esock. }
  pose proof (λ n, page_answers _ _ _ _ _ _ _ _ _ c2 page keep n Hserve) as Hpage. rewrite Esock in Hpage.
  destruct keep.
  - set (n := length (Sockets.script (c_sock c1)) - length page).
    assert (takes (c_sock c1) (length page + n)) as Hn.
    { pose proof (plain_answers_spec ROOT stat open realpath fmt_time strptime uninit spawn_env script
        (keep_alive_timeout_ms (c_req c1)) gs) as Hgs.
      destruct (Ht _ _ (Answers_page _ _ _ _ _ _ _ _ _ _ _ _ _ _ _ Ha Hgs)) as [Hw Hl]. rewrite length_app in Hl. split; [done|lia]. }
    destruct (Hpage _ Hn) as (res & c3 & ps & -> & [Ein3 Hok3 Eps Ems3 Erq3 Ew3 Ewire3] & Ht3 & [[_ ?]|[-> ->]]); [done|].
    cbn [mbind option_bind]. unfold request_done. pose proof Hps2 as [[Hsz Hc Hl Hm] Hset Hst].
    assert (parsed_ok (c_parser c3)) as Hps3 by (rewrite Eps; by split).
    destruct (compact_ok (c_parser c3) Hps3) as [Hps4 Hleft4].
    assert (unparsed (compact (c_parser c3)) = unparsed (c_parser c2)) as Eun.
    { rewrite compact_unparsed by apply Hps3. by rewrite Eps. }
    rewrite (proj2 (Nat.ltb_ge _ _)) by (rewrite Eps; exact Hc). cbv zeta.
    set (c4 := set_parser c3 (compact (c_parser c3))).
    change (writing (c_out c4)) with (writing (c_out c3)). rewrite Ew3. cbn [negb].
    exists c4. split; [done|].
    assert (keep_alive_timeout_ms (c_req c4) = keep_alive_timeout_ms (c_req c1)) as Ems4 by exact (eq_trans Ems3 Ems).
    split; [|split; [by rewrite <-Esock|split; [exact Ems4|split; [exact (eq_trans Erq3 Erq)|]]]].
    + assert (fresh (compact (c_parser c3))) as Hfr by (split; try done; unfold compact; by rewrite Eps; destruct (0 <? _)).
      apply streams_start; try done; try apply Hs.
      * change (c_in c4) with (c_in c3). rewrite Ein3, Ein. apply Hs.
      * pose proof (st_fits _ _ _ Hs) as Hfit. unfold fits in *.
        assert (last (compact (c_parser c3)) ≤ last (c_parser c1)) as Hle; [|unfold c4; rewrite set_parser_same; lia].
        rewrite <-Elast. change (last (c_parser c2)) with (last (no_headers (c_parser c2))). rewrite <-Eps.
        apply compact_last.
      * apply (Forall_inv_tail (st_gs _ _ _ Hs)).
      * intros pages e Hgs2. rewrite Ems4 in Hgs2.
        destruct (Ht _ _ (Answers_page _ _ _ _ _ _ _ _ _ _ _ _ _ _ _ Ha Hgs2)) as [_ Hlen]. rewrite length_app in Hlen.
        destruct Ht3 as [Hw3 Hl3]. split; [done|]. change (c_sock c4) with (c_sock c3). unfold n in Hl3. lia.
      * unfold c4. by rewrite set_parser_same, Eun.
    + unfold input_left. change (c_in c4) with (c_in c3). rewrite Ein3. unfold c4.
      rewrite set_parser_same, Hleft4. by rewrite Eps.
  - assert (takes (c_sock c1) (length page + 0)) as Hn.
    { rewrite Nat.add_0_r. apply (Ht _ (Then false)). by apply Answers_last. }
    destruct (Hpage _ Hn) as (res & c3 & ps & -> & [Ein3 Hok3 Eps Ems3 Erq3 Ew3 Ewire3] & Ht3 & Hres).
    cbn [mbind option_bind]. destruct Hres as [[-> _]|[-> Eps']].
    + eexists. split; [reflexivity|]. by rewrite <-Esock.
    + unfold request_done. rewrite (proj2 (Nat.ltb_ge _ _)).
      2: { rewrite Eps, Eps'. apply Hps2. }
      cbv zeta. change (writing (c_out (set_parser c3 _))) with (writing (c_out c3)). rewrite Ew3. cbn [negb].
      eexists. split; [reflexivity|]. by rewrite <-Esock.
Qed.

Lemma streams_loop k c chunks gs :
  input_left c < k → streams c chunks gs →
  let ms := keep_alive_timeout_ms (c_req c) in
  ∃ c' pages e, answers ms gs pages e ∧
    (∀ fuel, input_left c < fuel → loop fuel c = Some (c', final_effects ms (request_timeout_ms (c_req c)) e)) ∧
    wire (c_sock c') = wire (c_sock c) ++ pages ∧ script_started e c'.
Proof.
  cbv zeta. revert c chunks gs. induction k as [|k IH]; intros c chunks gs Hk Hs; [lia|].
  destruct gs as [|g gs].
  { destruct Hs as [Hps Hok Hin _ _ _ _ (-> & Epos & El & Eph)].
    exists (c <| c_in := [] |>), [], (Then true). split; [constructor|]. rewrite app_nil_r. split; [|done].
    intros [|fuel] Hf; [lia|].
    cbn [request_loop]. unfold request_turn, read_input. cbv zeta. rewrite Epos, El, Hin.
    cbn [Nat.leb fmap list_fmap read]. rewrite (proj2 (Nat.leb_gt _ _)) by (unfold MAX_BUF; lia).
    cbn [negb]. rewrite Z.eqb_refl. cbn [negb mbind option_bind]. unfold leave, wait_readable. cbv zeta.
    change (c_parser (c <| c_in := [] |>)) with (c_parser c). by rewrite El, Eph. }
  destruct (streams_input c chunks g gs Hs) as (c1 & chunks1 & Er & Hs1 & Hlt1 & Hleft1 & Es1 & Ems1 & Erq1).
  pose proof Hs1 as [Hps1 Hok1 Hin1 Hch1 Hfit1 Hgs1 Ht1 (c2 & E & Hh & Hu)].
  rewrite <-Es1, <-Ems1, <-Erq1.
  destruct (parse_request_feed c1 (concat chunks1) c2 Hps1 Hok1 Hfit1 E)
    as [(c3 & E3 & Hp3 & F3 & Hps3 & Hok3 & Hpos3)|(c3 & E3 & ->)].
  - destruct F3 as (Ein3 & Es3 & _ & _ & _ & El3 & Ems3 & Erq3).
    assert (input_left c3 < input_left c1) as Hleft3 by (unfold input_left; rewrite Ein3; lia).
    destruct (IH c3 chunks1 (g :: gs)) as (c' & pages & e & Ha & Hl & Hw); [lia| |].
    { split; try done; [congruence|unfold fits; by rewrite El3|by rewrite Es3, Ems3|by exists c2]. }
    exists c', pages, e. rewrite Ems3, Es3, Erq3 in *. split; [done|]. split; [|done]. intros [|fuel] Hf; [lia|].
    rewrite <-(Hl fuel) by lia. apply loop_round. unfold goes_round, request_turn. by rewrite Er, E3.
  - pose proof (parse_request_spec c1 Hps1 Hok1) as Hspec. rewrite E3 in Hspec.
    destruct Hspec as (F3 & Hok3 & Hps3 & Hpos3).
    change (c_parser (feed c3 (concat chunks1))) with (recv (c_parser c3) (concat chunks1)) in Hh, Hu.
    assert (fits (c_parser c3) (concat chunks1)) as Hfit3.
    { destruct F3 as (_ & _ & _ & _ & _ & El & _). unfold fits. by rewrite El. }
    rewrite unparsed_recv in Hu by (done || by destruct Hps3).
    destruct (streams_done c c1 c3 chunks1 g gs Er E3 Hs1 (proj1 (holds_recv _ _ _ Hps3 Hfit3) Hh) Hps3 Hok3 F3 Hu) as (r & Ha & Hd).
    destruct r as [page [|]|output].
    + destruct Hd as (c4 & Eturn & Hs4 & Ew4 & Ems4 & Erq4 & Eleft4).
      destruct F3 as (Ein3 & _ & _ & _ & _ & El3 & _).
      assert (input_left c4 < input_left c1) as Hleft4 by (rewrite Eleft4; unfold input_left; rewrite Ein3; lia).
      destruct (IH c4 chunks1 gs) as (c' & pages & e & Hgs & Hl & Hw & Hstart); [lia|done|]. rewrite Ems4, ?Erq4 in *.
      exists c', (page ++ pages), e. split; [by eapply Answers_page|].
      split; [|split; [by rewrite Hw, Ew4, <-app_assoc|done]]. intros [|fuel] Hf; [lia|].
      rewrite <-(Hl fuel) by lia. by apply loop_round.
    + destruct Hd as (c4 & Eturn & Ew4). exists c4, page, (Then false). split; [by apply Answers_last|]. split; [|done].
      intros [|fuel] Hf; [lia|]. cbn [request_loop]. by rewrite Eturn.
    + destruct Hd as (c4 & Eturn & Ew4 & Hrun). exists c4, [], (Stream output). split; [by apply Answers_script|].
      rewrite app_nil_r. split; [|done].
      intros [|fuel] Hf; [lia|]. cbn [request_loop]. by rewrite Eturn.
Qed.

(** C3. The server answers every request, in order and exactly once: when a client sends on a
    fresh connection, in any pieces, requests of the grammar, fewer than MAX_BUF bytes in
    all, its socket takes the answers, and no allocation fails, [do_request] returns and
    the client has received the answers of the abstract server (the file announced with
    its size, or the page of an error), byte for byte, up to and including the first one
    after which the connection is not kept, or up to the first request that runs a script;
    then the connection is closed, waits for the next request under the keep-alive timeout,
    or waits for the output of that script.  A file that cannot be opened although its mode
    says so is the one request that gets no answer: the connection is closed.  A request
    with an If-Modified-Since header may be answered 304, when its date is the number in
    uninitialised memory; every other request has one answer. *)
Theorem requests_answered c chunks gs :
  fresh (c_parser c) → parse_pos (c_parser c) = 0 → last (c_parser c) = 0 → hp_ok (c_pool c) →
  c_in c = Arrived <$> chunks → Forall (λ b, b ≠ []) chunks → length (concat chunks) < MAX_BUF →
  concat chunks = concat (print_get <$> gs) → Forall get_ok gs →
  let ms := keep_alive_timeout_ms (c_req c) in
  (∀ pages e, answers ms gs pages e → takes (c_sock c) (length pages)) →
  ∃ c' pages e, answers ms gs pages e ∧
    (∀ fuel, input_left c < fuel →
      do_request ROOT stat open realpath fmt_time strptime uninit true spawn_env script fuel c =
      Some (c', DelTimer :: final_effects ms (request_timeout_ms (c_req c)) e)) ∧
    wire (c_sock c') = wire (c_sock c) ++ pages ∧ script_started e c'.
Proof.
  intros Hfr Hpos Hlast Hok Hin Hch Hlen Hgs Hgok ms Ht.
  destruct (streams_loop (S (input_left c)) c chunks gs) as (c' & pages & e & Ha & Hl & Hw); [lia| |].
  - apply streams_start; try done; [unfold fits; lia|].
    unfold unparsed. by rewrite Hpos, Hlast, slice_nil.
  - exists c', pages, e. split; [exact Ha|]. split; [|exact Hw]. intros fuel Hf. unfold do_request. by rewrite Hl.
Qed.
End pipeline.

(** ** Concrete input *)

(** ["GET /a.css HTTP/1.1"], then ["GET /b.txt HTTP/1.1"] with ["Connection: close"], in three
    pieces cut in the middle of each. *)
Definition demo_get1 : get_request :=
  mk_get (mk_line [] (str "GET") 0 (str "/a.css") 0 (str "1") (str "1") 0 true)
    [mk_hline (str "Host") 0 1 (str "a")].
Definition demo_get2 : get_request :=
  mk_get (mk_line [] (str "GET") 0 (str "/b.txt") 0 (str "1") (str "1") 0 true)
    [mk_hline (str "Connection") 0 1 (str "close")].

Definition demo_stream : list Z := concat (print_get <$> [demo_get1; demo_get2]).
Definition demo_chunks : list (list Z) :=
  [take 10 demo_stream; take 50 (drop 10 demo_stream); drop 60 demo_stream].

Definition demo_pipelined : conn nat :=
  open_conn (Arrived <$> demo_chunks) (replicate 1000 (Accept 1)) 5.

Ltac concrete_chars := repeat constructor; done.

Lemma demo_get1_ok : get_ok demo_get1.
Proof.
  split; cbn [demo_get1 g_line g_headers].
  - split; simpl; try concrete_chars.
    + exists (str "a.css"). split; [done|concrete_chars].
    + exists "1"%ch, []. by split_and!.
  - split; [|done]. constructor; [|done]. split; simpl; do 2 eexists; split_and!; done || concrete_chars.
  - constructor; [|done]. split; concrete_chars.
  - intros [t Ht]. discriminate Ht.
Qed.

Lemma demo_get2_ok : get_ok demo_get2.
Proof.
  split; cbn [demo_get2 g_line g_headers].
  - split; simpl; try concrete_chars.
    + exists (str "b.txt"). split; [done|concrete_chars].
    + exists "1"%ch, []. by split_and!.
  - split; [|done]. constructor; [|done]. split; simpl; do 2 eexists; split_and!; done || concrete_chars.
  - constructor; [|done]. split; concrete_chars.
  - intros [t Ht]. discriminate Ht.
Qed.

Abbreviation demo_plain :=
  (plain_answers (Some demo_root) demo_stat demo_open demo_http_realpath demo_time demo_spawn (λ _ _ _, []) 5000 [demo_get1; demo_get2]).

Lemma demo_answers_length : length demo_plain.1 ≤ 1000.
Proof. apply Nat.leb_le. vm_compute. reflexivity. Qed.

(** No text is a date here, so that every request has one answer. *)
Lemma no_dates (gs : list get_request) : Forall (λ g, ¬ names_date (λ _, None) (g_kvs g) 0) gs.
Proof. apply Forall_true. intros g (kv & tail & _ & _ & [=]). Qed.

Lemma demo_sizes f sb : demo_stat f = Some sb → (Z.of_nat (st_size sb) < 2 ^ 63)%Z.
Proof.
  unfold demo_stat. intros Hs. destruct (strcmp_eq f (str "./html/a.css")); [by injection Hs as <-|].
  destruct (strcmp_eq f (str "./html/cgi-bin/hello")); [|done]. by injection Hs as <-.
Qed.

Lemma demo_stream_pieces : concat demo_chunks = concat (print_get <$> [demo_get1; demo_get2]).
Proof. vm_compute. reflexivity. Qed.

Lemma demo_pool_supplies (p : nat) : hp_ok p → is_Some (hp_alloc p).
Proof. intros _. simpl. eauto. Qed.

Lemma demo_time_short t : length (demo_time t) < SHORTLINE.
Proof. apply Nat.ltb_lt. vm_compute. reflexivity. Qed.

Lemma requests_answered_witness :
  ∃ c' : conn nat, demo_do_request 200 demo_pipelined = Some (c', [DelTimer; CloseConn]) ∧
    wire (c_sock c') = demo_plain.1.
Proof.
  assert (fresh (c_parser demo_pipelined)) as Hfr by (split; done || apply demo_conn_ok).
  destruct (requests_answered (Some demo_root) demo_stat demo_open demo_http_realpath demo_time (λ _, None) 0 demo_spawn
    (λ _ _ _, []) demo_pool_supplies demo_time_short demo_sizes
    demo_pipelined demo_chunks [demo_get1; demo_get2] Hfr eq_refl eq_refl) as (c' & pages & e & Ha & Hl & Hw & _).
  - unfold hp_ok. simpl. unfold count_max. lia.
  - reflexivity.
  - apply (bool_decide_unpack _). vm_compute. exact I.
  - rewrite demo_stream_pieces. apply Nat.ltb_lt. vm_compute. reflexivity.
  - apply demo_stream_pieces.
  - constructor; [apply demo_get1_ok|]. constructor; [apply demo_get2_ok|done].
  - intros pages e Ha. pose proof (answers_plain _ _ _ _ _ _ _ _ _ _ _ _ _ (no_dates _) Ha) as Hp.
    change (keep_alive_timeout_ms (c_req demo_pipelined)) with 5000%Z in Hp.
    pose proof demo_answers_length as Hlen. rewrite Hp in Hlen. split; [apply Forall_replicate; by exists 0|].
    change (Sockets.script (c_sock demo_pipelined)) with (replicate 1000 (Accept 1)). rewrite length_replicate. exact Hlen.
  - pose proof (answers_plain _ _ _ _ _ _ _ _ _ _ _ _ _ (no_dates _) Ha) as Hp.
    assert (demo_plain.2 = Then false) as He by (vm_compute; reflexivity).
    change (keep_alive_timeout_ms (c_req demo_pipelined)) with 5000%Z in Hp. rewrite Hp in He. simpl in He. subst e.
    exists c'. split; [apply (Hl 200); apply Nat.ltb_lt; vm_compute; reflexivity|]. rewrite Hp. exact Hw.
Defined.
