(* ===== verification/Server.v ===== *)
(** * The life of a connection (worker.c)

    A connection from [accept] to [close], event by event: the loop of [zv_worker_run]
    calls the handler of the descriptor that epoll reports, or of the timer that expires,
    and each handler arms what is to be waited for.  Descriptors are armed for one event
    (EPOLLONESHOT).  A socket is inherited by the scripts that are started while it is open,
    so that closing it need not end its registration: epoll forgets a registration with the
    last descriptor of the socket. *)
From S2P Require Import Prelude CString HeaderPool HttpParse RequestLine HeaderBlock Path Sockets Output Cgi CgiStream Scripts Request Http Serve.

(** [cl_armed] and [cl_pipe] say what the socket and the pipe of the script are armed for;
    [cl_timer] is the node in the queue of timers.  On a closed connection [cl_armed] is the
    registration that is left, which can still be reported while a script holds the socket. *)
Record client {P : Type} := mk_client {
  cl_conn : conn P;
  cl_armed : option Z;
  cl_pipe : bool;
  cl_timer : option Z;
  cl_open : bool;
}.
Arguments client P : clear implicits.
#[export] Instance eta_client {P} : Eta (client P) := fun cl =>
  mk_client P (cl_conn cl) (cl_armed cl) (cl_pipe cl) (cl_timer cl) (cl_open cl).

(** What epoll reports, with the bytes that can be read and the answers of the socket. *)
Inductive event :=
  | Ev_in (input : pipe) (answers : list reply)
  | Ev_out (answers : list reply)
  | Ev_cgi
  | Ev_error
  | Ev_timer.

Section effects.
Context {P : Type}.
Implicit Types (cl : client P).

(** An effect on the descriptors and the timer.  [None]: a timer is deleted that is not
    there (zv_del_timer would dereference NULL), set twice (the first node would be
    orphaned), or left behind on a closed connection (it would fire on a request object
    given to another connection); or a closed connection is touched.  Closing leaves the
    registration of the socket as it is, and ends that of the pipe, which no script
    inherits (FD_CLOEXEC). *)
Definition perform (e : effect) cl : option (client P) :=
  if negb (cl_open cl) then None
  else
    match e, cl_timer cl with
    | DelTimer, Some _ => Some (cl <| cl_timer := None |>)
    | AddTimer ms, None => Some (cl <| cl_timer := Some ms |>)
    | ArmConn events, _ => Some (cl <| cl_armed := Some events |>)
    | ArmCgi, _ => Some (cl <| cl_pipe := true |>)
    | CloseConn, None => Some (cl <| cl_pipe := false |> <| cl_open := false |>)
    | _, _ => None
    end.

Fixpoint perform_all (es : list effect) cl : option (client P) :=
  match es with
  | [] => Some cl
  | e :: es' => cl ← perform e cl; perform_all es' cl
  end.

(** A connection is accepted: its request object is initialised, its socket armed, and
    the idle timer set. *)
Definition accept_client (keep_ms req_ms : Z) (old : request) (pool : P) : option (client P) :=
  let r := zv_init_request_t keep_ms req_ms old in
  perform_all [ArmConn EPOLLIN; AddTimer (keep_alive_timeout_ms r)]
    (mk_client P (mk_conn P r (mk_socket [] []) [] pool) None false None true).

(** A descriptor is armed for one event; the node of a timer that fires is removed. *)
Definition disarm (ev : event) cl : client P :=
  match ev with
  | Ev_in _ _ | Ev_out _ | Ev_error => cl <| cl_armed := None |>
  | Ev_cgi => cl <| cl_pipe := false |>
  | Ev_timer => cl <| cl_timer := None |>
  end.

(** The events that can happen: epoll reports a descriptor only if it is armed.  On a closed
    connection this is the registration that closing it left. *)
Definition enabled (ev : event) cl : Prop :=
  match ev with
  | Ev_in _ _ => cl_armed cl = Some EPOLLIN
  | Ev_out _ => cl_armed cl = Some EPOLLOUT
  | Ev_cgi => cl_pipe cl = true
  | Ev_error => is_Some (cl_armed cl)
  | Ev_timer => is_Some (cl_timer cl)
  end.
End effects.

(** The effects of a handler, on a connection known to be open with a timer. *)
Ltac run_effects Eo Et :=
  cbn [perform_all]; unfold perform; simpl; repeat (first [rewrite Eo|rewrite Et]; simpl).

Section server.
Context `{HeaderPool P}.
Variables (ROOT : option (list Z)) (stat : list Z → option file_stat) (open : list Z → option (list Z))
  (realpath : list Z → option (list Z)) (fmt_time : Z → list Z) (strptime : list Z → option Z)
  (uninit : Z) (malloc_ok : bool) (spawn_env : spawn)
  (script : list Z → list Z → option (list Z) → pipe).
Implicit Types (c : conn P) (cl : client P).

(** The handler of an event; [pool] is what the other connections have left of the header
    cache. *)
Definition handle (fuel : nat) (pool : P) (ev : event) c : option (conn P * list effect) :=
  let c := c <| c_pool := pool |> in
  match ev with
  | Ev_in input answers =>
      do_request ROOT stat open realpath fmt_time strptime uninit malloc_ok spawn_env script fuel
        (c <| c_in := input |> <| c_sock := mk_socket answers (wire (c_sock c)) |>)
  | Ev_out answers => do_write (c <| c_sock := mk_socket answers (wire (c_sock c)) |>)
  | Ev_cgi => cgi_readable c
  | Ev_error => let '(c, es) := close_conn c in Some (c, DelTimer :: es)
  | Ev_timer => Some (close_conn c)
  end.

Definition dispatch (fuel : nat) (pool : P) (ev : event) cl : option (client P) :=
  '(c, es) ← handle fuel pool ev (cl_conn cl);
  perform_all es (disarm ev cl <| cl_conn := c |>).

(** The events of a connection, one after the other. *)
Inductive runs : list event → client P → client P → Prop :=
  | Runs_nil cl : runs [] cl cl
  | Runs_cons ev evs fuel pool cl cl1 cl2 :
      enabled ev cl → hp_ok pool → dispatch fuel pool ev cl = Some cl1 → runs evs cl1 cl2 → runs (ev :: evs) cl cl2.

Lemma runs_one ev fuel pool cl cl' :
  enabled ev cl → hp_ok pool → dispatch fuel pool ev cl = Some cl' → runs [ev] cl cl'.
Proof. intros. eapply Runs_cons; [done..|]. constructor. Qed.

Lemma runs_nil_inv cl cl' : runs [] cl cl' → cl' = cl.
Proof. by inversion 1. Qed.

Lemma runs_cons_inv ev evs cl cl2 :
  runs (ev :: evs) cl cl2 →
  ∃ fuel pool cl1, enabled ev cl ∧ hp_ok pool ∧ dispatch fuel pool ev cl = Some cl1 ∧ runs evs cl1 cl2.
Proof. inversion 1; subst. by do 3 eexists. Qed.

Lemma runs_app evs1 evs2 cl1 cl2 cl3 : runs evs1 cl1 cl2 → runs evs2 cl2 cl3 → runs (evs1 ++ evs2) cl1 cl3.
Proof. induction 1 as [|ev evs fuel pool cl1 cl cl2 ? ? ? ? IH]; [done|]. intros Hr. eapply Runs_cons; [done..|by apply IH]. Qed.

(** The handlers do not look at the value of the timer, only the queue does. *)
Lemma perform_timer e cl cl' t :
  perform e cl = Some cl' → (is_Some t ↔ is_Some (cl_timer cl)) →
  ∃ t', perform e (cl <| cl_timer := t |>) = Some (cl' <| cl_timer := t' |>) ∧ (is_Some t' ↔ is_Some (cl_timer cl')).
Proof.
  unfold perform. simpl. destruct (negb (cl_open cl)); [done|].
  destruct cl as [c a p tm o]; simpl. intros Hp Ht.
  destruct e, tm, t; simplify_eq; simpl;
    try (exfalso; destruct Ht as [Ht1 Ht2]; (by destruct Ht1) || (by destruct Ht2)); by eexists.
Qed.

Lemma perform_all_timer es cl cl' t :
  perform_all es cl = Some cl' → (is_Some t ↔ is_Some (cl_timer cl)) →
  ∃ t', perform_all es (cl <| cl_timer := t |>) = Some (cl' <| cl_timer := t' |>) ∧ (is_Some t' ↔ is_Some (cl_timer cl')).
Proof.
  revert cl t. induction es as [|e es IH]; intros cl t; cbn [perform_all]; [intros [= ->]; by eauto|].
  destruct (perform e cl) as [cl1|] eqn:E; [|done]. cbn [mbind option_bind]. intros Hes Ht.
  destruct (perform_timer _ _ _ _ E Ht) as (t1 & -> & Ht1). cbn [mbind option_bind].
  destruct (IH cl1 t1 Hes Ht1) as (t' & Hes' & Ht'). by exists t'.
Qed.

Lemma dispatch_timer fuel pool ev cl cl' t :
  dispatch fuel pool ev cl = Some cl' → (is_Some t ↔ is_Some (cl_timer cl)) →
  ∃ t', dispatch fuel pool ev (cl <| cl_timer := t |>) = Some (cl' <| cl_timer := t' |>) ∧ (is_Some t' ↔ is_Some (cl_timer cl')).
Proof.
  unfold dispatch. change (cl_conn (cl <| cl_timer := t |>)) with (cl_conn cl).
  destruct (handle fuel pool ev (cl_conn cl)) as [[c es]|]; [|done]. cbn [mbind option_bind]. intros Hd Ht.
  destruct (perform_all_timer es _ _ (match ev with Ev_timer => None | _ => t end) Hd) as (t' & Hd' & Ht').
  { by destruct ev. }
  exists t'. split; [|done]. rewrite <-Hd'. by destruct ev.
Qed.

(** ** The events of a running script *)

(** What the handlers leave of a connection whose script goes on: it waits for the socket
    or for more output. *)
Definition script_waits c (es : list effect) : Prop :=
  es = [ArmConn EPOLLOUT; AddTimer (request_timeout_ms (c_req c))] ∨
  es = [ArmCgi; AddTimer (request_timeout_ms (c_req c))] ∧ is_Some (cgi_out (r_cgi (c_req c))).

Lemma closing_keeps c :
  c_sock (close_conn c).1 = c_sock c ∧ keep_alive_timeout_ms (c_req (close_conn c).1) = keep_alive_timeout_ms (c_req c).
Proof. done. Qed.

(** The socket takes more of the response; [said] has been sent of it. *)
Lemma script_writes c orig before said :
  wire (c_sock c) = before ++ said → stream_inv orig (r_cgi (c_req c)) said →
  ∃ c' es said', do_write c = Some (c', DelTimer :: es) ∧
    wire (c_sock c') = before ++ said' ∧ heard orig said' ∧
    keep_alive_timeout_ms (c_req c') = keep_alive_timeout_ms (c_req c) ∧
    (es = [CloseConn] ∧ (calm (c_sock c) → heard_out orig said') ∨
     stream_inv orig (r_cgi (c_req c')) said' ∧ same_rest (r_cgi (c_req c)) (r_cgi (c_req c')) ∧ script_waits c' es) ∧
    (willing (c_sock c) → length (cgi_pending (r_cgi (c_req c))) ≤ length (Sockets.script (c_sock c)) →
     if cgi_eof (r_cgi (c_req c)) then es = [CloseConn] ∧ said' = said ++ cgi_pending (r_cgi (c_req c))
     else es = [ArmCgi; AddTimer (request_timeout_ms (c_req c))]) ∧
    (∀ t, es = [ArmCgi; AddTimer t] → backpressure (r_cgi (c_req c')) = false).
Proof.
  intros Ew Hinv. unfold do_write. pose proof Hinv as (Hwf & Ha & _). rewrite Ha.
  destruct (writable_loop_spec (S (length (Sockets.script (c_sock c)))) (r_cgi (c_req c)) (c_sock c))
    as (rc & g & es & s & E & W & S & Hw & Hrc); [lia|done|].
  unfold do_write_cgi, zv_cgi_on_client_writable. rewrite Ha, E. cbn [mbind option_bind].
  destruct (writable_loop_wire _ _ _ _ _ _ _ E) as [k Ek]. rewrite Ew, <-app_assoc in Ek.
  assert (cgi_pending (r_cgi (c_req c)) = k ++ cgi_pending g) as Epend.
  { rewrite Ek, Ew, <-!app_assoc in Hw. by apply app_inv_head, app_inv_head in Hw. }
  assert (stream_inv orig g (said ++ k)) as Hinv'.
  { eapply inv_writable; [exact Hinv|done|done|]. by rewrite Epend, <-app_assoc. }
  pose proof S as (_ & Eout & Eeof & _). pose proof (inv_heard _ _ _ Hinv') as Hheard.
  assert (willing (c_sock c) → length (cgi_pending (r_cgi (c_req c))) ≤ length (Sockets.script (c_sock c)) →
    rc = 0%Z ∨ rc = 2%Z) as Hlive.
  { intros Hwill Hlen. exact (writable_loop_willing _ _ _ _ _ _ _ Hwf Hwill Hlen E). }
  destruct Hrc as [(-> & -> & He & Hnil)|[(-> & -> & _)|[(-> & -> & He & Hbody)|(-> & ->)]]]; cbn [Z.eqb Pos.eqb app].
  - exists (close_conn ((set_cgi c g) <| c_sock := s |>)).1, [CloseConn], (said ++ k). do 4 (split; [done|]). rewrite He. split.
    + left. split; [done|]. intros _. eapply inv_heard_out; [exact Hinv'|congruence|done].
    + split; [|done]. intros _ _. split; [done|]. by rewrite Epend, Hnil, app_nil_r.
  - exists ((set_cgi c g) <| c_sock := s |>). eexists _, (said ++ k). do 4 (split; [done|]). split.
    + right. split; [done|]. split; [done|]. by left.
    + split; [|done]. intros Hwill Hlen. by destruct (Hlive Hwill Hlen).
  - destruct (inv_out_open _ _ _ Hinv He) as [p Hop]. rewrite Hop. cbn [bool_decide app].
    exists ((set_cgi c g) <| c_sock := s |>). eexists _, (said ++ k). do 4 (split; [done|]). rewrite He. split.
    + right. split; [done|]. split; [done|]. right. split; [done|]. simpl. by rewrite Eout, Hop.
    + split; [done|]. intros t _. unfold backpressure. simpl. by rewrite Hbody.
  - exists (close_conn ((set_cgi c g) <| c_sock := s |>)).1, [CloseConn], (said ++ k). do 4 (split; [done|]). split.
    + left. split; [done|]. intros Hc. by destruct (writable_loop_calm _ _ _ _ _ _ _ Hc E).
    + split; [|done]. intros Hwill Hlen. by destruct (Hlive Hwill Hlen).
Qed.

(** The pipe has more of the output; a script that behaves is not given up. *)
Lemma script_reads c orig said :
  stream_inv orig (r_cgi (c_req c)) said → is_Some (cgi_out (r_cgi (c_req c))) →
  ∃ c' es, cgi_readable c = Some (c', DelTimer :: es) ∧ c_sock c' = c_sock c ∧
    keep_alive_timeout_ms (c_req c') = keep_alive_timeout_ms (c_req c) ∧
    (es = [CloseConn] ∧ ¬ tame orig (r_cgi (c_req c)) ∨
     stream_inv orig (r_cgi (c_req c')) said ∧
       (tame orig (r_cgi (c_req c)) → tame orig (r_cgi (c_req c'))) ∧ script_waits c' es) ∧
    (flows (r_cgi (c_req c)) → backpressure (r_cgi (c_req c)) = false → es ≠ [CloseConn] →
     flows (r_cgi (c_req c')) ∧ left_to_read (r_cgi (c_req c')) < left_to_read (r_cgi (c_req c)) ∧
     (∀ t, es = [ArmCgi; AddTimer t] → backpressure (r_cgi (c_req c')) = false)).
Proof.
  intros Hinv [p Hp]. pose proof Hinv as (_ & Hact & _). unfold cgi_readable.
  destruct (stdout_loop_spec (S (S (pipe_size p))) (request_timeout_ms (c_req c)) orig
    (r_cgi (c_req c)) said p) as (g & es & E & Hes); [lia|done|done|].
  pose proof (λ Ht, stdout_loop_tame _ _ _ _ _ _ _ _ Hinv Ht Hp E) as Htame.
  pose proof (λ Hbp Hend, stdout_loop_moves _ _ _ _ _ _ _ _ Hinv Hp Hbp Hend E) as Hmoves.
  unfold zv_cgi_on_stdout_ready. rewrite Hp, Hact, E. cbn [mbind option_bind].
  destruct Hes as [->|(Hinv' & Hes)].
  - eexists _, _. split; [reflexivity|]. do 2 (split; [done|]). split; [|done]. left. split; [done|]. intros Ht. by destruct (Htame Ht).
  - exists (set_cgi c g), es. split; [|do 2 (split; [done|]); split; [right|]].
    + unfold after_handler. by destruct Hes as [->|[-> _]].
    + split; [done|]. split; [by intros [_ ?]%Htame|]. by destruct Hes as [->|[-> ?]]; [left|right].
    + intros Hfl Hbp Hne. unfold left_to_read at 2. rewrite Hp. apply Hmoves; [done|by apply Hfl|done].
Qed.

(** ** The invariant *)

Definition closed cl : Prop := cl_pipe cl = false ∧ cl_timer cl = None.

(** Closing it left no registration. *)
Definition forgotten cl : Prop := cl_open cl = false → cl_armed cl = None.

(** The script of the connection runs; the bytes sent for it are the last ones. *)
Definition cgi_running c : Prop :=
  ∃ orig w0 w, wire (c_sock c) = w0 ++ w ∧ stream_inv orig (r_cgi (c_req c)) w.

Inductive client_state cl : Prop :=
  | Waiting_input :
      cl_armed cl = Some EPOLLIN → cl_pipe cl = false → parser_ok (c_parser (cl_conn cl)) →
      r_cgi (c_req (cl_conn cl)) = init_cgi → client_state cl
  | Waiting_output :
      cl_armed cl = Some EPOLLOUT → cl_pipe cl = false → offset_ok (c_out (cl_conn cl)) →
      (keep_alive (c_out (cl_conn cl)) = true → parser_ok (c_parser (cl_conn cl))) →
      r_cgi (c_req (cl_conn cl)) = init_cgi → client_state cl
  | Script_output :
      cl_armed cl = Some EPOLLOUT → cl_pipe cl = false → cgi_running (cl_conn cl) → client_state cl
  | Script_input :
      cl_armed cl = None → cl_pipe cl = true → cgi_running (cl_conn cl) →
      is_Some (cgi_out (r_cgi (c_req (cl_conn cl)))) → client_state cl.

Definition client_ok cl : Prop :=
  if cl_open cl then is_Some (cl_timer cl) ∧ client_state cl else closed cl.

(** What the handlers of the descriptors leave. *)
Definition left_ok cl : Prop := client_ok cl ∧ forgotten cl.

Lemma left_open cl : cl_open cl = true → is_Some (cl_timer cl) → client_state cl → left_ok cl.
Proof. intros Eo Ht Hs. unfold left_ok, client_ok, forgotten. rewrite Eo. by split. Qed.

Lemma left_closed cl :
  cl_open cl = false → cl_armed cl = None → cl_pipe cl = false → cl_timer cl = None → left_ok cl.
Proof. intros Eo Ea Ep Et. unfold left_ok, client_ok, forgotten. by rewrite Eo. Qed.

Notation request c fuel :=
  (do_request ROOT stat open realpath fmt_time strptime uninit malloc_ok spawn_env script fuel c).
Notation round := (goes_round ROOT stat open realpath fmt_time strptime uninit malloc_ok spawn_env script).

(** What [do_request] leaves, on the descriptors and the timer. *)
Lemma request_effects c c' es cl ms :
  r_cgi (c_req c) = init_cgi →
  request_result ROOT stat realpath spawn_env script c c' es →
  cl_timer cl = Some ms → cl_pipe cl = false → cl_open cl = true →
  ∃ cl', perform_all (DelTimer :: es) (cl <| cl_armed := None |> <| cl_conn := c' |>) = Some cl' ∧ left_ok cl'.
Proof.
  intros Eg [_ Hres] Et Ep Eo. destruct Hres as [->|(_ & _ & [((-> & Hw & Ho) & Eg' & Hk)|[(Hps & Eg' & t & -> & _)|(c1 & Eg1 & _ & _ & _ & Hst)]])].
  - eexists. split; [run_effects Eo Et; reflexivity|]. by apply left_closed.
  - eexists. split; [run_effects Eo Et; reflexivity|]. apply left_open; [done|by eauto|].
    apply Waiting_output; try done. simpl. congruence.
  - eexists. split; [run_effects Eo Et; reflexivity|]. apply left_open; [done|by eauto|].
    apply Waiting_input; try done. simpl. congruence.
  - destruct Hst as (f & name & qs & _ & Hstart). rewrite Eg1, Eg in Hstart. unfold zv_cgi_start in Hstart.
    destruct (negb _); [done|]. injection Hstart as Hg <-.
    eexists. split; [run_effects Eo Et; reflexivity|]. apply left_open; [done|by eauto|].
    assert (stream_inv (kept [] (script f name qs)) (r_cgi (c_req c')) []) as Hinv.
    { destruct (start_ok 0 (script f name qs)) as (Hinv & _). by rewrite <-Hg. }
    apply Script_input; simpl; try done; [|rewrite <-Hg; by eauto].
    exists (kept [] (script f name qs)), (wire (c_sock c')), []. by rewrite app_nil_r.
Qed.

(** [do_request] never returns from [cl]. *)
Definition request_spins cl (input : pipe) : Prop :=
  ∃ c0 c', c_parser c0 = c_parser (cl_conn cl) ∧ c_in c0 = input ∧ star round c0 c' ∧ spinning c'.

Lemma dispatch_in cl pool input answers :
  client_ok cl → cl_open cl = true → enabled (Ev_in input answers) cl → hp_ok pool →
  (∃ n cl', left_ok cl' ∧ ∀ fuel, n < fuel → dispatch fuel pool (Ev_in input answers) cl = Some cl') ∨
  (request_spins cl input ∧ ∀ fuel, handle fuel pool (Ev_in input answers) (cl_conn cl) = None).
Proof.
  unfold client_ok at 1. intros Hok Eo Ha Hp. rewrite Eo in Hok. destruct Hok as [[ms Et] Hst]. cbn [enabled] in Ha.
  destruct Hst as [_ Epipe Hps Eg|Ea _ _ _ _|Ea _ _|Ea _ _ _]; [|rewrite Ea in Ha; done..].
  unfold dispatch. cbn [handle disarm]. cbv zeta.
  match goal with |- context [request ?x _] => set (c0 := x) end.
  destruct (loop_spec ROOT stat open realpath fmt_time strptime uninit malloc_ok spawn_env script
    (S (input_left c0)) c0) as [(c' & es & Hres & Hl)|(c' & Hs & Hspin)]; [lia|done|done| |].
  - left. destruct (request_effects c0 c' es cl ms Eg Hres Et Epipe Eo) as (cl' & E & Hok').
    exists (input_left c0), cl'. split; [done|]. intros fuel Hf. unfold do_request. by rewrite Hl.
  - right. split; [by exists c0, c'|]. intros fuel. unfold do_request. by rewrite (star_loop _ _ _ _ _ _ _ _ _ _ c0 c').
Qed.

Lemma handle_mono fuel fuel' pool ev c r :
  handle fuel pool ev c = Some r → fuel ≤ fuel' → handle fuel' pool ev c = Some r.
Proof.
  intros Hh Hle. destruct ev; try exact Hh. cbn [handle] in Hh |- *. cbv zeta in Hh |- *. unfold do_request in Hh |- *.
  match type of Hh with context [request_loop _ _ _ _ _ _ _ _ _ _ _ ?x] => set (c0 := x) in * end.
  destruct (request_loop _ _ _ _ _ _ _ _ _ _ fuel c0) as [[c1 es]|] eqn:E; [|done].
  by rewrite (loop_mono _ _ _ _ _ _ _ _ _ _ _ _ _ _ E Hle).
Qed.

Lemma dispatch_mono fuel fuel' pool ev cl cl' :
  dispatch fuel pool ev cl = Some cl' → fuel ≤ fuel' → dispatch fuel' pool ev cl = Some cl'.
Proof.
  unfold dispatch. intros Hd Hle. destruct (handle fuel pool ev (cl_conn cl)) as [r|] eqn:E; [|done].
  by rewrite (handle_mono _ _ _ _ _ _ E Hle).
Qed.

(** The static response goes on. *)
Lemma write_effects c cl ms :
  r_cgi (c_req c) = init_cgi → offset_ok (c_out c) →
  (keep_alive (c_out c) = true → parser_ok (c_parser c)) →
  cl_timer cl = Some ms → cl_pipe cl = false → cl_open cl = true →
  ∃ c' es cl', do_write c = Some (c', es) ∧
    perform_all es (cl <| cl_armed := None |> <| cl_conn := c' |>) = Some cl' ∧ left_ok cl'.
Proof.
  intros Eg Ho Hk Et Ep Eo. unfold do_write. rewrite Eg. cbn [cgi_active init_cgi].
  destruct (try_send_spec (c_out c) (c_sock c) Ho) as (rc & out & s & -> & Ho' & (Ek & _) & _ & Hrc & _).
  cbn [mbind option_bind].
  destruct Hrc as [-> |[-> | ->]]; cbn [Z.ltb Z.eqb Z.compare Pos.eqb orb].
  - change (keep_alive (c_out (set_out ?c (reset_output ?o)))) with (keep_alive o).
    change (c_out ((set_out c out) <| c_sock := s |>)) with out.
    destruct (keep_alive out) eqn:E; cbn [negb].
    + eexists _, _, _. split; [reflexivity|]. split; [run_effects Eo Et; reflexivity|].
      apply left_open; [done|by eauto|]. apply Waiting_input; try done. by apply Hk.
    + eexists _, _, _. split; [reflexivity|]. split; [run_effects Eo Et; reflexivity|by apply left_closed].
  - eexists _, _, _. split; [reflexivity|]. split; [run_effects Eo Et; reflexivity|].
    apply left_open; [done|by eauto|]. apply Waiting_output; try done. intros E. apply Hk. rewrite <-Ek. exact E.
  - eexists _, _, _. split; [reflexivity|]. split; [run_effects Eo Et; reflexivity|by apply left_closed].
Qed.

(** The output of a script goes on. *)
Lemma script_effects before orig said c' es cl ms :
  stream_inv orig (r_cgi (c_req c')) said → wire (c_sock c') = before ++ said → script_waits c' es →
  cl_timer cl = Some ms → cl_open cl = true → cl_armed cl = None → cl_pipe cl = false → cl_conn cl = c' →
  ∃ cl', perform_all (DelTimer :: es) cl = Some cl' ∧ left_ok cl'.
Proof.
  intros Hinv Ew Hes Et Eo Ea Ep Ec.
  destruct Hes as [->|[-> Hout]]; (eexists; split; [run_effects Eo Et; reflexivity|]);
    (apply left_open; [done|by eauto|]); [apply Script_output|apply Script_input]; simpl; rewrite ?Ec; try done; by exists orig, before, said.
Qed.

Lemma dispatch_out cl fuel pool answers :
  client_ok cl → cl_open cl = true → enabled (Ev_out answers) cl →
  ∃ cl', dispatch fuel pool (Ev_out answers) cl = Some cl' ∧ left_ok cl'.
Proof.
  unfold client_ok at 1. intros Hok Eo Ha. rewrite Eo in Hok. destruct Hok as [[ms Et] Hst]. cbn [enabled] in Ha.
  destruct Hst as [Ea _ _ _|_ Epipe Ho Hk Eg|_ Epipe Hrun|Ea _ _ _]; [rewrite Ea in Ha; done| | |rewrite Ea in Ha; done];
    unfold dispatch; cbn [handle disarm]; cbv zeta; match goal with |- context [do_write ?x] => set (c0 := x) end.
  - destruct (write_effects c0 cl ms Eg Ho Hk Et Epipe Eo) as (c' & es & cl' & -> & E & Hok').
    by exists cl'.
  - destruct Hrun as (orig & before & said & Ew & Hinv).
    destruct (script_writes c0 orig before said Ew Hinv) as (c' & es & said' & -> & Ew' & _ & _ & Hes & _ & _).
    cbn [mbind option_bind]. destruct Hes as [[-> _]|(Hinv' & _ & Hes)].
    + eexists. split; [run_effects Eo Et; reflexivity|]. by apply left_closed.
    + by apply (script_effects before orig said' c' es _ ms).
Qed.

Lemma dispatch_cgi cl fuel pool :
  client_ok cl → cl_open cl = true → enabled Ev_cgi cl →
  ∃ cl', dispatch fuel pool Ev_cgi cl = Some cl' ∧ left_ok cl'.
Proof.
  unfold client_ok at 1. intros Hok Eo Ha. rewrite Eo in Hok. destruct Hok as [[ms Et] Hst]. cbn [enabled] in Ha.
  destruct Hst as [_ Ep _ _|_ Ep _ _ _|_ Ep _|Earm _ (orig & w0 & w & Ew & Hinv) [p Hp]];
    [rewrite Ep in Ha; done..|].
  unfold dispatch. cbn [handle disarm]. cbv zeta. match goal with |- context [cgi_readable ?x] => set (c0 := x) end.
  destruct (script_reads c0 orig w Hinv) as (c' & es & -> & Es & _ & Hes & _); [by exists p|].
  cbn [mbind option_bind]. destruct Hes as [[-> _]|(Hinv' & _ & Hes)].
  - eexists. split; [run_effects Eo Et; reflexivity|]. by apply left_closed.
  - apply (script_effects w0 orig w c' es _ ms); try done. by rewrite Es.
Qed.

Lemma dispatch_close cl fuel pool ev :
  client_ok cl → cl_open cl = true → ev = Ev_error ∨ ev = Ev_timer →
  ∃ cl', dispatch fuel pool ev cl = Some cl' ∧ client_ok cl' ∧ (ev ≠ Ev_timer → forgotten cl').
Proof.
  unfold client_ok at 1. intros Hok Eo Hev. rewrite Eo in Hok. destruct Hok as [[ms Et] _].
  destruct Hev as [->| ->]; unfold dispatch; cbn [handle disarm]; unfold close_conn, zv_http_close_conn, zv_free_request_t;
    (eexists; split; [run_effects Eo Et; reflexivity|]); [|done]. by split; [|intros _ _].
Qed.

Lemma timer_closes fuel pool cl cl' : dispatch fuel pool Ev_timer cl = Some cl' → cl_open cl' = false.
Proof.
  unfold dispatch. cbn [handle disarm]. unfold close_conn, zv_http_close_conn, zv_free_request_t. simpl.
  unfold perform. simpl. destruct (cl_open cl); [|done]. simpl. by intros [= <-].
Qed.

(** What may still be reported of a closed connection; its handler would delete the timer
    that is not there. *)
Lemma closed_reported cl ev :
  closed cl → enabled ev cl → is_Some (cl_armed cl) ∧ ∀ fuel pool, cl_open cl = false → dispatch fuel pool ev cl = None.
Proof.
  assert (∀ es cl0, cl_open cl0 = false → perform_all (DelTimer :: es) cl0 = None) as Hdel.
  { intros es cl0 Eo. cbn [perform_all]. unfold perform. by rewrite Eo. }
  intros (Ep & Et) He. split.
  - destruct ev; cbn [enabled] in He; [by eexists..|congruence|done|rewrite Et in He; by destruct He].
  - intros fuel pool Eo. unfold dispatch. destruct ev as [input answers|answers| | |]; cbn [handle enabled disarm] in *.
    + unfold do_request. destruct (request_loop _ _ _ _ _ _ _ _ _ _ _ _) as [[c es]|]; [|done]. cbn [mbind option_bind]. by apply Hdel.
    + unfold do_write. destruct (cgi_active _).
      * unfold do_write_cgi. destruct (zv_cgi_on_client_writable _ _) as [[[[rc g] es] s]|]; [|done]. cbn [mbind option_bind].
        unfold after_handler. by destruct (closes _); apply Hdel.
      * destruct (try_send _ _) as [[[rc out] s]|]; [|done]. cbn [mbind option_bind].
        destruct (rc =? 1)%Z; [by apply Hdel|]. destruct (_ || _); [|by apply Hdel].
        match goal with |- context [close_conn ?x] => destruct (close_conn x) as [c es] end. by apply Hdel.
    + congruence.
    + match goal with |- context [close_conn ?x] => destruct (close_conn x) as [c es] end. by apply Hdel.
    + rewrite Et in He. by destruct He.
Qed.

Lemma closed_stuck cl ev fuel pool cl' :
  client_ok cl → enabled ev cl → dispatch fuel pool ev cl = Some cl' → cl_open cl = true.
Proof.
  intros Hok He Hd. destruct (cl_open cl) eqn:Eo; [done|]. unfold client_ok in Hok. rewrite Eo in Hok.
  destruct (closed_reported cl ev Hok He) as [_ Hn]. by rewrite Hn in Hd.
Qed.

(** ** The header cache passes through the handlers *)

Lemma perform_all_conn es cl cl' : perform_all es cl = Some cl' → cl_conn cl' = cl_conn cl.
Proof.
  revert cl. induction es as [|e es IH]; intros cl; cbn [perform_all]; [by intros [= <-]|].
  destruct (perform e cl) as [cl1|] eqn:E; [|done]. intros ->%IH.
  unfold perform in E. destruct (negb (cl_open cl)); [done|]. destruct e, (cl_timer cl); by simplify_eq.
Qed.

(** An error and the timer end a connection as it is. *)
Lemma end_closes ev fuel pool cl cl' :
  ev = Ev_error ∨ ev = Ev_timer → dispatch fuel pool ev cl = Some cl' →
  cl_open cl' = false ∧ wire (c_sock (cl_conn cl')) = wire (c_sock (cl_conn cl)).
Proof.
  assert (∀ c, ∃ c', close_conn c = (c', [CloseConn]) ∧ c_sock c' = c_sock c) as Hclose by (intros c; by eexists).
  intros Hev Hd. unfold dispatch in Hd. destruct Hev as [-> | ->]; cbn [handle] in Hd;
    destruct (Hclose ((cl_conn cl) <| c_pool := pool |>)) as (c' & E & Ew); rewrite E in Hd; cbn [mbind option_bind] in Hd;
    (split; [|by rewrite (perform_all_conn _ _ _ Hd); simpl; rewrite Ew]); clear E Ew; revert Hd;
    cbn [perform_all]; unfold perform; simpl; destruct (cl_open cl); simpl; try done;
    destruct (cl_timer cl); simpl; try done; by intros [= <-].
Qed.

Lemma close_conn_pool c : hp_ok (c_pool c) → hp_ok (c_pool (close_conn c).1).
Proof.
  intros Hp. unfold close_conn, zv_http_close_conn, zv_free_request_t. cbv zeta. by apply hp_free_n_spec.
Qed.

Lemma after_handler_pool c es : hp_ok (c_pool c) → hp_ok (c_pool (after_handler c es)).
Proof. intros Hp. unfold after_handler. destruct (closes es); [by apply close_conn_pool|done]. Qed.

Lemma handle_pool fuel pool ev c c' es :
  hp_ok pool → match ev with Ev_in _ _ => parser_ok (c_parser c) | _ => True end →
  handle fuel pool ev c = Some (c', es) → hp_ok (c_pool c').
Proof.
  intros Hp Hps. destruct ev as [input answers|answers| | |]; cbn [handle]; cbv zeta.
  - match goal with |- context [request ?x _] => set (c0 := x) end. intros E.
    destruct (loop_spec ROOT stat open realpath fmt_time strptime uninit malloc_ok spawn_env script
      (S (input_left c0)) c0) as [(c1 & es1 & Hres & Hl)|(c1 & Hs & Hspin)]; [lia|done|done| |].
    + unfold do_request in E. destruct (request_loop _ _ _ _ _ _ _ _ _ _ fuel c0) as [[c2 es2]|] eqn:E2; [|done].
      injection E as <- <-. apply (loop_mono _ _ _ _ _ _ _ _ _ _ _ (S (max fuel (input_left c0)))) in E2; [|lia].
      rewrite Hl in E2 by lia. injection E2 as <- <-. by destruct Hres.
    + unfold do_request in E. by rewrite (star_loop _ _ _ _ _ _ _ _ _ _ c0 c1) in E.
  - unfold do_write. match goal with |- context [cgi_active ?g] => destruct (cgi_active g) end.
    + destruct (do_write_cgi _ _ _) as [[[[g es1] s1] ?]|]; [|done]. intros [= <- <-]. by apply after_handler_pool.
    + destruct (try_send _ _) as [[[rc out] s1]|]; [|done]. cbn [mbind option_bind].
      destruct (rc =? 1)%Z; [by intros [= <- <-]|]. destruct (_ || _); [|by intros [= <- <-]].
      match goal with |- context [close_conn ?x] => pose proof (close_conn_pool x Hp) as Hx; destruct (close_conn x) end.
      by intros [= <- <-].
  - unfold cgi_readable. destruct (zv_cgi_on_stdout_ready _ _) as [[g es1]|]; [|done].
    intros [= <- <-]. by apply after_handler_pool.
  - match goal with |- context [close_conn ?x] => pose proof (close_conn_pool x Hp) as Hx; destruct (close_conn x) end.
    by intros [= <- <-].
  - match goal with |- context [close_conn ?x] => pose proof (close_conn_pool x Hp) as Hx; destruct (close_conn x) end.
    by intros [= <- <-].
Qed.

(** The handler of an enabled event. *)
Lemma dispatch_ok cl pool ev :
  client_ok cl → cl_open cl = true → enabled ev cl → hp_ok pool →
  (∃ n cl', client_ok cl' ∧ hp_ok (c_pool (cl_conn cl')) ∧ (ev ≠ Ev_timer → forgotten cl') ∧
     ∀ fuel, n < fuel → dispatch fuel pool ev cl = Some cl') ∨
  (∃ input answers, ev = Ev_in input answers ∧ request_spins cl input ∧
     ∀ fuel, handle fuel pool ev (cl_conn cl) = None).
Proof.
  intros Hok Eo He Hp.
  assert (match ev with Ev_in _ _ => parser_ok (c_parser (cl_conn cl)) | _ => True end) as Hps.
  { destruct ev as [input answers| | | |]; try done. cbn [enabled] in He. unfold client_ok in Hok. rewrite Eo in Hok. destruct Hok as [_ Hst].
    destruct Hst as [_ _ Hps _|Ea _ _ _ _|Ea _ _|Ea _ _ _]; [done|rewrite Ea in He; done..]. }
  assert (∀ fuel cl', dispatch fuel pool ev cl = Some cl' → hp_ok (c_pool (cl_conn cl'))) as Hpool.
  { intros fuel cl'. unfold dispatch. destruct (handle fuel pool ev (cl_conn cl)) as [[c es]|] eqn:E; [|done].
    intros ->%perform_all_conn. pose proof (handle_pool _ _ _ _ _ _ Hp Hps E). by destruct ev. }
  destruct ev as [input answers|answers| | |].
  - destruct (dispatch_in cl pool input answers Hok Eo He Hp) as [(n & cl' & [Hok' Hf] & Hd)|[Hspin Hd]]; [left|right; by eauto].
    exists n, cl'. split; [done|]. split; [|done]. apply (Hpool (S n)). apply Hd. lia.
  - left. exists 0. destruct (dispatch_out cl 0 pool answers Hok Eo He) as (cl' & Hd & [Hok' Hf]). eauto 6.
  - left. exists 0. destruct (dispatch_cgi cl 0 pool Hok Eo He) as (cl' & Hd & [Hok' Hf]). eauto 6.
  - left. exists 0. destruct (dispatch_close cl 0 pool Ev_error Hok Eo) as (cl' & Hd & Hok' & Hf); eauto 6.
  - left. exists 0. destruct (dispatch_close cl 0 pool Ev_timer Hok Eo) as (cl' & Hd & Hok' & Hf); eauto 6.
Qed.

Lemma dispatched_ok cl fuel pool ev cl' :
  client_ok cl → enabled ev cl → hp_ok pool → dispatch fuel pool ev cl = Some cl' →
  client_ok cl' ∧ (ev ≠ Ev_timer → forgotten cl').
Proof.
  intros Hok He Hp Hd. pose proof (closed_stuck _ _ _ _ _ Hok He Hd) as Eo.
  destruct (dispatch_ok cl pool ev Hok Eo He Hp) as [(n & cl2 & Hok2 & _ & Hf & Hl)|(input & answers & _ & _ & Hnone)].
  - specialize (Hl (S (max n fuel)) ltac:(lia)).
    rewrite (dispatch_mono fuel (S (max n fuel)) pool ev cl cl') in Hl by (done || lia). by injection Hl as ->.
  - unfold dispatch in Hd. by rewrite Hnone in Hd.
Qed.

(** After any events: the invariant, and a registration left by a closing is the timer's. *)
Lemma runs_ok evs cl cl' :
  runs evs cl cl' → client_ok cl →
  client_ok cl' ∧ (cl_open cl = true → cl_open cl' = false → is_Some (cl_armed cl') → ∃ before, evs = before ++ [Ev_timer]).
Proof.
  induction 1 as [cl|ev evs fuel pool cl cl1 cl2 He Hp Hd Hr IH]; intros Hok; [split; [done|congruence]|].
  destruct (dispatched_ok _ _ _ _ _ Hok He Hp Hd) as [Hok1 Hf]. destruct (IH Hok1) as [Hok2 Hlast].
  split; [done|]. intros _ Eo2 Ha. destruct (cl_open cl1) eqn:Eo1.
  - destruct (Hlast eq_refl Eo2 Ha) as [before ->]. by exists (ev :: before).
  - inversion Hr as [|ev' ? fuel' pool' ? ? ? He' _ Hd']; subst.
    + exists []. assert (ev = Ev_timer ∨ ev ≠ Ev_timer) as [->|Hne] by (destruct ev; auto); [done|].
      rewrite (Hf Hne Eo1) in Ha. by destruct Ha.
    + by rewrite (closed_stuck _ _ _ _ _ Hok1 He' Hd') in Eo1.
Qed.

Lemma accept_ok keep_ms req_ms old pool :
  length (buf (r_parser old)) = MAX_BUF →
  ∃ cl, accept_client keep_ms req_ms old pool = Some cl ∧ client_ok cl ∧ cl_open cl = true.
Proof.
  intros Hl. eexists. split; [reflexivity|]. unfold client_ok. simpl. split; [|done]. split; [by eauto|].
  apply Waiting_input; try done. simpl. split; [by apply init_parser_wf|by split|by left].
Qed.

End server.

(** ** Concrete events *)

(** ["GET /a.css HTTP/1.1"]: the socket takes ten bytes of the answer, and later the rest. *)
Definition demo_old : request := mk_request (init_parser (replicate MAX_BUF 0%Z)) init_output init_cgi 0 0.
Abbreviation demo_dispatch :=
  (dispatch (Some demo_root) demo_stat demo_open demo_http_realpath demo_time (λ _, None) 0 true demo_spawn (λ _ _ _, [])).
Definition demo_cl0 : client nat :=
  mk_client nat (open_conn [] [] 5) (Some EPOLLIN) false (Some 5000%Z) true.
Definition demo_in : event := Ev_in [Arrived (str "GET /a.css HTTP/1.1" ++ crlf ++ crlf)] [Accept 10].
Definition demo_out : event := Ev_out [Accept 400; Accept 400].
Definition demo_cl1 : client nat := default demo_cl0 (demo_dispatch 100 5 demo_in demo_cl0).
Definition demo_cl2 : client nat := default demo_cl1 (demo_dispatch 100 5 demo_out demo_cl1).

Lemma demo_accepted : accept_client 0 0 demo_old 5 = Some demo_cl0.
Proof. vm_compute. reflexivity. Qed.

Lemma demo_event1 : cl_armed demo_cl0 = Some EPOLLIN ∧ demo_dispatch 100 5 demo_in demo_cl0 = Some demo_cl1.
Proof. split; vm_compute; reflexivity. Qed.

Lemma demo_event2 : cl_armed demo_cl1 = Some EPOLLOUT ∧ demo_dispatch 100 5 demo_out demo_cl1 = Some demo_cl2.
Proof. split; vm_compute; reflexivity. Qed.

Lemma demo_cl2_waits : cl_open demo_cl2 = true ∧ cl_armed demo_cl2 = Some EPOLLIN.
Proof. split; vm_compute; reflexivity. Qed.

Lemma demo_pool5_ok : hp_ok 5.
Proof. unfold hp_ok. simpl. unfold count_max. lia. Qed.

Lemma demo_runs :
  runs (Some demo_root) demo_stat demo_open demo_http_realpath demo_time (λ _, None) 0 true demo_spawn (λ _ _ _, [])
    [demo_in; demo_out] demo_cl0 demo_cl2.
Proof.
  destruct demo_event1 as [A1 D1], demo_event2 as [A2 D2].
  eapply Runs_cons; [exact A1|exact demo_pool5_ok|exact D1|].
  eapply Runs_cons; [exact A2|exact demo_pool5_ok|exact D2|]. constructor.
Qed.


(** The timer closes the connection while it waits for input, and a script that another
    connection runs holds its socket: when the client sends something, the handler deletes
    the timer of a closed connection. *)
Definition demo_late : client nat := default demo_cl2 (demo_dispatch 100 5 Ev_timer demo_cl2).

Example closed_connection_reported :
  demo_dispatch 100 5 Ev_timer demo_cl2 = Some demo_late ∧ cl_open demo_late = false ∧
  enabled demo_in demo_late ∧ demo_dispatch 100 5 demo_in demo_late = None.
Proof. split_and!; vm_compute; reflexivity. Qed.
