(* ===== verification/Conversation.v ===== *)
(** * A whole conversation with a client (worker.c, http.c)

    Pipeline.v answers the requests of one call of [do_request] whose socket takes all it is
    given.  Here the requests come over any number of events, in any pieces, the socket
    takes the answers a few bytes at a time, and the connection goes back and forth between
    waiting for input and waiting for output.  What the client has received is at every
    moment what the abstract server of Answers.v has answered so far. *)
From S2P Require Import Prelude CString HeaderPool HttpParse RequestLine HeaderBlock Path Sockets Output Cgi CgiStream Scripts Request Http Serve Pieces Answers Pipeline Server.

(** A well-formed request that fits the buffer. *)
Definition request_ok (g : get_request) : Prop := get_ok g ∧ length (print_get g) < MAX_BUF.

(** Bytes arrive: the client has neither hung up nor vanished. *)
Definition arrives (a : arrival) : Prop := match a with Arrived b => b ≠ [] | ReadErr _ => False end.

Section conversation.
Context `{HeaderPool P}.
Variables (ROOT : option (list Z)) (stat : list Z → option file_stat) (open : list Z → option (list Z))
  (realpath : list Z → option (list Z)) (fmt_time : Z → list Z) (strptime : list Z → option Z)
  (uninit : Z) (spawn_env : spawn) (script : list Z → list Z → option (list Z) → pipe).
Hypothesis pool_supplies : ∀ p : P, hp_ok p → is_Some (hp_alloc p).
Hypothesis fmt_time_short : ∀ t, length (fmt_time t) < SHORTLINE.
Hypothesis sizes_small : ∀ f sb, stat f = Some sb → (Z.of_nat (st_size sb) < 2 ^ 63)%Z.
Implicit Types (c : conn P) (gs : list get_request).

Notation may_answer := (may_answer ROOT stat open realpath fmt_time strptime uninit spawn_env script).
Notation answers := (answers ROOT stat open realpath fmt_time strptime uninit spawn_env script).
Notation loop := (request_loop ROOT stat open realpath fmt_time strptime uninit true spawn_env script).
Notation turn_c := (request_turn ROOT stat open realpath fmt_time strptime uninit true spawn_env script).
Notation serve_c := (serve ROOT stat open realpath fmt_time strptime uninit true spawn_env script).

Lemma answers_app ms done pages gs more e :
  answers ms done pages (Then true) → answers ms gs more e → answers ms (done ++ gs) (pages ++ more) e.
Proof.
  remember (Then true) as e1 eqn:E. intros Hd Hg. revert E.
  induction Hd as [|g done page pages e1 Hm _ IH|g done page _|g done output _]; intros E; [done| |congruence..].
  cbn [app]. rewrite <-app_assoc. by apply Answers_page, IH.
Qed.

Lemma answers_last ms done pages e gs : e ≠ Then true → answers ms done pages e → answers ms (done ++ gs) pages e.
Proof.
  intros He. induction 1 as [|g done page pages e Hm _ IH|g done page Hm|g done output Hm]; [done|..]; cbn [app];
    [by apply Answers_page; auto|by apply Answers_last|by apply Answers_script].
Qed.

(** The request [g] is answered by [page]. *)
Lemma answers_one ms g page keep : may_answer ms g (Page page keep) → answers ms [g] page (Then keep).
Proof.
  intros Hm. destruct keep; [|by apply Answers_last]. rewrite <-(app_nil_r page). apply Answers_page; [done|constructor].
Qed.

(** ** What a client is told *)

(** The bytes a client may have received that sent [gs], and those it has in the end; a
    script's output is what the server keeps of it. *)
Definition told (m : Z) gs (w : list Z) : Prop :=
  ∃ ds gs' pages e, gs = ds ++ gs' ∧ answers m ds pages e ∧
    (w `prefix_of` pages ∨ ∃ output said, e = Stream output ∧ w = pages ++ said ∧ heard (kept [] output) said).

Definition told_all (m : Z) gs (w : list Z) : Prop :=
  ∃ ds gs' pages e, gs = ds ++ gs' ∧ answers m ds pages e ∧
    match e with
    | Then keep => w = pages ∧ keep = false
    | Stream output =>
        ∃ said, w = pages ++ said ∧ heard (kept [] output) said ∧ (behaves output → heard_out (kept [] output) said)
    end.

Lemma told_prefix m ds gs pages e w : answers m ds pages e → w `prefix_of` pages → told m (ds ++ gs) w.
Proof. intros Ea Hw. exists ds, gs, pages, e. auto. Qed.

Lemma told_said m ds gs pages output said :
  answers m ds pages (Stream output) → heard (kept [] output) said → told m (ds ++ gs) (pages ++ said).
Proof. intros Ea Hs. exists ds, gs, pages, (Stream output). split; [done|]. split; [done|]. right. by exists output, said. Qed.

(** ** Between two requests *)

(** [c] has parsed and answered what comes before [gs]; [todo] is still to be read. *)
Record serves c (todo : list Z) gs : Prop := {
  sv_ok : parser_ok (c_parser c);
  sv_pool : hp_ok (c_pool c);
  sv_gs : Forall request_ok gs;
  sv_stream : take (last (c_parser c)) (buf (c_parser c)) ++ todo = concat (print_get <$> gs);
  sv_next :
    match gs with
    | [] => parse_pos (c_parser c) = 0 ∧ parse_phase (c_parser c) = 0%Z
    | g :: gs' => ∃ b later c2, todo = b ++ later ∧ fits (c_parser c) b ∧
        parse_request (feed c b) = Some (POk c2) ∧ holds g (c_parser c2) ∧
        unparsed (c_parser c2) ++ later = concat (print_get <$> gs') ∧ (b = [] ∨ unparsed (c_parser c2) = [])
    end;
}.

Lemma unparsed_all ps : parse_pos ps = 0 → unparsed ps = take (last ps) (buf ps).
Proof. intros E. unfold unparsed, slice. by rewrite E, drop_0, Nat.sub_0_r. Qed.

Lemma split_request (u todo p t : list Z) :
  u ++ todo = p ++ t →
  (∃ r, u = p ++ r ∧ r ++ todo = t) ∨ (∃ b later, p = u ++ b ∧ todo = b ++ later ∧ later = t).
Proof.
  intros E. destruct (decide (length p ≤ length u)) as [Hle|Hgt].
  - left. exists (drop (length p) u).
    assert (take (length p) u = p) as Ep.
    { apply (f_equal (take (length p))) in E. rewrite take_app_le, take_app_length in E by lia. exact E. }
    split; [rewrite <-Ep at 1; by rewrite take_drop|].
    apply (f_equal (drop (length p))) in E. rewrite drop_app_le, drop_app_length in E by lia. exact E.
  - right. exists (drop (length u) p), t. split_and!; [| |done].
    + apply (f_equal (take (length u))) in E. rewrite take_app_length, take_app_le in E by lia.
      rewrite E at 1. by rewrite take_drop.
    + apply (f_equal (drop (length u))) in E. rewrite drop_app_length, drop_app_le in E by lia. exact E.
Qed.

Lemma serves_start c todo gs :
  fresh (c_parser c) → parse_pos (c_parser c) = 0 → hp_ok (c_pool c) → Forall request_ok gs →
  take (last (c_parser c)) (buf (c_parser c)) ++ todo = concat (print_get <$> gs) → serves c todo gs.
Proof.
  intros Hfr Hpos Hok Hgs Hs. pose proof (fr_ok _ Hfr) as Hps. pose proof Hps as [[Hsz Hc Hl _] _ _].
  split; try done. destruct gs as [|g gs]; [by destruct Hfr|].
  apply Forall_cons in Hgs as [[Hg Hsmall] Hgs]. rewrite fmap_cons in Hs. cbn [concat] in Hs.
  rewrite <-unparsed_all in Hs by done.
  assert (length (unparsed (c_parser c)) = last (c_parser c)) as Hlen by (rewrite unparsed_length; [lia|apply Hps]).
  destruct (split_request _ _ _ _ Hs) as [(r & Eu & Er)|(b & later & Ep & -> & ->)].
  - destruct (fresh_parses pool_supplies c g r Hfr Hok Hg Eu) as (c2 & E & Hh & Hu).
    exists [], todo, c2. rewrite feed_nil, Hu. split; [done|]. split; [unfold fits; simpl; lia|].
    split; [done|]. split; [done|]. split; [done|by left].
  - assert (fits (c_parser c) b) as Hfit by (unfold fits; rewrite <-Hlen, <-length_app, <-Ep; done).
    destruct (fresh_parses pool_supplies (feed c b) g []) as (c2 & E & Hh & Hu); [by apply fresh_recv|done|done| |].
    { change (c_parser (feed c b)) with (recv (c_parser c) b).
      rewrite unparsed_recv by (done || by destruct Hps). by rewrite app_nil_r. }
    exists b, (concat (print_get <$> gs)), c2. rewrite Hu. split; [done|]. split; [done|]. split; [done|].
    split; [done|]. split; [done|by right].
Qed.

(** Only the parser matters. *)
Lemma serves_transfer c c' todo gs :
  serves c todo gs → c_parser c' = c_parser c → hp_ok (c_pool c') → serves c' todo gs.
Proof.
  intros [Hps Hok Hgs Hs Hn] E Hok'. split; try done; try by rewrite E. rewrite E.
  destruct gs as [|g gs]; [done|]. destruct Hn as (b & later & c2 & Et & Hfit & Ep & Hh & Hu & Hb).
  destruct (parse_request_pools pool_supplies (feed c b) (feed c' b) c2) as (c2' & Ep' & E2); try done.
  - by apply feed_ok.
  - change (c_parser (feed c' b)) with (recv (c_parser c') b). by rewrite E.
  - exists b, later, c2'. by rewrite E2.
Qed.

Lemma recv_take ps y : length (buf ps) = MAX_BUF → last ps < MAX_BUF → take (last (recv ps y)) (buf (recv ps y)) = take (last ps) (buf ps) ++ y.
Proof.
  intros Hsz Hl. unfold recv. simpl. rewrite take_app_ge by (rewrite length_take; lia).
  rewrite length_take, Nat.min_l by lia. f_equal. apply take_app_eq. lia.
Qed.

Lemma serves_feed c y todo g gs :
  serves c (y ++ todo) (g :: gs) → fits (c_parser c) y → serves (feed c y) todo (g :: gs).
Proof.
  intros [Hps Hok Hgs Hs (b & later & c2 & Et & Hfit & Ep & Hh & Hu & Hb)] Hy. pose proof Hps as [[Hsz Hc Hl _] _ _].
  split; try done; [by apply feed_ok| |].
  { change (c_parser (feed c y)) with (recv (c_parser c) y). rewrite recv_take by done. by rewrite <-app_assoc. }
  destruct (split_request _ _ _ _ Et) as [(r & -> & <-)|(b' & later' & -> & -> & ->)].
  - pose proof (parse_request_spec (feed c b) (feed_ok c b Hps Hfit) Hok) as Hspec. rewrite Ep in Hspec.
    destruct Hspec as (F & O & Hps2 & _ & Hle). pose proof F as (_ & _ & _ & _ & _ & El & _).
    assert (fits (c_parser (feed c b)) r) as Hr by (by destruct (fits_app _ _ _ Hy)).
    assert (fits (c_parser c2) r) as Hr2 by (unfold fits; by rewrite El).
    exists [], todo, (feed c2 r). rewrite feed_nil. split; [done|]. split; [unfold fits in *; simpl in *; rewrite length_app; lia|].
    split; [|split; [|split; [|by left]]].
    + rewrite <-feed_feed by done. apply parse_request_stable; try done. by apply feed_ok.
    + by apply holds_recv.
    + change (c_parser (feed c2 r)) with (recv (c_parser c2) r).
      rewrite unparsed_recv by (done || apply Hps2). by rewrite <-app_assoc.
  - exists b', later, c2. destruct (fits_app _ _ _ Hfit) as [Hf1 Hf2]. split; [done|]. split; [done|].
    split; [by rewrite feed_feed|]. split; [done|]. split; [done|].
    destruct Hb as [[-> ->]%app_nil|Hb]; [by left|by right].
Qed.

(** The read at the head of a turn. *)
Lemma serves_room c todo g gs :
  serves c todo (g :: gs) → last (c_parser c) ≤ parse_pos (c_parser c) → last (c_parser c) < MAX_BUF - 1.
Proof.
  intros [Hps Hok _ _ (b & later & c2 & Et & Hfit & Ep & _ & _ & _)] Hle. unfold fits in Hfit.
  assert (0 < length b) as Hb; [|lia]. destruct b as [|x b]; [|simpl; lia]. rewrite feed_nil in Ep.
  pose proof (parse_request_spec c Hps Hok) as Hp. rewrite Ep in Hp. destruct Hp as (_ & _ & _ & Hpos). lia.
Qed.

Definition read_outcome c (rest : list Z) gs (r : received_input) : Prop :=
  match r with
  | Read_blocked c' => ∃ p, c' = c <| c_in := p |> ∧ pipe_bytes p = pipe_bytes (c_in c)
  | Read_failed c' => (∃ p, c' = c <| c_in := p |>) ∧ ¬ Forall arrives (c_in c)
  | Input c' => gs ≠ [] ∧ serves c' (pipe_bytes (c_in c') ++ rest) gs ∧
      (Forall arrives (c_in c) → Forall arrives (c_in c')) ∧ parse_pos (c_parser c') < last (c_parser c') ∧
      input_left c' ≤ input_left c ∧ c_sock c' = c_sock c ∧ same_settings c c'
  end.

Lemma serves_read c rest gs :
  serves c (pipe_bytes (c_in c) ++ rest) gs → read_outcome c rest gs (read_input c).
Proof.
  intros Hs. pose proof Hs as [Hps Hok _ _ _].
  pose proof Hps as [[Hsz Hc Hl _] _ _]. pose proof (read_input_spec c Hps) as Hspec. unfold read_input in Hspec |- *.
  cbv zeta in Hspec |- *. destruct (Nat.leb_spec (last (c_parser c)) (parse_pos (c_parser c))) as [Hle|Hlt].
  2: { destruct gs as [|g gs]; [|by split_and!]. destruct Hs as [_ _ _ Hstream [Hpos _]].
       apply app_nil in Hstream as [Hlast _]. apply (f_equal length) in Hlast. rewrite length_take in Hlast.
       simpl in Hlast. lia. }
  assert (last (c_parser c) < MAX_BUF - 1) as Hroom.
  { destruct gs as [|g gs]; [|by eapply serves_room]. destruct Hs as [_ _ _ _ [Hpos _]]. unfold MAX_BUF in *. lia. }
  rewrite (proj2 (Nat.leb_gt _ _)) in Hspec |- * by lia.
  set (cap := MAX_BUF - last (c_parser c) - 1) in *. assert (0 < cap) as Hcap by lia.
  destruct (c_in c) as [|[x|e] p] eqn:E; cbn [read] in Hspec |- *.
  { exists []. by rewrite E. }
  2: { destruct (e =? EAGAIN)%Z; cbn [negb]; [exists p; by rewrite E|]. split; [by exists p|].
       rewrite E. by intros [[] _]%Forall_cons. }
  destruct x as [|y x].
  { rewrite take_nil. split; [by eexists|]. rewrite E. by intros [Hn _]%Forall_cons. }
  assert (∃ z, take cap (y :: x) = y :: z) as (z & Ey) by (destruct cap; [lia|by exists (take cap x)]).
  set (p' := if cap <? length (y :: x) then _ else _) in *. rewrite Ey in Hspec |- *.
  assert ((Forall arrives (c_in c) → Forall arrives p') ∧ pipe_bytes (Arrived (y :: x) :: p) = (y :: z) ++ pipe_bytes p')
    as [Hp' Ebytes].
  { rewrite E, <-Ey. unfold p'. destruct (Nat.ltb_spec cap (length (y :: x))) as [Hlt|Hge].
    - destruct (drop cap (y :: x)) as [|d dx] eqn:Ed.
      { apply (f_equal length) in Ed. rewrite length_drop in Ed. simpl in Ed, Hlt. lia. }
      split; [intros [_ Hf]%Forall_cons; by constructor|].
      cbn [pipe_bytes]. rewrite app_assoc, <-Ed. f_equal. by rewrite take_drop.
    - split; [by intros [_ Hf]%Forall_cons|]. by rewrite take_ge. }
  rewrite Ebytes, <-app_assoc in Hs.
  destruct Hspec as ((? & ? & Eg & _ & Eka & Erq) & Hps1 & Hleft & Hpos).
  assert (fits (c_parser c) (y :: z)) as Hy by (unfold fits; rewrite <-Ey, length_take; lia).
  unfold read_outcome. split; [|split; [|split; [exact Hp'|by split_and!]]].
  - intros ->. by destruct Hs as [_ _ _ [_ [=]]%app_nil _].
  - change (serves (feed (c <| c_in := p' |>) (y :: z)) (pipe_bytes p' ++ rest) gs).
    destruct gs as [|g gs]; [by destruct Hs as [_ _ _ [_ [=]]%app_nil _]|].
    apply serves_feed; [|done]. by apply (serves_transfer c).
Qed.

(** The parse of a turn: the request is not all there, or it is. *)
Lemma serves_parse c todo g gs :
  serves c todo (g :: gs) →
  (∃ c1, parse_request c = Some (PAgain c1) ∧ serves c1 todo (g :: gs) ∧ parse_frame c c1 ∧
     parse_pos (c_parser c1) = last (c_parser c)) ∨
  (∃ c1, parse_request c = Some (POk c1) ∧ holds g (c_parser c1) ∧ parsed_ok (c_parser c1) ∧ hp_ok (c_pool c1) ∧
     parse_frame c c1 ∧ unparsed (c_parser c1) ++ todo = concat (print_get <$> gs) ∧
     parse_pos (c_parser c) < parse_pos (c_parser c1)).
Proof.
  intros [Hps Hok Hgs Hs (b & later & c2 & Et & Hfit & Ep & Hh & Hu & Hb)].
  destruct (parse_request_feed c b c2 Hps Hok Hfit Ep) as [(c1 & E1 & Hp1 & F & Hps1 & Hok1 & Hpos)|(c1 & E1 & ->)].
  - left. exists c1. split; [done|]. split; [|done]. pose proof F as (_ & _ & _ & _ & Eb & El & _).
    split; try done; [by rewrite Eb, El|]. exists b, later, c2. split; [done|]. split; [|done]. unfold fits. by rewrite El.
  - right. pose proof (parse_request_spec c Hps Hok) as Hspec. rewrite E1 in Hspec.
    destruct Hspec as (F & O & Hps1 & Hpos & Hle). pose proof F as (_ & _ & _ & _ & _ & El & _).
    assert (b = []) as ->.
    { destruct Hb as [->|Hb]; [done|]. change (c_parser (feed c1 b)) with (recv (c_parser c1) b) in Hb.
      rewrite unparsed_recv in Hb by (apply Hps1 || (unfold fits; by rewrite El)). by apply app_nil in Hb as [_ ?]. }
    rewrite feed_nil in Hh, Hu. exists c1. split; [done|]. do 4 (split; [done|]). split; [by rewrite Et|done].
Qed.

(** After the answer the next request is at the front of the buffer. *)
Lemma serves_next c todo g gs c' :
  parsed_ok (c_parser c) → unparsed (c_parser c) ++ todo = concat (print_get <$> gs) → Forall request_ok (g :: gs) →
  c_parser c' = compact (no_headers (c_parser c)) → hp_ok (c_pool c') → serves c' todo gs.
Proof.
  intros Hps Hu Hgs E Hok. pose proof Hps as [[Hsz Hc Hl Hm] Hhd Hst].
  assert (parsed_ok (no_headers (c_parser c))) as Hps' by (split; [by split|done|done]).
  destruct (compact_ok _ Hps') as [Hps4 _].
  apply serves_start; try rewrite E; try done.
  - split; try done; unfold compact; by destruct (0 <? _).
  - by apply Forall_inv_tail in Hgs.
  - rewrite <-unparsed_all by done. by rewrite compact_unparsed by apply Hps'.
Qed.

Notation ms c := (keep_alive_timeout_ms (c_req c)).

(** How [do_request] leaves a connection on which the requests [gs] were to be answered:
    some were, or the last answer is on its way, or a script runs, or the connection is
    closed. *)
Inductive loop_leaves c (rest : list Z) gs c' : list effect → Prop :=
  | Leaves_reading done gs' pages t :
      gs = done ++ gs' → answers (ms c) done pages (Then true) → wire (c_sock c') = wire (c_sock c) ++ pages →
      serves c' (pipe_bytes (c_in c') ++ rest) gs' → same_settings c c' →
      loop_leaves c rest gs c' [ArmConn EPOLLIN; AddTimer t]
  | Leaves_writing done gs' pages keep :
      gs = done ++ gs' → answers (ms c) done pages (Then keep) →
      wire (c_sock c') ++ pending (c_out c') = wire (c_sock c) ++ pages → offset_ok (c_out c') →
      keep_alive (c_out c') = keep → (keep = true → serves c' (pipe_bytes (c_in c') ++ rest) gs') →
      same_settings c c' → loop_leaves c rest gs c' [ArmConn EPOLLOUT; AddTimer (request_timeout_ms (c_req c))]
  | Leaves_script done gs' pages output es :
      gs = done ++ gs' → answers (ms c) done pages (Stream output) → wire (c_sock c') = wire (c_sock c) ++ pages →
      zv_cgi_start spawn_env (request_timeout_ms (c_req c)) output (r_cgi (c_req c)) = (0%Z, r_cgi (c_req c'), es) →
      ms c' = ms c → loop_leaves c rest gs c' es
  | Leaves_closed done gs' pages whole e :
      gs = done ++ gs' → answers (ms c) done whole e →
      wire (c_sock c') = wire (c_sock c) ++ pages → pages `prefix_of` whole →
      (calm (c_sock c) → Forall arrives (c_in c) → pages = whole ∧ e = Then false) →
      loop_leaves c rest gs c' [CloseConn].

(** Before what [c1] leaves, the requests [done] were answered. *)
Lemma loop_leaves_after c c1 rest done gs pages c' es :
  loop_leaves c1 rest gs c' es → answers (ms c) done pages (Then true) →
  wire (c_sock c1) = wire (c_sock c) ++ pages → same_settings c c1 →
  continues (c_sock c) (c_sock c1) → (Forall arrives (c_in c) → Forall arrives (c_in c1)) →
  loop_leaves c rest (done ++ gs) c' es.
Proof.
  intros Hl Ea Ew (Eg & Er & Ems) Hsuf Harr.
  destruct Hl as [done' gs' pages' t -> Ea' Ew' Hs' (Eg' & Er' & Ems')
                 |done' gs' pages' keep -> Ea' Ew' Ho' Ek' Hs' (Eg' & Er' & Ems')
                 |done' gs' pages' output es -> Ea' Ew' Hst Ems'
                 |done' gs' pages' whole e -> Ea' Ew' Hpre Hcalm]; rewrite Ems in *;
    pose proof (answers_app _ _ _ _ _ _ Ea Ea') as Eapp.
  - eapply (Leaves_reading _ _ _ _ (done ++ done')); [by rewrite app_assoc|exact Eapp| |done|].
    + by rewrite Ew', Ew, <-app_assoc.
    + split_and!; congruence.
  - rewrite Er. eapply (Leaves_writing _ _ _ _ (done ++ done') gs' (pages ++ pages') keep);
      [by rewrite app_assoc|exact Eapp| |done|done|done|].
    + by rewrite Ew', Ew, <-app_assoc.
    + split_and!; congruence.
  - eapply (Leaves_script _ _ _ _ (done ++ done') gs' (pages ++ pages') output);
      [by rewrite app_assoc|exact Eapp| | |congruence].
    + by rewrite Ew', Ew, <-app_assoc.
    + by rewrite <-Eg, <-Er.
  - apply (Leaves_closed _ _ _ _ (done ++ done') gs' (pages ++ pages') (pages ++ whole) e);
      [by rewrite app_assoc|exact Eapp| |by apply prefix_app|].
    + by rewrite Ew', Ew, <-app_assoc.
    + intros Hc Ha. destruct Hcalm as [-> ->]; [by eapply calm_continues|by apply Harr|done].
Qed.

Lemma loop_leaves_from c c1 rest gs c' es :
  loop_leaves c1 rest gs c' es → c_sock c1 = c_sock c → same_settings c c1 →
  (Forall arrives (c_in c) → Forall arrives (c_in c1)) → loop_leaves c rest gs c' es.
Proof.
  intros Hl Es Hset Harr. apply (loop_leaves_after c c1 rest [] gs [] c' es Hl); [constructor| |done|by rewrite Es|done].
  by rewrite Es, app_nil_r.
Qed.

(** ** One request *)

(** What [try_send] does with what is left of a page. *)
Lemma page_sent out s :
  offset_ok out → no_zero s →
  ∃ rc out' s', try_send out s = Some (rc, out', s') ∧ continues s s' ∧ offset_ok out' ∧ same_response out out' ∧
    (rc = 0%Z ∧ wire s' = wire s ++ pending out ∨ rc = 1%Z ∧ wire s' ++ pending out' = wire s ++ pending out ∨
     rc = (-1)%Z ∧ ¬ calm s ∧ ∃ p, wire s' = wire s ++ p ∧ p `prefix_of` pending out).
Proof.
  intros Ho Hz. destruct (try_send_spec out s Ho) as (rc & out' & s' & E & Ho' & Hsame & Ew & Hrc & H0 & _).
  pose proof (try_send_continues _ _ _ _ _ E) as Hcont. exists rc, out', s'. do 4 (split; [done|]).
  destruct Hrc as [-> |[-> | ->]].
  - left. split; [done|]. by rewrite H0, app_nil_r in Ew.
  - right. by left.
  - right. right. split; [done|]. split.
    + intros Hc. by destruct (try_send_calm _ _ _ _ _ Hc E).
    + destruct Hcont as [_ [p Ep]]. exists p. split; [done|]. rewrite Ep, <-app_assoc in Ew.
      apply app_inv_head in Ew as <-. by eexists.
Qed.

Lemma leaves_closing c c' rest g gs page keep p :
  may_answer (ms c) g (Page page keep) → wire (c_sock c') = wire (c_sock c) ++ p → p `prefix_of` page →
  (calm (c_sock c) → p = page ∧ keep = false) →
  ∃ c'', close_request c' = (c'', [CloseConn]) ∧ loop_leaves c rest (g :: gs) c'' [CloseConn].
Proof.
  intros Ea Ew Hp Hc. eexists. split; [reflexivity|].
  apply (Leaves_closed _ _ _ _ [g] gs p page (Then keep)); [done|by apply answers_one|exact Ew|done|].
  intros Hcalm _. by destruct (Hc Hcalm) as [-> ->].
Qed.

(** The request [g] is answered, and the loop goes on or is left. *)
Definition turn_answers c rest g gs (t : turn) : Prop :=
  match t with
  | Continue c' => ∃ page, may_answer (ms c) g (Page page true) ∧ serves c' (pipe_bytes (c_in c') ++ rest) gs ∧
      c_in c' = c_in c ∧ wire (c_sock c') = wire (c_sock c) ++ page ∧ same_settings c c' ∧
      continues (c_sock c) (c_sock c') ∧ input_left c' < input_left c
  | Leave c' es => loop_leaves c rest (g :: gs) c' es
  end.

(** From the label [request_done] on, with the response in [out] sent or not. *)
Lemma answered_turn c c' rest g gs page keep :
  may_answer (ms c) g (Page page keep) → c_in c' = c_in c → same_settings c c' → continues (c_sock c) (c_sock c') →
  parse_pos (c_parser c') ≤ last (c_parser c') → offset_ok (c_out c') → keep_alive (c_out c') = keep →
  serves (set_parser c' (compact (c_parser c'))) (pipe_bytes (c_in c') ++ rest) gs →
  pipe_size (c_in c') + (last (compact (c_parser c')) - parse_pos (compact (c_parser c'))) < input_left c →
  (if writing (c_out c') then wire (c_sock c') ++ pending (c_out c') = wire (c_sock c) ++ page
   else wire (c_sock c') = wire (c_sock c) ++ page) →
  turn_answers c rest g gs (request_done c' keep).
Proof.
  intros Ea Hin Hset Hcont Hpos Ho Hk Hs Hleft Hw. unfold request_done. rewrite (proj2 (Nat.ltb_ge _ _)) by done.
  cbv zeta. set (c4 := set_parser c' (compact (c_parser c'))) in *.
  change (writing (c_out c4)) with (writing (c_out c')). destruct (writing (c_out c')).
  - unfold turn_answers. pose proof Hset as (_ & Er & _).
    change (request_timeout_ms (c_req c4)) with (request_timeout_ms (c_req c')). rewrite Er.
    by eapply (Leaves_writing _ _ _ _ [g] gs page keep); [done|by apply answers_one|exact Hw|exact Ho|exact Hk|intros _|exact Hset].
  - destruct keep; cbn [negb].
    + exists page. by split_and!.
    + unfold leave. destruct (leaves_closing c c4 rest g gs page false page Ea Hw) as (c'' & -> & Hl); done.
Qed.

Lemma request_answered c c2 rest g gs :
  Forall request_ok (g :: gs) → no_zero (c_sock c) → parse_frame c c2 →
  holds g (c_parser c2) → parsed_ok (c_parser c2) → hp_ok (c_pool c2) →
  unparsed (c_parser c2) ++ pipe_bytes (c_in c) ++ rest = concat (print_get <$> gs) →
  parse_pos (c_parser c) < parse_pos (c_parser c2) →
  ∃ res c3, serve_c c2 = Some (res, c3) ∧
    turn_answers c rest g gs
      match res with
      | Goto_close => leave (close_request c3)
      | Returned es => Leave c3 es
      | Request_done keep => request_done c3 keep
      end.
Proof.
  intros Hgs Hz (Ein & Es & Eout & Eg & Ebuf & El & Ems & Erq) Hh Hps2 Hok2 Hu Hpos.
  pose proof Hps2 as [[Hsz Hc Hl Hm] Hhd Hst].
  destruct (serve_prepares ROOT stat open realpath fmt_time strptime uninit spawn_env script fmt_time_short
    sizes_small c2 g Hh (proj1 (Forall_inv Hgs)) Hok2) as (r & Ea & Hserve).
  rewrite Ems in Ea. destruct r as [page keep|output].
  2: { destruct Hserve as (c3 & es & E & [Ein3 Es3 Hok3 Ems3 Erq3 Hstart]). exists (Returned es), c3. split; [done|].
       rewrite Erq, Eg in Hstart.
       eapply (Leaves_script _ _ _ _ [g] gs [] output); [done|by apply Answers_script| |exact Hstart|by rewrite Ems3].
       by rewrite Es3, Es, app_nil_r. }
  destruct Hserve as [(c3 & (_ & Es3 & _) & -> & -> & _ & E)|Hserve].
  { exists Goto_close, c3. split; [exact E|]. unfold leave.
    destruct (leaves_closing c c3 rest g gs [] false [] Ea) as (c'' & -> & Hleave); [by rewrite Es3, Es, app_nil_r|done..]. }
  destruct Hserve as (c3 & out & (Ein3 & Es3 & Hok3 & Eg3 & Ems3 & Erq3) & (Ho & Epage & Ek & Ew) & Hserve).
  rewrite Es in Es3. destruct (page_sent out (c_sock c) Ho Hz) as (rc & out' & s' & E & Hcont & Ho' & (Ek' & Ew' & _) & Hrc).
  rewrite Epage in Hrc. rewrite <-Es3 in E. unfold send_out in Hserve. rewrite E in Hserve. cbn [mbind option_bind] in Hserve.
  set (c4 := (set_out c3 out') <| c_sock := s' |>) in *.
  assert (same_settings c c4) as Hset by (split_and!; simpl; congruence).
  destruct Hserve as [[-> Eps]|(after & -> & Hafter & ->)]; (eexists _, _; split; [by rewrite <-surjective_pairing|]).
  - assert (∀ c5, c_parser c5 = no_headers (c_parser c2) → c_in c5 = c_in c → hp_ok (c_pool c5) →
      same_settings c c5 → c_sock c5 = s' → offset_ok (c_out c5) → keep_alive (c_out c5) = keep →
      (if writing (c_out c5) then wire s' ++ pending (c_out c5) = wire (c_sock c) ++ page
       else wire s' = wire (c_sock c) ++ page) →
      turn_answers c rest g gs (request_done c5 keep)) as Hdone.
    { intros c5 E5 Ein5 Hok5 Hset5 Es5 Ho5 Hk5 Hw5.
      assert (parsed_ok (no_headers (c_parser c2))) as Hps5 by (split; [by split|done|done]).
      apply (answered_turn c c5 rest g gs page keep); try done; rewrite ?Ein5, ?Es5; try done.
      - by rewrite E5.
      - eapply (serves_next c2 _ g); [done|exact Hu|done|by rewrite E5|done].
      - rewrite E5. rewrite (proj2 (compact_ok _ Hps5)). unfold input_left. simpl. lia. }
    unfold finish_response. destruct Hrc as [[-> Hw]|[[-> Hw]|(-> & Hcalm & p & Hw & Hp)]];
      cbn [Z.ltb Z.eqb Z.compare Pos.eqb fst snd].
    + apply Hdone; try done; [exact (eq_trans Ein3 Ein)|unfold offset_ok; simpl; lia|exact (eq_trans Ek' Ek)].
    + apply Hdone; try done; [exact (eq_trans Ein3 Ein)|exact (eq_trans Ek' Ek)].
    + destruct (leaves_closing c c4 rest g gs page keep p Ea Hw Hp) as (c'' & -> & Hleave); [by intros ?|done].
  - destruct (Hafter c4) as (Hneg & Hone & Hzero).
    destruct Hrc as [[-> Hw]|[[-> Hw]|(-> & Hcalm & p & Hw & Hp)]].
    + assert (∀ c5, c_sock c5 = s' → turn_answers c rest g gs (leave (close_request c5))) as Hclose.
      { intros c5 E5. rewrite <-E5 in Hw.
        by destruct (leaves_closing c c5 rest g gs page false page Ea Hw) as (c'' & -> & Hleave). }
      by destruct Hzero as [-> | ->]; apply Hclose.
    + rewrite Hone. unfold wait_writable. cbn [fst snd turn_answers].
      change (request_timeout_ms (c_req c4)) with (request_timeout_ms (c_req c3)). rewrite Erq3, Erq.
      eapply (Leaves_writing _ _ _ _ [g] gs page false); [done|by apply answers_one|exact Hw|exact Ho'| |done|exact Hset].
      exact (eq_trans Ek' Ek).
    + rewrite Hneg. cbn [fst snd].
      destruct (leaves_closing c c4 rest g gs page false p Ea Hw Hp) as (c'' & -> & Hleave); [by intros ?|done].
Qed.

(** ** The loop *)

Lemma serves_loop k c rest gs :
  input_left c < k → serves c (pipe_bytes (c_in c) ++ rest) gs → no_zero (c_sock c) →
  ∃ c' es, (∀ fuel, input_left c < fuel → loop fuel c = Some (c', es)) ∧ loop_leaves c rest gs c' es.
Proof.
  revert c gs. induction k as [|k IH]; intros c gs Hk Hs Hz; [lia|].
  assert (∀ c' es, turn_c c = Some (Leave c' es) → loop_leaves c rest gs c' es →
    ∃ c' es, (∀ fuel, input_left c < fuel → loop fuel c = Some (c', es)) ∧ loop_leaves c rest gs c' es) as Hleaves.
  { intros c' es Et Hleave. exists c', es. split; [|done]. intros [|fuel] Hf; [lia|]. cbn [request_loop]. by rewrite Et. }
  pose proof (serves_read c rest gs Hs) as Hread. destruct (read_input c) as [c1|c1|c1] eqn:Er; cbn [read_outcome] in Hread.
  2: { destruct Hread as [[p ->] Hn]. eapply Hleaves; [unfold request_turn; rewrite Er; reflexivity|].
       apply (Leaves_closed _ _ _ _ [] gs [] [] (Then true)); [done|constructor|by rewrite app_nil_r|done|done]. }
  2: { destruct Hread as (p & -> & Ep). eapply Hleaves; [unfold request_turn; rewrite Er; reflexivity|].
       eapply (Leaves_reading _ _ _ _ [] gs []); [done|constructor|by rewrite app_nil_r| |done].
       apply (serves_transfer c); [|done|by destruct Hs]. cbn [wait_readable fst]. simpl. by rewrite Ep. }
  destruct Hread as (Hne & Hs1 & Harr & Hlt1 & Hleft1 & Es1 & Hset1). destruct gs as [|g gs]; [done|].
  destruct (serves_parse c1 _ g gs Hs1) as [(c2 & Ep & Hs2 & F & Hpos)|(c2 & Ep & Hh & Hps2 & Hok2 & F & Hu & Hpos)];
    pose proof F as (Ein2 & Es2 & _ & Eg2 & _ & El2 & Ems2 & Erq2).
  - assert (input_left c2 < input_left c) as Hleft2 by (unfold input_left in *; rewrite Ein2; lia).
    destruct (IH c2 (g :: gs)) as (c' & es & Hl & Hleave); [lia|by rewrite Ein2|by rewrite Es2, Es1|].
    exists c', es. split.
    + intros [|fuel] Hf; [lia|]. rewrite <-(Hl fuel) by lia.
      apply loop_round. unfold goes_round, request_turn. by rewrite Er, Ep.
    + eapply loop_leaves_from; [exact Hleave|congruence| |by rewrite Ein2].
      destruct Hset1 as (? & ? & ?). split_and!; congruence.
  - rewrite <-Es1 in Hz. destruct (request_answered c1 c2 rest g gs) as (res & c3 & Eserve & Ht); try done; [apply Hs1|].
    match type of Ht with turn_answers _ _ _ _ ?x => set (t := x) in * end.
    assert (turn_c c = Some t) as Eturn by (unfold request_turn; rewrite Er, Ep; cbn [mbind option_bind]; by rewrite Eserve).
    clearbody t. destruct t as [c4|c' es]; cbn [turn_answers] in Ht.
    + destruct Ht as (page & Ea & Hs4 & Hin4 & Ew4 & Hset4 & Hcont & Hleft4).
      destruct (IH c4 gs) as (c' & es & Hl & Hleave); [lia|done|by eapply no_zero_continues|].
      exists c', es. split.
      * intros [|fuel] Hf; [lia|]. rewrite <-(Hl fuel) by lia. by apply loop_round.
      * eapply loop_leaves_from; [|exact Es1|exact Hset1|exact Harr].
        apply (loop_leaves_after c1 c4 rest [g] gs page c' es Hleave); try done; [|by rewrite Hin4].
        by apply answers_one.
    + eapply Hleaves; [exact Eturn|by eapply loop_leaves_from].
Qed.

(** ** Events *)
Implicit Types (cl : client P).

Notation dispatch := (dispatch ROOT stat open realpath fmt_time strptime uninit true spawn_env script).
Notation handle := (handle ROOT stat open realpath fmt_time strptime uninit true spawn_env script).

Definition event_answers (ev : event) : list reply :=
  match ev with Ev_in _ answers | Ev_out answers => answers | _ => [] end.

(** The event is not the end of the connection. *)
Definition peaceful (ev : event) : Prop :=
  match ev with
  | Ev_in input answers => Forall arrives input ∧ Forall retries answers
  | Ev_out answers => Forall retries answers
  | Ev_cgi => True
  | Ev_error | Ev_timer => False
  end.

(** The kernel delivers in order: what can be read is the front of [todo], what the client
    has sent or will send and the server has not read.  A write that succeeds takes at
    least a byte. *)
Definition delivers (todo : list Z) (ev : event) : Prop :=
  Accept 0 ∉ event_answers ev ∧
  match ev with Ev_in input _ => pipe_bytes input `prefix_of` todo | _ => True end.

(** What is still to be read, after the event has left the connection [c]. *)
Definition left_after (todo : list Z) (ev : event) c : list Z :=
  match ev with Ev_in input _ => pipe_bytes (c_in c) ++ drop (length (pipe_bytes input)) todo | _ => todo end.

(** The client sends [stream]; after the events [evs] the connection is [cl] and [todo] is
    what the server has not read. *)
Inductive conversation (cl0 : client P) (stream : list Z) : list event → client P → list Z → Prop :=
  | Conv_start : conversation cl0 stream [] cl0 stream
  | Conv_event evs cl todo ev fuel pool cl' :
      conversation cl0 stream evs cl todo → enabled ev cl → delivers todo ev → hp_ok pool →
      dispatch fuel pool ev cl = Some cl' →
      conversation cl0 stream (evs ++ [ev]) cl' (left_after todo ev (cl_conn cl')).

(** The connection has answered the first of [gs] and waits for the rest. *)
Definition reading (m : Z) cl (todo : list Z) gs : Prop :=
  cl_armed cl = Some EPOLLIN ∧ ∃ ds gs' pages,
    gs = ds ++ gs' ∧ answers m ds pages (Then true) ∧ wire (c_sock (cl_conn cl)) = pages ∧ serves (cl_conn cl) todo gs'.

(** The answer to the last of [ds] is on its way. *)
Definition writing_out (m : Z) cl (todo : list Z) gs : Prop :=
  cl_armed cl = Some EPOLLOUT ∧ ∃ ds gs' pages keep,
    gs = ds ++ gs' ∧ answers m ds pages (Then keep) ∧
    wire (c_sock (cl_conn cl)) ++ pending (c_out (cl_conn cl)) = pages ∧ offset_ok (c_out (cl_conn cl)) ∧
    keep_alive (c_out (cl_conn cl)) = keep ∧ (keep = true → serves (cl_conn cl) todo gs').

(** The script of the last of [ds] runs; [said] has been sent for it. *)
Definition script_runs (m : Z) cl gs : Prop :=
  ∃ ds gs' pages output said,
    gs = ds ++ gs' ∧ answers m ds pages (Stream output) ∧ wire (c_sock (cl_conn cl)) = pages ++ said ∧
    stream_inv (kept [] output) (r_cgi (c_req (cl_conn cl))) said ∧
    (behaves output → tame (kept [] output) (r_cgi (c_req (cl_conn cl)))) ∧
    (Arrived [] ∈ output → flows (r_cgi (c_req (cl_conn cl))) ∧
       (cl_pipe cl = true → backpressure (r_cgi (c_req (cl_conn cl))) = false)) ∧
    (cl_armed cl = Some EPOLLOUT ∧ cl_pipe cl = false ∨
     cl_armed cl = None ∧ cl_pipe cl = true ∧ is_Some (cgi_out (r_cgi (c_req (cl_conn cl))))).

(** What was sent when the connection ended, [peace] or not. *)
Definition ended (m : Z) (peace : Prop) cl gs : Prop :=
  closed cl ∧ told m gs (wire (c_sock (cl_conn cl))) ∧ (peace → told_all m gs (wire (c_sock (cl_conn cl)))).

Definition engaged (m : Z) (peace : Prop) gs cl (todo : list Z) : Prop :=
  if cl_open cl then
    is_Some (cl_timer cl) ∧ ms (cl_conn cl) = m ∧
    (cl_pipe cl = false ∧ r_cgi (c_req (cl_conn cl)) = init_cgi ∧ (reading m cl todo gs ∨ writing_out m cl todo gs) ∨
     script_runs m cl gs)
  else ended m peace cl gs.

Lemma ended_weaken m (p q : Prop) cl gs : (q → p) → ended m p cl gs → ended m q cl gs.
Proof. intros Hpq (? & ? & Hp). split_and!; auto. Qed.

(** Sent so far, in any state. *)
Lemma engaged_told m peace gs cl todo : engaged m peace gs cl todo → told m gs (wire (c_sock (cl_conn cl))).
Proof.
  unfold engaged. destruct (cl_open cl); [|by intros (_ & ? & _)]. intros (_ & _ & [(_ & _ & [Hr|Hw])|Hs]).
  - destruct Hr as (_ & ds & gs' & pages & -> & Ea & <- & _). by eapply told_prefix.
  - destruct Hw as (_ & ds & gs' & pages & keep & -> & Ea & Ew & _). eapply told_prefix; [exact Ea|].
    rewrite <-Ew. by eexists.
  - destruct Hs as (ds & gs' & pages & output & said & -> & Ea & -> & Hinv & _). eapply told_said; [exact Ea|].
    by eapply inv_heard.
Qed.

(** The effects of [do_request] on a connection that waited for input. *)
Lemma engaged_after_loop m (peace : Prop) gs cl c' es rest t ds gs0 pages c0 :
  loop_leaves c0 rest gs0 c' es → gs = ds ++ gs0 → answers m ds pages (Then true) →
  wire (c_sock c0) = pages → ms c0 = m → r_cgi (c_req c0) = init_cgi →
  (peace → calm (c_sock c0) ∧ Forall arrives (c_in c0)) →
  cl_timer cl = Some t → cl_pipe cl = false → cl_open cl = true →
  ∃ cl', perform_all (DelTimer :: es) (cl <| cl_armed := None |> <| cl_conn := c' |>) = Some cl' ∧
    cl_conn cl' = c' ∧ engaged m peace gs cl' (pipe_bytes (c_in c') ++ rest).
Proof.
  intros Hl -> Ea Ew Em Eg Hpeace Et Ep Eo. rewrite <-Em in *.
  unfold engaged. destruct Hl as [ds' gs' pages' t' -> Ea' Ew' Hs' (Eg' & Er' & Ems')
    |ds' gs' pages' keep -> Ea' Ew' Ho' Ek' Hs' (Eg' & Er' & Ems')
    |ds' gs' pages' output es -> Ea' Ew' Hst Ems'|ds' gs' pages' whole e -> Ea' Ew' Hpre Hcalm];
    pose proof (answers_app _ _ _ _ _ _ Ea Ea') as Eapp.
  - eexists. split; [run_effects Eo Et; reflexivity|].
    split; [done|]. simpl. rewrite ?Eo. split; [by eauto|]. split; [done|]. left. split; [done|]. split; [congruence|]. left.
    split; [done|]. exists (ds ++ ds'), gs', (pages ++ pages').
    split; [by rewrite app_assoc|]. split; [done|]. split; [simpl; congruence|done].
  - eexists. split; [run_effects Eo Et; reflexivity|].
    split; [done|]. simpl. rewrite ?Eo. split; [by eauto|]. split; [done|]. left. split; [done|]. split; [congruence|]. right.
    split; [done|]. exists (ds ++ ds'), gs', (pages ++ pages'), keep.
    split; [by rewrite app_assoc|]. split; [done|]. split; [simpl; congruence|done].
  - rewrite Eg in Hst. unfold zv_cgi_start in Hst. destruct (negb _); [done|]. injection Hst as Hg <-.
    eexists. split; [run_effects Eo Et; reflexivity|].
    split; [done|]. simpl. rewrite ?Eo. split; [by eauto|]. split; [done|]. right.
    exists (ds ++ ds'), gs', (pages ++ pages'), output, [].
    split; [by rewrite app_assoc|]. split; [done|]. split; [simpl; rewrite Ew', Ew; by rewrite app_nil_r|].
    simpl. rewrite <-Hg. destruct (start_ok 0 output) as (Hinv & _).
    split; [exact Hinv|]. split; [intros Hb; by apply started_tame|]. split; [intros Hend; split; [by intros p [= <-]|done]|].
    right. split; [done|]. split; [done|]. by eexists.
  - eexists. split; [run_effects Eo Et; reflexivity|].
    split; [done|]. simpl. unfold ended. simpl. rewrite Ew', Ew, app_assoc. split; [done|]. split.
    + eapply told_prefix; [exact Eapp|]. by apply prefix_app.
    + intros Hp. destruct (Hpeace Hp) as [Hc Ha]. destruct (Hcalm Hc Ha) as [-> ->].
      by exists (ds ++ ds'), gs', (pages ++ whole), (Then false).
Qed.

Lemma engaged_in m peace gs cl input answers_in rest pool :
  engaged m peace gs cl (pipe_bytes input ++ rest) → cl_open cl = true → enabled (Ev_in input answers_in) cl →
  Accept 0 ∉ answers_in → hp_ok pool →
  ∃ n cl', (∀ fuel, n < fuel → dispatch fuel pool (Ev_in input answers_in) cl = Some cl') ∧
    engaged m (peace ∧ peaceful (Ev_in input answers_in)) gs cl' (pipe_bytes (c_in (cl_conn cl')) ++ rest).
Proof.
  unfold engaged at 1. intros He Eo Ha Hz Hp. rewrite Eo in He. cbn [enabled] in Ha.
  destruct He as ([t Et] & Em & [(Epipe & Eg & [Hr|(Ea & _)])|(ds & gs' & pages & output & said & _ & _ & _ & _ & _ & _ & Hs)]);
    [|rewrite Ea in Ha; done|destruct Hs as [[Ea _]|[Ea _]]; rewrite Ea in Ha; done].
  destruct Hr as (_ & ds & gs' & pages & -> & Ea & Ew & Hs).
  set (c0 := (cl_conn cl) <| c_pool := pool |> <| c_in := input |>
    <| c_sock := mk_socket answers_in (wire (c_sock (cl_conn cl))) |>).
  destruct (serves_loop (S (input_left c0)) c0 rest gs') as (c' & es & Hl & Hleave); [lia| |exact Hz|].
  { by apply (serves_transfer (cl_conn cl)). }
  destruct (engaged_after_loop m (peace ∧ peaceful (Ev_in input answers_in)) _ cl c' es rest t ds gs' pages c0 Hleave
    eq_refl Ea Ew Em Eg) as (cl' & E & Ec & He); [by intros (_ & ? & ?)|done..|].
  exists (input_left c0), cl'. rewrite Ec. split; [|done]. intros fuel Hf.
  unfold Server.dispatch. cbn [Server.handle disarm]. cbv zeta. unfold do_request.
  match goal with |- context [loop _ ?x] => change x with c0 end. by rewrite (Hl fuel).
Qed.

(** The bytes that wait for the socket. *)
Definition to_send c : list Z :=
  if cgi_active (r_cgi (c_req c)) then cgi_pending (r_cgi (c_req c)) else pending (c_out c).

(** The socket has taken them: the response goes on, or is complete. *)
Definition moves_on cl cl' : Prop :=
  let c := cl_conn cl in
  if cgi_active (r_cgi (c_req c)) && negb (cgi_eof (r_cgi (c_req c))) then
    cl_pipe cl' = true ∧ cgi_active (r_cgi (c_req (cl_conn cl'))) = true ∧
    left_to_read (r_cgi (c_req (cl_conn cl'))) = left_to_read (r_cgi (c_req c))
  else
    wire (c_sock (cl_conn cl')) = wire (c_sock c) ++ to_send c ∧
    if negb (cgi_active (r_cgi (c_req c))) && keep_alive (c_out c) then cl_armed cl' = Some EPOLLIN else cl_open cl' = false.

Definition takes_all cl (answers : list reply) : Prop :=
  Forall (λ a, ∃ n, a = Accept (S n)) answers ∧ length (to_send (cl_conn cl)) ≤ length answers.

(** A page goes on. *)
Lemma engaged_write m peace gs cl todo answers_out pool :
  cl_open cl = true → is_Some (cl_timer cl) → ms (cl_conn cl) = m → cl_pipe cl = false →
  r_cgi (c_req (cl_conn cl)) = init_cgi → writing_out m cl todo gs → Accept 0 ∉ answers_out → hp_ok pool →
  ∃ cl', (∀ fuel, dispatch fuel pool (Ev_out answers_out) cl = Some cl') ∧
    engaged m (peace ∧ peaceful (Ev_out answers_out)) gs cl' todo ∧ (takes_all cl answers_out → moves_on cl cl').
Proof.
  intros Eo [t Et] Em Epipe Eg (_ & ds & gs' & pages & keep & -> & Ea & Ew & Ho & Ek & Hs) Hz Hp.
  unfold takes_all, moves_on, to_send. cbv zeta. rewrite Eg. cbn [cgi_active init_cgi andb negb].
  set (c0 := (cl_conn cl) <| c_pool := pool |> <| c_sock := mk_socket answers_out (wire (c_sock (cl_conn cl))) |>).
  destruct (page_sent (c_out c0) (c_sock c0) Ho Hz) as (rc & out & s & E & _ & Ho' & (Ek' & _) & Hrc).
  assert (Forall (λ a, ∃ n, a = Accept (S n)) answers_out ∧
    length (pending (c_out (cl_conn cl))) ≤ length answers_out → rc = 0%Z) as Hlive.
  { intros [Hwill Hlen]. destruct (try_send_live (c_out c0) (c_sock c0) Ho Hwill Hlen) as (out2 & s2 & E2 & _). congruence. }
  change (wire (c_sock c0)) with (wire (c_sock (cl_conn cl))) in Hrc.
  change (pending (c_out c0)) with (pending (c_out (cl_conn cl))) in Hrc. rewrite Ew in Hrc.
  assert (keep_alive out = keep) as Ekeep by exact (eq_trans Ek' Ek).
  assert (∀ fuel, dispatch fuel pool (Ev_out answers_out) cl =
    '(c, es) ← do_write c0; perform_all es (disarm (Ev_out answers_out) cl <| cl_conn := c |>)) as Hd by done.
  unfold do_write in Hd. change (r_cgi (c_req c0)) with (r_cgi (c_req (cl_conn cl))) in Hd. rewrite Eg in Hd.
  cbn [cgi_active init_cgi] in Hd. rewrite E in Hd. cbn [mbind option_bind] in Hd.
  destruct Hrc as [[-> Hw]|[[-> Hw]|(-> & Hcalm & p & Hw & Hpre)]]; cbn [Z.ltb Z.eqb Z.compare Pos.eqb orb] in Hd.
  - change (keep_alive (c_out (set_out ?c (reset_output ?o)))) with (keep_alive o) in Hd.
    change (c_out ((set_out c0 out) <| c_sock := s |>)) with out in Hd. rewrite Ekeep in Hd.
    destruct keep; cbn [negb] in Hd; (eexists; split; [intros fuel; rewrite Hd; run_effects Eo Et; reflexivity|]);
      (split; [|intros _; rewrite Ek; simpl; rewrite Ew; by split]); unfold engaged; simpl; rewrite ?Eo.
    + split; [by eauto|]. split; [done|]. left. do 2 (split; [done|]). left. split; [done|]. exists ds, gs', pages.
      do 3 (split; [done|]). by apply (serves_transfer (cl_conn cl)), Hp; [apply Hs|].
    + unfold ended. simpl. rewrite Hw. split; [done|]. split; [by eapply told_prefix|].
      intros _. by exists ds, gs', pages, (Then false).
  - eexists. split; [intros fuel; rewrite Hd; run_effects Eo Et; reflexivity|].
    split; [|by intros Hl; specialize (Hlive Hl)].
    unfold engaged. simpl. rewrite ?Eo. split; [by eauto|]. split; [done|]. left. do 2 (split; [done|]). right. split; [done|].
    exists ds, gs', pages, keep. do 3 (split; [done|]). split; [exact Ho'|]. split; [exact Ekeep|].
    intros Hk. by apply (serves_transfer (cl_conn cl)), Hp; [apply Hs|].
  - eexists. split; [intros fuel; rewrite Hd; run_effects Eo Et; reflexivity|].
    split; [|by intros Hl; specialize (Hlive Hl)].
    unfold engaged. simpl. split; [done|]. simpl. rewrite Hw. split; [|by intros (_ & Hc)].
    eapply told_prefix; [exact Ea|]. rewrite <-Ew. by apply prefix_app.
Qed.

(** What the handlers of a script leave: it waits, or the connection is closed. *)
Lemma engaged_script m (peace : Prop) cl c' es (ds gs' : list get_request) pages output said t todo :
  answers m ds pages (Stream output) → wire (c_sock c') = pages ++ said → ms c' = m →
  heard (kept [] output) said →
  (es = [CloseConn] ∧ (peace → behaves output → heard_out (kept [] output) said) ∨
   stream_inv (kept [] output) (r_cgi (c_req c')) said ∧
     (behaves output → tame (kept [] output) (r_cgi (c_req c'))) ∧ script_waits c' es) →
  (Arrived [] ∈ output → es ≠ [CloseConn] → flows (r_cgi (c_req c')) ∧
     (∀ t, es = [ArmCgi; AddTimer t] → backpressure (r_cgi (c_req c')) = false)) →
  cl_timer cl = Some t → cl_open cl = true → cl_armed cl = None → cl_pipe cl = false →
  ∃ cl', perform_all (DelTimer :: es) (cl <| cl_conn := c' |>) = Some cl' ∧ cl_conn cl' = c' ∧
    engaged m peace (ds ++ gs') cl' todo ∧
    (es = [CloseConn] → cl_open cl' = false) ∧ (es ≠ [CloseConn] → cl_open cl' = true) ∧
    (∀ t, es = [ArmCgi; AddTimer t] → cl_pipe cl' = true).
Proof.
  intros Ea Ew Em Hh Hes Hfl Et Eo Earm Epipe. unfold engaged. destruct Hes as [[-> Hout]|(Hinv & Htame & Hes)].
  - eexists. split; [run_effects Eo Et; reflexivity|]. split; [done|]. simpl. split; [|done].
    split; [done|]. unfold ended. simpl. rewrite Ew. split; [by eapply told_said|]. intros Hp.
    exists ds, gs', pages, (Stream output). do 2 (split; [done|]). exists said. split; [done|]. split; [done|by apply Hout].
  - destruct Hes as [->|[-> Hopen]]; (eexists; split; [run_effects Eo Et; reflexivity|]); (split; [done|]); simpl;
      rewrite ?Eo; (split; [|done]); (split; [by eauto|]); (split; [done|]); right;
      exists ds, gs', pages, output, said; do 5 (split; [done|]); simpl;
      (split; [intros Hend; destruct (Hfl Hend) as [Hf Hbp]; [done|]; (split; [exact Hf|]); rewrite ?Epipe; try done; by intros _; eapply Hbp|]);
      [by left|by right].
Qed.

(** The response of a script goes on. *)
Lemma engaged_stream m peace gs cl todo answers_out pool :
  cl_open cl = true → is_Some (cl_timer cl) → ms (cl_conn cl) = m → script_runs m cl gs →
  cl_armed cl = Some EPOLLOUT →
  ∃ cl', (∀ fuel, dispatch fuel pool (Ev_out answers_out) cl = Some cl') ∧
    engaged m (peace ∧ peaceful (Ev_out answers_out)) gs cl' todo ∧ (takes_all cl answers_out → moves_on cl cl').
Proof.
  intros Eo [t Et] Em (ds & gs' & pages & output & said & -> & Ea & Ew & Hinv & Htame & Hfl & Harm) Ho.
  destruct Harm as [[_ Epipe]|[Earm _]]; [|congruence]. pose proof Hinv as (_ & Hact & _).
  unfold takes_all, moves_on, to_send. cbv zeta. rewrite Hact. cbn [andb negb].
  set (c0 := (cl_conn cl) <| c_pool := pool |> <| c_sock := mk_socket answers_out (wire (c_sock (cl_conn cl))) |>).
  destruct (script_writes c0 (kept [] output) pages said Ew Hinv)
    as (c' & es & said' & Ewrite & Ew' & Hh & Em' & Hes & Hlive & Hbp).
  destruct (engaged_script m (peace ∧ peaceful (Ev_out answers_out)) (disarm (Ev_out answers_out) cl) c' es ds gs' pages
    output said' t todo Ea Ew' (eq_trans Em' Em) Hh) as (cl' & E & Ec & He & Hclosed & _ & Hpipe); try done.
  { destruct Hes as [[-> Hout]|(Hinv' & Hsame & Hes)]; [left|right].
    - split; [done|]. intros [_ Hcalm] _. by apply Hout.
    - split; [done|]. split; [|done]. intros Hb. eapply tame_same; [exact Hsame|by apply Htame]. }
  { intros Hend Hne. destruct Hes as [[? _]|(_ & Hsame & _)]; [done|]. split; [|exact Hbp].
    eapply flows_same; [exact Hsame|by apply Hfl]. }
  exists cl'. split; [intros fuel; unfold Server.dispatch; cbn [Server.handle]; cbv zeta;
    match goal with |- context [do_write ?x] => change x with c0 end; rewrite Ewrite; exact E|].
  split; [done|]. intros [Hwill Hlen]. specialize (Hlive Hwill Hlen).
  change (cgi_eof (r_cgi (c_req c0))) with (cgi_eof (r_cgi (c_req (cl_conn cl)))) in Hlive.
  change (cgi_pending (r_cgi (c_req c0))) with (cgi_pending (r_cgi (c_req (cl_conn cl)))) in Hlive.
  destruct (cgi_eof _); cbn [negb].
  - destruct Hlive as [-> ->]. rewrite Ec, Ew', Ew, <-app_assoc. split; [done|by apply Hclosed].
  - split; [by eapply Hpipe|]. destruct Hes as [[-> _]|((_ & Hact' & _) & Hsame & _)]; [done|]. rewrite Ec.
    split; [done|]. unfold left_to_read. destruct Hsame as (_ & Eo' & _). by rewrite Eo'.
Qed.

Lemma engaged_out m peace gs cl todo answers_out pool :
  engaged m peace gs cl todo → cl_open cl = true → enabled (Ev_out answers_out) cl →
  Accept 0 ∉ answers_out → hp_ok pool →
  ∃ cl', (∀ fuel, dispatch fuel pool (Ev_out answers_out) cl = Some cl') ∧
    engaged m (peace ∧ peaceful (Ev_out answers_out)) gs cl' todo ∧ (takes_all cl answers_out → moves_on cl cl').
Proof.
  unfold engaged at 1. intros He Eo Ha Hz Hp. rewrite Eo in He. cbn [enabled] in Ha.
  destruct He as (Ht & Em & [(Epipe & Eg & [(Earm & _)|Hw])|Hs]); [rewrite Earm in Ha; done| |].
  - by apply engaged_write.
  - by apply engaged_stream.
Qed.

(** The script has more output. *)
Lemma engaged_cgi m peace gs cl todo pool :
  engaged m peace gs cl todo → cl_open cl = true → enabled Ev_cgi cl →
  ∃ cl', (∀ fuel, dispatch fuel pool Ev_cgi cl = Some cl') ∧ engaged m (peace ∧ peaceful Ev_cgi) gs cl' todo ∧
    ∃ ds gs' pages output, gs = ds ++ gs' ∧ answers m ds pages (Stream output) ∧
      (behaves output → cl_open cl' = true ∧ cgi_active (r_cgi (c_req (cl_conn cl'))) = true) ∧
      (Arrived [] ∈ output → cl_open cl' = true →
       left_to_read (r_cgi (c_req (cl_conn cl'))) < left_to_read (r_cgi (c_req (cl_conn cl)))).
Proof.
  unfold engaged at 1. intros He Eo Ha. rewrite Eo in He. cbn [enabled] in Ha.
  destruct He as ([t Et] & Em & [(Epipe & _)|Hs]); [rewrite Epipe in Ha; done|].
  destruct Hs as (ds & gs' & pages & output & said & -> & Ea & Ew & Hinv & Htame & Hfl & Harm).
  destruct Harm as [[_ Epipe]|(Earm & Epipe & Hout)]; [congruence|].
  set (c0 := (cl_conn cl) <| c_pool := pool |>).
  destruct (script_reads c0 (kept [] output) said Hinv Hout) as (c' & es & Eread & Es & Em' & Hes & Hmoves).
  destruct (engaged_script m (peace ∧ peaceful Ev_cgi) (disarm Ev_cgi cl) c' es ds gs' pages output said t todo Ea)
    as (cl' & E & Ec & He & Hclosed & Hopen & _); try done.
  { by rewrite Es. } { by rewrite Em'. } { by eapply inv_heard. }
  { destruct Hes as [[-> Hn]|(Hinv' & Ht & Hes)]; [left|right].
    - split; [done|]. intros _ Hb. by destruct (Hn (Htame Hb)).
    - split; [done|]. split; [|done]. intros Hb. by apply Ht, Htame. }
  { intros Hend Hne. destruct (Hfl Hend) as [Hf Hbp]. by destruct (Hmoves Hf (Hbp Epipe) Hne) as (? & _ & ?). }
  exists cl'. split; [intros fuel; unfold Server.dispatch; cbn [Server.handle]; cbv zeta;
    match goal with |- context [cgi_readable ?x] => change x with c0 end; rewrite Eread; exact E|].
  split; [done|]. exists ds, gs', pages, output. do 2 (split; [done|]). split.
  - intros Hb. destruct Hes as [[_ Hn]|((_ & Hact' & _) & _ & Hes)]; [by destruct (Hn (Htame Hb))|].
    rewrite Ec. split; [|done]. apply Hopen. intros ->. by destruct Hes as [[=]|[[=] _]].
  - intros Hend Eo'. rewrite Ec. destruct (Hfl Hend) as [Hf Hbp]. apply (Hmoves Hf (Hbp Epipe)).
    intros ->. rewrite Hclosed in Eo' by done. done.
Qed.

Lemma engaged_close m (peace : Prop) gs cl todo ev pool :
  engaged m peace gs cl todo → cl_open cl = true → ev = Ev_error ∨ ev = Ev_timer →
  ∃ cl', (∀ fuel, dispatch fuel pool ev cl = Some cl') ∧ engaged m (peace ∧ peaceful ev) gs cl' todo.
Proof.
  intros He Eo Hev. pose proof (engaged_told _ _ _ _ _ He) as Hw. unfold engaged in He. rewrite Eo in He.
  destruct He as ([t Et] & _). unfold Server.dispatch, engaged.
  destruct Hev as [->| ->]; cbn [Server.handle disarm]; unfold close_conn, zv_http_close_conn, zv_free_request_t;
    (eexists; split; [intros fuel; run_effects Eo Et; reflexivity|]); simpl; split_and!; try done; by intros [_ []].
Qed.

(** Every event of a conversation is handled, and keeps the two sides in step. *)
Lemma engaged_event m peace gs cl todo ev pool :
  engaged m peace gs cl todo → cl_open cl = true → enabled ev cl → delivers todo ev → hp_ok pool →
  ∃ n cl', (∀ fuel, n < fuel → dispatch fuel pool ev cl = Some cl') ∧
    engaged m (peace ∧ peaceful ev) gs cl' (left_after todo ev (cl_conn cl')).
Proof.
  intros He Eo Hen [Hz Hdel] Hp.
  destruct ev as [input ans|ans| | |].
  - destruct Hdel as [rest ->]. destruct (engaged_in _ _ _ _ _ _ rest pool He Eo Hen Hz Hp) as (n & cl' & Hd & He').
    exists n, cl'. split; [done|]. cbn [left_after]. by rewrite drop_app_length.
  - destruct (engaged_out _ _ _ _ _ ans pool He Eo Hen Hz Hp) as (cl' & Hd & He' & _). by exists 0, cl'.
  - destruct (engaged_cgi _ _ _ _ _ pool He Eo Hen) as (cl' & Hd & He' & _). by exists 0, cl'.
  - destruct (engaged_close _ _ _ _ _ Ev_error pool He Eo) as (cl' & Hd & He'); [by left|]. by exists 0, cl'.
  - destruct (engaged_close _ _ _ _ _ Ev_timer pool He Eo) as (cl' & Hd & He'); [by right|]. by exists 0, cl'.
Qed.

Lemma engaged_dispatch m peace gs cl todo ev fuel pool cl' :
  engaged m peace gs cl todo → enabled ev cl → delivers todo ev → hp_ok pool →
  dispatch fuel pool ev cl = Some cl' → engaged m (peace ∧ peaceful ev) gs cl' (left_after todo ev (cl_conn cl')).
Proof.
  intros He Hen Hdel Hp Hd. destruct (cl_open cl) eqn:Eo.
  2: { exfalso. unfold engaged in He. rewrite Eo in He. destruct He as (Hc & _).
       destruct (closed_reported ROOT stat open realpath fmt_time strptime uninit true spawn_env script cl ev Hc Hen) as [_ Hn].
       by rewrite Hn in Hd. }
  destruct (engaged_event _ _ _ _ _ _ pool He Eo Hen Hdel Hp) as (n & cl2 & Hd2 & He2).
  apply (dispatch_mono _ _ _ _ _ _ _ _ _ _ fuel (S (max n fuel))) in Hd; [|lia].
  rewrite Hd2 in Hd by lia. by injection Hd as <-.
Qed.

Lemma engaged_weaken m (p q : Prop) gs cl todo : (q → p) → engaged m p gs cl todo → engaged m q gs cl todo.
Proof. intros Hpq. unfold engaged. destruct (cl_open cl); [done|by apply ended_weaken]. Qed.

Lemma conversation_engaged m cl0 gs evs cl todo :
  engaged m True gs cl0 (concat (print_get <$> gs)) → conversation cl0 (concat (print_get <$> gs)) evs cl todo →
  engaged m (Forall peaceful evs) gs cl todo.
Proof.
  intros H0 Hc. induction Hc as [|evs cl todo ev fuel pool cl' Hc IH Hen Hdel Hp Hd].
  - eapply engaged_weaken; [|exact H0]. done.
  - eapply engaged_weaken; [|by eapply engaged_dispatch].
    intros [Hevs [Hev1 _]%Forall_cons]%Forall_app. exact (conj Hevs Hev1).
Qed.

Lemma accepted_engaged keep_ms req_ms old pool0 cl0 gs :
  length (buf (r_parser old)) = MAX_BUF → hp_ok pool0 → accept_client keep_ms req_ms old pool0 = Some cl0 →
  Forall request_ok gs → engaged (ms (cl_conn cl0)) True gs cl0 (concat (print_get <$> gs)).
Proof.
  intros Hl Hp Ha Hgs. unfold accept_client in Ha. cbn [perform_all] in Ha. unfold perform in Ha. simpl in Ha.
  injection Ha as <-. unfold engaged. simpl. split; [by eauto|]. split; [done|]. left. do 2 (split; [done|]). left.
  split; [done|]. exists [], gs, []. split; [done|]. split; [constructor|]. split; [done|].
  apply serves_start; try done. split; try done.
  split; [by apply init_parser_wf|by split|by left].
Qed.

Lemma conversation_reached keep_ms req_ms old pool0 cl0 gs evs cl todo :
  length (buf (r_parser old)) = MAX_BUF → hp_ok pool0 → accept_client keep_ms req_ms old pool0 = Some cl0 →
  Forall request_ok gs → conversation cl0 (concat (print_get <$> gs)) evs cl todo →
  engaged (ms (cl_conn cl0)) (Forall peaceful evs) gs cl todo.
Proof. intros Hl Hp Ha Hgs Hc. eapply conversation_engaged; [by eapply accepted_engaged|done]. Qed.

(** What an open connection has delivered of the answers to [gs] and what it has yet to do. *)
Definition in_step (m : Z) gs c (armed : option Z) (pipe_armed : bool) (todo : list Z) : Prop :=
  ∃ answered rest pages e, gs = answered ++ rest ∧ answers m answered pages e ∧
    match e with
    | Then keep =>
        (armed = Some EPOLLIN ∧ keep = true ∧ wire (c_sock c) = pages ∨
         armed = Some EPOLLOUT ∧ keep_alive (c_out c) = keep ∧ wire (c_sock c) ++ pending (c_out c) = pages) ∧
        pipe_armed = false ∧
        (keep = true → take (last (c_parser c)) (buf (c_parser c)) ++ todo = concat (print_get <$> rest))
    | Stream output =>
        (∃ said, wire (c_sock c) = pages ++ said ∧ heard (kept [] output) said) ∧
        (armed = Some EPOLLOUT ∧ pipe_armed = false ∨ armed = None ∧ pipe_armed = true)
    end.

Lemma engaged_open m (peace : Prop) gs cl todo :
  engaged m peace gs cl todo → cl_open cl = true → in_step m gs (cl_conn cl) (cl_armed cl) (cl_pipe cl) todo.
Proof.
  intros He Eo. unfold engaged in He. rewrite Eo in He. destruct He as (_ & _ & [(Ep & _ & [Hr|Hw])|Hs]).
  - destruct Hr as (Earm & ds & gs' & pages & -> & Ea & Ew & Hs). exists ds, gs', pages, (Then true).
    split; [done|]. split; [exact Ea|]. split; [by left|]. split; [done|]. intros _. by destruct Hs.
  - destruct Hw as (Earm & ds & gs' & pages & keep & -> & Ea & Ew & _ & Ek & Hs). exists ds, gs', pages, (Then keep).
    split; [done|]. split; [exact Ea|]. split; [by right|]. split; [done|]. intros Hk. by destruct (Hs Hk).
  - destruct Hs as (ds & gs' & pages & output & said & -> & Ea & Ew & Hinv & _ & _ & Harm).
    exists ds, gs', pages, (Stream output). split; [done|]. split; [exact Ea|]. split.
    + exists said. split; [done|by eapply inv_heard].
    + destruct Harm as [?|(? & ? & _)]; auto.
Qed.

(** C2. A client is always told the truth, in order: whatever the kernel does with the pieces
    of a stream of well-formed requests, each of fewer than MAX_BUF bytes, of the answers
    and of the output of a script, over any number of events, and as long as no allocation
    fails, what the client has received is the beginning of the answers of the abstract
    server, and after them, when the last answer is that of a script, the beginning of a
    response that decodes to the body of the output that the server keeps (all of it, when
    the reads up to the end of its header fit in the header buffer).  An open connection has
    delivered, or is delivering the last of, the answers to the requests it has taken, and
    nothing of the rest of the stream is lost: it is at the front of the buffer or still to
    be read.  And a connection on which nothing fails is closed only after the last of the
    answers, the one that announces the closing or the one of a script that behaves, has
    been delivered whole; or unanswered, for a file that cannot be opened although its mode
    says so.  Only a request with an If-Modified-Since header has two possible answers: it
    is 304 when its date is the number in uninitialised memory. *)
Theorem conversation_in_order keep_ms req_ms old pool0 cl0 gs evs cl todo :
  length (buf (r_parser old)) = MAX_BUF → hp_ok pool0 → accept_client keep_ms req_ms old pool0 = Some cl0 →
  Forall request_ok gs → conversation cl0 (concat (print_get <$> gs)) evs cl todo →
  let m := ms (cl_conn cl0) in
  let got := wire (c_sock (cl_conn cl)) in
  told m gs got ∧
  if cl_open cl then in_step m gs (cl_conn cl) (cl_armed cl) (cl_pipe cl) todo
  else Forall peaceful evs → told_all m gs got.
Proof.
  intros Hl Hp Ha Hgs Hc m got. pose proof (conversation_reached _ _ _ _ _ _ _ _ _ Hl Hp Ha Hgs Hc) as He.
  split; [by eapply engaged_told|]. destruct (cl_open cl) eqn:Eo.
  - by eapply engaged_open.
  - unfold engaged in He. rewrite Eo in He. by destruct He as (_ & _ & He).
Qed.

(** C7. A conversation does not stall on the side of the server: as long as the connection is
    open and no allocation fails, every event that can come is handled, however the
    requests are cut, so that a client that sends requests of the grammar never makes
    [do_request] spin; when the socket takes what is left of an answer the answer is
    complete, and the connection is closed or waits for the next request as the answer
    announced; when it takes what a script has written so far the server reads more of the
    output, or closes the connection if that was the end; and no event of its pipe closes
    the connection of a script that behaves (its output stays under the limit, its header
    is acceptable and arrives in reads that leave room in the buffer, and no read fails). *)
Theorem conversation_goes_on keep_ms req_ms old pool0 cl0 gs evs cl todo ev pool :
  length (buf (r_parser old)) = MAX_BUF → hp_ok pool0 → accept_client keep_ms req_ms old pool0 = Some cl0 →
  Forall request_ok gs → conversation cl0 (concat (print_get <$> gs)) evs cl todo →
  cl_open cl = true → enabled ev cl → delivers todo ev → hp_ok pool →
  ∃ n cl', (∀ fuel, n < fuel → dispatch fuel pool ev cl = Some cl') ∧
    (∀ ans, ev = Ev_out ans → takes_all cl ans → moves_on cl cl') ∧
    (ev = Ev_cgi → ∃ ds gs' pages output, gs = ds ++ gs' ∧ answers (ms (cl_conn cl0)) ds pages (Stream output) ∧
       (behaves output → cl_open cl' = true)).
Proof.
  intros Hl Hp0 Ha Hgs Hc Eo Hen Hdel Hp. pose proof (conversation_reached _ _ _ _ _ _ _ _ _ Hl Hp0 Ha Hgs Hc) as He.
  destruct (engaged_event _ _ _ _ _ _ pool He Eo Hen Hdel Hp) as (n & cl' & Hd & _). exists n, cl'. split; [done|].
  specialize (Hd (S n) ltac:(lia)). split.
  - intros ans ->. destruct (engaged_out _ _ _ _ _ ans pool He Eo Hen (proj1 Hdel) Hp) as (cl2 & Hd2 & _ & Hlive).
    rewrite Hd2 in Hd. by injection Hd as <-.
  - intros ->. destruct (engaged_cgi _ _ _ _ _ pool He Eo Hen) as (cl2 & Hd2 & _ & ds & gs' & pages & output & Egs & Ea & Hb & _).
    rewrite Hd2 in Hd. injection Hd as <-. exists ds, gs', pages, output. do 2 (split; [done|]). intros Hbe. by apply Hb.
Qed.
End conversation.

(** ** A concrete conversation *)

(** The requests of Pipeline.v, cut in the first one; the socket takes ten bytes of the
    first answer. *)
Abbreviation demo_conversation :=
  (conversation (Some demo_root) demo_stat demo_open demo_http_realpath demo_time (λ _, None) 0 demo_spawn (λ _ _ _, [])
    demo_cl0 demo_stream).
Definition demo_say1 : event := Ev_in [Arrived (take 10 demo_stream)] [].
Definition demo_say2 : event := Ev_in [Arrived (take 50 (drop 10 demo_stream)); Arrived (drop 60 demo_stream)] [Accept 10].
Definition demo_hear2 : event := Ev_out [Accept 400; Accept 400].
Definition demo_c1 : client nat := default demo_cl0 (demo_dispatch 100 5 demo_say1 demo_cl0).
Definition demo_c2 : client nat := default demo_cl0 (demo_dispatch 100 5 demo_say2 demo_c1).
Definition demo_c3 : client nat := default demo_cl0 (demo_dispatch 100 5 demo_hear2 demo_c2).

Lemma demo_event_1 : cl_armed demo_cl0 = Some EPOLLIN ∧ demo_dispatch 100 5 demo_say1 demo_cl0 = Some demo_c1 ∧
  left_after demo_stream demo_say1 (cl_conn demo_c1) = drop 10 demo_stream.
Proof. split_and!; vm_compute; reflexivity. Qed.

Lemma demo_event_2 : cl_armed demo_c1 = Some EPOLLIN ∧ demo_dispatch 100 5 demo_say2 demo_c1 = Some demo_c2 ∧
  left_after (drop 10 demo_stream) demo_say2 (cl_conn demo_c2) = drop 60 demo_stream.
Proof. split_and!; vm_compute; reflexivity. Qed.

Lemma demo_event_3 : cl_armed demo_c2 = Some EPOLLOUT ∧ demo_dispatch 100 5 demo_hear2 demo_c2 = Some demo_c3.
Proof. split; vm_compute; reflexivity. Qed.

Lemma demo_delivers :
  delivers demo_stream demo_say1 ∧ delivers (drop 10 demo_stream) demo_say2.
Proof. repeat split; apply (bool_decide_unpack _); vm_compute; exact I. Qed.

Lemma demo_conversation_2 : demo_conversation [demo_say1; demo_say2] demo_c2 (drop 60 demo_stream).
Proof.
  destruct demo_event_1 as (A1 & D1 & T1), demo_event_2 as (A2 & D2 & T2), demo_delivers as (I1 & I2).
  rewrite <-T2. eapply Conv_event with (evs := [demo_say1]) (cl := demo_c1) (fuel := 100) (pool := 5);
    [|exact A2|exact I2|exact demo_pool5_ok|exact D2].
  rewrite <-T1. eapply Conv_event with (evs := []) (cl := demo_cl0) (fuel := 100) (pool := 5);
    [constructor|exact A1|exact I1|exact demo_pool5_ok|exact D1].
Qed.

Lemma demo_gets_ok : Forall request_ok [demo_get1; demo_get2].
Proof.
  constructor; [split; [apply demo_get1_ok|]|constructor; [split; [apply demo_get2_ok|]|constructor]];
    apply Nat.ltb_lt; vm_compute; reflexivity.
Qed.

(** A page and then the output of a script, ["hi"]: the socket takes the page, the script
    writes, the socket takes what it wrote, the script ends. *)
Definition demo_cgi (f name : list Z) (qs : option (list Z)) : pipe :=
  [Arrived (str "Content-Type: text/css" ++ crlf ++ crlf ++ str "hi"); Arrived []].
Definition demo_get3 : get_request :=
  mk_get (mk_line [] (str "GET") 0 (str "/cgi-bin/hello") 0 (str "1") (str "1") 0 true) [].
Abbreviation demo_cgi_dispatch :=
  (dispatch (Some demo_root) demo_stat demo_open demo_http_realpath demo_time (λ _, None) 0 true demo_spawn demo_cgi 100 5).
Definition demo_cgi_stream : list Z := concat (print_get <$> [demo_get1; demo_get3]).
Definition demo_ask : event := Ev_in [Arrived demo_cgi_stream] [Accept 1000; Accept 1000].
Definition demo_take : event := Ev_out [Accept 1000; Accept 1000].
Definition demo_k1 : client nat := default demo_cl0 (demo_cgi_dispatch demo_ask demo_cl0).
Definition demo_k2 : client nat := default demo_cl0 (demo_cgi_dispatch Ev_cgi demo_k1).
Definition demo_k3 : client nat := default demo_cl0 (demo_cgi_dispatch demo_take demo_k2).
Definition demo_k4 : client nat := default demo_cl0 (demo_cgi_dispatch Ev_cgi demo_k3).
Definition demo_k5 : client nat := default demo_cl0 (demo_cgi_dispatch demo_take demo_k4).
Abbreviation demo_cgi_conversation :=
  (conversation (Some demo_root) demo_stat demo_open demo_http_realpath demo_time (λ _, None) 0 demo_spawn demo_cgi
    demo_cl0 demo_cgi_stream).

Lemma demo_k1_is : demo_cgi_dispatch demo_ask demo_cl0 = Some demo_k1 ∧
  left_after demo_cgi_stream demo_ask (cl_conn demo_k1) = [] ∧ cl_pipe demo_k1 = true.
Proof. split_and!; vm_compute; reflexivity. Qed.

Lemma demo_k2_is : demo_cgi_dispatch Ev_cgi demo_k1 = Some demo_k2 ∧ cl_armed demo_k2 = Some EPOLLOUT.
Proof. split; vm_compute; reflexivity. Qed.

Lemma demo_k3_is : demo_cgi_dispatch demo_take demo_k2 = Some demo_k3 ∧ cl_pipe demo_k3 = true.
Proof. split; vm_compute; reflexivity. Qed.

Lemma demo_k4_is : demo_cgi_dispatch Ev_cgi demo_k3 = Some demo_k4 ∧ cl_armed demo_k4 = Some EPOLLOUT.
Proof. split; vm_compute; reflexivity. Qed.

Lemma demo_k5_is : demo_cgi_dispatch demo_take demo_k4 = Some demo_k5 ∧ cl_open demo_k5 = false.
Proof. split; vm_compute; reflexivity. Qed.

Lemma demo_asks : delivers demo_cgi_stream demo_ask ∧ delivers [] demo_take ∧ delivers [] Ev_cgi.
Proof. repeat split; apply (bool_decide_unpack _); vm_compute; exact I. Qed.

(** One more event, of which nothing is left to be read. *)
Lemma demo_cgi_event evs cl ev cl' :
  demo_cgi_conversation evs cl [] → enabled ev cl → delivers [] ev → demo_cgi_dispatch ev cl = Some cl' →
  left_after [] ev (cl_conn cl') = [] → demo_cgi_conversation (evs ++ [ev]) cl' [].
Proof. intros Hc Hen Hdel Hd El. rewrite <-El. eapply Conv_event; [exact Hc|done|done|exact demo_pool5_ok|exact Hd]. Qed.

Lemma demo_cgi_conversation_5 : demo_cgi_conversation [demo_ask; Ev_cgi; demo_take; Ev_cgi; demo_take] demo_k5 [].
Proof.
  destruct demo_k1_is as (D1 & T1 & P1), demo_k2_is as (D2 & A2), demo_k3_is as (D3 & P3), demo_k4_is as (D4 & A4),
    demo_k5_is as (D5 & _), demo_asks as (I1 & I2 & I3).
  apply (demo_cgi_event [demo_ask; Ev_cgi; demo_take; Ev_cgi] demo_k4 demo_take); [|exact A4|exact I2|exact D5|reflexivity].
  apply (demo_cgi_event [demo_ask; Ev_cgi; demo_take] demo_k3 Ev_cgi); [|exact P3|exact I3|exact D4|reflexivity].
  apply (demo_cgi_event [demo_ask; Ev_cgi] demo_k2 demo_take); [|exact A2|exact I2|exact D3|reflexivity].
  apply (demo_cgi_event [demo_ask] demo_k1 Ev_cgi); [|exact P1|exact I3|exact D2|reflexivity].
  rewrite <-T1. eapply Conv_event with (evs := []) (cl := demo_cl0) (fuel := 100) (pool := 5);
    [constructor|reflexivity|exact I1|exact demo_pool5_ok|exact D1].
Qed.

Lemma demo_cgi_asked : Forall request_ok [demo_get1; demo_get3].
Proof.
  constructor; [split; [apply demo_get1_ok|apply Nat.ltb_lt; vm_compute; reflexivity]|].
  constructor; [|constructor]. split; [|apply Nat.ltb_lt; vm_compute; reflexivity].
  split; cbn [demo_get3 g_line g_headers]; [|by split|constructor|intros _; by left].
  split; simpl; try concrete_chars.
  - exists (str "cgi-bin/hello"). split; [done|concrete_chars].
  - exists "1"%ch, []. by split_and!.
Qed.

Lemma demo_cgi_peaceful : Forall peaceful [demo_ask; Ev_cgi; demo_take; Ev_cgi; demo_take].
Proof.
  assert (Forall retries [Accept 1000; Accept 1000]) as Hr by (repeat constructor; apply Nat.ltb_lt; vm_compute; reflexivity).
  unfold demo_ask, demo_take. set (n := 1000) in *. clearbody n.
  constructor; [|repeat (constructor; [exact I || exact Hr|])]; [|constructor].
  split; [|exact Hr]. constructor; [discriminate|constructor].
Qed.

(** The client has the page and all the output of the script when the connection is closed. *)
Lemma conversation_in_order_witness :
  told_all (Some demo_root) demo_stat demo_open demo_http_realpath demo_time (λ _, None) 0 demo_spawn demo_cgi
    (keep_alive_timeout_ms (c_req (cl_conn demo_cl0))) [demo_get1; demo_get3] (wire (c_sock (cl_conn demo_k5))).
Proof.
  pose proof demo_cgi_conversation_5 as Hc. unfold demo_cgi_stream in Hc.
  destruct (conversation_in_order (Some demo_root) demo_stat demo_open demo_http_realpath demo_time (λ _, None) 0 demo_spawn
    demo_cgi demo_pool_supplies demo_time_short demo_sizes 0 0 demo_old 5 demo_cl0 [demo_get1; demo_get3] _ demo_k5 []
    (length_replicate _ _) demo_pool5_ok demo_accepted demo_cgi_asked Hc) as [_ He].
  rewrite (proj2 demo_k5_is) in He. exact (He demo_cgi_peaceful).
Defined.

(** The answer of the script to the request. *)
Example demo_cgi_answer :
  (plain_answers (Some demo_root) demo_stat demo_open demo_http_realpath demo_time demo_spawn demo_cgi
    (keep_alive_timeout_ms (c_req (cl_conn demo_cl0))) [demo_get1; demo_get3]).2 = Stream (demo_cgi [] [] None).
Proof. vm_compute. reflexivity. Qed.

Definition demo_hear_all : list reply := replicate 1000 (Accept 1).

Lemma demo_hear_all_ok :
  delivers (drop 60 demo_stream) (Ev_out demo_hear_all) ∧ Forall (λ a, ∃ n, a = Accept (S n)) demo_hear_all.
Proof.
  split; [split; [apply (bool_decide_unpack _); vm_compute; exact I|exact I]|apply Forall_replicate; by exists 0].
Qed.

Lemma demo_c2_writes :
  keep_alive (c_out (cl_conn demo_c2)) = true ∧ cgi_active (r_cgi (c_req (cl_conn demo_c2))) = false ∧
  length (to_send (cl_conn demo_c2)) ≤ length demo_hear_all.
Proof. split_and!; [| |apply Nat.leb_le]; vm_compute; reflexivity. Qed.

Lemma demo_c2_open : cl_open demo_c2 = true.
Proof. vm_compute. reflexivity. Qed.

Lemma moves_on_page {P : Type} (cl cl' : client P) :
  moves_on cl cl' → cgi_active (r_cgi (c_req (cl_conn cl))) = false → keep_alive (c_out (cl_conn cl)) = true →
  wire (c_sock (cl_conn cl')) = wire (c_sock (cl_conn cl)) ++ to_send (cl_conn cl) ∧ cl_armed cl' = Some EPOLLIN.
Proof. unfold moves_on. cbv zeta. intros Hm Hi Hk. by rewrite Hi, Hk in Hm. Qed.

(** When the socket is ready the rest of the first answer is sent. *)
Lemma conversation_goes_on_witness :
  ∃ n cl', (∀ fuel, n < fuel → demo_dispatch fuel 5 (Ev_out demo_hear_all) demo_c2 = Some cl') ∧
    wire (c_sock (cl_conn cl')) = wire (c_sock (cl_conn demo_c2)) ++ to_send (cl_conn demo_c2) ∧
    cl_armed cl' = Some EPOLLIN.
Proof.
  pose proof demo_conversation_2 as Hc. unfold demo_stream in Hc.
  destruct demo_hear_all_ok as [Hz Hw], demo_c2_writes as (Hk & Hi & Hlen), demo_event_3 as [Ha _].
  destruct (conversation_goes_on (Some demo_root) demo_stat demo_open demo_http_realpath demo_time (λ _, None) 0 demo_spawn
    (λ _ _ _, []) demo_pool_supplies demo_time_short demo_sizes 0 0 demo_old 5 demo_cl0 [demo_get1; demo_get2] _ demo_c2 _ (Ev_out demo_hear_all) 5 (length_replicate _ _)
    demo_pool5_ok demo_accepted demo_gets_ok Hc demo_c2_open Ha Hz demo_pool5_ok) as (n & cl' & Hd & Hlive & _).
  exists n, cl'. exact (conj Hd (moves_on_page _ _ (Hlive demo_hear_all eq_refl (conj Hw Hlen)) Hi Hk)).
Defined.

(** ** Requests that nobody answers

    A client sends two requests at once.  The socket takes ten bytes of the first answer, so
    that the second request stays in the buffer; when the rest of the answer has been
    sent, the connection waits for input although there is nothing left to arrive. *)
Definition demo_say_all : event := Ev_in [Arrived demo_stream] [Accept 10].
Definition demo_stalled1 : client nat := default demo_cl0 (demo_dispatch 100 5 demo_say_all demo_cl0).
Definition demo_stalled : client nat := default demo_cl0 (demo_dispatch 100 5 demo_hear2 demo_stalled1).

Lemma demo_stalled_events :
  demo_dispatch 100 5 demo_say_all demo_cl0 = Some demo_stalled1 ∧
  left_after demo_stream demo_say_all (cl_conn demo_stalled1) = [] ∧
  cl_armed demo_stalled1 = Some EPOLLOUT ∧ demo_dispatch 100 5 demo_hear2 demo_stalled1 = Some demo_stalled.
Proof. split_and!; vm_compute; reflexivity. Qed.

Lemma demo_stalled_state :
  cl_open demo_stalled = true ∧ cl_armed demo_stalled = Some EPOLLIN ∧ cl_pipe demo_stalled = false ∧
  take (last (c_parser (cl_conn demo_stalled))) (buf (c_parser (cl_conn demo_stalled))) = print_get demo_get2.
Proof. split_and!; vm_compute; reflexivity. Qed.

Lemma demo_stalled_conversation : demo_conversation [demo_say_all; demo_hear2] demo_stalled [].
Proof.
  destruct demo_stalled_events as (D1 & T1 & A2 & D2).
  eapply (Conv_event _ _ _ _ _ _ _ _ _ _ _ [demo_say_all] demo_stalled1 [] demo_hear2 100 5);
    [|exact A2|split; [apply (bool_decide_unpack _); vm_compute; exact I|exact I]|exact demo_pool5_ok|exact D2].
  rewrite <-T1. eapply Conv_event with (evs := []) (cl := demo_cl0) (fuel := 100) (pool := 5);
    [constructor|reflexivity|split; apply (bool_decide_unpack _); vm_compute; exact I|exact demo_pool5_ok|exact D1].
Qed.

(** A connection waits without end for the answer to a request that has arrived whole:
    everything that the client sent has been read and the second request is in the
    buffer, but until the client sends more, or closes its side, nothing but the timer or
    an error can happen, and these close the connection. *)
Example request_stalls :
  demo_conversation [demo_say_all; demo_hear2] demo_stalled [] ∧ cl_open demo_stalled = true ∧
  take (last (c_parser (cl_conn demo_stalled))) (buf (c_parser (cl_conn demo_stalled))) = print_get demo_get2 ∧
  ∀ fuel pool ev cl', enabled ev demo_stalled → (∀ input answers, ev ≠ Ev_in input answers) →
    demo_dispatch fuel pool ev demo_stalled = Some cl' →
    cl_open cl' = false ∧ wire (c_sock (cl_conn cl')) = wire (c_sock (cl_conn demo_stalled)).
Proof.
  destruct demo_stalled_state as (Eo & Ea & Ep & Eb). split; [exact demo_stalled_conversation|]. split; [exact Eo|].
  split; [exact Eb|]. revert Eo Ea Ep. generalize demo_stalled. intros cl Eo Ea Ep fuel pool ev cl' Hen Hin Hd.
  destruct ev as [input answers|answers| | |]; cbn [enabled] in Hen.
  - by destruct (Hin input answers).
  - rewrite Ea in Hen. discriminate.
  - rewrite Ep in Hen. discriminate.
  - by eapply end_closes; [left; reflexivity|exact Hd].
  - by eapply end_closes; [right; reflexivity|exact Hd].
Qed.
