(* ===== verification/Completion.v ===== *)
(** * Scripts are served to their end (http.c, cgi.c, worker.c)

    Conversation.v shows that what a client hears of a script is right and that no event is
    lost.  Here is that it does not take for ever: once the script runs, every event on
    which the kernel does its part brings the connection closer to the end of the
    response. *)
From S2P Require Import Prelude CString HeaderPool HttpParse RequestLine HeaderBlock Path Sockets Output Cgi CgiStream Scripts Request Http Serve Pieces Answers Pipeline Server Conversation.

Section completion.
Context `{HeaderPool P}.
Variables (ROOT : option (list Z)) (stat : list Z → option file_stat) (open : list Z → option (list Z))
  (realpath : list Z → option (list Z)) (fmt_time : Z → list Z) (strptime : list Z → option Z)
  (uninit : Z) (spawn_env : spawn) (script : list Z → list Z → option (list Z) → pipe).
Hypothesis pool_supplies : ∀ p : P, hp_ok p → is_Some (hp_alloc p).
Hypothesis fmt_time_short : ∀ t, length (fmt_time t) < SHORTLINE.
Hypothesis sizes_small : ∀ f sb, stat f = Some sb → (Z.of_nat (st_size sb) < 2 ^ 63)%Z.
Implicit Types (cl : client P) (gs : list get_request).

Notation answers := (answers ROOT stat open realpath fmt_time strptime uninit spawn_env script).
Notation dispatch := (dispatch ROOT stat open realpath fmt_time strptime uninit true spawn_env script).
Notation conversation := (conversation ROOT stat open realpath fmt_time strptime uninit spawn_env script).
Notation engaged := (engaged ROOT stat open realpath fmt_time strptime uninit spawn_env script).
Notation ms c := (keep_alive_timeout_ms (c_req c)).
Notation running cl := (cgi_active (r_cgi (c_req (cl_conn cl)))).

(** The kernel does its part: the pipe is reported, or the socket takes what is ready. *)
Definition cooperates cl cl' : Prop :=
  ∃ ev fuel pool, enabled ev cl ∧ hp_ok pool ∧ dispatch fuel pool ev cl = Some cl' ∧
    (ev = Ev_cgi ∨ ∃ ans, ev = Ev_out ans ∧ takes_all cl ans).

(** How many such events are left at most. *)
Definition steps_left cl : nat :=
  2 * left_to_read (r_cgi (c_req (cl_conn cl))) + (if cl_pipe cl then 0 else 1).

Lemma takes_all_peaceful cl ans todo : takes_all cl ans → peaceful (Ev_out ans) ∧ delivers todo (Ev_out ans).
Proof.
  intros [Hw _]. split.
  - unfold peaceful. eapply Forall_impl; [exact Hw|]. intros a [n ->]. simpl. lia.
  - split; [|done]. simpl. intros Hin. rewrite Forall_forall in Hw. by destruct (Hw _ Hin).
Qed.

Lemma running_waits m (peace : Prop) gs cl todo :
  engaged m peace gs cl todo → cl_open cl = true → running cl = true →
  (cl_armed cl = Some EPOLLOUT ∧ cl_pipe cl = false) ∨
  (cl_armed cl = None ∧ cl_pipe cl = true ∧ 0 < left_to_read (r_cgi (c_req (cl_conn cl)))).
Proof.
  intros He Eo Hr. unfold Conversation.engaged in He. rewrite Eo in He.
  destruct He as (_ & _ & [(_ & Eg & _)|(ds & gs' & pages & output & said & _ & _ & _ & _ & _ & _ & Harm)]).
  - by rewrite Eg in Hr.
  - destruct Harm as [?|(? & ? & [p Ep])]; [by left|right]. unfold left_to_read. rewrite Ep. split_and!; done || lia.
Qed.

Section output.
Variables (m : Z) (gs : list get_request) (pages : list Z) (output : pipe).
Hypothesis dateless : Forall (λ g, ¬ names_date strptime (g_kvs g) uninit) gs.
Hypothesis answered : answers m gs pages (Stream output).
Hypothesis behaving : behaves output.
Hypothesis ends : Arrived [] ∈ output.

(** The script that runs is that one. *)
Lemma that_script ds gs' pages' e : gs = ds ++ gs' → answers m ds pages' e → e ≠ Then true → pages' = pages ∧ e = Stream output.
Proof.
  intros Egs Ea He. apply (answers_last _ _ _ _ _ _ _ _ _ _ _ _ _ gs') in Ea; [|done]. rewrite <-Egs in Ea.
  by eapply answers_unique.
Qed.

Lemma cooperates_step cl cl' todo :
  engaged m True gs cl todo → cl_open cl = true → running cl = true → cooperates cl cl' →
  engaged m True gs cl' todo ∧ (cl_open cl' = true → running cl' = true ∧ steps_left cl' < steps_left cl).
Proof.
  intros He Eo Hr (ev & fuel & pool & Hen & Hp & Hd & Hev).
  pose proof (running_waits _ _ _ _ _ He Eo Hr) as Hw. destruct Hev as [->|(ans & -> & Htake)].
  - destruct (engaged_cgi ROOT stat open realpath fmt_time strptime uninit spawn_env script m True gs cl todo pool He Eo Hen)
      as (cl2 & Hd2 & He2 & ds & gs' & pages' & output' & Egs & Ea & Hopen & Hleft). rewrite Hd2 in Hd. injection Hd as <-.
    destruct (that_script _ _ _ _ Egs Ea) as [-> [= ->]]; [done|]. split; [eapply engaged_weaken; [|exact He2]; done|].
    intros Eo'. destruct (Hopen behaving) as [_ Hr']. split; [done|]. specialize (Hleft ends Eo').
    cbn [enabled] in Hen. unfold steps_left. rewrite Hen. destruct (cl_pipe cl2); lia.
  - destruct (takes_all_peaceful cl ans todo Htake) as [Hpeace [Hz _]].
    destruct (engaged_out ROOT stat open realpath fmt_time strptime uninit spawn_env script pool_supplies m True gs cl todo ans pool He Eo Hen Hz Hp)
      as (cl2 & Hd2 & He2 & Hmove). rewrite Hd2 in Hd. injection Hd as <-.
    split; [eapply engaged_weaken; [|exact He2]; done|]. intros Eo'.
    specialize (Hmove Htake). unfold moves_on in Hmove. cbv zeta in Hmove. rewrite Hr in Hmove. cbn [andb negb] in Hmove.
    destruct Hw as [[_ Epipe]|(Earm & _)]; [|cbn [enabled] in Hen; congruence].
    destruct (negb _); [|destruct Hmove as [_ Hc]; congruence]. destruct Hmove as (Epipe' & Hr' & El).
    split; [done|]. unfold steps_left. rewrite Epipe, Epipe', El. lia.
Qed.

Lemma cooperates_goes_on cl todo (pool : P) :
  engaged m True gs cl todo → cl_open cl = true → running cl = true → hp_ok pool → ∃ cl', cooperates cl cl'.
Proof.
  intros He Eo Hr Hp. destruct (running_waits _ _ _ _ _ He Eo Hr) as [[Ea _]|(_ & Ep & _)].
  - set (ans := replicate (length (to_send (cl_conn cl))) (Accept 1)).
    assert (takes_all cl ans) as Htake.
    { split; [apply Forall_replicate; by exists 0|]. unfold ans. by rewrite length_replicate. }
    destruct (takes_all_peaceful cl ans todo Htake) as [_ [Hz _]].
    destruct (engaged_out ROOT stat open realpath fmt_time strptime uninit spawn_env script pool_supplies m True gs cl todo ans pool He Eo Ea Hz Hp)
      as (cl' & Hd & _). exists cl', (Ev_out ans), 0, pool. split_and!; eauto.
  - destruct (engaged_cgi ROOT stat open realpath fmt_time strptime uninit spawn_env script m True gs cl todo pool He Eo Ep)
      as (cl' & Hd & _). exists cl', Ev_cgi, 0, pool. split_and!; eauto.
Qed.

Lemma cooperation_ends n cl cl' todo (pool : P) :
  engaged m True gs cl todo → cl_open cl = true → running cl = true → hp_ok pool → nsteps cooperates n cl cl' →
  n ≤ steps_left cl ∧
  if cl_open cl' then ∃ cl'', cooperates cl' cl''
  else ∃ said, wire (c_sock (cl_conn cl')) = pages ++ said ∧ heard_out (pipe_bytes output) said.
Proof.
  intros He Eo Hr Hp Hn. induction Hn as [cl|n cl cl1 cl' Hs Hn IH].
  - rewrite Eo. split; [lia|]. by eapply cooperates_goes_on.
  - destruct (cooperates_step cl cl1 todo He Eo Hr Hs) as [He1 Hopen]. destruct (cl_open cl1) eqn:Eo1.
    + destruct (Hopen eq_refl) as [Hr1 Hlt]. destruct (IH He1 eq_refl Hr1) as [Hle Hend]. split; [lia|done].
    + unfold Conversation.engaged in He1. rewrite Eo1 in He1. destruct He1 as (Hc & _ & Hall).
      destruct Hn as [cl1|n cl1 cl2 cl' (ev & fuel & pool1 & Hen & _ & Hd & _) _].
      2: { exfalso. destruct (closed_reported ROOT stat open realpath fmt_time strptime uninit true spawn_env script cl1 ev Hc Hen) as [_ Hno].
           by rewrite Hno in Hd. }
      rewrite Eo1. split.
      * destruct (running_waits _ _ _ _ _ He Eo Hr) as [[_ Ep]|(_ & _ & Hl)]; unfold steps_left; [rewrite Ep|]; lia.
      * destruct (Hall I) as (ds & gs' & pages' & e & Egs & Ea & Hend).
        assert (e ≠ Then true) as Hne by (intros ->; by destruct Hend).
        destruct (that_script _ _ _ _ Egs Ea Hne) as [-> ->]. destruct Hend as (said & Ew & _ & Hout).
        exists said. split; [done|]. rewrite <-behaves_kept by done. by apply Hout.
Qed.
End output.

(** A script that behaves is served to its end (it ends, its output stays under the limit,
    its header is acceptable and arrives in reads that leave room in the buffer, no read
    fails, and the requests name no date that is the number in uninitialised memory): from
    any point of a conversation at which it runs, whatever happened before, if from then on
    the kernel does its part - it reports the pipe, and the socket takes what is ready - the
    connection is closed after a number of events bounded by what the script has still to
    write, never gets stuck before, and by then the client has the answers to the requests
    before and a complete response that decodes to the body of the script. *)
Theorem script_completes keep_ms req_ms old pool0 cl0 gs evs cl todo pages output pool n cl' :
  length (buf (r_parser old)) = MAX_BUF → hp_ok pool0 → accept_client keep_ms req_ms old pool0 = Some cl0 →
  Forall request_ok gs → conversation cl0 (concat (print_get <$> gs)) evs cl todo →
  cl_open cl = true → running cl = true → hp_ok pool →
  Forall (λ g, ¬ names_date strptime (g_kvs g) uninit) gs →
  answers (ms (cl_conn cl0)) gs pages (Stream output) → behaves output → Arrived [] ∈ output →
  nsteps cooperates n cl cl' →
  n ≤ steps_left cl ∧
  if cl_open cl' then ∃ cl'', cooperates cl' cl''
  else ∃ said, wire (c_sock (cl_conn cl')) = pages ++ said ∧ heard_out (pipe_bytes output) said.
Proof.
  intros Hl Hp0 Ha Hgs Hc Eo Hr Hp Hdates Ea Hb Hend Hn.
  pose proof (conversation_reached ROOT stat open realpath fmt_time strptime uninit spawn_env script pool_supplies
    fmt_time_short sizes_small _ _ _ _ _ _ _ _ _ Hl Hp0 Ha Hgs Hc) as He.
  assert (engaged (ms (cl_conn cl0)) True gs cl todo) as He'.
  { unfold Conversation.engaged in *. by rewrite Eo in *. }
  by eapply cooperation_ends.
Qed.
End completion.

(** ** The script of Conversation.v, served to its end *)

Abbreviation demo_cooperates :=
  (cooperates (Some demo_root) demo_stat demo_open demo_http_realpath demo_time (λ _, None) 0 demo_spawn demo_cgi).
Definition demo_all : event := Ev_out demo_hear_all.
Definition demo_j3 : client nat := default demo_cl0 (demo_cgi_dispatch demo_all demo_k2).
Definition demo_j4 : client nat := default demo_cl0 (demo_cgi_dispatch Ev_cgi demo_j3).
Definition demo_j5 : client nat := default demo_cl0 (demo_cgi_dispatch demo_all demo_j4).

Lemma demo_j3_is : demo_cgi_dispatch demo_all demo_k2 = Some demo_j3 ∧ cl_pipe demo_j3 = true.
Proof. split; vm_compute; reflexivity. Qed.

Lemma demo_j4_is : demo_cgi_dispatch Ev_cgi demo_j3 = Some demo_j4 ∧ cl_armed demo_j4 = Some EPOLLOUT.
Proof. split; vm_compute; reflexivity. Qed.

Lemma demo_j5_is : demo_cgi_dispatch demo_all demo_j4 = Some demo_j5 ∧ cl_open demo_j5 = false.
Proof. split; vm_compute; reflexivity. Qed.

Lemma demo_fits_all :
  length (to_send (cl_conn demo_k2)) ≤ length demo_hear_all ∧ length (to_send (cl_conn demo_j4)) ≤ length demo_hear_all.
Proof. split; apply Nat.leb_le; vm_compute; reflexivity. Qed.

Lemma demo_cooperates_4 : nsteps demo_cooperates 4 demo_k1 demo_j5.
Proof.
  destruct demo_k1_is as (_ & _ & P1), demo_k2_is as (D2 & A2), demo_j3_is as (D3 & P3), demo_j4_is as (D4 & A4),
    demo_j5_is as (D5 & _), demo_fits_all as [F2 F4], demo_hear_all_ok as [_ Hw].
  eapply nsteps_l; [exists Ev_cgi, 100, 5; split; [exact P1|]; split; [exact demo_pool5_ok|]; split; [exact D2|by left]|].
  eapply nsteps_l; [exists demo_all, 100, 5; split; [exact A2|]; split; [exact demo_pool5_ok|]; split; [exact D3|]|].
  { right. exists demo_hear_all. split; [reflexivity|exact (conj Hw F2)]. }
  eapply nsteps_l; [exists Ev_cgi, 100, 5; split; [exact P3|]; split; [exact demo_pool5_ok|]; split; [exact D4|by left]|].
  eapply nsteps_l; [exists demo_all, 100, 5; split; [exact A4|]; split; [exact demo_pool5_ok|]; split; [exact D5|]|constructor].
  right. exists demo_hear_all. split; [reflexivity|exact (conj Hw F4)].
Qed.

Lemma demo_cgi_conversation_1 : demo_cgi_conversation [demo_ask] demo_k1 [].
Proof.
  destruct demo_k1_is as (D1 & T1 & _), demo_asks as (I1 & _).
  rewrite <-T1. eapply Conv_event with (evs := []) (cl := demo_cl0) (fuel := 100) (pool := 5);
    [constructor|reflexivity|exact I1|exact demo_pool5_ok|exact D1].
Qed.

Lemma demo_cgi_behaves : behaves (demo_cgi [] [] None).
Proof.
  split.
  - apply Z.leb_le. vm_compute. reflexivity.
  - apply (bool_decide_unpack _). vm_compute. exact I.
  - unfold demo_cgi. cbn [header_room]. set (l := str _ ++ _). change ([] ++ l) with l.
    assert (length l ≤ CGI_HDR_BUF ∧ is_Some (find_header_end 0 l)) as [Hl [off E]].
    { split; [apply Nat.leb_le|eexists]; vm_compute; reflexivity. }
    clearbody l. destruct l as [|x l]; [exact I|]. split; [exact Hl|]. rewrite E. done.
  - unfold demo_cgi. repeat constructor.
Qed.

Lemma demo_k1_open : cl_open demo_k1 = true ∧ cgi_active (r_cgi (c_req (cl_conn demo_k1))) = true.
Proof. split; vm_compute; reflexivity. Qed.

Definition demo_pages : list Z :=
  (plain_answers (Some demo_root) demo_stat demo_open demo_http_realpath demo_time demo_spawn demo_cgi
    (keep_alive_timeout_ms (c_req (cl_conn demo_cl0))) [demo_get1; demo_get3]).1.

Lemma demo_pages_ok :
  answers (Some demo_root) demo_stat demo_open demo_http_realpath demo_time (λ _, None) 0 demo_spawn demo_cgi
    (keep_alive_timeout_ms (c_req (cl_conn demo_cl0))) [demo_get1; demo_get3] demo_pages (Stream (demo_cgi [] [] None)).
Proof. unfold demo_pages. rewrite <-demo_cgi_answer. apply plain_answers_spec. Qed.

(** Four events later the response is complete. *)
Lemma script_completes_witness :
  nsteps demo_cooperates 4 demo_k1 demo_j5 ∧
  ∃ said, wire (c_sock (cl_conn demo_j5)) = demo_pages ++ said ∧ heard_out (pipe_bytes (demo_cgi [] [] None)) said.
Proof.
  split; [exact demo_cooperates_4|]. pose proof demo_cgi_conversation_1 as Hc. unfold demo_cgi_stream in Hc.
  destruct (script_completes (Some demo_root) demo_stat demo_open demo_http_realpath demo_time (λ _, None) 0 demo_spawn
    demo_cgi demo_pool_supplies demo_time_short demo_sizes
    0 0 demo_old 5 demo_cl0 [demo_get1; demo_get3] _ demo_k1 [] demo_pages (demo_cgi [] [] None) 5 4 demo_j5
    (length_replicate _ _) demo_pool5_ok demo_accepted demo_cgi_asked Hc (proj1 demo_k1_open) (proj2 demo_k1_open)
    demo_pool5_ok (no_dates _) demo_pages_ok demo_cgi_behaves (list_elem_of_further _ _ _ (list_elem_of_here _ _)) demo_cooperates_4) as [_ He].
  rewrite (proj2 demo_j5_is) in He. exact He.
Defined.
