(* ===== verification/Worker.v ===== *)
(** * The event loop of a worker (worker.c)

    All the connections of a worker together: their request objects come from the cache of
    RequestCache.v, their deadlines are timers of Timer.v, they share the header cache, and
    epoll reports their descriptors in batches.  A turn of the loop waits, handles a batch,
    expires timers and flushes the closed request objects.  A socket that was closed while
    armed can still be reported, and is then handled on the object it was accepted with. *)
From S2P Require Import Prelude CString HeaderPool HttpParse Path PriorityQueue Timer DList RequestCache Sockets Output Cgi CgiStream Request Http Serve Server.

(** A request object in use or used before, with what its descriptors are armed for; its
    timer is in the queue. *)
Record slot {P : Type} := mk_slot {
  s_conn : conn P;
  s_armed : option Z;
  s_pipe : bool;
  s_open : bool;
}.
Arguments slot P : clear implicits.
#[export] Instance eta_slot {P} : Eta (slot P) := fun s => mk_slot P (s_conn s) (s_armed s) (s_pipe s) (s_open s).

(** Request objects by address; the handler of every timer is [zv_http_close_conn].
    [w_left] are the objects whose socket was closed while it was armed: epoll keeps such a
    registration as long as a script that inherited the socket runs, and its item still
    names the object, closed or given to another connection. *)
Record worker {P : Type} {Q : Type → Type} := mk_worker {
  w_slots : gmap nat (slot P);
  w_cache : request_cache;
  w_timers : timers Q ();
  w_pool : P;
  w_left : gset nat;
}.
Arguments worker P Q : clear implicits.
#[export] Instance eta_worker {P Q} : Eta (worker P Q) := fun w =>
  mk_worker P Q (w_slots w) (w_cache w) (w_timers w) (w_pool w) (w_left w).

(** What [accept] finds: whether memory is there for the request object and for its epoll
    item, and what the recycled object holds. *)
Record arrival_conn := mk_accepted { a_malloc : bool; a_item : bool; a_old : request }.

(** One entry of the array that [epoll_wait] fills: the listening socket, a descriptor of
    the connection of request [i], or a registration that a socket closed before has left. *)
Inductive report :=
  | New_connections (arrivals : list arrival_conn)
  | On (i : nat) (ev : event)
  | Left (i : nat) (ev : event).

Section worker.
Context `{HeaderPool P} {Q : Type → Type} `{PriorityQueue Q}.
Variables (ROOT : option (list Z)) (stat : list Z → option file_stat) (open : list Z → option (list Z))
  (realpath : list Z → option (list Z)) (fmt_time : Z → list Z) (strptime : list Z → option Z)
  (uninit : Z) (malloc_ok : bool) (spawn_env : spawn)
  (script : list Z → list Z → option (list Z) → pipe)
  (clock : nat → Z * Z) (tmalloc : nat → bool) (keep_ms req_ms : Z).
Implicit Types (s : slot P) (w : worker P Q) (i : nat) (cl : client P).

Notation handle := (handle ROOT stat open realpath fmt_time strptime uninit malloc_ok spawn_env script).
Notation dispatch := (dispatch ROOT stat open realpath fmt_time strptime uninit malloc_ok spawn_env script).

Definition set_slot i s w : worker P Q := w <| w_slots := <[i := s]> (w_slots w) |>.

(** [zv_free_request_t] forgets the timer of the request. *)
Definition forget_timer i (t : timers Q ()) : timers Q () := t <| rq_timer := delete i (rq_timer t) |>.

(** Closing an armed socket leaves its registration. *)
Definition leave i (armed : option Z) (left : gset nat) : gset nat :=
  match armed with Some _ => {[ i ]} ∪ left | None => left end.

(** An effect of a handler of request [i]. *)
Definition w_perform i (e : effect) w : option (worker P Q) :=
  s ← w_slots w !! i;
  match e with
  | DelTimer => t ← zv_del_timer clock (w_timers w) i; Some (w <| w_timers := t |>)
  | AddTimer ms => t ← zv_add_timer clock tmalloc (w_timers w) i ms (Some tt); Some (w <| w_timers := t |>)
  | ArmConn events => Some (set_slot i (s <| s_armed := Some events |>) w)
  | ArmCgi => Some (set_slot i (s <| s_pipe := true |>) w)
  | CloseConn =>
      c ← zv_http_request_put_deferred (Some i) (w_cache w);
      Some (set_slot i (s <| s_pipe := false |> <| s_open := false |>)
              (w <| w_cache := c |> <| w_timers := forget_timer i (w_timers w) |>
                 <| w_left := leave i (s_armed s) (w_left w) |>))
  end.

Fixpoint w_perform_all i (es : list effect) w : option (worker P Q) :=
  match es with
  | [] => Some w
  | e :: es' => w ← w_perform i e w; w_perform_all i es' w
  end.

(** A descriptor is armed for one event. *)
Definition s_disarm (ev : event) s : slot P :=
  match ev with
  | Ev_in _ _ | Ev_out _ | Ev_error => s <| s_armed := None |>
  | Ev_cgi => s <| s_pipe := false |>
  | Ev_timer => s
  end.

(** The handler of an event of request [i], closed or not. *)
Definition w_dispatch (fuel : nat) i (ev : event) w : option (worker P Q) :=
  s ← w_slots w !! i;
  '(c, es) ← handle fuel (w_pool w) ev (s_conn s);
  w_perform_all i es (set_slot i (s_disarm ev s <| s_conn := c |>) (w <| w_pool := c_pool c |>)).

(** The handler called for a registration left behind: it works on what the object is now,
    whose own descriptors stay armed.  The item of an object that was freed since is read
    after [free]. *)
Definition w_dispatch_left (fuel : nat) i (ev : event) w : option (worker P Q) :=
  _ ← links (w_cache w) !! i;
  s ← w_slots w !! i;
  '(c, es) ← handle fuel (w_pool w) ev (s_conn s);
  w_perform_all i es (set_slot i (s <| s_conn := c |>) (w <| w_pool := c_pool c |>)).

(** The [accept] loop, up to the first [accept] or allocation that fails. *)
Fixpoint accept_loop (arrivals : list arrival_conn) w : option (worker P Q) :=
  match arrivals with
  | [] => Some w
  | a :: rest =>
      '(r, c) ← zv_http_request_get (a_malloc a) (w_cache w);
      let w := w <| w_cache := c |> in
      match r with
      | None => Some w
      | Some p =>
          if negb (a_item a) then
            c ← zv_http_request_put_deferred (Some p) c; Some (w <| w_cache := c |>)
          else
            let req := zv_init_request_t keep_ms req_ms (a_old a) in
            let s := mk_slot P (mk_conn P req (mk_socket [] []) [] (w_pool w)) None false true in
            w ← w_perform_all p [ArmConn EPOLLIN; AddTimer (keep_alive_timeout_ms req)] (set_slot p s w);
            accept_loop rest w
      end
  end.

Definition handle_report (fuel : nat) (rep : report) w : option (worker P Q) :=
  match rep with
  | New_connections arrivals => accept_loop arrivals w
  | On i ev => w_dispatch fuel i ev w
  | Left i ev => w_dispatch_left fuel i ev w
  end.

Fixpoint run_batch (fuel : nat) (reports : list report) w : option (worker P Q) :=
  match reports with
  | [] => Some w
  | rep :: rest => w ← handle_report fuel rep w; run_batch fuel rest w
  end.

(** The handlers of the timers that fired; they call no function of timer.c, so that
    calling them after the loop of [zv_handle_expire_timers] is the same. *)
Fixpoint close_due (due : list (() * nat)) w : option (worker P Q) :=
  match due with
  | [] => Some w
  | (_, i) :: rest => w ← w_dispatch 0 i Ev_timer w; close_due rest w
  end.

Definition expire_timers w : option (worker P Q) :=
  t ← zv_handle_expire_timers clock tmalloc (w_timers w);
  close_due (drop (length (fired (w_timers w))) (fired t)) (w <| w_timers := t |>).

(** One turn: the time [epoll_wait] is given, and the state after the batch it reports. *)
Definition worker_turn (fuel : nat) (reports : list report) w : option (Z * worker P Q) :=
  '(time, t) ← zv_find_timer clock tmalloc (w_timers w);
  w ← run_batch fuel reports (w <| w_timers := t |>);
  w ← expire_timers w;
  c ← zv_http_request_deferred_flush (w_cache w);
  Some (time, w <| w_cache := c |>).

(** The object of the listening socket, the first that is allocated; it stays in use. *)
Definition listen_request : nat := default 0 (r ← zv_http_request_get true boot_rcache; r.1).

(** Before the loop: that object and the timers. *)
Definition worker_start (q : Q nat) (pool : P) : option (worker P Q) :=
  '(r, c) ← zv_http_request_get true boot_rcache;
  _ ← r;
  t ← zv_timer_init clock tmalloc (mk_timers q ∅ ∅ 0 0 0 []);
  Some (mk_worker P Q ∅ c t pool ∅).

(** ** The connection that a slot and its timer show *)

Definition slot_client (tm : option Z) s : client P := mk_client P (s_conn s) (s_armed s) (s_pipe s) tm (s_open s).

Definition shows w i cl : Prop :=
  ∃ s, w_slots w !! i = Some s ∧ cl = slot_client (cl_timer cl) s ∧
    (is_Some (cl_timer cl) ↔ deadline (w_timers w) i ≠ None).

(** The timers and the cache of request objects are well formed. *)
Definition resources w (used closed : gset nat) : Prop :=
  timers_ok clock (w_timers w) ∧ requests_ok (w_cache w, used, closed).

(** No timer fires and no registration is left behind. *)
Definition quiet w w' : Prop := fired (w_timers w') = fired (w_timers w) ∧ w_left w' = w_left w.

Lemma quiet_trans w1 w2 w3 : quiet w1 w2 → quiet w2 w3 → quiet w1 w3.
Proof. intros [F1 L1] [F2 L2]. split; congruence. Qed.

(** Nothing but request [i] changes. *)
Definition others i w w' : Prop :=
  fired (w_timers w') = fired (w_timers w) ∧
  ∀ j, j ≠ i → w_slots w' !! j = w_slots w !! j ∧ deadline (w_timers w') j = deadline (w_timers w) j.

Lemma others_refl i w : others i w w.
Proof. by split. Qed.

Lemma others_trans i w1 w2 w3 : others i w1 w2 → others i w2 w3 → others i w1 w3.
Proof.
  intros (F1 & O1) (F2 & O2). split; [congruence|]. intros j Hj.
  destruct (O1 j Hj) as [<- <-]. by apply O2.
Qed.

Hypothesis clock_mono : ∀ i j, i ≤ j → (msec (clock i) ≤ msec (clock j))%Z.
Hypothesis memory : ∀ n, tmalloc n = true.

Lemma forget_nothing i (t : timers Q ()) : timers_ok clock t → deadline t i = None → forget_timer i t = t.
Proof.
  intros [ids Hi] Hd. unfold forget_timer. rewrite delete_id by (by eapply no_deadline). by destruct t.
Qed.

Definition used_after i cl (used : gset nat) : gset nat := if cl_open cl then used else used ∖ {[i]}.
Definition closed_after i cl (closed : gset nat) : gset nat := if cl_open cl then closed else {[i]} ∪ closed.
Definition leave_after i cl (left : gset nat) : gset nat := if cl_open cl then left else leave i (cl_armed cl) left.

Lemma set_slot_sim i tm s w used closed :
  resources w used closed → (is_Some tm ↔ deadline (w_timers w) i ≠ None) →
  shows (set_slot i s w) i (slot_client tm s) ∧ resources (set_slot i s w) used closed ∧ others i w (set_slot i s w).
Proof.
  intros Hr Ht. split; [|split; [done|]].
  - exists s. unfold set_slot. simpl. by rewrite lookup_insert_eq.
  - split; [done|]. intros j Hj. unfold set_slot. simpl. by rewrite lookup_insert_ne.
Qed.

Lemma set_timers_sim i tm s w (t : timers Q ()) used closed :
  w_slots w !! i = Some s → resources w used closed →
  timers_ok clock t → fired t = fired (w_timers w) →
  (∀ j, j ≠ i → deadline t j = deadline (w_timers w) j) → (is_Some tm ↔ deadline t i ≠ None) →
  shows (w <| w_timers := t |>) i (slot_client tm s) ∧ resources (w <| w_timers := t |>) used closed ∧
  others i w (w <| w_timers := t |>).
Proof.
  intros Hs [_ Hr] Ht Hf Ho Htm. split; [by exists s|]. split; [by split|]. split; [exact Hf|].
  intros j Hj. split; [done|by apply Ho].
Qed.

Lemma and_pool (A B C D : Prop) : D → A ∧ B ∧ C → A ∧ B ∧ C ∧ D.
Proof. tauto. Qed.

Lemma slot_set i s w : w_slots (set_slot i s w) !! i = Some s.
Proof. unfold set_slot. simpl. by rewrite lookup_insert_eq. Qed.

(** What a handler does to its connection, the worker does. *)
Lemma perform_sim i e w cl cl' used closed :
  perform e cl = Some cl' → shows w i cl → resources w used closed → i ∈ used →
  ∃ w', w_perform i e w = Some w' ∧ shows w' i cl' ∧
    resources w' (used_after i cl' used) (closed_after i cl' closed) ∧ others i w w' ∧
    w_pool w' = w_pool w ∧ w_left w' = leave_after i cl' (w_left w).
Proof.
  intros Hp (s & Es & Ecl & Ht) Hr Hi. unfold perform in Hp. destruct (cl_open cl) eqn:Eo; [|done].
  cbn [negb] in Hp. unfold w_perform. rewrite Es. cbn [mbind option_bind].
  assert (s_open s = true) as Eso by (rewrite Ecl in Eo; exact Eo).
  destruct s as [sc sa sp so]. simpl in Eso. subst so.
  destruct e as [|ms|events| |]; destruct (cl_timer cl) as [tm|] eqn:Et; try done; injection Hp as <-;
    unfold used_after, closed_after, leave_after; rewrite ?Et, Ecl; cbn [cl_conn cl_armed cl_pipe cl_timer cl_open slot_client].
  - destruct (del_deadline clock tmalloc clock_mono (w_timers w) i) as (t & -> & Ht' & Hf & Hd & Ho);
      [by destruct Hr|by apply Ht|].
    eexists. split; [reflexivity|].  apply and_pool, (set_timers_sim i None (mk_slot P sc sa sp true)); [done..|].
    rewrite Hd. by split; [intros []|].
  - destruct (add_deadline clock tmalloc clock_mono (w_timers w) i ms tt memory) as (t & -> & Ht' & Hf & Hd & Ho).
    { by destruct Hr. }
    { destruct (deadline (w_timers w) i) eqn:Ed; [|done]. by destruct (proj2 Ht). }
    eexists. split; [reflexivity|].  apply and_pool, (set_timers_sim i (Some ms) (mk_slot P sc sa sp true)); [done..|].
    rewrite Hd. split; [done|by eauto].
  - eexists. split; [reflexivity|].  by apply and_pool, (set_slot_sim i (Some tm) (mk_slot P sc (Some events) sp true)).
  - eexists. split; [reflexivity|].  by apply and_pool, (set_slot_sim i None (mk_slot P sc (Some events) sp true)).
  - eexists. split; [reflexivity|].  by apply and_pool, (set_slot_sim i (Some tm) (mk_slot P sc sa true true)).
  - eexists. split; [reflexivity|].  by apply and_pool, (set_slot_sim i None (mk_slot P sc sa true true)).
  - destruct Hr as [Htm Hrq]. destruct (close_requests (w_cache w) used closed i Hrq Hi) as (c & -> & Hrq').
    cbn [mbind option_bind]. rewrite forget_nothing; [|done|].
    2: { destruct (deadline (w_timers w) i) eqn:Ed; [|done]. by destruct (proj2 Ht). }
    eexists. split; [reflexivity|].
    destruct (set_slot_sim i None (mk_slot P sc sa false false)
      (w <| w_cache := c |> <| w_timers := w_timers w |> <| w_left := leave i sa (w_left w) |>)
      (used ∖ {[i]}) ({[i]} ∪ closed)) as (S1 & S2 & S3);
      [by split|done|]. split; [exact S1|]. split; [exact S2|]. split; [exact S3|done].
Qed.

Lemma perform_all_sim i es w cl cl' used closed :
  perform_all es cl = Some cl' → cl_open cl = true → shows w i cl → resources w used closed → i ∈ used →
  ∃ w', w_perform_all i es w = Some w' ∧ shows w' i cl' ∧
    resources w' (used_after i cl' used) (closed_after i cl' closed) ∧ others i w w' ∧
    w_pool w' = w_pool w ∧ w_left w' = leave_after i cl' (w_left w).
Proof.
  revert w cl. induction es as [|e es IH]; intros w cl; cbn [perform_all w_perform_all].
  - intros [= ->] Eo Hs Hr Hi. exists w. unfold used_after, closed_after, leave_after. rewrite Eo.
    by do 5 (split; [done|]).
  - destruct (perform e cl) as [cl1|] eqn:Ep; [|done]. cbn [mbind option_bind]. intros Hes Eo Hs Hr Hi.
    destruct (perform_sim i e w cl cl1 used closed Ep Hs Hr Hi) as (w1 & -> & Hs1 & Hr1 & Ho1 & Hp1 & Hl1).
    cbn [mbind option_bind]. unfold used_after at 1, closed_after at 1 in Hr1. destruct (cl_open cl1) eqn:Eo1.
    + unfold leave_after in Hl1. rewrite Eo1 in Hl1.
      destruct (IH w1 cl1 Hes Eo1 Hs1 Hr1 Hi) as (w' & E & Hs' & Hr' & Ho' & Hp' & Hl').
      exists w'. do 3 (split; [done|]). split; [by eapply others_trans|]. split; congruence.
    + destruct es as [|e2 es]; cbn [perform_all] in Hes.
      * injection Hes as <-. exists w1. unfold used_after, closed_after. rewrite Eo1.
        by do 5 (split; [done|]).
      * unfold perform in Hes. by rewrite Eo1 in Hes.
Qed.

(** An event handled by the worker is the event handled by the connection alone. *)
Lemma dispatch_sim fuel i ev w s tm cl' used closed :
  w_slots w !! i = Some s → s_open s = true → resources w used closed → i ∈ used →
  dispatch fuel (w_pool w) ev (slot_client tm s) = Some cl' →
  (is_Some (cl_timer (disarm ev (slot_client tm s))) ↔ deadline (w_timers w) i ≠ None) →
  ∃ w', w_dispatch fuel i ev w = Some w' ∧ shows w' i cl' ∧
    resources w' (used_after i cl' used) (closed_after i cl' closed) ∧ others i w w' ∧
    w_pool w' = c_pool (cl_conn cl') ∧ w_left w' = leave_after i cl' (w_left w).
Proof.
  intros Es Eo Hr Hi Hd Htm. unfold Server.dispatch in Hd. unfold w_dispatch. rewrite Es. cbn [mbind option_bind].
  change (cl_conn (slot_client tm s)) with (s_conn s) in Hd.
  destruct (handle fuel (w_pool w) ev (s_conn s)) as [[c es]|]; [|done]. cbn [mbind option_bind] in Hd |- *.
  set (s1 := s_disarm ev s <| s_conn := c |>). set (w1 := w <| w_pool := c_pool c |>).
  set (tm1 := cl_timer (disarm ev (slot_client tm s))) in *.
  assert (disarm ev (slot_client tm s) <| cl_conn := c |> = slot_client tm1 s1) as E1 by (by destruct ev).
  rewrite E1 in Hd.
  destruct (set_slot_sim i tm1 s1 w1 used closed Hr Htm) as (Hs2 & Hr2 & Ho2).
  destruct (perform_all_sim i es (set_slot i s1 w1) (slot_client tm1 s1) cl' used closed Hd) as (w' & E & Hs' & Hr' & Ho' & Hp' & Hl');
    [by destruct ev|done..|].
  exists w'. split; [done|]. split; [done|]. split; [done|]. split; [eapply others_trans; [exact Ho2|exact Ho']|].
  split; [|exact Hl']. rewrite Hp', (perform_all_conn _ _ _ Hd). by destruct ev.
Qed.

(** The same state with any fuel that is enough for the connection. *)
Lemma dispatch_sim_fuel n i ev w s tm cl' used closed :
  w_slots w !! i = Some s → s_open s = true → resources w used closed → i ∈ used →
  (∀ fuel, n < fuel → dispatch fuel (w_pool w) ev (slot_client tm s) = Some cl') →
  (is_Some (cl_timer (disarm ev (slot_client tm s))) ↔ deadline (w_timers w) i ≠ None) →
  ∃ w', (∀ fuel, n < fuel → w_dispatch fuel i ev w = Some w') ∧ shows w' i cl' ∧
    resources w' (used_after i cl' used) (closed_after i cl' closed) ∧ others i w w' ∧
    w_pool w' = c_pool (cl_conn cl') ∧ w_left w' = leave_after i cl' (w_left w).
Proof.
  intros Es Eo Hr Hi Hd Htm.
  destruct (dispatch_sim (S n) i ev w s tm cl' used closed Es Eo Hr Hi (Hd (S n) ltac:(lia)) Htm) as (w' & E & Hrest).
  exists w'. split; [|exact Hrest]. intros fuel Hf.
  destruct (dispatch_sim fuel i ev w s tm cl' used closed Es Eo Hr Hi (Hd fuel Hf) Htm) as (w2 & E2 & _).
  rewrite E2. revert E E2. unfold w_dispatch. rewrite Es. cbn [mbind option_bind].
  destruct (handle (S n) (w_pool w) ev (s_conn s)) as [r|] eqn:Eh; [|done].
  rewrite (handle_mono _ _ _ _ _ _ _ _ _ _ _ fuel _ _ _ _ Eh) by lia. congruence.
Qed.

(** ** The invariant *)

(** [used] and [closed] are the request objects in use and those waiting for the flush;
    [due] are those whose timer has fired and whose handler is still to be called. *)
Record w_inv w (used closed : gset nat) (due : list nat) : Prop := {
  wi_listen : listen_request ∈ used ∧ w_slots w !! listen_request = None;
  wi_resources : resources w used closed;
  wi_pool : hp_ok (w_pool w);
  wi_slots i s : w_slots w !! i = Some s → s_open s = true →
    i ∈ used ∧ ∃ ms, client_ok (slot_client (Some ms) s);
  wi_timers i : deadline (w_timers w) i ≠ None ↔ (∃ s, w_slots w !! i = Some s ∧ s_open s = true) ∧ i ∉ due;
}.

Definition opened w i s : Prop := w_slots w !! i = Some s ∧ s_open s = true.

Lemma opened_dec w i : {s | opened w i s} + {∀ s, ¬ opened w i s}.
Proof.
  destruct (w_slots w !! i) as [s|] eqn:E; [destruct (s_open s) eqn:Eo|].
  - left. by exists s.
  - right. intros s' [E' Eo']. congruence.
  - right. intros s' [E' _]. congruence.
Qed.

(** A connection just accepted. *)
Definition accepted_slot s : Prop :=
  ∃ old pool ms, length (buf (r_parser old)) = MAX_BUF ∧ hp_ok pool ∧
    accept_client keep_ms req_ms old pool = Some (slot_client (Some ms) s).

Notation runs := (runs ROOT stat open realpath fmt_time strptime uninit malloc_ok spawn_env script).

(** From [w] to [w'] every connection goes through its own [events] and is otherwise left
    alone; other connections are new. *)
Record evolves (events : nat → list event) w w' (closed closed' : gset nat) : Prop := {
  ev_closed : closed ⊆ closed';
  ev_stay i s : i ∈ closed → w_slots w !! i = Some s → s_open s = false → w_slots w' !! i = Some s;
  ev_open i s ms : opened w i s → ∃ s' ms', w_slots w' !! i = Some s' ∧
    runs (events i) (slot_client (Some ms) s) (slot_client ms' s') ∧
    if s_open s' then is_Some ms' else i ∈ closed';
  ev_idle i s : events i = [] → opened w i s → opened w' i s ∧ deadline (w_timers w') i = deadline (w_timers w) i;
  ev_new i s' : opened w' i s' → (∃ s, opened w i s) ∨ accepted_slot s';
}.

Lemma evolves_same w w' closed closed' :
  w_slots w' = w_slots w → (∀ i, deadline (w_timers w') i = deadline (w_timers w) i) → closed ⊆ closed' →
  evolves (λ _, []) w w' closed closed'.
Proof.
  intros Es Ed Hc. split; unfold opened; rewrite ?Es; try done.
  - intros i s ms [-> Eo]. exists s, (Some ms). split; [done|]. split; [constructor|]. rewrite Eo. by eauto.
  - intros i s Ho. left. by exists s.
Qed.

Lemma evolves_trans e1 e2 w1 w2 w3 c1 c2 c3 :
  evolves e1 w1 w2 c1 c2 → evolves e2 w2 w3 c2 c3 →
  (∀ i, (∀ s, ¬ opened w2 i s) → e2 i = []) →
  (∀ i s, (∀ s, ¬ opened w1 i s) → opened w3 i s → e2 i = []) →
  evolves (λ i, e1 i ++ e2 i) w1 w3 c1 c3.
Proof.
  intros [C1 S1 O1 I1 N1] [C2 S2 O2 I2 N2] Honly Hnew. split.
  - set_solver.
  - intros i s Hi Es Eo. apply S2; [set_solver| |done]. by apply S1.
  - intros i s ms Ho. destruct (O1 i s ms Ho) as (s2 & ms2 & Es2 & Hr2 & Hc2). destruct (s_open s2) eqn:Eo2.
    + destruct Hc2 as [t ->]. destruct (O2 i s2 t) as (s3 & ms3 & Es3 & Hr3 & Hc3); [done|].
      exists s3, ms3. split; [done|]. split; [by eapply runs_app|done].
    + exists s2, ms2. split; [by apply S2|]. rewrite (Honly i), app_nil_r by (intros s' [Es' Eo']; congruence).
      split; [done|]. rewrite Eo2. set_solver.
  - intros i s [E1 E2]%app_nil Ho. destruct (I1 i s E1 Ho) as [Ho2 <-]. by apply I2.
  - intros i s3 Ho3. destruct (opened_dec w1 i) as [[s Ho]|Hno]; [left; by exists s|right].
    destruct (N2 i s3 Ho3) as [[s2 Ho2]|Hacc]; [|done].
    destruct (N1 i s2 Ho2) as [[s Ho]|Hacc]; [by destruct (Hno s)|].
    destruct (I2 i s2 (Hnew i s3 Hno Ho3) Ho2) as [[E _] _]. destruct Ho3 as [E' _]. congruence.
Qed.

Lemma evolves_ext e1 e2 w w' c c' : (∀ i, e1 i = e2 i) → evolves e1 w w' c c' → evolves e2 w w' c c'.
Proof.
  intros E [C S O I N]. split; try done.
  - intros i s ms. rewrite <-E. apply O.
  - intros i s. rewrite <-E. apply I.
Qed.

(** epoll reports a descriptor only for what it is armed for. *)
Definition reportable (ev : event) s : Prop :=
  match ev with
  | Ev_in _ _ => s_armed s = Some EPOLLIN
  | Ev_out _ => s_armed s = Some EPOLLOUT
  | Ev_cgi => s_pipe s = true
  | Ev_error => is_Some (s_armed s)
  | Ev_timer => False
  end.

Definition w_spins i (input : pipe) w : Prop :=
  ∃ s, w_slots w !! i = Some s ∧
    request_spins ROOT stat open realpath fmt_time strptime uninit malloc_ok spawn_env script (slot_client None s) input.

Lemma dispatch_inv i ev w s used closed due due' :
  w_inv w used closed due → w_slots w !! i = Some s → s_open s = true →
  (reportable ev s ∧ due = [] ∧ due' = [] ∨ ev = Ev_timer ∧ due = i :: due' ∧ i ∉ due') →
  (∃ n w' used' closed', (∀ fuel, n < fuel → w_dispatch fuel i ev w = Some w') ∧
     w_inv w' used' closed' due' ∧ others i w w' ∧
     evolves (λ j, if decide (j = i) then [ev] else []) w w' closed closed' ∧
     (ev = Ev_timer → ∃ s', w_slots w' !! i = Some s' ∧ s_open s' = false) ∧
     w_left w' ⊆ {[ i ]} ∪ w_left w ∧ (ev ≠ Ev_timer → w_left w' = w_left w)) ∨
  (∃ input answers, ev = Ev_in input answers ∧ w_spins i input w ∧ ∀ fuel, w_dispatch fuel i ev w = None).
Proof.
  intros [[Hlu Hls] Hr Hp Hs Ht] Es Eo Hev. destruct (Hs i s Es Eo) as [Hi [ms Hok]].
  assert (enabled ev (slot_client (Some ms) s)) as He.
  { destruct Hev as [(He & _)|(-> & _)]; [by destruct ev|]. by exists ms. }
  destruct (dispatch_ok ROOT stat open realpath fmt_time strptime uninit malloc_ok spawn_env script
    (slot_client (Some ms) s) (w_pool w) ev Hok Eo He Hp) as [(n & cl' & Hok' & Hp' & Hforgot & Hd)|(input & answers & -> & Hspin & Hd)].
  2: { right. exists input, answers. split; [done|]. split; [by exists s|].
    intros fuel. unfold w_dispatch. rewrite Es. cbn [mbind option_bind]. specialize (Hd fuel).
    change (cl_conn (slot_client (Some ms) s)) with (s_conn s) in Hd. by rewrite Hd. }
  left.
  assert (is_Some (cl_timer (disarm ev (slot_client (Some ms) s))) ↔ deadline (w_timers w) i ≠ None) as Htm.
  { rewrite Ht. destruct Hev as [(Hrep & -> & _)|(-> & -> & _)].
    - split; [intros _; split; [by exists s|set_solver]|]. intros _. destruct ev; try done; by exists ms.
    - split; [by intros []|]. intros [_ Hni]. set_solver. }
  destruct (dispatch_sim_fuel n i ev w s (Some ms) cl' used closed Es Eo Hr Hi Hd Htm)
    as (w' & Hw & (s' & Es' & Ecl & Ht') & Hr' & Ho & Ep & El).
  exists n, w', (used_after i cl' used), (closed_after i cl' closed). split; [done|].
  pose proof Hok' as Hcl. unfold client_ok in Hcl.
  assert (s_open s' = cl_open cl') as Eo' by (by rewrite Ecl).
  split; [split|split; [done|]].
  - assert (listen_request ≠ i) as Hne by congruence. split; [unfold used_after; destruct (cl_open cl'); set_solver|].
    destruct Ho as [_ Ho]. by destruct (Ho _ Hne) as [-> _].
  - done.
  - by rewrite Ep.
  - intros j sj Ej Eoj. unfold used_after. destruct (decide (j = i)) as [->|Hne].
    + rewrite Es' in Ej. injection Ej as <-. rewrite <-Eo', Eoj. split; [done|].
      rewrite <-Eo', Eoj in Hcl. destruct Hcl as [[ms' Ems] _]. exists ms'. rewrite <-Ems, <-Ecl. done.
    + destruct Ho as [_ Ho]. destruct (Ho j Hne) as [Esj _]. rewrite Esj in Ej.
      destruct (Hs j sj Ej Eoj) as [Hj Hokj]. split; [|done]. destruct (cl_open cl'); set_solver.
  - intros j. destruct (decide (j = i)) as [->|Hne].
    + rewrite <-Ht'. destruct (cl_open cl') eqn:Eoc.
      * split; [intros _|by intros _; destruct Hcl].
        split; [by exists s'; rewrite Eo'|]. destruct Hev as [(_ & _ & ->)|(_ & _ & Hni)]; [set_solver|done].
      * destruct Hcl as [_ ->]. split; [by intros []|]. intros [(s2 & Es2 & Eo2) _]. congruence.
    + destruct Ho as [_ Ho]. destruct (Ho j Hne) as [-> ->]. rewrite Ht.
      destruct Hev as [(_ & -> & ->)|(_ & -> & _)]; [done|set_solver].
  - split.
    2: { split; [|split; rewrite El; unfold leave_after].
         - intros ->. exists s'. split; [done|]. rewrite Eo'. by eapply timer_closes, (Hd (S n)); lia.
         - destruct (cl_open cl'); [|destruct (cl_armed cl')]; cbn [leave]; set_solver.
         - intros Hev'. destruct (cl_open cl') eqn:Eoc; [done|]. by rewrite (Hforgot Hev' Eoc). }
    destruct Ho as [_ Ho]. assert (∀ j sj, w_slots w !! j = Some sj → j ≠ i → w_slots w' !! j = Some sj) as Hj.
    { intros j sj Ej Hne. by destruct (Ho j Hne) as [-> _]. }
    split.
    + unfold closed_after. destruct (cl_open cl'); set_solver.
    + intros j sj _ Ej Eoj. apply Hj; [done|]. intros ->. congruence.
    + intros j sj tm [Ej Eoj]. destruct (decide (j = i)) as [->|Hne].
      2: { exists sj, (Some tm). split; [by apply Hj|]. split; [constructor|]. rewrite Eoj. by eauto. }
      rewrite Es in Ej. injection Ej as <-.
      destruct (dispatch_timer _ _ _ _ _ _ _ _ _ _ _ _ _ _ _ (Some tm) (Hd (S n) ltac:(lia))) as (t' & Hd' & Et'); [by split; eauto|].
      exists s', t'. split; [done|]. split.
      * apply (runs_one _ _ _ _ _ _ _ _ _ _ ev (S n) (w_pool w)); [destruct ev; [exact He..|by exists tm]|done|]. rewrite Ecl in Hd'. exact Hd'.
      * rewrite Eo'. unfold closed_after. destruct (cl_open cl'); [by apply Et', Hcl|set_solver].
    + intros j sj Eev [Ej Eoj]. destruct (decide (j = i)) as [->|Hne]; [done|]. unfold opened.
      by destruct (Ho j Hne) as [-> ->].
    + intros j sj [Ej Eoj]. left. destruct (decide (j = i)) as [->|Hne]; [by exists s|].
      exists sj. unfold opened. by destruct (Ho j Hne) as [<- _].
Qed.

(** The memory of a request object holds a buffer of its size. *)
Definition arrival_ok (a : arrival_conn) : Prop := length (buf (r_parser (a_old a))) = MAX_BUF.

Lemma accept_one w used closed p c old :
  w_inv w used closed [] → p ∉ used → requests_ok (c, {[ p ]} ∪ used, closed) →
  length (buf (r_parser old)) = MAX_BUF →
  let req := zv_init_request_t keep_ms req_ms old in
  let s := mk_slot P (mk_conn P req (mk_socket [] []) [] (w_pool w)) None false true in
  ∃ w', w_perform_all p [ArmConn EPOLLIN; AddTimer (keep_alive_timeout_ms req)] (set_slot p s (w <| w_cache := c |>)) = Some w' ∧
    w_inv w' ({[ p ]} ∪ used) closed [] ∧ (p ∉ closed → evolves (λ _, []) w w' closed closed) ∧
    quiet w w'.
Proof.
  intros [[Hlu Hls] [Htm _] Hp Hs Ht] Hpu Hc Hl req s.
  destruct (accept_ok keep_ms req_ms old (w_pool w) Hl) as (cl & E & Hok & Eo). fold req in E.
  assert (∀ sj, w_slots w !! p = Some sj → s_open sj = true → False) as Hclosed.
  { intros sj Ej Eoj. by destruct (Hs p sj Ej Eoj) as [? _]. }
  assert (deadline (w_timers w) p = None) as Hd.
  { destruct (deadline (w_timers w) p) eqn:Ed; [|done].
    destruct (proj1 (Ht p)) as [(sj & Ej & Eoj) _]; [by rewrite Ed|by destruct (Hclosed sj)]. }
  destruct (set_slot_sim p None s (w <| w_cache := c |>) ({[ p ]} ∪ used) closed) as (S1 & S2 & S3).
  { by split. }
  { simpl. rewrite Hd. by split; [intros []|]. }
  destruct (perform_all_sim p [ArmConn EPOLLIN; AddTimer (keep_alive_timeout_ms req)] _ _ cl _ _ E eq_refl S1 S2)
    as (w' & Ew & (s' & Es' & Ecl & Ht') & Hr' & Ho' & Ep' & El'); [set_solver|].
  exists w'. split; [done|]. unfold used_after, closed_after in Hr'. rewrite Eo in Hr'.
  destruct (others_trans _ _ _ _ S3 Ho') as [Hf Ho].
  change (∀ j, j ≠ p → w_slots w' !! j = w_slots w !! j ∧ deadline (w_timers w') j = deadline (w_timers w) j) in Ho.
  unfold client_ok in Hok. pose proof Hok as Hok'. rewrite Eo in Hok'.
  assert (s_open s' = true) as Eo' by (rewrite Ecl in Eo; exact Eo).
  unfold leave_after in El'. rewrite Eo in El'. split; [split|split; [|by split]].
  - split; [set_solver|]. by destruct (Ho listen_request) as [-> _]; [set_solver|].
  - done.
  - by rewrite Ep'.
  - intros j sj Ej Eoj. destruct (decide (j = p)) as [->|Hne].
    + rewrite Es' in Ej. injection Ej as <-. split; [set_solver|]. destruct Hok' as [[ms Ems] _]. exists ms.
      rewrite <-Ems, <-Ecl. done.
    + destruct (Ho j Hne) as [Esj _]. rewrite Esj in Ej. destruct (Hs j sj Ej Eoj) as [? ?]. split; [set_solver|done].
  - intros j. destruct (decide (j = p)) as [->|Hne].
    + rewrite <-Ht'. split; [intros _; split; [by exists s'|set_solver]|]. intros _. by destruct Hok'.
    + destruct (Ho j Hne) as [-> ->]. apply Ht.
  - intros Hpc. assert (∀ j sj, opened w j sj → j ≠ p) as Hne by (intros j sj [Ej Eoj] ->; by destruct (Hclosed sj)).
    split; [done|..].
    + intros j sj Hj Ej _. destruct (Ho j) as [-> _]; [set_solver|done].
    + intros j sj tm Hoj. exists sj, (Some tm). destruct (Ho j (Hne _ _ Hoj)) as [-> _]. destruct Hoj as [-> ->].
      split; [done|]. split; [constructor|]. by eauto.
    + intros j sj _ Hoj. unfold opened. by destruct (Ho j (Hne _ _ Hoj)) as [-> ->].
    + intros j sj [Ej Eoj]. destruct (decide (j = p)) as [->|Hnp].
      * right. rewrite Es' in Ej. injection Ej as <-. destruct Hok' as [[ms Ems] _].
        exists old, (w_pool w), ms. split; [done|]. split; [done|]. by rewrite E, <-Ems, <-Ecl.
      * left. exists sj. unfold opened. by destruct (Ho j Hnp) as [<- _].
Qed.

Lemma inv_cache w c used closed used' closed' :
  w_inv w used closed [] → requests_ok (c, used', closed') → used ⊆ used' →
  w_inv (w <| w_cache := c |>) used' closed' [].
Proof.
  intros [[Hlu Hls] [Htm _] Hp Hs Ht] Hc Hu. split; [by auto|by split|done| |done].
  intros i s Es Eo. destruct (Hs i s Es Eo) as [Hi Hok]. split; [by apply Hu|done].
Qed.

Lemma accept_inv arrivals w used closed :
  w_inv w used closed [] → Forall arrival_ok arrivals →
  ∃ w' used' closed', accept_loop arrivals w = Some w' ∧ w_inv w' used' closed' [] ∧
    evolves (λ _, []) w w' closed closed' ∧ quiet w w'.
Proof.
  intros Hinv Ha. revert w used closed Hinv. induction Ha as [|a rest Ha _ IH]; intros w used closed Hinv.
  { exists w, used, closed. do 2 (split; [done|]). split; [by apply evolves_same|done]. }
  cbn [accept_loop]. pose proof Hinv as [_ [_ Hrq] _ _ _].
  destruct (get_requests (a_malloc a) _ _ _ Hrq) as ([p|] & c & -> & Hr); cbn [mbind option_bind].
  2: { destruct Hr as [_ Hr]. exists (w <| w_cache := c |>), used, closed. split; [done|].
    split; [by eapply inv_cache|]. split; [by apply evolves_same|done]. }
  destruct Hr as (Hpu & Hpc & Hr). destruct (a_item a); cbn [negb].
  - destruct (accept_one w used closed p c (a_old a) Hinv Hpu Hr Ha) as (w1 & E & Hinv1 & Hk1 & Hf1).
    change (w_pool (w <| w_cache := c |>)) with (w_pool w). rewrite E. cbn [mbind option_bind].
    destruct (IH w1 _ _ Hinv1) as (w' & used' & closed' & E' & Hinv' & Hk' & Hf').
    exists w', used', closed'. split; [done|]. split; [done|]. split; [|by eapply quiet_trans].
    by apply (evolves_trans (λ _, []) (λ _, []) w w1 w' closed closed closed' (Hk1 Hpc) Hk').
  - destruct (close_requests c _ _ p Hr) as (c' & -> & Hr'); [set_solver|]. cbn [mbind option_bind].
    exists (w <| w_cache := c' |>), (({[ p ]} ∪ used) ∖ {[ p ]}), ({[ p ]} ∪ closed). split; [done|].
    split; [eapply inv_cache; [done|done|set_solver]|]. split; [|done].
    apply evolves_same; [done|done|set_solver].
Qed.

(** ** A batch *)

Definition target (rep : report) : option nat := match rep with On i _ => Some i | _ => None end.

(** The descriptor reported: the socket of a request or the pipe of its script. *)
Definition descriptor (rep : report) : option (nat * bool) :=
  match rep with On i ev => Some (i, match ev with Ev_cgi => true | _ => false end) | _ => None end.

(** The events of request [i] in a batch. *)
Definition event_for i (rep : report) : option event :=
  match rep with On j ev => if decide (j = i) then Some ev else None | _ => None end.

Definition events_of (reports : list report) i : list event := omap (event_for i) reports.

Lemma events_none reports i : i ∉ omap target reports → events_of reports i = [].
Proof.
  unfold events_of. induction reports as [|rep reports IH]; [done|]. destruct rep as [arr|j ev|j ev]; cbn [omap list_omap target event_for]; [exact IH| |exact IH].
  intros [Hji Hni]%not_elem_of_cons. rewrite decide_False by congruence. by apply IH.
Qed.

Definition report_ok w (rep : report) : Prop :=
  match rep with
  | New_connections arrivals => Forall arrival_ok arrivals
  | On i ev => ∃ s, w_slots w !! i = Some s ∧ s_open s = true ∧ reportable ev s
  | Left i ev => i ∈ w_left w ∧ match ev with Ev_in _ _ | Ev_out _ | Ev_error => True | _ => False end
  end.

(** What epoll can report: a batch names each descriptor at most once, and only what is
    armed; and it names registrations that closed sockets have left. *)
Definition reports_ok w (reports : list report) : Prop :=
  Forall (report_ok w) reports ∧ NoDup (omap descriptor reports).

(** No registration of a closed socket is reported. *)
Definition current (reports : list report) : Prop := Forall (λ rep, if rep is Left _ _ then False else True) reports.

Lemma current_dec reports : {current reports} + {∃ i ev, Left i ev ∈ reports}.
Proof.
  induction reports as [|rep reports IH]; [left; constructor|]. destruct rep as [arr|i ev|i ev].
  - destruct IH as [IH|IH]; [left; by constructor|right]. destruct IH as (j & ev' & ?). exists j, ev'. by right.
  - destruct IH as [IH|IH]; [left; by constructor|right]. destruct IH as (j & ev' & ?). exists j, ev'. by right.
  - right. exists i, ev. by left.
Qed.

(** Since an open connection waits for one descriptor, a batch has one event for it at
    most: none is left in the batch when it is closed. *)
Lemma targets_distinct w used closed reports :
  w_inv w used closed [] → reports_ok w reports → NoDup (omap target reports).
Proof.
  intros Hinv [Hr Hnd]. induction Hr as [|rep reports Hrep Hr IH]; [constructor|].
  destruct rep as [arr|i ev|i ev]; [by apply IH| |by apply IH]. cbn [omap list_omap target descriptor] in Hnd |- *.
  apply NoDup_cons in Hnd as [Hni Hnd]. apply NoDup_cons. split; [|by apply IH].
  intros (rep & Hin & Erep)%list_elem_of_omap. destruct rep as [arr|j ev'|]; [done| |done]. injection Erep as ->.
  apply Hni, list_elem_of_omap. exists (On i ev'). split; [done|]. cbn [descriptor]. do 2 f_equal.
  pose proof (proj1 (Forall_forall _ _) Hr _ Hin) as (s & Es & Eo & Hre').
  destruct Hrep as (s' & Es' & _ & Hre). rewrite Es in Es'. injection Es' as <-.
  destruct (wi_slots _ _ _ _ Hinv i s Es Eo) as [_ [ms Hok]]. unfold client_ok in Hok.
  change (cl_open (slot_client (Some ms) s)) with (s_open s) in Hok. rewrite Eo in Hok. destruct Hok as [_ Hst].
  assert (s_armed s = None ∨ s_pipe s = false) as Hone by (inversion Hst; auto).
  destruct ev, ev'; try done; unfold reportable in Hre, Hre'; destruct Hone as [Hone|Hone]; rewrite Hone in *;
    try done; by destruct Hre || by destruct Hre'.
Qed.

Lemma report_inv rep w used closed :
  w_inv w used closed [] → report_ok w rep → current [rep] →
  (∃ n w' used' closed', (∀ fuel, n < fuel → handle_report fuel rep w = Some w') ∧
     w_inv w' used' closed' [] ∧ evolves (events_of [rep]) w w' closed closed' ∧ quiet w w') ∨
  (∃ i input answers, rep = On i (Ev_in input answers) ∧ w_spins i input w ∧ ∀ fuel, handle_report fuel rep w = None).
Proof.
  intros Hinv Hrep Hcur. destruct rep as [arr|i ev|i ev]; cbn [handle_report]; [| |by inversion Hcur].
  - left. destruct (accept_inv arr w used closed Hinv Hrep) as (w' & used' & closed' & E & Hinv' & Hev & Hq).
    by exists 0, w', used', closed'.
  - destruct Hrep as (s & Es & Eo & Hre).
    destruct (dispatch_inv i ev w s used closed [] [] Hinv Es Eo) as
      [(n & w' & used' & closed' & Hw & Hinv' & [Hf _] & Hev & _ & _ & Hl)|(input & answers & -> & Hspin & Hd)]; [by left| |].
    + left. exists n, w', used', closed'. split; [done|]. split; [done|].
      split; [|split; [exact Hf|apply Hl; by intros ->]]. eapply evolves_ext; [|exact Hev].
      intros j. unfold events_of. cbn [omap list_omap event_for]. do 2 case_decide; congruence.
    + right. by exists i, input, answers.
Qed.

Lemma batch_inv reports w used closed :
  w_inv w used closed [] → Forall (report_ok w) reports → current reports → NoDup (omap target reports) →
  (∃ n w' used' closed', (∀ fuel, n < fuel → run_batch fuel reports w = Some w') ∧
     w_inv w' used' closed' [] ∧ evolves (events_of reports) w w' closed closed' ∧ quiet w w') ∨
  (∃ i input answers, On i (Ev_in input answers) ∈ reports ∧ w_spins i input w ∧
     ∃ n, ∀ fuel, n < fuel → run_batch fuel reports w = None).
Proof.
  revert w used closed. induction reports as [|rep reports IH]; intros w used closed Hinv Hr Hcur Hnd.
  { left. exists 0, w, used, closed. do 2 (split; [done|]). split; [by apply evolves_same|done]. }
  apply Forall_cons in Hr as [Hrep Hr]. apply Forall_cons in Hcur as [Hone Hcur].
  assert (NoDup (omap target reports) ∧ ∀ j, j ∈ omap target reports → Some j ≠ target rep) as [Hnd' Hfresh].
  { destruct rep as [arr|i ev|]; cbn [omap list_omap target] in Hnd; [done| |done]. apply NoDup_cons in Hnd as [??].
    split; [done|]. by intros j Hj [= ->]. }
  destruct (report_inv rep w used closed Hinv Hrep) as
    [(n & w1 & used1 & closed1 & Hw1 & Hinv1 & Hev1 & Hq1)|(i & input & answers & -> & Hspin & Hd)]; [by constructor| |].
  2: { right. exists i, input, answers. split; [by left|]. split; [done|]. exists 0. intros fuel _.
    cbn [run_batch]. by rewrite Hd. }
  assert (∀ i, i ∈ omap target reports → ∃ s, opened w i s ∧ opened w1 i s) as Hsame.
  { intros i Hi. pose proof (Hfresh i Hi) as Hne. apply list_elem_of_omap in Hi as ([arr|i' ev|] & Hin & E); [done| |done]. injection E as ->.
    destruct (proj1 (Forall_forall _ _) Hr _ Hin) as (s & Es & Eo & _). exists s. split; [done|].
    apply (ev_idle _ _ _ _ _ Hev1 i s); [|done]. apply events_none.
    destruct rep as [arr|j ev'|]; [apply not_elem_of_nil| |apply not_elem_of_nil]. intros ->%list_elem_of_singleton. done. }
  assert (Forall (report_ok w1) reports) as Hr1.
  { apply Forall_forall. intros [arr|i ev|i ev] Hin; pose proof (proj1 (Forall_forall _ _) Hr _ Hin) as Hok'; [done| |].
    2: { by destruct (proj1 (Forall_forall _ _) Hcur _ Hin). }
    destruct (Hsame i) as (s & [Es _] & [Es1 _]); [apply list_elem_of_omap; by exists (On i ev)|].
    unfold report_ok in *. by rewrite Es1, <-Es. }
  destruct (IH w1 used1 closed1 Hinv1 Hr1 Hcur Hnd') as
    [(n2 & w' & used' & closed' & Hw' & Hinv' & Hev' & Hq')|(i & input & answers & Hin & (s & Es & Hspin) & n2 & Hd)].
  - left. exists (max n n2), w', used', closed'. split; [|split; [done|split; [|by eapply quiet_trans]]].
    + intros fuel Hf. cbn [run_batch]. rewrite Hw1 by lia. apply Hw'. lia.
    + eapply (evolves_ext (λ i, events_of [rep] i ++ events_of reports i)).
      { intros i. unfold events_of. cbn [omap list_omap]. by destruct (event_for i rep). }
      eapply evolves_trans; [exact Hev1|exact Hev'|..].
      * intros i Hno. apply events_none. intros Hi. destruct (Hsame i Hi) as (s & _ & Ho). by apply (Hno s).
      * intros i _ Hno _. apply events_none. intros Hi. destruct (Hsame i Hi) as (s & Ho & _). by apply (Hno s).
  - right. exists i, input, answers. split; [by right|]. split.
    + exists s. split; [|done]. destruct (Hsame i) as (s0 & [Es0 _] & [Es1 _]); [|congruence].
      apply list_elem_of_omap. by exists (On i (Ev_in input answers)).
    + exists (max n n2). intros fuel Hf. cbn [run_batch]. rewrite Hw1 by lia. apply Hd. lia.
Qed.

(** More fuel gives the same batch. *)
Lemma w_dispatch_mono fuel fuel' i ev w w' :
  w_dispatch fuel i ev w = Some w' → fuel ≤ fuel' → w_dispatch fuel' i ev w = Some w'.
Proof.
  unfold w_dispatch. intros Hd Hle. destruct (w_slots w !! i) as [s|]; [|done]. cbn [mbind option_bind] in Hd |- *.
  destruct (handle fuel (w_pool w) ev (s_conn s)) as [r|] eqn:E; [|done].
  by rewrite (handle_mono _ _ _ _ _ _ _ _ _ _ _ _ _ _ _ _ E Hle).
Qed.

Lemma w_dispatch_left_mono fuel fuel' i ev w w' :
  w_dispatch_left fuel i ev w = Some w' → fuel ≤ fuel' → w_dispatch_left fuel' i ev w = Some w'.
Proof.
  unfold w_dispatch_left. intros Hd Hle. destruct (links (w_cache w) !! i); [|done].
  destruct (w_slots w !! i) as [s|]; [|done]. cbn [mbind option_bind] in Hd |- *.
  destruct (handle fuel (w_pool w) ev (s_conn s)) as [r|] eqn:E; [|done].
  by rewrite (handle_mono _ _ _ _ _ _ _ _ _ _ _ _ _ _ _ _ E Hle).
Qed.

Lemma run_batch_mono fuel fuel' reports w w' :
  run_batch fuel reports w = Some w' → fuel ≤ fuel' → run_batch fuel' reports w = Some w'.
Proof.
  intros Hb Hle. revert w Hb. induction reports as [|rep reports IH]; intros w; cbn [run_batch]; [done|].
  destruct (handle_report fuel rep w) as [w1|] eqn:E; [|done].
  assert (handle_report fuel' rep w = Some w1) as ->; [|apply IH].
  destruct rep; [exact E|by eapply w_dispatch_mono|by eapply w_dispatch_left_mono].
Qed.

(** ** Expiry *)

(** The handler of a timer that has fired calls no function of timer.c. *)
Lemma timer_event_timers i w w' :
  w_dispatch 0 i Ev_timer w = Some w' → w_timers w' = forget_timer i (w_timers w).
Proof.
  unfold w_dispatch. destruct (w_slots w !! i) as [s|]; [|done]. cbn [mbind option_bind].
  assert (∃ c, handle 0 (w_pool w) Ev_timer (s_conn s) = Some (c, [CloseConn])) as [c ->] by (eexists; reflexivity).
  cbn [mbind option_bind w_perform_all]. unfold w_perform. rewrite slot_set.
  cbn [mbind option_bind]. destruct (zv_http_request_put_deferred (Some i) _) as [rc|]; [|done].
  by intros [= <-].
Qed.

(** The timers that are due, for [evolves]. *)
Definition timer_events (due : list nat) i : list event := if decide (i ∈ due) then [Ev_timer] else [].

Lemma close_due_inv due w used closed :
  w_inv w used closed due → NoDup due → (∀ i, i ∈ due → ∃ s, opened w i s) →
  ∃ w' used' closed', close_due (pair tt <$> due) w = Some w' ∧ w_inv w' used' closed' [] ∧
    w_timers w' = w_timers w ∧ evolves (timer_events due) w w' closed closed' ∧ (∀ i s, i ∈ due → ¬ opened w' i s) ∧
    (∀ i, i ∈ w_left w' → i ∈ w_left w ∨ i ∈ due).
Proof.
  intros Hinv Hnd Hopen. revert w used closed Hinv Hopen. induction Hnd as [|i due Hni Hnd IH]; intros w used closed Hinv Hopen.
  { exists w, used, closed. do 3 (split; [done|]). split; [by apply evolves_same|].
    split; [by intros i s ?%elem_of_nil|by left]. }
  cbn [fmap list_fmap close_due]. destruct (Hopen i) as (s & Es & Eo); [by left|].
  destruct (dispatch_inv i Ev_timer w s used closed (i :: due) due Hinv Es Eo) as
    [(n & w1 & used1 & closed1 & Hw & Hinv1 & [_ Ho] & Hev1 & Hcl & Hleft & _)|(? & ? & ? & _)]; [by right| |done].
  destruct Hcl as (s1 & Es1 & Eo1); [done|].
  assert (w_dispatch 0 i Ev_timer w = Some w1) as E by (apply (Hw (S n)); lia).
  rewrite E. cbn [mbind option_bind].
  assert (∀ j, j ∈ due → j ≠ i) as Hne by (intros j Hj ->; done).
  assert (∀ j, j ∈ due → ∃ s, opened w j s ∧ opened w1 j s) as Hsame.
  { intros j Hj. destruct (Hopen j) as (sj & Hoj); [by right|]. exists sj. split; [done|].
    unfold opened in *. by destruct (Ho j (Hne j Hj)) as [-> _]. }
  destruct (IH w1 used1 closed1 Hinv1) as (w' & used' & closed' & E' & Hinv' & Et & Hev' & Hc & Hleft').
  { intros j (sj & _ & Hoj)%Hsame. by exists sj. }
  exists w', used', closed'. split; [done|]. split; [done|]. split; [|split; [|split]].
  - rewrite Et, (timer_event_timers i w w1 E). apply forget_nothing; [apply (wi_resources _ _ _ _ Hinv)|].
    destruct (deadline (w_timers w) i) eqn:Ed; [|done].
    destruct (proj1 (wi_timers _ _ _ _ Hinv i)) as [_ Hx]; [by rewrite Ed|]. set_solver.
  - eapply evolves_ext; [|eapply (evolves_trans _ _ _ _ _ _ _ _ Hev1 Hev')].
    + intros j. unfold timer_events. cbv beta. destruct (decide (j = i)) as [->|Hji].
      * rewrite (decide_False (P := i ∈ due)) by done. rewrite decide_True by (by left). done.
      * destruct (decide (j ∈ due)); [rewrite decide_True by (by right)|rewrite decide_False by set_solver]; done.
    + intros j Hno. unfold timer_events. rewrite decide_False; [done|]. intros (sj & _ & Hoj)%Hsame. by apply (Hno sj).
    + intros j sj Hno _. unfold timer_events. rewrite decide_False; [done|]. intros (sk & Hok & _)%Hsame. by apply (Hno sk).
  - intros j sj [->|Hj]%elem_of_cons; [|by apply Hc]. intros Hoj.
    assert (i ∈ closed1) as Hin; [|destruct Hoj as [Ej Eoj]; rewrite (ev_stay _ _ _ _ _ Hev' i s1 Hin Es1 Eo1) in Ej; congruence].
    destruct (ev_open _ _ _ _ _ Hev1 i s 0%Z) as (s2 & ms2 & Es2 & _ & Hc2); [done|].
    rewrite Es1 in Es2. injection Es2 as <-. by rewrite Eo1 in Hc2.
  - intros j [Hj|Hj]%Hleft'; [|right; by right]. apply Hleft, elem_of_union in Hj as [->%elem_of_singleton|Hj]; [right; by left|by left].
Qed.

Lemma pair_tt (l : list (nat * (Z * ()))) : fire_event <$> l = pair tt <$> l.*1.
Proof. induction l as [|[r [d []]] l IH]; [done|]. cbn. by f_equal. Qed.

(** The requests whose time is over are closed, and no others. *)
Lemma expire_inv w used closed :
  w_inv w used closed [] →
  ∃ w' used' closed' due, expire_timers w = Some w' ∧ w_inv w' used' closed' [] ∧
    evolves (timer_events due) w w' closed closed' ∧ (∀ i, i ∈ due → ∃ s, opened w i s) ∧
    (∀ i s, i ∈ due → ¬ opened w' i s) ∧
    (∀ i, i ∈ due ↔ ∃ d, deadline (w_timers w) i = Some (d, tt) ∧ (d ≤ zv_current_msec (w_timers w'))%Z) ∧
    (∀ i d, deadline (w_timers w') i = Some (d, tt) ↔
       deadline (w_timers w) i = Some (d, tt) ∧ (zv_current_msec (w_timers w') < d)%Z) ∧
    (∀ i, i ∈ w_left w' → i ∈ w_left w ∨ (tt, i) ∈ drop (length (fired (w_timers w))) (fired (w_timers w'))).
Proof.
  intros [Hlisten [Htm Hrq] Hp Hs Ht].
  destruct (expire_deadlines clock tmalloc clock_mono (w_timers w) Htm) as (t & l & E & Htm' & Hf & Hnd & _ & Hin & Hd).
  assert (∀ i, i ∈ l.*1 ↔ ∃ d, deadline (w_timers w) i = Some (d, tt) ∧ (d ≤ zv_current_msec t)%Z) as Hdue.
  { intros i. rewrite list_elem_of_fmap. split.
    - intros ([r [d []]] & -> & Hl). exists d. by apply Hin.
    - intros (d & Hdl). exists (i, (d, tt)). split; [done|]. by apply Hin. }
  assert (∀ i s, opened w i s → ∃ d, deadline (w_timers w) i = Some (d, tt)) as Hex.
  { intros i s Ho. destruct (deadline (w_timers w) i) as [[d []]|] eqn:Ed; [by exists d|].
    assert (deadline (w_timers w) i ≠ None) as []; [|done]. apply Ht. split; [by exists s|set_solver]. }
  assert (∀ i, i ∈ l.*1 → ∃ s, opened w i s) as Hopen.
  { intros i (d & Ed & _)%Hdue. apply Ht. by rewrite Ed. }
  assert (∀ i d, deadline t i = Some (d, tt) ↔ deadline (w_timers w) i = Some (d, tt) ∧ (zv_current_msec t < d)%Z) as Hd2.
  { intros i d. apply Hd. }
  destruct (close_due_inv l.*1 (w <| w_timers := t |>) used closed) as (w' & used' & closed' & E' & Hinv' & Et & Hev & Hc & Hleft);
    [|exact Hnd|exact Hopen|].
  { split; [done|by split|done|done|]. intros i. simpl. split.
    - intros Hdt. destruct (deadline t i) as [[d []]|] eqn:Ed; [|done]. apply Hd in Ed as [Ed Hlt]. split.
      + apply Ht. by rewrite Ed.
      + rewrite Hdue. intros (d' & Ed' & Hle). rewrite Ed in Ed'. injection Ed' as <-. lia.
    - intros ((s & Ho) & Hni) Hnone. destruct (Hex i s Ho) as [d Ed].
      destruct (decide (d ≤ zv_current_msec t)%Z) as [Hle|Hgt]; [apply Hni, Hdue; by exists d|].
      assert (deadline t i = Some (d, tt)) as Ed' by (apply Hd; split; [done|lia]). congruence. }
  change (w_timers (w <| w_timers := t |>)) with t in Et.
  exists w', used', closed', l.*1. split.
  { unfold expire_timers. rewrite E. cbn [mbind option_bind]. rewrite Hf, drop_app_length, pair_tt. done. }
  rewrite Et. split; [done|]. split; [|do 4 (split; [done|])].
  2: { intros i [Hi|Hi]%Hleft; [by left|right]. rewrite Hf, drop_app_length, pair_tt, list_elem_of_fmap. by exists i. }
  destruct Hev as [C S O I N]. split; [exact C|exact S|exact O| |exact N].
  intros i s Eev Ho. destruct (I i s Eev Ho) as [Ho' _]. split; [done|].
  destruct (Hex i s Ho) as [d Ed]. rewrite Et, Ed. apply Hd. split; [done|].
  unfold timer_events in Eev. case_decide as Hi; [done|]. rewrite Hdue in Hi.
  destruct (decide (d ≤ zv_current_msec t)%Z) as [Hle|?]; [|lia]. destruct Hi. by exists d.
Qed.

(** ** A turn of the loop *)

Definition worker_ok w : Prop := ∃ used, w_inv w used ∅ [].

(** What a turn does about time. *)
Definition on_time w (reports : list report) (time : Z) w' : Prop :=
  (time = (-1)%Z ↔ ∀ i s, ¬ opened w i s) ∧
  (∀ i s, opened w' i s → ∃ d, deadline (w_timers w') i = Some (d, tt) ∧ (zv_current_msec (w_timers w') < d)%Z) ∧
  (∀ i s, opened w i s → i ∉ omap target reports →
     ∃ d, deadline (w_timers w) i = Some (d, tt) ∧
       if decide (d ≤ zv_current_msec (w_timers w'))%Z
       then ∀ s', ¬ opened w' i s'
       else opened w' i s ∧ deadline (w_timers w') i = Some (d, tt)).

(** Each connection goes through the event reported for it, if any, and closes if its
    deadline has passed, as if the others were not there. *)
Definition turn_of (reports : list report) w w' : Prop :=
  ∃ due closed', evolves (λ i, events_of reports i ++ timer_events due i) w w' ∅ closed'.

(** The registrations that a turn leaves behind are those of connections whose timer fired. *)
Definition timers_leave w w' : Prop :=
  ∀ i, i ∈ w_left w' → i ∈ w_left w ∨ (tt, i) ∈ drop (length (fired (w_timers w))) (fired (w_timers w')).

Lemma inv_timers w used closed (t : timers Q ()) :
  w_inv w used closed [] → timers_ok clock t → (∀ i, deadline t i = deadline (w_timers w) i) →
  w_inv (w <| w_timers := t |>) used closed [].
Proof.
  intros [Hl [_ Hrq] Hp Hs Ht] Htm Hd. split; [done|by split|done|done|]. intros i. simpl. rewrite Hd. apply Ht.
Qed.

Lemma turn_inv w reports :
  worker_ok w → reports_ok w reports → current reports →
  (∃ n time w', (∀ fuel, n < fuel → worker_turn fuel reports w = Some (time, w')) ∧
     worker_ok w' ∧ on_time w reports time w' ∧ turn_of reports w w' ∧ timers_leave w w') ∨
  (∃ i input answers, On i (Ev_in input answers) ∈ reports ∧ w_spins i input w ∧
     ∃ n, ∀ fuel, n < fuel → worker_turn fuel reports w = None).
Proof.
  intros [used Hinv] Hr Hcur. pose proof (targets_distinct w used ∅ reports Hinv Hr) as Hnd. destruct Hr as [Hr _].
  destruct (find_deadline clock tmalloc clock_mono (w_timers w)) as (time & t & Ef & Htm & Hft & Hdt & Hneg & _).
  { apply (wi_resources _ _ _ _ Hinv). }
  pose proof (inv_timers w used ∅ t Hinv Htm Hdt) as Hinv0. set (w0 := w <| w_timers := t |>) in *.
  destruct (batch_inv reports w0 used ∅ Hinv0 Hr Hcur Hnd) as
    [(n & w1 & used1 & closed1 & Hb & Hinv1 & Hev1 & [Hf1 Hl1])|(i & input & answers & Hin & Hspin & n & Hb)].
  2: { right. exists i, input, answers. split; [done|]. split; [exact Hspin|]. exists n. intros fuel Hf.
    unfold worker_turn. rewrite Ef. cbn [mbind option_bind]. fold w0. by rewrite Hb. }
  destruct (expire_inv w1 used1 closed1 Hinv1) as (w2 & used2 & closed2 & due & Ee & Hinv2 & Hev2 & Hopen & Hshut & Hdue & Hlate & Hleft).
  destruct (flush_requests (w_cache w2) used2 closed2) as (c & Ec & Hc).
  { apply (wi_resources _ _ _ _ Hinv2). }
  left. exists n, time, (w2 <| w_cache := c |>). split; [|split; [|split; [|split]]].
  - intros fuel Hf. unfold worker_turn. rewrite Ef. cbn [mbind option_bind]. fold w0. rewrite Hb by done.
    cbn [mbind option_bind]. rewrite Ee. cbn [mbind option_bind]. by rewrite Ec.
  - exists used2. eapply inv_cache; [exact Hinv2|exact Hc|done].
  - assert (∀ i s, opened w2 i s → deadline (w_timers w2) i ≠ None) as Hd2.
    { intros i s Ho. apply (wi_timers _ _ _ _ Hinv2). split; [by exists s|set_solver]. }
    split; [|split].
    + rewrite Hneg. split.
      * intros Hno i s Ho. apply (proj2 (wi_timers _ _ _ _ Hinv i)); [|apply Hno].
        split; [by exists s|set_solver].
      * intros Hno i. destruct (deadline (w_timers w) i) eqn:Ed; [|done].
        destruct (proj1 (wi_timers _ _ _ _ Hinv i)) as [(s & Ho) _]; [by rewrite Ed|by destruct (Hno i s)].
    + intros i s Ho. destruct (deadline (w_timers w2) i) as [[d []]|] eqn:Ed; [|by destruct (Hd2 i s Ho)].
      exists d. split; [exact Ed|]. exact (proj2 (proj1 (Hlate i d) Ed)).
    + intros i s Ho Hni. destruct (ev_idle _ _ _ _ _ Hev1 i s (events_none _ _ Hni) Ho) as [Ho1 Ed1].
      change (w_timers (w2 <| w_cache := c |>)) with (w_timers w2).
      destruct (deadline (w_timers w1) i) as [[d []]|] eqn:Ed.
      2: { destruct (proj2 (wi_timers _ _ _ _ Hinv1 i)); [|done]. split; [by exists s|set_solver]. }
      exists d. split; [rewrite <-Hdt; symmetry; exact Ed1|]. case_decide as Hle.
      * intros s'. apply (Hshut i s'), Hdue. by exists d.
      * split; [|apply Hlate; split; [done|lia]]. apply (ev_idle _ _ _ _ _ Hev2 i s); [|done].
        unfold timer_events. rewrite decide_False; [done|]. intros (d' & Ed' & Hle')%Hdue. assert (d' = d) as -> by congruence. done.
  - exists due, closed2. assert (evolves (events_of reports) w w1 ∅ closed1) as Hev.
    { destruct Hev1 as [C S O I N]. split; [exact C|exact S|exact O| |exact N].
      intros i s E Ho. destruct (I i s E Ho) as [? ->]. split; [done|apply Hdt]. }
    destruct (evolves_trans _ _ _ _ _ _ _ _ Hev Hev2) as [C S O I N].
    + intros i Hno. unfold timer_events. rewrite decide_False; [done|]. intros (s & Ho)%Hopen. by destruct (Hno s).
    + intros i s _ Ho. unfold timer_events. rewrite decide_False; [done|]. intros Hi. by destruct (Hshut i s Hi).
    + by split.
  - intros i Hi. destruct (Hleft i Hi) as [Hw|Hw]; [left; by rewrite Hl1 in Hw|right].
    rewrite Hf1 in Hw. change (w_timers w0) with t in Hw. by rewrite Hft in Hw.
Qed.

Lemma run_turn_mono fuel fuel' reports w r :
  worker_turn fuel reports w = Some r → fuel ≤ fuel' → worker_turn fuel' reports w = Some r.
Proof.
  unfold worker_turn. intros Ht Hle. destruct (zv_find_timer _ _ _) as [[time t]|]; [|done].
  cbn [mbind option_bind] in Ht |- *. destruct (run_batch fuel reports _) as [w1|] eqn:E; [|done].
  by rewrite (run_batch_mono _ _ _ _ _ E Hle).
Qed.

Lemma turn_time fuel reports w time w' :
  worker_turn fuel reports w = Some (time, w') → ∃ t, zv_find_timer clock tmalloc (w_timers w) = Some (time, t).
Proof.
  unfold worker_turn. destruct (zv_find_timer _ _ _) as [[time2 t]|]; [|done]. cbn [mbind option_bind].
  destruct (run_batch fuel reports _) as [w1|]; [|done]. cbn [mbind option_bind].
  destruct (expire_timers w1) as [w2|]; [|done]. cbn [mbind option_bind].
  destruct (zv_http_request_deferred_flush _); [|done]. intros [= <- _]. by exists t.
Qed.

(** A turn that returns is the one of [turn_inv]. *)
Lemma turn_returned fuel w reports time w' :
  worker_ok w → reports_ok w reports → current reports → worker_turn fuel reports w = Some (time, w') →
  worker_ok w' ∧ on_time w reports time w' ∧ turn_of reports w w' ∧ timers_leave w w'.
Proof.
  intros Hok Hr Hcur Ht. destruct (turn_inv w reports Hok Hr Hcur) as [(n & time2 & w2 & Hw & Hok' & Hpost)|(_ & _ & _ & _ & _ & n & Hw)].
  - apply (run_turn_mono _ (S (max n fuel))) in Ht; [|lia]. rewrite Hw in Ht by lia. by injection Ht as <- <-.
  - apply (run_turn_mono _ (S (max n fuel))) in Ht; [|lia]. by rewrite Hw in Ht by lia.
Qed.

(** The turns in which epoll names no socket closed before. *)
Definition worker_step w w' : Prop :=
  ∃ fuel reports time, reports_ok w reports ∧ current reports ∧ worker_turn fuel reports w = Some (time, w').

Lemma worker_starts q pool : ∃ w, worker_start q pool = Some w.
Proof.
  unfold worker_start, zv_timer_init. rewrite memory. destruct (pq_init_total nat ZV_PQ_DEFAULT_SIZE) as [q' Eq].
  rewrite Eq. assert (∃ c, zv_http_request_get true boot_rcache = Some (Some listen_request, c)) as [c ->] by (eexists; reflexivity).
  by eexists.
Qed.

Lemma worker_start_ok q pool w : hp_ok pool → worker_start q pool = Some w → worker_ok w.
Proof.
  intros Hp. unfold worker_start.
  assert (requests_ok (boot_rcache, ∅, ∅)) as Hboot by (exists [], []; split; [apply boot_rcache_ok|set_solver]).
  assert (∃ c, zv_http_request_get true boot_rcache = Some (Some listen_request, c)) as [c0 Eget] by (eexists; reflexivity).
  destruct (get_requests true boot_rcache ∅ ∅ Hboot) as ([r|] & c & E0 & Hr); rewrite Eget in *; [|done].
  assert (r = listen_request ∧ c = c0) as [-> ->] by (split; congruence). clear E0. cbn [mbind option_bind].
  destruct (zv_timer_init clock tmalloc _) as [t|] eqn:E; [|done]. cbn [mbind option_bind]. intros [= <-].
  apply (init_spec clock tmalloc clock_mono) in E; [|done..].
  destruct Hr as (_ & _ & Hr). exists ({[listen_request]} ∪ ∅). split.
  - split; [set_solver|apply lookup_empty].
  - split; [by exists []|done].
  - done.
  - intros i s Hi. simpl in Hi. by rewrite lookup_empty in Hi.
  - intros i. simpl. rewrite (deadline_empty clock t i E). split; [done|].
    intros ((s & Hi & _) & _). by rewrite lookup_empty in Hi.
Qed.

Lemma worker_steps_ok q pool w0 w : hp_ok pool → worker_start q pool = Some w0 → star worker_step w0 w → worker_ok w.
Proof.
  intros Hp Hstart Hs. eapply (star_invariant _ worker_ok); [|exact Hs|by eapply worker_start_ok].
  intros w1 w2 Hok (fuel & reports & time & Hr & Hcur & Ht). by eapply turn_returned.
Qed.


(** C10. Timeouts are enforced: after every turn every open connection has a timer, which
    expires later than the last reading of the clock; a connection that the batch does not
    name is closed if its deadline has passed and otherwise keeps its state and its
    deadline, whatever the others do; and epoll waits without limit exactly when no
    connection is open.  This holds as long as epoll has reported no socket closed before
    (see [worker_turn_safe]): such a report can delete the timer of the connection that has
    got the request object since. *)
Theorem timeouts_enforced q pool w0 w fuel reports time w' :
  hp_ok pool → worker_start q pool = Some w0 → star worker_step w0 w → reports_ok w reports →
  current reports → worker_turn fuel reports w = Some (time, w') →
  (time = (-1)%Z ↔ ∀ i s, ¬ opened w i s) ∧
  (∀ i s, opened w' i s → ∃ d, deadline (w_timers w') i = Some (d, tt) ∧ (zv_current_msec (w_timers w') < d)%Z) ∧
  (∀ i s, opened w i s → i ∉ omap target reports →
     ∃ d, deadline (w_timers w) i = Some (d, tt) ∧
       if decide (d ≤ zv_current_msec (w_timers w'))%Z
       then ∀ s', ¬ opened w' i s'
       else opened w' i s ∧ deadline (w_timers w') i = Some (d, tt)).
Proof.
  intros Hp Hstart Hs Hr Hcur Ht.
  exact (proj1 (proj2 (turn_returned _ _ _ _ _ (worker_steps_ok q pool w0 w Hp Hstart Hs) Hr Hcur Ht))).
Qed.

(** C6. The worker is many connections that do not see each other: in a turn of the loop every
    open connection goes through the event that epoll reported for it, if any, and then
    the expiry of its timer, if due, exactly as it would alone (Server.v, with whatever
    the others left of the header cache), and an open connection that was not there before
    is one just accepted.  This holds for the turns up to the first in which epoll reports a
    socket closed before (see [worker_turn_safe]), whose handler works on a request object
    that may have been given to another connection. *)
Theorem worker_refines_connections q pool w0 w fuel reports time w' :
  hp_ok pool → worker_start q pool = Some w0 → star worker_step w0 w → reports_ok w reports →
  current reports → worker_turn fuel reports w = Some (time, w') →
  (∀ i s ms, opened w i s → ∃ s' ms' late, w_slots w' !! i = Some s' ∧ (late = [] ∨ late = [Ev_timer]) ∧
     runs (events_of reports i ++ late) (slot_client (Some ms) s) (slot_client ms' s')) ∧
  (∀ i s', opened w' i s' → (∃ s, opened w i s) ∨ accepted_slot s').
Proof.
  intros Hp Hstart Hs Hr Hcur Ht.
  destruct (turn_returned _ _ _ _ _ (worker_steps_ok q pool w0 w Hp Hstart Hs) Hr Hcur Ht) as (_ & _ & (due & closed & Hev) & _).
  split; [|exact (ev_new _ _ _ _ _ Hev)]. intros i s ms Ho.
  destruct (ev_open _ _ _ _ _ Hev i s ms Ho) as (s' & ms' & Es' & Hruns & _).
  exists s', ms', (timer_events due i). split; [done|]. split; [|done]. unfold timer_events. case_decide; [by right|by left].
Qed.
End worker.

(** ** A concrete worker: two connections are accepted, and one sends a request *)

Definition demo_timers : timers zv_pq () := mk_timers (mk_pq [] 0 0) ∅ ∅ 0 0 0 [].
Definition demo_boot : worker nat zv_pq := mk_worker nat zv_pq ∅ boot_rcache demo_timers 5 ∅.
Abbreviation demo_turn :=
  (worker_turn (Some demo_root) demo_stat demo_open demo_http_realpath demo_time (λ _, None) 0 true demo_spawn (λ _ _ _, [])
     demo_clock demo_malloc 0 0).
Abbreviation demo_step :=
  (worker_step (Some demo_root) demo_stat demo_open demo_http_realpath demo_time (λ _, None) 0 true demo_spawn (λ _ _ _, [])
     demo_clock demo_malloc 0 0).
Definition demo_two : list report :=
  [New_connections [mk_accepted true true demo_old; mk_accepted true true demo_old]].
Definition demo_w0 : worker nat zv_pq := default demo_boot (worker_start demo_clock demo_malloc (mk_pq [] 0 0) 5).
Definition demo_w1 : worker nat zv_pq := default demo_boot (snd <$> demo_turn 100 demo_two demo_w0).
Definition demo_get : list report := [On 3 demo_in].
Definition demo_w2 : worker nat zv_pq := default demo_boot (snd <$> demo_turn 100 demo_get demo_w1).

Lemma demo_started : worker_start demo_clock demo_malloc (mk_pq [] 0 0) 5 = Some demo_w0.
Proof. vm_compute. reflexivity. Qed.

Lemma demo_turn1 : demo_turn 100 demo_two demo_w0 = Some ((-1)%Z, demo_w1).
Proof. vm_compute. reflexivity. Qed.

Lemma demo_turn2 : demo_turn 100 demo_get demo_w1 = Some (2000%Z, demo_w2).
Proof. vm_compute. reflexivity. Qed.

Lemma demo_olds_ok : Forall (report_ok demo_w0) demo_two.
Proof. constructor; [|done]. repeat constructor; apply length_replicate. Qed.

Lemma demo_two_current : current demo_two.
Proof. constructor; [exact I|constructor]. Qed.

Lemma demo_get_current : current demo_get.
Proof. constructor; [exact I|constructor]. Qed.

Lemma demo_two_ok : reports_ok demo_w0 demo_two.
Proof. split; [apply demo_olds_ok|constructor]. Qed.

Lemma demo_slot3 : (λ s, (s_armed s, s_open s)) <$> w_slots demo_w1 !! 3 = Some (Some EPOLLIN, true).
Proof. vm_compute. reflexivity. Qed.

Lemma demo_slot4_open : s_open <$> w_slots demo_w1 !! 4 = Some true.
Proof. vm_compute. reflexivity. Qed.

Lemma demo_slot4 : ∃ s, opened demo_w1 4 s.
Proof. destruct (proj1 (fmap_Some _ _ _) demo_slot4_open) as (s & E & Ho). exists s. exact (conj E (eq_sym Ho)). Qed.

Lemma demo_get_ok : reports_ok demo_w1 demo_get.
Proof.
  destruct (proj1 (fmap_Some _ _ _) demo_slot3) as (s & E & Hs). injection Hs as Ha Ho.
  split; [|constructor; [intros []%elem_of_nil|constructor]]. constructor; [|constructor]. exists s.
  exact (conj E (conj (eq_sym Ho) (eq_sym Ha))).
Qed.

Lemma demo_steps_worker : star demo_step demo_w0 demo_w1.
Proof. apply star_one. exists 100, demo_two, (-1)%Z. split; [apply demo_two_ok|]. split; [exact demo_two_current|apply demo_turn1]. Qed.


(** The second connection has sent nothing for too long. *)
Lemma timeouts_enforced_witness :
  ∃ s d, opened demo_w1 4 s ∧ deadline (w_timers demo_w1) 4 = Some (d, tt) ∧
    if decide (d ≤ zv_current_msec (w_timers demo_w2))%Z
    then ∀ s', ¬ opened demo_w2 4 s'
    else opened demo_w2 4 s ∧ deadline (w_timers demo_w2) 4 = Some (d, tt).
Proof.
  destruct (timeouts_enforced (Some demo_root) demo_stat demo_open demo_http_realpath demo_time (λ _, None) 0 true demo_spawn
    (λ _ _ _, []) demo_clock demo_malloc 0 0 demo_mono (λ _, eq_refl) (mk_pq [] 0 0) 5 demo_w0 demo_w1
    100 demo_get 2000 demo_w2 demo_pool5_ok demo_started demo_steps_worker demo_get_ok demo_get_current demo_turn2) as (_ & _ & Hd).
  destruct demo_slot4 as (s & Hs). destruct (Hd 4 s Hs) as (d & Ed & Hif); [|exists s, d; exact (conj Hs (conj Ed Hif))].
  intros Hin. apply list_elem_of_singleton in Hin. discriminate.
Defined.

(** The first connection answers its request, and the second waits. *)
Lemma worker_refines_connections_witness :
  ∃ s s' ms' late, opened demo_w1 3 s ∧ w_slots demo_w2 !! 3 = Some s' ∧ (late = [] ∨ late = [Ev_timer]) ∧
    runs (Some demo_root) demo_stat demo_open demo_http_realpath demo_time (λ _, None) 0 true demo_spawn (λ _ _ _, [])
      (events_of demo_get 3 ++ late) (slot_client (Some 0%Z) s) (slot_client ms' s').
Proof.
  destruct (worker_refines_connections (Some demo_root) demo_stat demo_open demo_http_realpath demo_time (λ _, None) 0 true demo_spawn
    (λ _ _ _, []) demo_clock demo_malloc 0 0 demo_mono (λ _, eq_refl) (mk_pq [] 0 0) 5 demo_w0 demo_w1
    100 demo_get 2000 demo_w2 demo_pool5_ok demo_started demo_steps_worker demo_get_ok demo_get_current demo_turn2) as [Hrun _].
  destruct (proj1 (fmap_Some _ _ _) demo_slot3) as (s & E & Hs). injection Hs as _ Ho.
  destruct (Hrun 3 s 0%Z (conj E (eq_sym Ho))) as (s' & ms' & late & E' & Hl & Hr).
  exists s, s', ms', late. exact (conj (conj E (eq_sym Ho)) (conj E' (conj Hl Hr))).
Defined.

(** The timer of that connection has closed it while its socket was armed.  Should a script
    that another connection runs hold the socket, epoll still reports it when the client
    sends its request, and the handler deletes the timer that is not there. *)
Definition demo_stale : list report := [Left 4 demo_in].

Lemma demo_left4 : 4 ∈ w_left demo_w2.
Proof. vm_compute. reflexivity. Qed.

Lemma demo_slot4_closed : s_open <$> w_slots demo_w2 !! 4 = Some false.
Proof. vm_compute. reflexivity. Qed.

Lemma demo_stale_turn : demo_turn 100 demo_stale demo_w2 = None.
Proof. vm_compute. reflexivity. Qed.

Example left_registration_faults :
  s_open <$> w_slots demo_w2 !! 4 = Some false ∧ reports_ok demo_w2 demo_stale ∧ demo_turn 100 demo_stale demo_w2 = None.
Proof.
  refine (conj demo_slot4_closed (conj _ demo_stale_turn)). split; [|constructor].
  constructor; [exact (conj demo_left4 I)|constructor].
Qed.
