(* ===== verification/Clients.v ===== *)
(** * All the clients of a worker (worker.c)

    The composition of Worker.v and Conversation.v: however many clients a worker serves at
    a time, whatever the batches of epoll, the timeouts and the other clients, each one is
    answered as by an abstract server that serves it alone. *)
From S2P Require Import Prelude CString HeaderPool HttpParse RequestLine HeaderBlock Path PriorityQueue Timer DList RequestCache Sockets Output Cgi CgiStream Request Http Serve Pieces Answers Pipeline Server Conversation Worker.

(** The requests a client sends, and what of them the server has not read. *)
Definition talk : Type := list get_request * list Z.

Section clients.
Context `{HeaderPool P} {Q : Type → Type} `{PriorityQueue Q}.
Variables (ROOT : option (list Z)) (stat : list Z → option file_stat) (open : list Z → option (list Z))
  (realpath : list Z → option (list Z)) (fmt_time : Z → list Z) (strptime : list Z → option Z)
  (uninit : Z) (spawn_env : spawn) (script : list Z → list Z → option (list Z) → pipe)
  (clock : nat → Z * Z) (tmalloc : nat → bool) (keep_ms req_ms : Z).
Implicit Types (w : worker P Q) (s : slot P) (i : nat) (G : nat → talk).

Notation worker_start := (worker_start clock tmalloc).
Notation worker_turn :=
  (worker_turn ROOT stat open realpath fmt_time strptime uninit true spawn_env script clock tmalloc keep_ms req_ms).
Notation worker_step :=
  (worker_step ROOT stat open realpath fmt_time strptime uninit true spawn_env script clock tmalloc keep_ms req_ms).
Notation runs := (runs ROOT stat open realpath fmt_time strptime uninit true spawn_env script).
Notation told := (told ROOT stat open realpath fmt_time strptime uninit spawn_env script).
Notation in_step := (in_step ROOT stat open realpath fmt_time strptime uninit spawn_env script).
Notation engaged := (engaged ROOT stat open realpath fmt_time strptime uninit spawn_env script).
Notation ms c := (keep_alive_timeout_ms (c_req c)).

(** The kernel delivers to each connection what its client has sent. *)
Definition coherent w (reports : list report) G : Prop :=
  ∀ i s ev, opened w i s → ev ∈ events_of reports i → delivers (G i).2 ev.

(** What the clients have sent and what is unread, after a turn; a connection that was not
    there before is a client that is about to send the requests of [G']. *)
Definition talk_after (reports : list report) w w' G G' : Prop :=
  ∀ i s', w_slots w' !! i = Some s' →
    ((∃ s, opened w i s) → G' i = ((G i).1, fold_left (λ todo ev, left_after todo ev (s_conn s')) (events_of reports i) (G i).2)) ∧
    ((∀ s, ¬ opened w i s) → Forall request_ok (G' i).1 ∧ (G' i).2 = concat (print_get <$> (G' i).1)).

(** Turns of a worker all of whose clients send well-formed requests, in which epoll names
    no socket closed before. *)
Inductive clients (q : Q nat) (pool : P) : worker P Q → (nat → talk) → Prop :=
  | Clients_start w G : worker_start q pool = Some w → clients q pool w G
  | Clients_turn w G fuel reports time w' G' :
      clients q pool w G → reports_ok w reports → current reports → coherent w reports G →
      worker_turn fuel reports w = Some (time, w') → talk_after reports w w' G G' → clients q pool w' G'.

Hypothesis pool_supplies : ∀ p : P, hp_ok p → is_Some (hp_alloc p).
Hypothesis fmt_time_short : ∀ t, length (fmt_time t) < SHORTLINE.
Hypothesis sizes_small : ∀ f sb, stat f = Some sb → (Z.of_nat (st_size sb) < 2 ^ 63)%Z.
Hypothesis clock_mono : ∀ i j, i ≤ j → (msec (clock i) ≤ msec (clock j))%Z.
Hypothesis memory : ∀ n, tmalloc n = true.

Lemma clients_steps q pool w G : clients q pool w G → ∃ w0, worker_start q pool = Some w0 ∧ star worker_step w0 w.
Proof.
  induction 1 as [w G E|w G fuel reports time w' G' _ (w0 & E & Hs) Hr Hcur _ Ht _].
  - exists w. split; [done|constructor].
  - exists w0. split; [done|]. eapply star_step; [exact Hs|]. by exists fuel, reports, time.
Qed.

(** The value of the timer does not matter. *)
Lemma engaged_timer m (p : Prop) gs s tm todo :
  engaged m p gs (slot_client (Some tm) s) todo → ∀ tm', engaged m p gs (slot_client (Some tm') s) todo.
Proof.
  intros He tm'. unfold Conversation.engaged in *. change (cl_open (slot_client ?t s)) with (s_open s) in *.
  destruct (s_open s).
  - destruct He as (_ & He). split; [by eauto|]. exact He.
  - destruct He as ((_ & [=]) & _).
Qed.

Lemma events_at_most_one reports i :
  NoDup (omap target reports) → events_of reports i = [] ∨ ∃ ev, events_of reports i = [ev].
Proof.
  unfold events_of. induction reports as [|rep reports IH]; intros Hnd; [by left|].
  destruct rep as [arr|j ev|]; cbn [omap list_omap target event_for] in *; [by apply IH| |by apply IH].
  apply NoDup_cons in Hnd as [Hni Hnd]. case_decide as Hj; [|by apply IH]. subst j.
  right. exists ev. f_equal. by apply (events_none reports i).
Qed.

(** A turn, for one connection. *)
Lemma turn_engaged m gs todo reports due i s s' tm ms' :
  engaged m False gs (slot_client (Some tm) s) todo →
  events_of reports i = [] ∨ (∃ ev, events_of reports i = [ev]) →
  (∀ ev, ev ∈ events_of reports i → delivers todo ev) →
  runs (events_of reports i ++ timer_events due i) (slot_client (Some tm) s) (slot_client ms' s') →
  engaged m False gs (slot_client ms' s') (fold_left (λ todo ev, left_after todo ev (s_conn s')) (events_of reports i) todo).
Proof.
  intros He Hev Hdel Hr.
  assert (∀ cl todo1 todo2 t, engaged m False gs cl todo1 → runs [Ev_timer] cl (slot_client t s') →
    engaged m False gs (slot_client t s') todo2) as Htimer.
  { intros cl todo1 todo2 t He1 (fuel & pool & cl1 & Hen & Hp & Hd & <-%runs_nil_inv)%runs_cons_inv.
    pose proof (timer_closes _ _ _ _ _ _ _ _ _ _ _ _ _ _ Hd) as Hc.
    apply (engaged_dispatch _ _ _ _ _ _ _ _ _ pool_supplies fmt_time_short sizes_small m False gs cl todo1) in Hd; [|done|done|by split; [apply not_elem_of_nil|]|done].
    unfold Conversation.engaged in *. rewrite Hc in *. eapply ended_weaken; [|exact Hd]. done. }
  destruct Hev as [E|[ev E]]; rewrite E in *; cbn [fold_left app] in *.
  - unfold timer_events in Hr. case_decide; [by eapply Htimer|]. by apply runs_nil_inv in Hr as ->.
  - apply runs_cons_inv in Hr as (fuel & pool & cl1 & Hen & Hp & Hd & Hrest).
    apply (engaged_dispatch _ _ _ _ _ _ _ _ _ pool_supplies fmt_time_short sizes_small m False gs _ todo) in Hd; [|done|done|by apply Hdel; left|done].
    apply (engaged_weaken _ _ _ _ _ _ _ _ _ m _ False) in Hd; [|done].
    unfold timer_events in Hrest. case_decide; [by eapply Htimer|].
    apply runs_nil_inv in Hrest as <-. exact Hd.
Qed.

(** Every open connection is in step with its client. *)
Definition served w G : Prop :=
  ∀ i s, opened w i s → ∃ tm, engaged (ms (s_conn s)) False (G i).1 (slot_client (Some tm) s) (G i).2.

Lemma clients_turn q pool w G reports fuel time w' :
  hp_ok pool → clients q pool w G → served w G → reports_ok w reports → current reports → coherent w reports G →
  worker_turn fuel reports w = Some (time, w') →
  (∀ i s, opened w i s → ∃ s' tm, w_slots w' !! i = Some s' ∧ (s_open s' = true → is_Some tm) ∧
     engaged (ms (s_conn s)) False (G i).1 (slot_client tm s')
       (fold_left (λ todo ev, left_after todo ev (s_conn s')) (events_of reports i) (G i).2)) ∧
  (∀ i s', opened w' i s' → (∃ s, opened w i s) ∨ accepted_slot keep_ms req_ms s').
Proof.
  intros Hp Hc Hserved Hr Hcur Hco Ht. destruct (clients_steps _ _ _ _ Hc) as (w0 & Hstart & Hs).
  pose proof (worker_steps_ok _ _ _ _ _ _ _ _ _ _ _ _ _ _ clock_mono memory q pool w0 w Hp Hstart Hs) as Hok.
  destruct (turn_returned _ _ _ _ _ _ _ _ _ _ _ _ _ _ clock_mono memory fuel w reports time w' Hok Hr Hcur Ht)
    as (_ & _ & (due & closed & Hev) & _).
  destruct Hok as [used Hinv].
  pose proof (targets_distinct clock w used ∅ reports Hinv Hr) as Hnd.
  destruct Hev as [_ _ Hopen _ Hnew]. split; [|exact Hnew].
  intros i s Ho. destruct (Hserved i s Ho) as [tm He].
  destruct (Hopen i s tm Ho) as (s' & ms' & Es' & Hruns & Hif). exists s', ms'. split; [done|].
  split; [intros Eo; by rewrite Eo in Hif|].
  eapply turn_engaged; [exact He|by apply events_at_most_one| |exact Hruns]. intros ev Hin. by eapply Hco.
Qed.

Lemma clients_served q pool w G : hp_ok pool → clients q pool w G → served w G.
Proof.
  intros Hp. induction 1 as [w G E|w G fuel reports time w' G' Hc IH Hr Hcur Hco Ht Hta].
  - intros i s [Es _]. exfalso. revert E. unfold Worker.worker_start.
    destruct (zv_http_request_get _ _) as [[r c]|]; [|done]. cbn [mbind option_bind]. destruct r; [|done].
    cbn [mbind option_bind]. destruct (zv_timer_init _ _ _); [|done]. cbn [mbind option_bind]. intros [= <-].
    simpl in Es. by rewrite lookup_empty in Es.
  - intros i s' Ho'. destruct (clients_turn q pool w G reports fuel time w' Hp Hc IH Hr Hcur Hco Ht) as [Hold Hnew].
    destruct (Hta i s' (proj1 Ho')) as [Hgo Hfresh]. destruct (opened_dec w i) as [[s Ho]|Hno].
    + destruct (Hold i s Ho) as (s2 & tm & Es2 & Htm & He). destruct Ho' as [Es' Eo']. rewrite Es' in Es2. injection Es2 as <-.
      destruct (Htm Eo') as [t ->]. exists t. rewrite Hgo by (by exists s). cbn [fst snd].
      assert (ms (s_conn s') = ms (s_conn s)) as ->; [|done].
      unfold Conversation.engaged in He. change (cl_open (slot_client ?t s')) with (s_open s') in He.
      rewrite Eo' in He. by destruct He as (_ & ? & _).
    + destruct (Hnew i s' Ho') as [[s Ho]|(old & pool0 & t & Hl & Hp0 & Ha)]; [by destruct (Hno s)|].
      destruct (Hfresh Hno) as [Hok ->]. exists t.
      eapply (engaged_weaken _ _ _ _ _ _ _ _ _ _ True); [done|].
      by eapply (accepted_engaged _ _ _ _ _ _ _ _ _ pool_supplies keep_ms req_ms old pool0 (slot_client (Some t) s')).
Qed.

(** C1. Every client of a worker is answered as if it were alone: whatever the other clients
    do, in whatever batches epoll reports, however the kernel cuts the requests, the
    answers and the output of the scripts, and whatever timeouts strike, the bytes that each
    connection has received are at any moment the beginning of the answers of the abstract
    server to its own requests, in order; and while the connection is open nothing of its
    requests is lost or mixed with those of another: it has the answers to the first of
    them, the last one, a page or the response of a script, perhaps still on its way, and
    the rest is at the front of its buffer or still to be read.  (What the answer to a
    request is, a 304 or nothing for a file that cannot be opened included, is the relation
    of Answers.v, and of the output of a script what [kept] says.)  This holds up to the
    first turn in which epoll reports a socket closed before (see [worker_turn_safe]); it
    takes that the clock does not go backwards, that there is memory, that dates fit their
    line and that file sizes are those of an [off_t]. *)
Theorem clients_answered q pool w G reports fuel time w' G' :
  hp_ok pool → clients q pool w G → reports_ok w reports → current reports → coherent w reports G →
  worker_turn fuel reports w = Some (time, w') → talk_after reports w w' G G' →
  (∀ i s, opened w i s → ∃ s', w_slots w' !! i = Some s' ∧
     told (ms (s_conn s)) (G i).1 (wire (c_sock (s_conn s')))) ∧
  (∀ i s', opened w' i s' →
     in_step (ms (s_conn s')) (G' i).1 (s_conn s') (s_armed s') (s_pipe s') (G' i).2).
Proof.
  intros Hp Hc Hr Hcur Hco Ht Hta. split.
  - intros i s Ho.
    destruct (clients_turn q pool w G reports fuel time w' Hp Hc (clients_served _ _ _ _ Hp Hc) Hr Hcur Hco Ht) as [Hold _].
    destruct (Hold i s Ho) as (s' & tm & Es' & _ & He). exists s'. split; [done|]. by apply engaged_told in He.
  - intros i s' Ho'. assert (clients q pool w' G') as Hc' by (by eapply Clients_turn).
    destruct (clients_served _ _ _ _ Hp Hc' i s' Ho') as [tm He].
    apply engaged_open in He; [exact He|apply Ho'].
Qed.
End clients.

(** ** A concrete worker and its clients *)

(** The talk after a turn, when the connections it accepts are to send [fresh]. *)
Definition next_talk {P : Type} {Q : Type → Type} (fresh : nat → list get_request) (reports : list report) (w w' : worker P Q)
    (G : nat → talk) (i : nat) : talk :=
  if opened_dec w i then
    match w_slots w' !! i with
    | Some s' => ((G i).1, fold_left (λ todo ev, left_after todo ev (s_conn s')) (events_of reports i) (G i).2)
    | None => G i
    end
  else (fresh i, concat (print_get <$> fresh i)).

Lemma next_talk_after {P : Type} {Q : Type → Type} fresh reports (w w' : worker P Q) G :
  (∀ i, Forall request_ok (fresh i)) → talk_after reports w w' G (next_talk fresh reports w w' G).
Proof.
  intros Hf i s' Es'. unfold next_talk. rewrite Es'. destruct (opened_dec w i) as [[s Ho]|Hno].
  - split; [done|]. intros Hno. by destruct (Hno s).
  - split; [intros [s Ho]; by destruct (Hno s)|]. intros _. split; [apply Hf|done].
Qed.

Lemma next_talk_fresh {P : Type} {Q : Type → Type} fresh reports (w w' : worker P Q) G i :
  w_slots w !! i = None → next_talk fresh reports w w' G i = (fresh i, concat (print_get <$> fresh i)).
Proof. intros E. unfold next_talk. destruct (opened_dec w i) as [[s [Es _]]|Hno]; [congruence|done]. Qed.

Definition demo_fresh (i : nat) : list get_request := [demo_get1].
Definition demo_G1 : nat → talk := next_talk demo_fresh demo_two demo_w0 demo_w1 (λ _, ([], [])).
Definition demo_chat : list report := [On 3 (Ev_in [Arrived (print_get demo_get1)] [Accept 10])].
Definition demo_w3 : worker nat zv_pq := default demo_boot (snd <$> demo_turn 100 demo_chat demo_w1).
Abbreviation demo_clients :=
  (clients (Some demo_root) demo_stat demo_open demo_http_realpath demo_time (λ _, None) 0 demo_spawn (λ _ _ _, [])
    demo_clock demo_malloc 0 0 (mk_pq [] 0 0) 5).

Lemma demo_turn3 : demo_turn 100 demo_chat demo_w1 = Some (2000%Z, demo_w3).
Proof. vm_compute. reflexivity. Qed.

Lemma demo_fresh_ok i : Forall request_ok (demo_fresh i).
Proof. constructor; [|constructor]. split; [apply demo_get1_ok|]. apply Nat.ltb_lt. vm_compute. reflexivity. Qed.

Lemma demo_no_slots i : w_slots demo_w0 !! i = None.
Proof.
  assert (w_slots demo_w0 = ∅) as -> by (vm_compute; reflexivity). apply lookup_empty.
Qed.

Lemma demo_clients1 : demo_clients demo_w1 demo_G1.
Proof.
  eapply (Clients_turn _ _ _ _ _ _ _ _ _ _ _ _ _ _ _ demo_w0 (λ _, ([], [])) 100 demo_two (-1)%Z).
  - apply Clients_start. apply demo_started.
  - apply demo_two_ok.
  - apply demo_two_current.
  - intros i s ev [Es _]. rewrite demo_no_slots in Es. discriminate Es.
  - apply demo_turn1.
  - apply next_talk_after, demo_fresh_ok.
Qed.

Lemma demo_chat_ok : reports_ok demo_w1 demo_chat.
Proof.
  destruct (proj1 (fmap_Some _ _ _) demo_slot3) as (s & E & Hs). injection Hs as Ha Ho.
  split; [|constructor; [intros []%elem_of_nil|constructor]]. constructor; [|constructor]. exists s.
  exact (conj E (conj (eq_sym Ho) (eq_sym Ha))).
Qed.

Lemma demo_chat_current : current demo_chat.
Proof. constructor; [exact I|constructor]. Qed.

Lemma demo_chat_delivered : delivers (concat (print_get <$> [demo_get1])) (Ev_in [Arrived (print_get demo_get1)] [Accept 10]).
Proof. split; apply (bool_decide_unpack _); vm_compute; exact I. Qed.

Lemma demo_coherent : coherent demo_w1 demo_chat demo_G1.
Proof.
  intros i s ev _ Hin. unfold events_of, demo_chat in Hin. cbn [omap list_omap event_for] in Hin.
  destruct (decide (3 = i)) as [<-|]; [|by apply elem_of_nil in Hin]. apply list_elem_of_singleton in Hin as ->.
  unfold demo_G1. rewrite next_talk_fresh by apply demo_no_slots. exact demo_chat_delivered.
Qed.

Lemma demo_slot3_opened : ∃ s, opened demo_w1 3 s.
Proof.
  destruct (proj1 (fmap_Some _ _ _) demo_slot3) as (s & E & Hs). injection Hs as _ Ho.
  exists s. exact (conj E (eq_sym Ho)).
Qed.

(** The first client has ten bytes of its answer, while the second is silent. *)
Lemma clients_answered_witness :
  ∃ s s', opened demo_w1 3 s ∧ w_slots demo_w3 !! 3 = Some s' ∧
    told (Some demo_root) demo_stat demo_open demo_http_realpath demo_time (λ _, None) 0 demo_spawn (λ _ _ _, [])
      (keep_alive_timeout_ms (c_req (s_conn s))) (demo_G1 3).1 (wire (c_sock (s_conn s'))).
Proof.
  destruct (clients_answered (Some demo_root) demo_stat demo_open demo_http_realpath demo_time (λ _, None) 0 demo_spawn
    (λ _ _ _, []) demo_clock demo_malloc 0 0 demo_pool_supplies demo_time_short
    demo_sizes demo_mono (λ _, eq_refl) (mk_pq [] 0 0) 5 demo_w1 demo_G1 demo_chat 100 2000 demo_w3
    (next_talk demo_fresh demo_chat demo_w1 demo_w3 demo_G1) demo_pool5_ok demo_clients1 demo_chat_ok demo_chat_current demo_coherent
    demo_turn3 (next_talk_after _ _ _ _ _ demo_fresh_ok)) as [Hold _].
  destruct demo_slot3_opened as [s Ho]. destruct (Hold 3 s Ho) as (s' & Es' & Hpre).
  exists s, s'. exact (conj Ho (conj Es' Hpre)).
Defined.
