(* ===== verification/ThreadPool.v ===== *)
(** * The thread pool (threadpool.c)

    A pool of threads over one lock and one condition variable.  Between two acquisitions
    of the lock a thread does one of the steps below, so that an execution of the threads
    and of their clients is a sequence of such steps in any order; a wait may also end
    without a signal.  A task is any value; running it is recorded. *)
From S2P Require Import Prelude.

Definition immediate_shutdown : Z := 1.
Definition graceful_shutdown : Z := 2.
Definition zv_tp_invalid : Z := -1.
Definition zv_tp_already_shutdown : Z := -3.

(** Where a thread is in [threadpool_worker]: before it takes the lock, in
    [pthread_cond_wait], woken there but without the lock yet, running a task, gone. *)
Inductive thread {T : Type} := At_lock | In_wait | Woken | Running (task : T) | Exited.
Arguments thread T : clear implicits.

(** [tasks] is the chain behind the dummy head.  [held] says that a caller returned without
    giving the lock back; [destroyed] that the lock and the condition have been destroyed;
    [executed] are the tasks that were run, in order. *)
Record pool {T : Type} := mk_pool {
  threads : list (thread T);
  tasks : list T;
  queue_size : Z;
  shutdown : Z;
  started : Z;
  held : bool;
  destroyed : bool;
  executed : list T;
}.
Arguments pool T : clear implicits.
#[export] Instance eta_pool {T} : Eta (pool T) := fun p =>
  mk_pool T (threads p) (tasks p) (queue_size p) (shutdown p) (started p) (held p) (destroyed p) (executed p).

Section threadpool.
Context {T : Type}.
Implicit Types (p : pool T) (t : T) (ts : list (thread T)).

(** ** A thread *)

(** What a thread that has the lock does until it gives it back. *)
Definition locked_section p : pool T * thread T :=
  if (queue_size p =? 0)%Z && (shutdown p =? 0)%Z then (p, In_wait)
  else if (shutdown p =? immediate_shutdown)%Z then (p <| started := (started p - 1)%Z |>, Exited)
  else if (shutdown p =? graceful_shutdown)%Z && (queue_size p =? 0)%Z then
    (p <| started := (started p - 1)%Z |>, Exited)
  else
    match tasks p with
    | [] => (p, At_lock)
    | t :: rest => (p <| tasks := rest |> <| queue_size := (queue_size p - 1)%Z |>, Running t)
    end.

(** The next step of thread [i]; [None] while it cannot go on. *)
Definition thread_step (i : nat) p : option (pool T) :=
  match threads p !! i with
  | Some At_lock | Some Woken =>
      if held p then None
      else let '(p, s) := locked_section p in Some (p <| threads := <[i := s]> (threads p) |>)
  | Some (Running t) =>
      Some (p <| threads := <[i := At_lock]> (threads p) |> <| executed := executed p ++ [t] |>)
  | Some In_wait | Some Exited | None => None
  end.

(** ** The clients *)

Definition wake (s : thread T) : thread T := match s with In_wait => Woken | s => s end.

(** [pthread_cond_signal]: one of the threads that wait, if any, is woken. *)
Definition signal (i : nat) p : pool T := p <| threads := alter wake i (threads p) |>.
Definition broadcast p : pool T := p <| threads := wake <$> threads p |>.

(** [threadpool_add] of a function that is not NULL; [i] is the thread the signal wakes.
    [None]: a lock that was destroyed is taken. *)
Definition threadpool_add (malloc_ok : bool) (i : nat) t p : option (Z * pool T) :=
  if destroyed p then None
  else if negb (shutdown p =? 0)%Z then Some (zv_tp_already_shutdown, p)
  else if negb malloc_ok then Some (0%Z, p)
  else Some (0%Z, signal i (p <| tasks := t :: tasks p |> <| queue_size := (queue_size p + 1)%Z |>)).

(** [threadpool_destroy] up to the joining of the threads: [None] as a return code when
    it goes on to join them, and [None] in all when the lock was destroyed before. *)
Definition threadpool_destroy (graceful : bool) p : option (option Z * pool T) :=
  if destroyed p then None
  else if negb (shutdown p =? 0)%Z then Some (Some zv_tp_already_shutdown, p <| held := true |>)
  else Some (None, broadcast (p <| shutdown := if graceful then graceful_shutdown else immediate_shutdown |>)).

(** The joins return when every thread is gone. *)
Definition destroy_returns p : bool := forallb (λ s, match s with Exited => true | _ => false end) (threads p).

(** [threadpool_free]: the code and the blocks it gives to [free], which are the array of
    threads and the tasks behind the dummy head, but neither the head nor the pool. *)
Inductive block := Threads_array | Task_block (t : T).

Definition threadpool_free p : Z * list block :=
  if (0 <? started p)%Z then ((-1)%Z, []) else (0%Z, Threads_array :: (Task_block <$> tasks p)).

(** The end of [threadpool_destroy], when the joins have returned without an error: the lock
    and the condition are destroyed and the blocks are freed. *)
Definition threadpool_destroy_end p : Z * list block * pool T :=
  let p := p <| destroyed := true |> in (0%Z, (threadpool_free p).2, p).

(** ** Start *)

(** The pool; the pool that is being destroyed because a thread could not be created, for
    which NULL is returned when the joins return; NULL; or a fault. *)
Inductive init_result := Init_ok p | Init_closing p | Init_null | Init_fault.

(** [mem_pool], [mem_threads], [mem_head]: which [malloc]s succeed; [sync_ok]: the lock
    and the condition are created; [created]: how many [pthread_create]s succeed.  The
    label [err] walks the chain of a head that was not allocated or not initialised. *)
Definition threadpool_init (thread_num : Z) (mem_pool mem_threads mem_head sync_ok : bool) (created : nat) : init_result :=
  let started n := mk_pool T (replicate n At_lock) [] 0 0 (Z.of_nat n) false false [] in
  if (thread_num <=? 0)%Z then Init_null
  else if negb mem_pool then Init_null
  else if negb mem_threads || negb mem_head then Init_fault
  else if negb sync_ok then Init_null
  else if created <? Z.to_nat thread_num then
    match threadpool_destroy false (started created) with Some (_, p) => Init_closing p | None => Init_fault end
  else Init_ok (started (Z.to_nat thread_num)).

Definition is_waiting (s : thread T) : bool := match s with In_wait => true | _ => false end.

(** A signal wakes a waiting thread if there is one. *)
Definition signal_target (i : nat) ts : Prop := ts !! i = Some In_wait ∨ existsb is_waiting ts = false.

(** ** Executions *)

(** [added] are the tasks handed over so far. *)
Inductive pool_step : pool T * list T → pool T * list T → Prop :=
  | Step_thread i p p' added :
      thread_step i p = Some p' → pool_step (p, added) (p', added)
  | Step_spurious i p added :
      threads p !! i = Some In_wait → pool_step (p, added) (signal i p, added)
  | Step_add i t p rc p' added :
      held p = false → shutdown p = 0%Z → signal_target i (threads p) → threadpool_add true i t p = Some (rc, p') →
      pool_step (p, added) (p', t :: added)
  | Step_add_fails i t malloc_ok p rc p' added :
      held p = false → shutdown p ≠ 0%Z ∨ malloc_ok = false → threadpool_add malloc_ok i t p = Some (rc, p') →
      pool_step (p, added) (p', added)
  | Step_destroy graceful p rc p' added :
      held p = false → shutdown p = 0%Z → threadpool_destroy graceful p = Some (rc, p') →
      pool_step (p, added) (p', added).

(** ** The invariant *)

Definition running ts : list T := omap (λ s, match s with Running t => Some t | _ => None end) ts.

Definition live (s : thread T) : nat := match s with Exited => 0 | _ => 1 end.

Record pool_ok (n : nat) (added : list T) p : Prop := {
  po_threads : length (threads p) = n;
  po_size : queue_size p = Z.of_nat (length (tasks p));
  po_started : started p = Z.of_nat (sum_list_with live (threads p));
  po_shutdown : shutdown p = 0%Z ∨ shutdown p = immediate_shutdown ∨ shutdown p = graceful_shutdown;
  po_conserved : added ≡ₚ executed p ++ running (threads p) ++ tasks p;
  po_exited : Exited ∈ threads p →
    shutdown p = immediate_shutdown ∨ shutdown p = graceful_shutdown ∧ tasks p = [];
  po_waiting : In_wait ∈ threads p → shutdown p = 0%Z;
  (** no wake-up is lost *)
  po_awake : shutdown p = 0%Z → tasks p ≠ [] → ∃ s, s ∈ threads p ∧ is_waiting s = false;
  po_lock : destroyed p = false;
}.

Lemma insert_middle i s s' ts :
  ts !! i = Some s → ∃ l1 l2, ts = l1 ++ s :: l2 ∧ <[i := s']> ts = l1 ++ s' :: l2.
Proof.
  intros Hi. exists (take i ts), (drop (S i) ts). split.
  - symmetry. by apply take_drop_middle.
  - rewrite insert_take_drop; [done|]. by eapply lookup_lt_Some.
Qed.

Lemma alter_insert i s ts : ts !! i = Some s → alter wake i ts = <[i := wake s]> ts.
Proof.
  revert i. induction ts as [|x ts IH]; intros [|i] Hi; simplify_eq/=; [done|]. f_equal. by apply IH.
Qed.

Lemma elem_of_insert_or i s0 s' ts : s0 ∈ <[i := s']> ts → s0 = s' ∨ s0 ∈ ts.
Proof.
  revert i. induction ts as [|x ts IH]; intros [|i] Hs; simpl in Hs; try apply elem_of_cons in Hs as [->|Hs];
    rewrite ?elem_of_cons; auto. destruct (IH i Hs); auto.
Qed.

Lemma elem_of_insert_new i s s' ts : ts !! i = Some s → s' ∈ <[i := s']> ts.
Proof. intros Hi. destruct (insert_middle i s s' ts Hi) as (l1 & l2 & _ & ->). set_solver. Qed.

Lemma running_app l1 l2 : running (l1 ++ l2) = running l1 ++ running l2.
Proof. apply omap_app. Qed.

Lemma running_cons s ts : running (s :: ts) = running [s] ++ running ts.
Proof. apply (running_app [s]). Qed.

(** The tasks in hand after a thread moved. *)
Lemma running_move i s s' ts :
  ts !! i = Some s → running [s] ++ running (<[i := s']> ts) ≡ₚ running [s'] ++ running ts.
Proof.
  intros Hi. destruct (insert_middle i s s' ts Hi) as (l1 & l2 & -> & ->).
  rewrite (cons_middle s), (cons_middle s'), !running_app.
  rewrite !(Permutation_app_comm (running l1)), !(assoc_L (++)), (Permutation_app_comm (running [s])).
  by rewrite <-!(assoc_L (++)).
Qed.

Lemma live_move i s s' ts :
  ts !! i = Some s → sum_list_with live (<[i := s']> ts) + live s = sum_list_with live ts + live s'.
Proof.
  intros Hi. destruct (insert_middle i s s' ts Hi) as (l1 & l2 & -> & ->).
  rewrite !sum_list_with_app. simpl. lia.
Qed.

(** A thread that moves without touching the shared state, into a wait only if there is
    nothing to do. *)
Lemma move_ok n added i s s' p :
  pool_ok n added p → threads p !! i = Some s → running [s] = running [s'] → live s = live s' →
  s' ≠ Exited → (s' = In_wait → shutdown p = 0%Z ∧ tasks p = []) →
  pool_ok n added (p <| threads := <[i := s']> (threads p) |>).
Proof.
  intros [Hn Hsz Hst Hsd Hc He Hw Ha Hlk] Hi Hr Hl Hex Hwait. split; simpl; try done.
  - by rewrite length_insert.
  - pose proof (live_move i s s' (threads p) Hi). rewrite Hst. f_equal. lia.
  - rewrite Hc. pose proof (running_move i s s' (threads p) Hi) as Hm. rewrite Hr in Hm.
    apply Permutation_app_inv_l in Hm. by rewrite Hm.
  - intros [E|?]%elem_of_insert_or; [by destruct Hex|auto].
  - intros [E|?]%elem_of_insert_or; [by apply Hwait|auto].
  - intros E Ht. exists s'. split; [by eapply elem_of_insert_new|]. destruct s'; try done. by destruct Hwait.
Qed.

Lemma exit_ok n added i s p :
  pool_ok n added p → threads p !! i = Some s → s = At_lock ∨ s = Woken →
  shutdown p = immediate_shutdown ∨ shutdown p = graceful_shutdown ∧ tasks p = [] →
  pool_ok n added (p <| started := (started p - 1)%Z |> <| threads := <[i := Exited]> (threads p) |>).
Proof.
  intros [Hn Hsz Hst Hsd Hc He Hw Ha Hlk] Hi Hs Hdown.
  assert (running [s] = [] ∧ live s = 1) as [Hr Hl] by (by destruct Hs as [-> | ->]).
  assert (shutdown p ≠ 0%Z) as Hne by (destruct Hdown as [->|[-> _]]; done).
  split; simpl; try done.
  - by rewrite length_insert.
  - pose proof (live_move i s Exited (threads p) Hi) as Hm. rewrite Hl in Hm. simpl in Hm. rewrite Hst. lia.
  - rewrite Hc. pose proof (running_move i s Exited (threads p) Hi) as Hm. rewrite Hr in Hm. simpl in Hm.
    by rewrite Hm.
  - intros [E|?]%elem_of_insert_or; [done|auto].
Qed.

Lemma take_ok n added i s p t rest :
  pool_ok n added p → threads p !! i = Some s → s = At_lock ∨ s = Woken → tasks p = t :: rest →
  shutdown p ≠ immediate_shutdown →
  pool_ok n added (p <| tasks := rest |> <| queue_size := (queue_size p - 1)%Z |>
                     <| threads := <[i := Running t]> (threads p) |>).
Proof.
  intros [Hn Hsz Hst Hsd Hc He Hw Ha Hlk] Hi Hs Et Him.
  assert (running [s] = [] ∧ live s = 1) as [Hr Hl] by (by destruct Hs as [-> | ->]).
  rewrite Et in *. split; simpl; try done.
  - by rewrite length_insert.
  - rewrite Hsz. simpl. lia.
  - pose proof (live_move i s (Running t) (threads p) Hi) as Hm. rewrite Hl in Hm. simpl in Hm. rewrite Hst. f_equal. lia.
  - rewrite Hc. pose proof (running_move i s (Running t) (threads p) Hi) as Hm. rewrite Hr in Hm. simpl in Hm.
    rewrite Hm. simpl. by rewrite Permutation_middle.
  - intros [E|Hx]%elem_of_insert_or; [done|]. by destruct (He Hx) as [?|[_ ?]].
  - intros [E|?]%elem_of_insert_or; [done|auto].
  - intros E _. exists (Running t). split; [by eapply elem_of_insert_new|done].
Qed.

Lemma finish_ok n added i p t :
  pool_ok n added p → threads p !! i = Some (Running t) →
  pool_ok n added (p <| threads := <[i := At_lock]> (threads p) |> <| executed := executed p ++ [t] |>).
Proof.
  intros [Hn Hsz Hst Hsd Hc He Hw Ha Hlk] Hi. split; simpl; try done.
  - by rewrite length_insert.
  - pose proof (live_move i (Running t) At_lock (threads p) Hi) as Hm. simpl in Hm. rewrite Hst. f_equal. lia.
  - rewrite Hc. pose proof (running_move i (Running t) At_lock (threads p) Hi) as Hm. simpl in Hm.
    rewrite <-Hm, <-(assoc_L (++)). done.
  - intros [E|?]%elem_of_insert_or; [done|auto].
  - intros [E|?]%elem_of_insert_or; [done|auto].
  - intros E Ht. exists At_lock. split; [by eapply elem_of_insert_new|done].
Qed.

Lemma thread_step_ok n added i p p' : pool_ok n added p → thread_step i p = Some p' → pool_ok n added p'.
Proof.
  intros Hok. unfold thread_step.
  assert (∀ s, threads p !! i = Some s → (s = At_lock ∨ s = Woken) →
    (if held p then None
     else let '(p, s) := locked_section p in Some (p <| threads := <[i := s]> (threads p) |>)) = Some p' →
    pool_ok n added p') as Hlock.
  { intros s Hi Hs. destruct (held p); [done|]. unfold locked_section.
    pose proof (po_size _ _ _ Hok) as Hsz. pose proof (po_shutdown _ _ _ Hok) as Hsd.
    assert (queue_size p = 0%Z → tasks p = []) as Hnil.
    { rewrite Hsz. destruct (tasks p); simpl; [done|lia]. }
    assert (running [s] = [] ∧ live s = 1) as [Hr Hl] by (by destruct Hs as [-> | ->]).
    destruct (Z.eqb_spec (queue_size p) 0) as [Eq|Eq], (Z.eqb_spec (shutdown p) 0) as [Es|Es]; cbn [andb];
      rewrite ?andb_true_r, ?andb_false_r.
    - intros [= <-]. eapply move_ok; eauto.
    - destruct (Z.eqb_spec (shutdown p) immediate_shutdown) as [Ei|Ei].
      { intros [= <-]. exact (exit_ok n added i s p Hok Hi Hs (or_introl Ei)). }
      destruct (Z.eqb_spec (shutdown p) graceful_shutdown) as [Eg|Eg]; [|naive_solver].
      intros [= <-]. exact (exit_ok n added i s p Hok Hi Hs (or_intror (conj Eg (Hnil Eq)))).
    - destruct (Z.eqb_spec (shutdown p) immediate_shutdown) as [Ei|Ei]; [by rewrite Es in Ei|].
      destruct (tasks p) as [|t rest] eqn:Et; [by rewrite Hsz in Eq|].
      intros [= <-]. exact (take_ok n added i s p t rest Hok Hi Hs Et Ei).
    - destruct (Z.eqb_spec (shutdown p) immediate_shutdown) as [Ei|Ei].
      { intros [= <-]. exact (exit_ok n added i s p Hok Hi Hs (or_introl Ei)). }
      destruct (tasks p) as [|t rest] eqn:Et; [by rewrite Hsz in Eq|].
      intros [= <-]. exact (take_ok n added i s p t rest Hok Hi Hs Et Ei). }
  destruct (threads p !! i) as [[| | |t|]|] eqn:Hi; try done; [eapply Hlock; eauto..|].
  intros; simplify_eq. by apply finish_ok.
Qed.

Lemma wake_id s : is_waiting s = false → wake s = s.
Proof. by destruct s. Qed.

Lemma none_waiting ts s : existsb is_waiting ts = false → s ∈ ts → is_waiting s = false.
Proof.
  intros He Hs. destruct (is_waiting s) eqn:E; [|done]. rewrite <-He. symmetry. apply existsb_exists.
  exists s. split; [by apply list_elem_of_In|done].
Qed.

Lemma alter_none i ts : existsb is_waiting ts = false → alter wake i ts = ts.
Proof.
  intros He. destruct (ts !! i) as [s|] eqn:Hi.
  - rewrite (alter_insert i s ts Hi), wake_id; [by apply list_insert_id|].
    apply (none_waiting ts); [done|by eapply list_elem_of_lookup_2].
  - apply list_eq. intros j. destruct (decide (i = j)) as [->|].
    + by rewrite list_lookup_alter_eq, Hi.
    + by rewrite list_lookup_alter_ne.
Qed.

Lemma signal_ok n added i p :
  pool_ok n added p → signal_target i (threads p) ∨ threads p !! i = Some In_wait → pool_ok n added (signal i p).
Proof.
  intros Hok Hs. unfold signal.
  assert (threads p !! i = Some In_wait ∨ existsb is_waiting (threads p) = false) as [Hi|He] by (destruct Hs; auto).
  - rewrite (alter_insert i In_wait) by done. by eapply move_ok.
  - rewrite alter_none by done. by destruct p.
Qed.

Lemma add_ok n added i t p :
  0 < n → pool_ok n added p → shutdown p = 0%Z → signal_target i (threads p) →
  ∃ p', threadpool_add true i t p = Some (0%Z, p') ∧ pool_ok n (t :: added) p'.
Proof.
  intros Hpos [Hn Hsz Hst Hsd Hc He Hw Ha Hlk] E Htgt. unfold threadpool_add. rewrite Hlk, E. cbn [Z.eqb negb].
  eexists. split; [reflexivity|].
  assert (∃ s, s ∈ alter wake i (threads p) ∧ is_waiting s = false) as Hawake.
  { destruct Htgt as [Hi|Hno].
    - exists Woken. rewrite (alter_insert i In_wait) by done. split; [by eapply elem_of_insert_new|done].
    - rewrite alter_none by done. destruct (threads p) as [|s ts]; [simpl in Hn; lia|].
      exists s. split; [by left|]. eapply none_waiting; [done|by left]. }
  assert (length (alter wake i (threads p)) = length (threads p) ∧
    sum_list_with live (alter wake i (threads p)) = sum_list_with live (threads p) ∧
    running (alter wake i (threads p)) ≡ₚ running (threads p) ∧
    ∀ s, s ∈ alter wake i (threads p) → s = Woken ∨ s ∈ threads p) as (El & Ev & Er & Em).
  { destruct Htgt as [Hi|Hno]; [|rewrite alter_none by done; auto].
    rewrite (alter_insert i In_wait) by done. split_and!.
    - by rewrite length_insert.
    - pose proof (live_move i In_wait Woken (threads p) Hi) as Hm. simpl in *. lia.
    - apply (running_move i In_wait Woken (threads p) Hi).
    - intros s. apply elem_of_insert_or. }
  split; simpl; rewrite ?El, ?Ev; try done.
  - rewrite Hsz. lia.
  - rewrite Er, Hc, !Permutation_middle. done.
  - intros [?|Hx]%Em; [done|]. destruct (He Hx) as [Hd|[Hd _]]; by rewrite E in Hd.
Qed.

Lemma broadcast_ok n added mode p :
  pool_ok n added p → shutdown p = 0%Z → mode = immediate_shutdown ∨ mode = graceful_shutdown →
  pool_ok n added (broadcast (p <| shutdown := mode |>)).
Proof.
  intros [Hn Hsz Hst Hsd Hc He Hw Ha Hlk] E Hm.
  assert (∀ ts, running (wake <$> ts) = running ts ∧ sum_list_with live (wake <$> ts) = sum_list_with live ts) as Hwake.
  { induction ts as [|s ts [IH1 IH2]]; [done|]. rewrite fmap_cons, running_cons, (running_cons s), IH1.
    simpl. rewrite IH2. by destruct s. }
  destruct (Hwake (threads p)) as [Er Ev]. split; simpl; rewrite ?Er, ?Ev; try done.
  - by rewrite length_fmap.
  - destruct Hm as [-> | ->]; auto.
  - intros Hx. apply list_elem_of_fmap in Hx as (s & Es & Hs). destruct s; try done.
    destruct (He Hs) as [Hd|[Hd _]]; by rewrite E in Hd.
  - intros Hx. apply list_elem_of_fmap in Hx as (s & Es & Hs). by destruct s.
  - intros Hd. by destruct Hm as [-> | ->].
Qed.

Lemma pool_step_ok n s s' : 0 < n → pool_ok n s.2 s.1 → pool_step s s' → pool_ok n s'.2 s'.1.
Proof.
  intros Hpos Hok Hstep.
  destruct Hstep as [i p p' added E|i p added Hi|i t p rc p' added Hh Hs Ht E|i t m p rc p' added Hh Hs E|g p rc p' added Hh Hs E]; simpl in *.
  - by eapply thread_step_ok.
  - apply signal_ok; auto.
  - destruct (add_ok n added i t p Hpos Hok Hs Ht) as (p2 & E2 & Hok2). rewrite E2 in E. by injection E as _ <-.
  - revert E. unfold threadpool_add. rewrite (po_lock _ _ _ Hok). destruct (Z.eqb_spec (shutdown p) 0) as [E|]; cbn [negb].
    + destruct Hs as [?| ->]; [done|]. by intros [= _ <-].
    + by intros [= _ <-].
  - revert E. unfold threadpool_destroy. rewrite (po_lock _ _ _ Hok), Hs. cbn [Z.eqb negb]. intros [= _ <-].
    apply broadcast_ok; [done|done|]. destruct g; auto.
Qed.

Definition fresh_pool (n : nat) : pool T := mk_pool T (replicate n At_lock) [] 0 0 (Z.of_nat n) false false [].

Lemma fresh_pool_ok n : pool_ok n [] (fresh_pool n).
Proof.
  assert (sum_list_with (@live) (replicate n At_lock) = n ∧ running (replicate n At_lock) = []) as [El Er].
  { induction n as [|n [IH1 IH2]]; [done|]. simpl. by rewrite IH1. }
  split; simpl; rewrite ?El, ?Er; try done.
  - apply length_replicate.
  - auto.
  - by intros [? _]%elem_of_replicate.
Qed.

Lemma reachable_ok n p added : 0 < n → star pool_step (fresh_pool n, []) (p, added) → pool_ok n added p.
Proof.
  intros Hn Hs. apply (star_invariant _ (λ s, pool_ok n s.2 s.1) _ _ (λ s1 s2, pool_step_ok n s1 s2 Hn) Hs).
  apply fresh_pool_ok.
Qed.

(** ** Shutting down *)

(** An upper bound for the steps left after a shutdown. *)
Definition thread_weight (s : thread T) : nat := match s with Running _ => 2 | Exited => 0 | _ => 1 end.
Definition weight p : nat := 3 * length (tasks p) + sum_list_with thread_weight (threads p).

Lemma weight_move i s s' ts :
  ts !! i = Some s →
  sum_list_with thread_weight (<[i := s']> ts) + thread_weight s = sum_list_with thread_weight ts + thread_weight s'.
Proof.
  intros Hi. destruct (insert_middle i s s' ts Hi) as (l1 & l2 & -> & ->).
  rewrite !sum_list_with_app. simpl. lia.
Qed.

Lemma shutdown_step n added i p p' :
  pool_ok n added p → shutdown p ≠ 0%Z → thread_step i p = Some p' →
  weight p' < weight p ∧ shutdown p' = shutdown p ∧ held p' = held p.
Proof.
  intros Hok Hsd. unfold thread_step. pose proof (po_size _ _ _ Hok) as Hsz.
  assert (∀ s, threads p !! i = Some s → thread_weight s = 1 →
    (if held p then None
     else let '(p, s) := locked_section p in Some (p <| threads := <[i := s]> (threads p) |>)) = Some p' →
    weight p' < weight p ∧ shutdown p' = shutdown p ∧ held p' = held p) as Hlock.
  { intros s Hi Hs. destruct (held p) eqn:Eh; [done|]. unfold locked_section, weight.
    rewrite (proj2 (Z.eqb_neq (shutdown p) 0)), andb_false_r by done.
    pose proof (λ s', weight_move i s s' (threads p) Hi) as Hm. rewrite Hs in Hm.
    assert (∀ q, q = p <| started := (started p - 1)%Z |> <| threads := <[i := Exited]> (threads p) |> →
      weight q < weight p ∧ shutdown q = shutdown p ∧ held q = false) as Hexit.
    { intros q ->. unfold weight. simpl. specialize (Hm Exited). simpl in Hm. split; [lia|by split]. }
    destruct (Z.eqb_spec (shutdown p) immediate_shutdown) as [|Hni]; [intros [= <-]; by apply Hexit|].
    destruct (_ && _) eqn:Eb; [intros [= <-]; by apply Hexit|].
    destruct (tasks p) as [|t rest] eqn:Et.
    - exfalso. rewrite Hsz in Eb. simpl in Eb. rewrite andb_true_r in Eb. apply Z.eqb_neq in Eb.
      by destruct (po_shutdown _ _ _ Hok) as [?|[?|?]].
    - intros [= <-]. simpl. specialize (Hm (Running t)). simpl in Hm. split; [lia|by split]. }
  destruct (threads p !! i) as [[| | |t|]|] eqn:Hi; try done; [eapply Hlock; eauto..|].
  intros [= <-]. unfold weight. simpl. pose proof (weight_move i (Running t) At_lock (threads p) Hi) as Hm.
  simpl in Hm. split; [lia|done].
Qed.

(** The threads run as the scheduler picks them. *)
Fixpoint run_threads (schedule : list nat) p : option (pool T) :=
  match schedule with
  | [] => Some p
  | i :: schedule' => p ← thread_step i p; run_threads schedule' p
  end.

Lemma run_threads_spec schedule n added p p' :
  pool_ok n added p → shutdown p ≠ 0%Z → run_threads schedule p = Some p' →
  pool_ok n added p' ∧ shutdown p' = shutdown p ∧ held p' = held p ∧ length schedule + weight p' ≤ weight p.
Proof.
  revert p. induction schedule as [|i schedule IH]; intros p Hok Hsd Hr; simplify_eq/=; [done|].
  apply bind_Some in Hr as (p1 & E & Hr). destruct (shutdown_step n added i p p1 Hok Hsd E) as (Hlt & Es & Eh).
  destruct (IH p1) as (Hok' & Es' & Eh' & Hle); [by eapply thread_step_ok|congruence|done|].
  split_and!; [done|congruence|congruence|lia].
Qed.

(** When no thread can go on after a shutdown, every thread is gone. *)
Lemma stopped_pool n added p :
  pool_ok n added p → shutdown p ≠ 0%Z → held p = false → (∀ i, thread_step i p = None) →
  Forall (λ s, s = Exited) (threads p).
Proof.
  intros Hok Hsd Hh Hstop. apply Forall_forall. intros s Hs.
  apply list_elem_of_lookup_1 in Hs as Hi. destruct Hi as [i Hi]. specialize (Hstop i).
  unfold thread_step in Hstop. rewrite Hi, Hh in Hstop.
  destruct s as [| | |t|]; try done; [by destruct (locked_section p)| |by destruct (locked_section p)].
  by destruct (po_waiting _ _ _ Hok Hs).
Qed.

Lemma all_exited ts :
  Forall (λ s, s = Exited) ts →
  running ts = [] ∧ sum_list_with live ts = 0 ∧
  forallb (λ s, match s with Exited => true | _ => false end) ts = true.
Proof. induction 1 as [|s ts -> _ (IH1 & IH2 & IH3)]; [done|]. by rewrite running_cons, IH1. Qed.

(** ** Properties *)

(** C29. The pool loses no task and runs none twice: at any moment of any execution, the tasks
    handed over are exactly those executed, those being run and those queued; the
    counters are exact; and while the pool is not shut down, tasks are never queued with
    every thread asleep. *)
Theorem pool_conserves n p added :
  0 < n → star pool_step (fresh_pool n, []) (p, added) →
  added ≡ₚ executed p ++ running (threads p) ++ tasks p ∧
  queue_size p = Z.of_nat (length (tasks p)) ∧
  started p = Z.of_nat (sum_list_with live (threads p)) ∧
  (shutdown p = 0%Z → tasks p ≠ [] → ∃ i s, threads p !! i = Some s ∧ s ≠ In_wait ∧ s ≠ Exited).
Proof.
  intros Hn Hs. pose proof (reachable_ok n p added Hn Hs) as Hok. pose proof Hok as [? ? ? ? ? He ? Ha _].
  split_and!; try done. intros E Ht. destruct (Ha E Ht) as (s & Hin & Hw).
  apply list_elem_of_lookup_1 in Hin as Hi. destruct Hi as [i Hi]. exists i, s. split; [done|].
  split; intros ->; [done|]. destruct (He Hin) as [Hd|[Hd _]]; by rewrite E in Hd.
Qed.

(** What [threadpool_init] leaves. *)
Lemma init_pool_ok thread_num mem_pool mem_threads mem_head sync_ok created :
  match threadpool_init thread_num mem_pool mem_threads mem_head sync_ok created with
  | Init_ok p => p = fresh_pool (Z.to_nat thread_num) ∧ (0 < thread_num)%Z
  | Init_closing p => pool_ok created [] p ∧ shutdown p = immediate_shutdown ∧ held p = false
  | Init_null => True
  | Init_fault => mem_threads = false ∨ mem_head = false
  end.
Proof.
  unfold threadpool_init. destruct (Z.leb_spec thread_num 0); [done|]. destruct mem_pool; [|done].
  destruct mem_threads; [|by left]. destruct mem_head; [|by right]. destruct sync_ok; [|done]. simpl.
  destruct (Nat.ltb_spec created (Z.to_nat thread_num)).
  - split; [|by split]. apply (broadcast_ok created [] immediate_shutdown (fresh_pool created));
      [apply fresh_pool_ok|done|by left].
  - split; [|done]. unfold fresh_pool. done.
Qed.

(** From a pool that is shutting down. *)
Lemma shutdown_finishes n added p schedule p' :
  pool_ok n added p → shutdown p ≠ 0%Z → held p = false → run_threads schedule p = Some p' →
  length schedule ≤ weight p ∧
  ((∀ i, thread_step i p' = None) →
   destroy_returns p' = true ∧
   threadpool_destroy_end p' = (0%Z, Threads_array :: (Task_block <$> tasks p'), p' <| destroyed := true |>) ∧
   added ≡ₚ executed p' ++ tasks p' ∧ (0 < n → shutdown p = graceful_shutdown → tasks p' = [])).
Proof.
  intros Hok Hsd Hh Hr. destruct (run_threads_spec schedule n added p p' Hok Hsd Hr) as (Hok' & Hsd' & Hh' & Hle).
  split; [lia|]. intros Hstop.
  assert (Forall (λ s, s = Exited) (threads p')) as Hex.
  { eapply stopped_pool; [done|by rewrite Hsd'|by rewrite Hh'|done]. }
  destruct (all_exited _ Hex) as (Er & El & Ef). pose proof Hok' as [Hlen ? Hst ? Hc He _ _ _].
  split; [done|]. split; [unfold threadpool_destroy_end, threadpool_free; simpl; by rewrite Hst, El|]. split; [by rewrite Hc, Er|].
  intros Hn Hg. destruct He as [Hd|[_ ?]]; [|rewrite Hsd', Hg in Hd; done|done].
  destruct (threads p') as [|s ts]; [simpl in Hlen; lia|]. inversion Hex; subst. by left.
Qed.

(** C30. A shutdown finishes, and the work is accounted for: from any point of an execution,
    whatever the scheduler does after [threadpool_destroy] has set the flag, the threads
    take only finitely many steps, and when none can go on all have left, so that the
    joins return, the lock and the condition are destroyed, and the memory of the tasks
    left is freed; every task ever handed over
    has then been executed exactly once or freed, and none is left after a graceful
    shutdown.  It is the same when [threadpool_init] destroys the pool it could not
    complete. *)
Theorem shutdown_completes n p added graceful schedule p' :
  0 < n → star pool_step (fresh_pool n, []) (p, added) → shutdown p = 0%Z → held p = false →
  (∃ p1, threadpool_destroy graceful p = Some (None, p1) ∧
   (run_threads schedule p1 = Some p' →
    length schedule ≤ weight p1 ∧
    ((∀ i, thread_step i p' = None) →
     destroy_returns p' = true ∧
     threadpool_destroy_end p' = (0%Z, Threads_array :: (Task_block <$> tasks p'), p' <| destroyed := true |>) ∧
     added ≡ₚ executed p' ++ tasks p' ∧ (graceful = true → tasks p' = [])))) ∧
  (∀ thread_num mem_pool mem_threads mem_head sync_ok created p1,
   threadpool_init thread_num mem_pool mem_threads mem_head sync_ok created = Init_closing p1 →
   run_threads schedule p1 = Some p' →
   length schedule ≤ weight p1 ∧ ((∀ i, thread_step i p' = None) → destroy_returns p' = true)).
Proof.
  intros Hn Hs Hsd Hh. split.
  - pose proof (reachable_ok n p added Hn Hs) as Hok.
    assert (∃ p1, threadpool_destroy graceful p = Some (None, p1) ∧ pool_ok n added p1 ∧ shutdown p1 ≠ 0%Z ∧
      (graceful = true → shutdown p1 = graceful_shutdown) ∧ held p1 = false) as (p1 & E & Hok1 & Hsd1 & Hg & Hh1).
    { unfold threadpool_destroy. rewrite (po_lock _ _ _ Hok), Hsd. cbn [Z.eqb negb]. eexists. split; [reflexivity|].
      split; [|by destruct graceful]. apply broadcast_ok; [done..|]. destruct graceful; auto. }
    exists p1. split; [done|]. intros Hr. destruct (shutdown_finishes n added p1 schedule p' Hok1 Hsd1 Hh1 Hr) as [Hle Hend]. split; [done|].
    intros Hstop. destruct (Hend Hstop) as (Hd & Hf & Hc & Ht). split_and!; try done. intros Eg. by apply Ht, Hg.
  - intros thread_num mp mt mh so created p1 E Hr. pose proof (init_pool_ok thread_num mp mt mh so created) as Hi.
    rewrite E in Hi. destruct Hi as (Hok1 & Hsd1 & Hh1).
    destruct (shutdown_finishes created [] p1 schedule p' Hok1) as [Hle Hend]; [by rewrite Hsd1|done..|].
    split; [done|]. intros Hstop. apply (Hend Hstop).
Qed.

(** With the lock held for good a thread only ends its task. *)
Lemma held_step i p p' :
  held p = true → thread_step i p = Some p' → held p' = true ∧ (destroy_returns p = false → destroy_returns p' = false).
Proof.
  intros Hh. unfold thread_step. rewrite Hh. destruct (threads p !! i) as [[| | |t|]|] eqn:Hi; try done.
  intros [= <-]. split; [done|]. intros _. unfold destroy_returns. simpl.
  destruct (insert_middle i (Running t) At_lock (threads p) Hi) as (l1 & l2 & _ & ->).
  rewrite forallb_app. simpl. by rewrite andb_false_r.
Qed.

(** A second [threadpool_destroy] while the first one waits for its threads returns an error
    and keeps the lock: no thread takes the lock again, whatever it was doing, and the
    first call never returns.  (After the first one has returned the lock is destroyed, and
    a second call is a fault.) *)
Theorem second_destroy_hangs graceful p :
  held p = false → destroyed p = false → shutdown p ≠ 0%Z → destroy_returns p = false →
  ∃ p1, threadpool_destroy graceful p = Some (Some zv_tp_already_shutdown, p1) ∧
    ∀ schedule p2, run_threads schedule p1 = Some p2 →
      destroy_returns p2 = false ∧
      ∀ i, threads p2 !! i = Some At_lock ∨ threads p2 !! i = Some Woken → thread_step i p2 = None.
Proof.
  intros _ Hlk Hsd Hd. unfold threadpool_destroy. rewrite Hlk, (proj2 (Z.eqb_neq _ _) Hsd). cbn [negb].
  eexists. split; [reflexivity|]. set (p1 := p <| held := true |>). intros schedule p2.
  assert (held p1 = true ∧ destroy_returns p1 = false) as [Hh1 Hd1] by done. clearbody p1.
  revert p1 Hh1 Hd1. induction schedule as [|j schedule IH]; intros p1 Hh1 Hd1; cbn [run_threads].
  - intros [= <-]. split; [done|]. intros i Hi. unfold thread_step. by destruct Hi as [-> | ->]; rewrite Hh1.
  - destruct (thread_step j p1) as [p3|] eqn:E; [|done]. destruct (held_step j p1 p3 Hh1 E) as [Hh3 Hd3]. by apply IH; auto.
Qed.
End threadpool.

(** ** Concrete executions: two threads, two tasks *)

Definition demo_pool0 : pool nat := fresh_pool 2.
Definition demo_pool1 : pool nat := default demo_pool0 (run_threads [0; 1] demo_pool0).
Definition demo_pool2 : pool nat := default demo_pool1 (snd <$> threadpool_add true 0 7 demo_pool1).
Definition demo_pool3 : pool nat := default demo_pool2 (snd <$> threadpool_add true 1 8 demo_pool2).
Definition demo_pool4 : pool nat := default demo_pool3 (thread_step 0 demo_pool3).

(** Both threads wait, two tasks are added, the first thread takes the last one. *)
Lemma demo_pool_reachable : star pool_step (demo_pool0, []) (demo_pool4, [8; 7]).
Proof.
  eapply star_step; [eapply star_step; [eapply star_step; [eapply star_step; [apply star_one|]|]|]|].
  - apply (Step_thread 0 demo_pool0 (default demo_pool0 (thread_step 0 demo_pool0))). reflexivity.
  - apply (Step_thread 1 _ demo_pool1). reflexivity.
  - apply (Step_add 0 7 demo_pool1 0 demo_pool2); [reflexivity..| |reflexivity]. left. reflexivity.
  - apply (Step_add 1 8 demo_pool2 0 demo_pool3); [reflexivity..| |reflexivity]. left. reflexivity.
  - apply (Step_thread 0 demo_pool3 demo_pool4). reflexivity.
Qed.

Lemma pool_conserves_witness :
  [8; 7] ≡ₚ executed demo_pool4 ++ running (threads demo_pool4) ++ tasks demo_pool4 ∧
  executed demo_pool4 = [] ∧ running (threads demo_pool4) = [8] ∧ tasks demo_pool4 = [7].
Proof.
  split; [|by split_and!].
  exact (proj1 (pool_conserves 2 demo_pool4 [8; 7] ltac:(lia) demo_pool_reachable)).
Defined.

(** The second thread takes the other task; both finish and leave. *)
Definition demo_schedule : list nat := [1; 0; 1; 0; 1].

Definition demo_closing : pool nat := default demo_pool4 (snd <$> threadpool_destroy true demo_pool4).
Definition demo_pool5 : pool nat := default demo_pool4 (run_threads demo_schedule demo_closing).

Lemma demo_closed : threadpool_destroy true demo_pool4 = Some (None, demo_closing).
Proof. vm_compute. reflexivity. Qed.

Lemma demo_ran : run_threads demo_schedule demo_closing = Some demo_pool5.
Proof. vm_compute. reflexivity. Qed.

Lemma shutdown_completes_witness :
  destroy_returns demo_pool5 = true ∧
  threadpool_destroy_end demo_pool5 = (0%Z, [Threads_array], demo_pool5 <| destroyed := true |>) ∧
  [8; 7] ≡ₚ executed demo_pool5.
Proof.
  destruct (shutdown_completes 2 demo_pool4 [8; 7] true demo_schedule demo_pool5 ltac:(lia)
    demo_pool_reachable eq_refl eq_refl) as [(p1 & E & Hend) _].
  rewrite demo_closed in E. injection E as <-. destruct (Hend demo_ran) as [_ Hstop].
  destruct Hstop as (Hd & Hf & Hp & _); [|by split_and!].
  intros [|[|i]]; reflexivity.
Defined.

(** The pool is destroyed, and then destroyed again. *)
Example destroyed_twice_faults :
  threadpool_destroy true (threadpool_destroy_end demo_pool5).2 = None.
Proof. reflexivity. Qed.

(** It is destroyed again before the first call has returned. *)
Lemma second_destroy_hangs_witness :
  ∃ p1, threadpool_destroy true demo_closing = Some (Some zv_tp_already_shutdown, p1) ∧
    ∀ schedule p2, run_threads schedule p1 = Some p2 → destroy_returns p2 = false.
Proof.
  destruct (second_destroy_hangs true demo_closing) as (p1 & E & Hp1); [reflexivity|reflexivity|discriminate|reflexivity|].
  exists p1. split; [exact E|]. intros schedule p2 Hr. exact (proj1 (Hp1 schedule p2 Hr)).
Defined.
