(* ===== verification/Conf.v ===== *)
(** * The configuration file (util.c: read_conf)

    The lines are read one behind the other into one buffer, blanks at their ends are
    overwritten with NUL, and [root] is left as a pointer into the buffer: an offset
    here.  [fgets] and [atoi] are those of glibc. *)
From S2P Require Import Prelude CString.

Definition ZV_CONF_OK : Z := 0.
Definition ZV_CONF_ERROR : Z := 100.
Definition BUFLEN : nat := Z.to_nat 8192.

(** [zv_conf_t], for a representation [R] of [root]. *)
Record conf {R : Type} := mk_conf {
  root : option R;
  port : Z;
  thread_num : Z;
  workers : Z;
  cpu_affinity : Z;
  conf_keep_alive_timeout_ms : Z;
  conf_request_timeout_ms : Z;
}.
Arguments conf R : clear implicits.
#[export] Instance eta_conf {R} : Eta (conf R) := fun c =>
  mk_conf R (root c) (port c) (thread_num c) (workers c) (cpu_affinity c)
    (conf_keep_alive_timeout_ms c) (conf_request_timeout_ms c).

Definition default_conf {R} : conf R := mk_conf R None 3000 4 1 0 5000 5000.

(** ** Reading lines *)

(** The text up to the NUL. *)
Fixpoint cstr (s : list Z) : list Z :=
  match s with
  | c :: s' => if (c =? 0)%Z then [] else c :: cstr s'
  | [] => []
  end.

(** At most [n] characters, up to and including a newline. *)
Fixpoint first_line (n : nat) (s : list Z) : list Z * list Z :=
  match n, s with
  | S n', c :: s' =>
      if (c =? LF)%Z then ([c], s')
      else let '(line, rest) := first_line n' s' in (c :: line, rest)
  | _, _ => ([], s)
  end.

(** [fgets(buf, n, fp)], of which [s] is left: the line and the rest.  With room for the
    NUL only it succeeds without reading. *)
Definition fgets (n : nat) (s : list Z) : option (list Z * list Z) :=
  if n =? 0 then None
  else if n =? 1 then Some ([], s)
  else match s with [] => None | _ => Some (first_line (n - 1) s) end.

Definition put (buf : list Z) (pos : nat) (bs : list Z) : list Z :=
  take pos buf ++ bs ++ drop (pos + length bs) buf.

(** ** One line *)

Definition strip_newline (s : list Z) : list Z :=
  match last s with
  | Some c => if (c =? LF)%Z then take (length s - 1) s else s
  | None => s
  end.

Definition blank (c : Z) : bool := ((c =? " "%ch) || (c =? 9))%Z.

Fixpoint skip (f : Z → bool) (s : list Z) : list Z :=
  match s with
  | c :: s' => if f c then skip f s' else s
  | [] => []
  end.

(** CR, spaces and tabs at the end. *)
Definition strip_blanks (s : list Z) : list Z := reverse (skip (λ c, (c =? CR)%Z || blank c) (reverse s)).

Fixpoint index_of (c : Z) (s : list Z) : option nat :=
  match s with
  | x :: s' => if (x =? c)%Z then Some 0 else S <$> index_of c s'
  | [] => None
  end.

(** The tests on the line [cur], with its value as a string and as what [root] keeps. *)
Definition set_keys {R} (cur val : list Z) (val_root : R) (cf : conf R) : conf R :=
  let cf := if strncmp_eq 4 (str "root") cur then cf <| root := Some val_root |> else cf in
  let cf := if strncmp_eq 4 (str "port") cur then cf <| port := atoi val |> else cf in
  let cf := if strncmp_eq 9 (str "threadnum") cur then cf <| thread_num := atoi val |> else cf in
  let cf := if strncmp_eq 7 (str "workers") cur then cf <| workers := atoi val |> else cf in
  let cf := if strncmp_eq 12 (str "cpu_affinity") cur then cf <| cpu_affinity := atoi val |> else cf in
  let cf := if strncmp_eq 20 (str "keep_alive_timeout_ms") cur then cf <| conf_keep_alive_timeout_ms := atoi val |> else cf in
  let cf := if strncmp_eq 18 (str "request_timeout_ms") cur then cf <| conf_request_timeout_ms := atoi val |> else cf in
  if strncmp_eq 10 (str "timeout_ms") cur then
    cf <| conf_keep_alive_timeout_ms := atoi val |> <| conf_request_timeout_ms := atoi val |>
  else cf.

(** The line at [pos]; [None] if it has no delimiter.  Returns [line_len] too. *)
Definition conf_line (buf : list Z) (pos : nat) (cf : conf nat) : option (list Z * conf nat * nat) :=
  let cur := cstr (drop pos buf) in
  d ← index_of "="%ch cur;
  let line_len := length cur in
  let cur_len := length (strip_blanks (strip_newline cur)) in
  let buf := put buf (pos + cur_len) (replicate (line_len - cur_len) 0%Z) in
  let after := drop (pos + d + 1) buf in
  let val := pos + d + 1 + (length after - length (skip blank after)) in
  Some (buf, set_keys (cstr (drop pos buf)) (cstr (drop val buf)) val cf, line_len).

(** The [while] loop; [None] from it is fuel that ran out. *)
Fixpoint conf_loop (fuel : nat) (buf : list Z) (pos len : nat) (file : list Z) (cf : conf nat)
    : option (Z * list Z * conf nat) :=
  match fuel with
  | O => None
  | S fuel' =>
      match fgets (len - pos) file with
      | None => Some (ZV_CONF_OK, buf, cf)
      | Some (line, rest) =>
          let buf := put buf pos (line ++ [0%Z]) in
          match conf_line buf pos cf with
          | None => Some (ZV_CONF_ERROR, buf, cf)
          | Some (buf, cf, line_len) => conf_loop fuel' buf (pos + line_len) len rest cf
          end
      end
  end.

(** [open] is what [fopen] finds; every turn of the loop reads a character or fails. *)
Definition read_conf (open : option (list Z)) (cf0 : conf nat) (buf : list Z) (len : nat)
    : option (Z * list Z * conf nat) :=
  match open with
  | None => Some (ZV_CONF_ERROR, buf, cf0)
  | Some file => conf_loop (S (S (length file))) buf 0 len file default_conf
  end.

(** The configuration the caller sees: [root] is read from the buffer. *)
Definition view (buf : list Z) (cf : conf nat) : conf (list Z) :=
  mk_conf _ ((λ p, cstr (drop p buf)) <$> root cf) (port cf) (thread_num cf) (workers cf) (cpu_affinity cf)
    (conf_keep_alive_timeout_ms cf) (conf_request_timeout_ms cf).

(** ** Lines of the grammar *)

(** ["key=value\\n"] *)
Record entry := mk_entry { e_key : list Z; e_value : list Z }.

Definition entry_text (e : entry) : list Z := e_key e ++ "="%ch :: e_value e.
Definition print_entry (e : entry) : list Z := entry_text e ++ [LF].

Definition text_char (c : Z) : Prop := c ≠ 0%Z ∧ c ≠ LF.

Record entry_ok (e : entry) : Prop := {
  eok_key : Forall (λ c, text_char c ∧ c ≠ "="%ch) (e_key e);
  eok_value : Forall text_char (e_value e);
  eok_head : ∀ c, head (e_value e) = Some c → blank c = false;
  eok_last : ∀ c, last (e_value e) = Some c → blank c = false ∧ c ≠ CR;
}.

(** What a line sets. *)
Definition assign (cf : conf (list Z)) (e : entry) : conf (list Z) :=
  set_keys (entry_text e) (e_value e) (e_value e) cf.

(** ** Strings *)

Lemma cstr_app t u : Forall (λ c, c ≠ 0%Z) t → cstr (t ++ 0%Z :: u) = t.
Proof.
  induction 1 as [|c t Hc _ IH]; [done|]. cbn [app cstr]. rewrite IH. by rewrite (proj2 (Z.eqb_neq _ _) Hc).
Qed.

Lemma first_line_entry n t rest :
  Forall (λ c, c ≠ LF) t → length t < n → first_line n (t ++ LF :: rest) = (t ++ [LF], rest).
Proof.
  intros Ht. revert n. induction Ht as [|c t Hc _ IH]; intros [|n] Hn; simpl in Hn; try lia; [done|].
  cbn [app first_line]. rewrite (proj2 (Z.eqb_neq _ _) Hc). by rewrite IH by lia.
Qed.

Lemma index_of_app c k u : Forall (λ x, x ≠ c) k → index_of c (k ++ c :: u) = Some (length k).
Proof.
  induction 1 as [|x k Hx _ IH]; cbn [app index_of]; [by rewrite Z.eqb_refl|].
  by rewrite (proj2 (Z.eqb_neq _ _) Hx), IH.
Qed.

Lemma skip_head f s : (∀ c, head s = Some c → f c = false) → skip f s = s.
Proof. intros Hh. destruct s as [|c s]; [done|]. simpl. by rewrite (Hh c). Qed.

Lemma strip_newline_snoc s : strip_newline (s ++ [LF]) = s.
Proof.
  unfold strip_newline. rewrite last_snoc, Z.eqb_refl, length_app. simpl.
  apply take_app_eq. lia.
Qed.

Lemma put_length buf pos bs : pos + length bs ≤ length buf → length (put buf pos bs) = length buf.
Proof. intros. unfold put. rewrite !length_app, length_take, length_drop. lia. Qed.

Lemma put_take buf pos bs n : n ≤ pos → pos ≤ length buf → take n (put buf pos bs) = take n buf.
Proof.
  intros Hn Hp. unfold put. rewrite take_app_le by (rewrite length_take; lia).
  rewrite take_take. f_equal. lia.
Qed.

Lemma put_drop buf pos bs : pos ≤ length buf → drop pos (put buf pos bs) = bs ++ drop (pos + length bs) buf.
Proof. intros Hp. unfold put. apply drop_app_eq. rewrite length_take. lia. Qed.

(** ** Lines *)

Lemma entry_text_chars e : entry_ok e → Forall text_char (entry_text e).
Proof.
  intros [Hk Hv _ _]. unfold entry_text. apply Forall_app. split; [by eapply Forall_impl; [exact Hk|intros c []]|].
  by constructor.
Qed.

Lemma entry_text_stripped e : entry_ok e → strip_blanks (entry_text e) = entry_text e.
Proof.
  intros [_ _ _ Hl]. unfold strip_blanks. rewrite skip_head; [apply reverse_involutive|].
  intros c Hc. rewrite head_reverse in Hc. unfold entry_text in Hc. rewrite last_app_cons in Hc.
  destruct (e_value e) as [|x v] eqn:Ev; [by injection Hc as <-|].
  destruct (Hl c) as [Hb Hcr]; [exact Hc|]. rewrite Hb. by rewrite (proj2 (Z.eqb_neq _ _) Hcr).
Qed.

(** The line of an entry. *)
Lemma conf_line_entry buf pos cf e u :
  entry_ok e → drop pos buf = print_entry e ++ 0%Z :: u →
  let buf' := put buf (pos + length (entry_text e)) [0%Z] in
  let val := pos + length (e_key e) + 1 in
  conf_line buf pos cf = Some (buf', set_keys (entry_text e) (e_value e) val cf, S (length (entry_text e))) ∧
  drop val buf' = e_value e ++ 0%Z :: 0%Z :: u.
Proof.
  intros He Hd buf' val. pose proof (entry_text_chars e He) as Hch.
  assert (Forall (λ c, c ≠ 0%Z) (entry_text e)) as Hnz by (eapply Forall_impl; [exact Hch|by intros c []]).
  assert (pos + length (print_entry e) + 1 ≤ length buf) as Hlen.
  { apply (f_equal length) in Hd. rewrite length_drop, length_app in Hd. simpl in Hd.
    assert (0 < length (print_entry e)) by (unfold print_entry; rewrite length_app; simpl; lia). lia. }
  unfold print_entry in *. rewrite length_app in Hlen. simpl in Hlen.
  assert (drop pos buf' = entry_text e ++ 0%Z :: 0%Z :: u) as Hd'.
  { unfold buf', put. rewrite drop_app_le by (rewrite length_take; lia).
    rewrite <-take_drop_commute, Hd, <-app_assoc, take_app_length. f_equal. cbn [app length].
    f_equal. rewrite <-Nat.add_assoc, <-drop_drop, Hd, <-app_assoc.
    rewrite drop_app_ge by lia. by replace (length (entry_text e) + 1 - length (entry_text e)) with 1 by lia. }
  assert (drop val buf' = e_value e ++ 0%Z :: 0%Z :: u) as Hv.
  { unfold val. rewrite <-Nat.add_assoc, <-drop_drop, Hd'. unfold entry_text. rewrite <-app_assoc.
    rewrite drop_app_ge by lia. by replace (length (e_key e) + 1 - length (e_key e)) with 1 by lia. }
  split; [|done]. unfold conf_line. rewrite Hd, cstr_app.
  2: { apply Forall_app. split; [done|by constructor]. }
  assert (index_of "="%ch (entry_text e ++ [LF]) = Some (length (e_key e))) as ->.
  { unfold entry_text. rewrite <-app_assoc. cbn [app].
    apply index_of_app. eapply Forall_impl; [apply (eok_key _ He)|by intros c [_ ?]]. }
  cbn [mbind option_bind]. rewrite strip_newline_snoc, entry_text_stripped by done.
  rewrite length_app. cbn [length]. replace (length (entry_text e) + 1 - length (entry_text e)) with 1 by lia.
  cbn [replicate]. fold buf'. rewrite Hd', cstr_app by done. fold val. rewrite Hv, skip_head.
  2: { destruct (e_value e) as [|x v] eqn:Ev; intros c [= <-]; [done|]. by apply (eok_head _ He); rewrite Ev. }
  rewrite Nat.sub_diag, Nat.add_0_r, Hv, cstr_app.
  - f_equal. f_equal. lia.
  - eapply Forall_impl; [apply (eok_value _ He)|by intros c []].
Qed.

(** ** The whole file *)

(** What [root] points to lies before [pos], its NUL included. *)
Definition root_before (pos : nat) (buf : list Z) (cf : conf nat) : Prop :=
  ∀ r, root cf = Some r → ∃ t u, drop r buf = t ++ 0%Z :: u ∧ Forall (λ c, c ≠ 0%Z) t ∧ r + length t < pos.

(** Writing from [pos] on does not touch it. *)
Lemma root_kept pos buf buf' cf :
  pos ≤ length buf → take pos buf' = take pos buf → root_before pos buf cf →
  root_before pos buf' cf ∧ view buf' cf = view buf cf.
Proof.
  intros Hp Ht Hr.
  assert (∀ r, root cf = Some r → ∃ t u u', drop r buf = t ++ 0%Z :: u ∧ drop r buf' = t ++ 0%Z :: u' ∧
    Forall (λ c, c ≠ 0%Z) t ∧ r + length t < pos) as Hboth.
  { intros r Er. destruct (Hr r Er) as (t & u & Hd & Hnz & Hlt). exists t, u.
    exists (drop (S (length t)) (drop r buf')). split_and!; try done.
    rewrite <-(take_drop (S (length t)) (drop r buf')) at 1.
    assert (take (S (length t)) (drop r buf') = t ++ [0%Z]) as ->; [|by rewrite <-app_assoc].
    assert (take (S (length t)) (drop r (take pos buf')) = take (S (length t)) (drop r buf')) as <-.
    { rewrite !take_drop_commute, take_take. f_equal. f_equal. lia. }
    rewrite Ht, take_drop_commute, take_take, Nat.min_l, <-take_drop_commute, Hd by lia.
    rewrite (cons_middle 0%Z), (assoc_L (++)). apply take_app_eq. rewrite length_app. simpl. lia. }
  split.
  - intros r Er. destruct (Hboth r Er) as (t & u & u' & _ & ? & ? & ?). eauto.
  - unfold view. f_equal. destruct (root cf) as [r|] eqn:Er; [|done]. simpl. f_equal.
    destruct (Hboth r eq_refl) as (t & u & u' & -> & -> & Hnz & _). by rewrite !cstr_app.
Qed.

(** The assignments of a line commute with reading [root]. *)
Lemma view_set_keys buf cur val p cf :
  view buf (set_keys cur val p cf) = set_keys cur val (cstr (drop p buf)) (view buf cf).
Proof.
  unfold set_keys. cbv zeta.
  repeat match goal with
  | |- context [strncmp_eq ?n (str ?k) cur] => destruct (strncmp_eq n (str k) cur)
  end; reflexivity.
Qed.

Lemma set_keys_root {R} (cur val : list Z) (p : R) cf :
  root (set_keys cur val p cf) = root cf ∨ root (set_keys cur val p cf) = Some p.
Proof.
  unfold set_keys. cbv zeta.
  destruct (strncmp_eq 4 (str "root") cur);
    repeat match goal with
    | |- context [strncmp_eq ?n (str ?k) cur] => destruct (strncmp_eq n (str k) cur)
    end; auto.
Qed.

Lemma print_entry_pos e : 0 < length (print_entry e).
Proof. unfold print_entry. rewrite length_app. simpl. lia. Qed.

(** The entries at the head of what is left of the file, whatever follows them. *)
Lemma conf_loop_entries es tail fuel buf pos cf :
  Forall entry_ok es → S (pos + length (concat (print_entry <$> es))) < length buf → root_before pos buf cf →
  ∃ buf' cf', conf_loop (length es + fuel) buf pos (length buf) (concat (print_entry <$> es) ++ tail) cf =
      conf_loop fuel buf' (pos + length (concat (print_entry <$> es))) (length buf) tail cf' ∧
    length buf' = length buf ∧ root_before (pos + length (concat (print_entry <$> es))) buf' cf' ∧
    view buf' cf' = foldl assign (view buf cf) es.
Proof.
  intros Hes. revert buf pos cf. induction Hes as [|e es He _ IH]; intros buf pos cf Hlen Hr.
  { cbn [fmap list_fmap concat length foldl app]. rewrite Nat.add_0_r. by exists buf, cf. }
  rewrite fmap_cons in Hlen |- *. cbn [concat] in Hlen |- *. rewrite length_app in Hlen |- *.
  pose proof (print_entry_pos e) as Hpos. pose proof (entry_text_chars e He) as Hch.
  assert (length (print_entry e) = S (length (entry_text e))) as El by (unfold print_entry; rewrite length_app; simpl; lia).
  cbn [length Nat.add conf_loop]. unfold fgets.
  rewrite (proj2 (Nat.eqb_neq (_ - _) 0)), (proj2 (Nat.eqb_neq (_ - _) 1)) by lia.
  rewrite <-app_assoc. set (rest := concat (print_entry <$> es) ++ tail).
  assert (first_line (length buf - pos - 1) (print_entry e ++ rest) = (print_entry e, rest)) as Hline.
  { unfold print_entry at 1. rewrite <-app_assoc. apply first_line_entry; [|lia].
    eapply Forall_impl; [exact Hch|by intros c []]. }
  destruct (print_entry e ++ rest) as [|x s] eqn:Ex.
  { apply (f_equal length) in Ex. rewrite length_app in Ex. simpl in Ex. lia. }
  rewrite Hline. set (buf1 := put buf pos (print_entry e ++ [0%Z])).
  assert (length buf1 = length buf) as El1 by (apply put_length; rewrite length_app; simpl; lia).
  assert (drop pos buf1 = print_entry e ++ 0%Z :: drop (pos + length (print_entry e ++ [0%Z])) buf) as Hd1.
  { unfold buf1. rewrite put_drop by lia. by rewrite <-app_assoc. }
  destruct (conf_line_entry buf1 pos cf e _ He Hd1) as [Eline Hval]. rewrite Eline.
  set (buf2 := put buf1 (pos + length (entry_text e)) [0%Z]) in *.
  set (val := pos + length (e_key e) + 1) in *. set (cf2 := set_keys (entry_text e) (e_value e) val cf).
  assert (length buf2 = length buf) as El2 by (unfold buf2; rewrite put_length; simpl; lia).
  assert (take pos buf2 = take pos buf) as Etake.
  { unfold buf2. rewrite put_take by lia. unfold buf1. by rewrite put_take by lia. }
  destruct (root_kept pos buf buf2 cf ltac:(lia) Etake Hr) as [Hr2 Eview].
  assert (Forall (λ c, c ≠ 0%Z) (e_value e)) as Hvnz by (eapply Forall_impl; [apply (eok_value _ He)|by intros c []]).
  destruct (IH buf2 (pos + S (length (entry_text e))) cf2) as (buf' & cf' & E & Eb & Hr' & Ev); [lia| |].
  - intros r Er. destruct (set_keys_root (entry_text e) (e_value e) val cf) as [Ek|Ek]; fold cf2 in Ek; rewrite Ek in Er.
    + destruct (Hr2 r Er) as (t & u & ? & ? & ?). exists t, u. split_and!; [done|done|lia].
    + injection Er as <-. exists (e_value e). eexists. split; [exact Hval|]. split; [done|].
      unfold val, entry_text. rewrite length_app. simpl. lia.
  - exists buf', cf'. rewrite El2 in E, Eb. rewrite El, Nat.add_assoc. split_and!; [exact E|done|done|].
    rewrite Ev. cbn [foldl]. f_equal.
    unfold cf2. rewrite view_set_keys, Hval, cstr_app, Eview by done. reflexivity.
Qed.

Lemma entries_count es : length es ≤ length (concat (print_entry <$> es)).
Proof.
  induction es as [|e es IH]; [done|]. rewrite fmap_cons. cbn [concat]. rewrite length_app.
  pose proof (print_entry_pos e). simpl. lia.
Qed.

Lemma no_root buf : root_before 0 buf default_conf.
Proof. done. Qed.

Lemma conf_file_read es buf cf0 :
  Forall entry_ok es → S (length (concat (print_entry <$> es))) < length buf →
  ∃ buf' cf, read_conf (Some (concat (print_entry <$> es))) cf0 buf (length buf) = Some (ZV_CONF_OK, buf', cf) ∧
    view buf' cf = foldl assign default_conf es.
Proof.
  intros Hes Hlen. unfold read_conf. pose proof (entries_count es) as Hc. set (file := concat (print_entry <$> es)) in *.
  replace (S (S (length file))) with (length es + S (S (length file) - length es)) by lia.
  destruct (conf_loop_entries es [] (S (S (length file) - length es)) buf 0 default_conf Hes Hlen (no_root buf))
    as (buf' & cf' & E & _ & _ & Ev). fold file in E. rewrite app_nil_r in E. rewrite E.
  cbn [conf_loop]. unfold fgets. fold file.
  rewrite (proj2 (Nat.eqb_neq (_ - _) 0)), (proj2 (Nat.eqb_neq (_ - _) 1)) by (simpl; lia). by eexists _, _.
Qed.

Lemma first_line_shorter n s : 0 < n → s ≠ [] → length (first_line n s).2 < length s.
Proof.
  assert (∀ n s, length (first_line n s).2 ≤ length s) as Hle.
  { intros m. induction m as [|m IH]; intros [|c s']; simpl; [done..|]. destruct (c =? LF)%Z; [simpl; lia|].
    specialize (IH s'). destruct (first_line m s'); simpl in *. lia. }
  destruct n as [|n], s as [|c s]; [lia..|done|]. intros _ _. simpl. destruct (c =? LF)%Z; [simpl; lia|].
  specialize (Hle n s). destruct (first_line n s); simpl in *. lia.
Qed.

Lemma conf_line_pos buf pos cf buf' cf' line_len : conf_line buf pos cf = Some (buf', cf', line_len) → 0 < line_len.
Proof.
  unfold conf_line. destruct (cstr (drop pos buf)) as [|c cur]; [done|].
  destruct (index_of _ _); [|done]. cbn [mbind option_bind]. intros [= _ _ <-]. simpl. lia.
Qed.

(** The loop ends: every turn reads a character, or there is room for the NUL only, and
    then for nothing in the next turn. *)
Lemma conf_loop_total fuel buf pos len file cf :
  length file + 2 ≤ fuel → is_Some (conf_loop fuel buf pos len file cf).
Proof.
  revert buf pos file cf. induction fuel as [|fuel IH]; intros buf pos file cf Hf; [lia|]. cbn [conf_loop].
  unfold fgets. destruct (Nat.eqb_spec (len - pos) 0); [by eexists|]. destruct (Nat.eqb_spec (len - pos) 1).
  - destruct (conf_line _ _ _) as [[[b c] l]|] eqn:E; [|by eexists]. apply conf_line_pos in E.
    destruct fuel as [|fuel]; [lia|]. cbn [conf_loop]. unfold fgets. rewrite (proj2 (Nat.eqb_eq _ 0)) by lia. by eexists.
  - destruct file as [|x file]; [by eexists|].
    pose proof (first_line_shorter (len - pos - 1) (x :: file) ltac:(lia) ltac:(done)) as Hl.
    destruct (first_line _ _) as [line rest]. destruct (conf_line _ _ _) as [[[b c] l]|]; [|by eexists].
    apply IH. simpl in *. lia.
Qed.

Lemma read_conf_total file cf0 buf len : is_Some (read_conf file cf0 buf len).
Proof. destruct file; [apply conf_loop_total; lia|by eexists]. Qed.

(** A line without a delimiter: a comment, or nothing at all. *)
Definition plain_line (l : list Z) : Prop := Forall (λ c, text_char c ∧ c ≠ "="%ch) l.

Lemma index_of_None c s : Forall (λ x, x ≠ c) s → index_of c s = None.
Proof.
  induction 1 as [|x s Hx _ IH]; cbn [index_of]; [done|]. by rewrite (proj2 (Z.eqb_neq _ _) Hx), IH.
Qed.

Lemma conf_line_plain buf pos cf l u : plain_line l → drop pos buf = (l ++ [LF]) ++ 0%Z :: u → conf_line buf pos cf = None.
Proof.
  intros Hl Hd. unfold conf_line. rewrite Hd, cstr_app, index_of_None; [done| |].
  - apply Forall_app. split; [by eapply Forall_impl; [exact Hl|intros c []]|by constructor].
  - apply Forall_app. split; [by eapply Forall_impl; [exact Hl|intros c [[] ?]]|by constructor].
Qed.

Lemma conf_file_refused es l tail buf cf0 :
  Forall entry_ok es → plain_line l →
  S (length (concat (print_entry <$> es)) + S (length l)) < length buf →
  ∃ buf' cf, read_conf (Some (concat (print_entry <$> es) ++ l ++ LF :: tail)) cf0 buf (length buf) =
      Some (ZV_CONF_ERROR, buf', cf) ∧ view buf' cf = foldl assign default_conf es.
Proof.
  intros Hes Hl Hlen. unfold read_conf.
  assert (S (0 + length (concat (print_entry <$> es))) < length buf) as Hlen' by lia. pose proof (entries_count es) as Hc. rewrite length_app.
  set (file := concat (print_entry <$> es)) in *. set (n := length (l ++ LF :: tail)).
  replace (S (S (length file + n))) with (length es + S (S (length file + n) - length es)) by lia.
  destruct (conf_loop_entries es (l ++ LF :: tail) (S (S (length file + n) - length es)) buf 0 default_conf Hes
    Hlen' (no_root buf)) as (buf' & cf' & E & Eb & Hr & Ev).
  fold file in E, Hr. rewrite E. cbn [Nat.add] in Hr |- *.
  cbn [conf_loop]. unfold fgets.
  rewrite (proj2 (Nat.eqb_neq (_ - _) 0)), (proj2 (Nat.eqb_neq (_ - _) 1)) by lia.
  assert (first_line (length buf - length file - 1) (l ++ LF :: tail) = (l ++ [LF], tail)) as Hline.
  { apply first_line_entry; [eapply Forall_impl; [exact Hl|by intros c [[] ?]]|lia]. }
  destruct (l ++ LF :: tail) as [|x s] eqn:Ex; [by destruct l|]. rewrite Hline.
  rewrite (conf_line_plain _ _ _ l (drop (length file + length ((l ++ [LF]) ++ [0%Z])) buf') Hl).
  - eexists _, _. split; [reflexivity|]. change (foldl assign default_conf es) with (foldl assign (view buf default_conf) es).
    rewrite <-Ev. apply (root_kept (length file)); [lia| |done].
    apply put_take; lia.
  - rewrite put_drop by lia. by rewrite <-app_assoc.
Qed.

(** ** What a file says *)

(** The line is for a key that begins with one of [keys]. *)
Definition for_key (keys : list (list Z)) (e : entry) : bool := existsb (λ k, bool_decide (k `prefix_of` e_key e)) keys.

(** The value of the last such line. *)
Definition last_value (keys : list (list Z)) (es : list entry) : option (list Z) := e_value <$> last (filter (for_key keys) es).

Definition last_number (keys : list (list Z)) (default : Z) (es : list entry) : Z :=
  match last_value keys es with Some v => atoi v | None => default end.

(** Every field has the value of the last line for it, or its default; [timeout_ms] is for
    two fields, and of [keep_alive_timeout_ms] 20 characters are compared. *)
Record says (es : list entry) (cf : conf (list Z)) : Prop := {
  says_root : root cf = last_value [str "root"] es;
  says_port : port cf = last_number [str "port"] 3000 es;
  says_threads : thread_num cf = last_number [str "threadnum"] 4 es;
  says_workers : workers cf = last_number [str "workers"] 1 es;
  says_affinity : cpu_affinity cf = last_number [str "cpu_affinity"] 0 es;
  says_keep_alive : conf_keep_alive_timeout_ms cf = last_number [str "keep_alive_timeout_m"; str "timeout_ms"] 5000 es;
  says_request : conf_request_timeout_ms cf = last_number [str "request_timeout_ms"; str "timeout_ms"] 5000 es;
}.

Lemma prefix_key k key v : Forall (λ c, c ≠ "="%ch) k → (∃ t, key ++ "="%ch :: v = k ++ t) ↔ k `prefix_of` key.
Proof.
  intros Hk. revert key. induction Hk as [|c k Hc _ IH]; intros key.
  - split; [intros _; apply prefix_nil|]. intros _. by eexists.
  - destruct key as [|x key]; cbn [app].
    + split; [|by intros [t [=]]]. intros (t & [= E _]). by destruct Hc.
    + split.
      * intros (t & [= -> E]). apply prefix_cons, IH. by exists t.
      * intros [t [= -> ->]]. exists (t ++ "="%ch :: v). by rewrite (assoc_L (++)).
Qed.

(** A test of a line against the first characters of a key. *)
Lemma key_test k rest e :
  Forall (λ c, c ≠ 0%Z) k → Forall (λ c, c ≠ "="%ch) k →
  strncmp_eq (length k) (k ++ rest) (entry_text e) = bool_decide (k `prefix_of` e_key e).
Proof.
  intros Hz Hk. apply eq_true_iff_eq. rewrite strncmp_eq_prefix, bool_decide_eq_true by done.
  by apply (prefix_key k (e_key e) (e_value e)).
Qed.

Lemma last_value_snoc keys es e :
  last_value keys (es ++ [e]) = if for_key keys e then Some (e_value e) else last_value keys es.
Proof.
  unfold last_value. rewrite filter_app, filter_cons, filter_nil. destruct (for_key keys e).
  - rewrite decide_True by done. by rewrite last_snoc.
  - rewrite decide_False by (by intros []). by rewrite app_nil_r.
Qed.

Lemma says_nothing : says [] default_conf.
Proof. by split. Qed.

Lemma set_keys_fields {R} (cur val : list Z) (v : R) cf :
  set_keys cur val v cf =
  let both := strncmp_eq 10 (str "timeout_ms") cur in
  mk_conf R (if strncmp_eq 4 (str "root") cur then Some v else root cf)
    (if strncmp_eq 4 (str "port") cur then atoi val else port cf)
    (if strncmp_eq 9 (str "threadnum") cur then atoi val else thread_num cf)
    (if strncmp_eq 7 (str "workers") cur then atoi val else workers cf)
    (if strncmp_eq 12 (str "cpu_affinity") cur then atoi val else cpu_affinity cf)
    (if strncmp_eq 20 (str "keep_alive_timeout_ms") cur || both then atoi val else conf_keep_alive_timeout_ms cf)
    (if strncmp_eq 18 (str "request_timeout_ms") cur || both then atoi val else conf_request_timeout_ms cf).
Proof.
  unfold set_keys. destruct cf. generalize (strncmp_eq 4 (str "root") cur), (strncmp_eq 4 (str "port") cur),
    (strncmp_eq 9 (str "threadnum") cur), (strncmp_eq 7 (str "workers") cur), (strncmp_eq 12 (str "cpu_affinity") cur),
    (strncmp_eq 20 (str "keep_alive_timeout_ms") cur), (strncmp_eq 18 (str "request_timeout_ms") cur),
    (strncmp_eq 10 (str "timeout_ms") cur), (atoi val).
  by intros [] [] [] [] [] [] [] [] n.
Qed.

Lemma says_line es cf e : says es cf → says (es ++ [e]) (assign cf e).
Proof.
  intros [Hr Hp Ht Hw Ha Hk Hq].
  assert (∀ k rest key n, key = k ++ rest → n = length k → forallb (λ c, negb (c =? 0)%Z && negb (c =? "="%ch)%Z) k = true →
    strncmp_eq n key (entry_text e) = bool_decide (k `prefix_of` e_key e)) as Htest.
  { intros k rest key n -> -> Hf. rewrite forallb_forall in Hf.
    apply key_test; apply Forall_forall; intros c Hc; apply list_elem_of_In, Hf, andb_true_iff in Hc as [H1 H2];
      by apply Z.eqb_neq, negb_true_iff. }
  unfold assign. rewrite set_keys_fields. cbv zeta.
  rewrite (Htest (str "root") [] (str "root") 4), (Htest (str "port") [] (str "port") 4),
    (Htest (str "threadnum") [] (str "threadnum") 9), (Htest (str "workers") [] (str "workers") 7),
    (Htest (str "cpu_affinity") [] (str "cpu_affinity") 12),
    (Htest (str "keep_alive_timeout_m") (str "s") (str "keep_alive_timeout_ms") 20),
    (Htest (str "request_timeout_ms") [] (str "request_timeout_ms") 18), (Htest (str "timeout_ms") [] (str "timeout_ms") 10)
    by done. clear Htest.
  split; cbn [root port thread_num workers cpu_affinity conf_keep_alive_timeout_ms conf_request_timeout_ms];
    unfold last_number; rewrite last_value_snoc; unfold for_key; cbn [existsb]; rewrite ?orb_false_r;
    case_match; done.
Qed.

Lemma says_lines es : says es (foldl assign default_conf es).
Proof.
  induction es as [|e es IH] using rev_ind; [apply says_nothing|]. rewrite foldl_app. by apply says_line.
Qed.

(** C32. Reading a configuration file of [key=value] lines that fits the buffer sets each field to
    what the last line for it says, the key of the field being recognised by its first
    characters, and to its default if no line is for it; [root] is still the text of its
    line when everything has been read, although all the lines share one buffer.  At the
    first line without a delimiter, an empty line or a comment for instance, it stops with
    the error code, the lines before it having taken effect; when the file cannot be opened
    nothing is changed. *)
Theorem read_conf_exact es buf cf0 :
  Forall entry_ok es →
  let file := concat (print_entry <$> es) in
  (S (length file) < length buf →
   ∃ buf' cf, read_conf (Some file) cf0 buf (length buf) = Some (ZV_CONF_OK, buf', cf) ∧ says es (view buf' cf)) ∧
  (∀ l tail, plain_line l → S (length file + S (length l)) < length buf →
   ∃ buf' cf, read_conf (Some (file ++ l ++ LF :: tail)) cf0 buf (length buf) = Some (ZV_CONF_ERROR, buf', cf) ∧
     says es (view buf' cf)) ∧
  read_conf None cf0 buf (length buf) = Some (ZV_CONF_ERROR, buf, cf0).
Proof.
  intros Hes file. split; [|split; [|done]].
  - intros Hlen. destruct (conf_file_read es buf cf0 Hes Hlen) as (buf' & cf & E & Ev). exists buf', cf.
    split; [done|]. rewrite Ev. apply says_lines.
  - intros l tail Hl Hlen. destruct (conf_file_refused es l tail buf cf0 Hes Hl Hlen) as (buf' & cf & E & Ev).
    exists buf', cf. split; [done|]. rewrite Ev. apply says_lines.
Qed.

(** ** Printing and reading back *)

Definition print_conf (cf : conf (list Z)) : list entry :=
  (match root cf with Some r => [mk_entry (str "root") r] | None => [] end) ++
  [mk_entry (str "port") (fmt_int (port cf));
   mk_entry (str "threadnum") (fmt_int (thread_num cf));
   mk_entry (str "workers") (fmt_int (workers cf));
   mk_entry (str "cpu_affinity") (fmt_int (cpu_affinity cf));
   mk_entry (str "keep_alive_timeout_ms") (fmt_int (conf_keep_alive_timeout_ms cf));
   mk_entry (str "request_timeout_ms") (fmt_int (conf_request_timeout_ms cf))].

Lemma digit_char_digits ds :
  Forall (λ d, 0 ≤ d < 10)%Z ds → span_digits (digit_char <$> ds) = ds.
Proof.
  induction 1 as [|d ds Hd _ IH]; [done|]. rewrite fmap_cons. cbn [span_digits]. rewrite IH.
  unfold is_digit, digit_char. rewrite (proj2 (Z.ltb_lt d 10)) by lia.
  change "0"%ch with 48%Z. change "9"%ch with 57%Z.
  rewrite !(proj2 (Z.leb_le _ _)) by lia. cbn [andb]. f_equal. lia.
Qed.

Lemma fmt_dec_head n : (0 ≤ n)%Z → ∃ d t, fmt_dec n = digit_char d :: t ∧ (0 ≤ d < 10)%Z.
Proof.
  intros Hn. unfold fmt_dec. pose proof (digits_nonempty 10 n) as Hne.
  pose proof (digits_Forall (digits_fuel n) 10 n [] ltac:(lia) Hn ltac:(constructor)) as Hd.
  destruct (digits (digits_fuel n) 10 n []) as [|d ds]; [done|]. apply Forall_cons in Hd as [Hd _].
  exists d, (digit_char <$> ds). by rewrite fmap_cons.
Qed.

Lemma span_fmt_dec n : (0 ≤ n)%Z → of_digits 10 (span_digits (fmt_dec n)) = n.
Proof.
  intros Hn. unfold fmt_dec. rewrite digit_char_digits; [by apply of_digits_digits|].
  by apply digits_Forall.
Qed.

Definition int_range (n : Z) : Prop := (- 2 ^ 31 ≤ n < 2 ^ 31)%Z.

Lemma decimal_digit_range d : (0 ≤ d < 10)%Z → (48 ≤ digit_char d ≤ 57)%Z.
Proof.
  intros Hd. unfold digit_char. rewrite (proj2 (Z.ltb_lt d 10)) by lia. change "0"%ch with 48%Z. lia.
Qed.

Lemma atoi_fmt_int n : int_range n → atoi (fmt_int n) = n.
Proof.
  unfold int_range, fmt_int, atoi. intros Hn.
  assert (∀ m, (0 ≤ m)%Z → ∃ c t, fmt_dec m = c :: t ∧ (48 ≤ c ≤ 57)%Z) as Hhead.
  { intros m Hm. destruct (fmt_dec_head m Hm) as (d & t & E & Hd). eexists _, _. split; [exact E|].
    by apply decimal_digit_range. }
  assert (∀ z, (- 2 ^ 31 ≤ z < 2 ^ 31)%Z → i32 (long_clamp z) = z) as Hclamp.
  { intros z Hz. unfold long_clamp. rewrite Z.min_r, Z.max_r by lia. by apply i32_small. }
  destruct (Z.ltb_spec n 0).
  - change (drop_spaces ("-"%ch :: fmt_dec (- n))) with ("-"%ch :: fmt_dec (- n)).
    cbv beta iota zeta. rewrite (Z.eqb_refl "-"%ch). cbv iota. rewrite span_fmt_dec, Hclamp by lia. lia.
  - pose proof (span_fmt_dec n ltac:(lia)) as Hspan. destruct (Hhead n ltac:(lia)) as (c & t & E & Hc).
    rewrite E in *. cbn [drop_spaces]. unfold is_space. change " "%ch with 32%Z.
    rewrite (proj2 (Z.eqb_neq c 32)), (proj2 (Z.leb_gt c 13)), andb_false_r by lia. cbn [orb].
    change "-"%ch with 45%Z. change "+"%ch with 43%Z.
    rewrite !(proj2 (Z.eqb_neq c _)) by lia. rewrite Hspan, Hclamp; lia.
Qed.

(** The texts [root] can have in a file. *)
Definition root_text (r : list Z) : Prop := entry_ok (mk_entry (str "root") r).

Lemma fmt_int_chars n : Forall (λ c, (45 ≤ c ≤ 57)%Z) (fmt_int n).
Proof.
  assert (∀ m, (0 ≤ m)%Z → Forall (λ c, (45 ≤ c ≤ 57)%Z) (fmt_dec m)) as Hdec.
  { intros m Hm. unfold fmt_dec. apply Forall_fmap.
    eapply Forall_impl; [by apply digits_Forall|]. intros d Hd. simpl. pose proof (decimal_digit_range d Hd). lia. }
  unfold fmt_int. destruct (Z.ltb_spec n 0); [|by apply Hdec].
  constructor; [change "-"%ch with 45%Z; lia|apply Hdec; lia].
Qed.

Lemma int_entry_ok k n :
  forallb (λ c, negb (c =? 0)%Z && negb (c =? LF)%Z && negb (c =? "="%ch)%Z) k = true → entry_ok (mk_entry k (fmt_int n)).
Proof.
  intros Hk. pose proof (fmt_int_chars n) as Hc.
  assert (∀ c, c ∈ fmt_int n → (45 ≤ c ≤ 57)%Z) as Hin by (by apply Forall_forall).
  assert (∀ c, (45 ≤ c ≤ 57)%Z → blank c = false ∧ c ≠ CR) as Hb.
  { intros c ?. unfold blank. change " "%ch with 32%Z. rewrite !(proj2 (Z.eqb_neq c _)) by lia. split; [done|lia]. }
  split; simpl.
  - apply Forall_forall. intros c Hx. rewrite forallb_forall in Hk. apply list_elem_of_In, Hk in Hx.
    apply andb_true_iff in Hx as [Hx Hx3]. apply andb_true_iff in Hx as [Hx1 Hx2].
    apply negb_true_iff, Z.eqb_neq in Hx1, Hx2, Hx3. by split.
  - eapply Forall_impl; [exact Hc|]. intros c ?. simpl in *. split; lia.
  - intros c Hx. apply Hb, Hin. apply head_Some_elem_of in Hx. done.
  - intros c Hx. apply Hb, Hin. by apply last_Some_elem_of in Hx.
Qed.

Lemma assign_port cf v : assign cf (mk_entry (str "port") v) = cf <| port := atoi v |>.
Proof. reflexivity. Qed.
Lemma assign_threadnum cf v : assign cf (mk_entry (str "threadnum") v) = cf <| thread_num := atoi v |>.
Proof. reflexivity. Qed.
Lemma assign_workers cf v : assign cf (mk_entry (str "workers") v) = cf <| workers := atoi v |>.
Proof. reflexivity. Qed.
Lemma assign_cpu_affinity cf v : assign cf (mk_entry (str "cpu_affinity") v) = cf <| cpu_affinity := atoi v |>.
Proof. reflexivity. Qed.
Lemma assign_keep_alive cf v :
  assign cf (mk_entry (str "keep_alive_timeout_ms") v) = cf <| conf_keep_alive_timeout_ms := atoi v |>.
Proof. reflexivity. Qed.
Lemma assign_request cf v :
  assign cf (mk_entry (str "request_timeout_ms") v) = cf <| conf_request_timeout_ms := atoi v |>.
Proof. reflexivity. Qed.

(** C33. A configuration is read back: for every root that a line can hold and every [int], the
    file that prints the configuration is read as that configuration. *)
Theorem read_conf_roundtrip cf buf cf0 :
  match root cf with Some r => root_text r | None => True end →
  int_range (port cf) → int_range (thread_num cf) → int_range (workers cf) → int_range (cpu_affinity cf) →
  int_range (conf_keep_alive_timeout_ms cf) → int_range (conf_request_timeout_ms cf) →
  S (length (concat (print_entry <$> print_conf cf))) < length buf →
  ∃ buf' cf', read_conf (Some (concat (print_entry <$> print_conf cf))) cf0 buf (length buf) = Some (ZV_CONF_OK, buf', cf') ∧
    view buf' cf' = cf.
Proof.
  intros Hr H1 H2 H3 H4 H5 H6 Hlen.
  destruct (conf_file_read (print_conf cf) buf cf0) as (buf' & cf' & E & Ev); [|done|].
  - unfold print_conf. apply Forall_app. split; [destruct (root cf); [by constructor|done]|].
    repeat (constructor; [by apply int_entry_ok|]). done.
  - exists buf', cf'. split; [exact E|]. rewrite Ev. unfold print_conf. rewrite foldl_app.
    destruct cf as [r p t w c k q].
    cbn [root port thread_num workers cpu_affinity conf_keep_alive_timeout_ms conf_request_timeout_ms] in *.
    assert (foldl assign default_conf match r with Some r => [mk_entry (str "root") r] | None => [] end =
      default_conf <| root := r |>) as -> by (by destruct r).
    cbn [foldl]. rewrite assign_port, assign_threadnum, assign_workers, assign_cpu_affinity, assign_keep_alive,
      assign_request. by rewrite !atoi_fmt_int.
Qed.

(** ** Concrete input: the file zaver.conf of the repository *)

Definition demo_conf : conf (list Z) := mk_conf _ (Some (str "./html")) 3000 4 4 1 5000 5000.

Lemma demo_root_text : root_text (str "./html").
Proof.
  split; simpl; try (repeat constructor; done); intros c [= <-]; by split.
Qed.

Lemma read_conf_roundtrip_witness :
  ∃ buf' cf', read_conf (Some (concat (print_entry <$> print_conf demo_conf))) default_conf (replicate BUFLEN 0%Z)
      (length (replicate BUFLEN 0%Z)) = Some (ZV_CONF_OK, buf', cf') ∧
    view buf' cf' = demo_conf.
Proof.
  apply (read_conf_roundtrip demo_conf (replicate BUFLEN 0%Z) default_conf).
  - exact demo_root_text.
  - by split.
  - by split.
  - by split.
  - by split.
  - by split.
  - by split.
  - apply Nat.ltb_lt. vm_compute. reflexivity.
Defined.

Lemma demo_entries_ok : Forall entry_ok (print_conf demo_conf).
Proof. constructor; [exact demo_root_text|]. repeat (constructor; [by apply int_entry_ok|]). done. Qed.

Lemma read_conf_exact_witness :
  (∃ buf' cf, read_conf (Some (concat (print_entry <$> print_conf demo_conf))) default_conf (replicate BUFLEN 0%Z)
      (length (replicate BUFLEN 0%Z)) = Some (ZV_CONF_OK, buf', cf) ∧ root (view buf' cf) = Some (str "./html")) ∧
  (∃ buf' cf, read_conf (Some (concat (print_entry <$> print_conf demo_conf) ++ str "# comment" ++ LF :: []))
      default_conf (replicate BUFLEN 0%Z) (length (replicate BUFLEN 0%Z)) = Some (ZV_CONF_ERROR, buf', cf) ∧
    thread_num (view buf' cf) = 4%Z).
Proof.
  destruct (read_conf_exact (print_conf demo_conf) (replicate BUFLEN 0%Z) default_conf demo_entries_ok) as (Hok & Hbad & _).
  split.
  - destruct Hok as (buf' & cf & E & Hs); [apply Nat.ltb_lt; vm_compute; reflexivity|]. exists buf', cf.
    split; [exact E|]. rewrite (says_root _ _ Hs). vm_compute. reflexivity.
  - destruct (Hbad (str "# comment") []) as (buf' & cf & E & Hs);
      [repeat (constructor; [by repeat split|]); constructor|apply Nat.ltb_lt; vm_compute; reflexivity|].
    exists buf', cf. split; [exact E|]. rewrite (says_threads _ _ Hs). vm_compute. reflexivity.
Defined.
