(* ===== verification/Syscall.v ===== *)
(** * System calls (util.c, epoll.c, zv_signal.c)

    The functions around the event loop - start-up, clean-up, master, command line - are
    sequences of system calls.  They are written in a monad that records every call with
    its answer; the operating system is any function from what has been called so far to
    an answer.  [wp] is a program logic for it, and [held] reads the open descriptors off
    a history. *)
From S2P Require Import Prelude Cgi.

(** ** Calls *)

Definition EINTR : Z := 4.
Definition SIGINT : Z := 2.
Definition SIGPIPE : Z := 13.
Definition SIGKILL : Z := 9.
Definition SIGTERM : Z := 15.
Definition O_NONBLOCK : Z := 2048.
Definition SOL_SOCKET : Z := 1.
Definition SO_REUSEADDR : Z := 2.
Definition SO_REUSEPORT : Z := 15.
Definition EPOLLERR : Z := 8.
Definition EPOLLHUP : Z := 16.
Definition EPOLLRDHUP : Z := 8192.
Definition EPOLLONESHOT : Z := 1073741824.
Definition EPOLLET : Z := 2147483648.
Definition FD_CLOEXEC : Z := 1.
Definition EPOLL_CTL_ADD : Z := 1.
Definition EPOLL_CTL_DEL : Z := 2.
Definition EPOLL_CTL_MOD : Z := 3.
Definition MAXEVENTS : Z := 1024.
Definition LISTENQ : Z := 1024.

(** The handlers that are installed: [SIG_IGN] and [on_term], which sets [zv_stop]. *)
Inductive disposition := Ignore | On_term.

(** What is allocated, and what is printed. *)
Inductive object := Event_array | Request_object | Epoll_item | Cgi_item | Pid_array.
Inductive message := Usage | Version | Non_option (arg : list Z).

Inductive call :=
  | Sigaction (signo : Z) (d : disposition)
  | Sched_setaffinity (cpu : nat)
  | Socket
  | Setsockopt (fd level option value : Z)
  | Bind (fd port : Z)
  | Listen (fd backlog : Z)
  | Accept (fd : Z)
  | Open (filename : list Z)
  | Fcntl_getfl (fd : Z)
  | Fcntl_setfl (fd flags : Z)
  | Fcntl_getfd (fd : Z)
  | Fcntl_setfd (fd flags : Z)
  | Pipe_read
  | Pipe_write
  | Dup2 (oldfd newfd : Z)
  | Execve (filename : list Z) (argv envp : list (list Z))
  | Epoll_create1 (flags : Z)
  | Epoll_ctl (epfd op fd events : Z)
  | Epoll_wait (epfd events maxevents timeout : Z)
  | Malloc (what : object)
  | Free (p : Z)
  | Close (fd : Z)
  | Fork
  | Waitpid (pid : Z)
  | Waitpid_nohang (pid : Z)
  | Kill (pid signo : Z)
  | Print (m : message).

(** [pipe] is two entries, one for each descriptor it stores. *)

(** Calls with their answers: what the call returns, or [- errno].  A pointer is an
    address, 0 for NULL. *)
Definition history := list (call * Z).

Class kernel := answer : history → call → Z.

(** ** The monad *)

(** The function returns, the process exits, or it crashes or is not done within the
    fuel of its loops. *)
Inductive outcome {A : Type} := Returned (a : A) | Exited (rc : Z) | Lost.
Arguments outcome A : clear implicits.

(** From the calls made before, the outcome and the calls made. *)
Definition io (A : Type) : Type := history → outcome A * history.

#[export] Instance io_ret : MRet io := λ A a h, (Returned a, []).
#[export] Instance io_bind : MBind io := λ A B f m h,
  let '(r, t) := m h in
  match r with
  | Returned a => let '(r', t') := f a (h ++ t) in (r', t ++ t')
  | Exited rc => (Exited rc, t)
  | Lost => (Lost, t)
  end.

Definition exit {A} (rc : Z) : io A := λ h, (Exited rc, []).
Definition lost {A} : io A := λ h, (Lost, []).
Definition past : io history := λ h, (Returned h, []).

(** A step of the other models: [None] is a fault or fuel that ran out. *)
Definition step {A} (o : option A) : io A := match o with Some a => mret a | None => lost end.

Section calls.
Context {os : kernel}.

Definition syscall (c : call) : io Z := λ h, let r := answer h c in (Returned r, [(c, r)]).

(** The value that C sees, where [errno] does not matter. *)
Definition int_call (c : call) : io Z := r ← syscall c; mret (Z.max (-1) r).

(** ** util.c *)

(** [htons] of a conversion to [unsigned short]. *)
Definition sin_port (port : Z) : Z := (port mod 65536)%Z.

Definition open_listenfd_reuseport (port : Z) : io Z :=
  let port := if (port <=? 0)%Z then 3000%Z else port in
  listenfd ← int_call Socket;
  if (listenfd <? 0)%Z then mret (-1)%Z
  else
    r ← int_call (Setsockopt listenfd SOL_SOCKET SO_REUSEADDR 1);
    if (r <? 0)%Z then mret (-1)%Z
    else
      r ← int_call (Setsockopt listenfd SOL_SOCKET SO_REUSEPORT 1);
      if (r <? 0)%Z then mret (-1)%Z
      else
        r ← int_call (Bind listenfd (sin_port port));
        if (r <? 0)%Z then mret (-1)%Z
        else
          r ← int_call (Listen listenfd LISTENQ);
          if (r <? 0)%Z then mret (-1)%Z else mret listenfd.

Definition make_socket_non_blocking (fd : Z) : io Z :=
  flags ← int_call (Fcntl_getfl fd);
  if (flags =? -1)%Z then mret (-1)%Z
  else
    s ← int_call (Fcntl_setfl fd (Z.lor flags O_NONBLOCK));
    if (s =? -1)%Z then mret (-1)%Z else mret 0%Z.

(** ** epoll.c *)

(** The descriptor and the array [events]; failures are logged only. *)
Definition zv_epoll_create (flags : Z) : io (Z * Z) :=
  fd ← int_call (Epoll_create1 flags);
  events ← syscall (Malloc Event_array);
  mret (fd, events).

Definition zv_epoll_ctl (op epfd fd events : Z) : io unit :=
  _ ← int_call (Epoll_ctl epfd op fd events); mret tt.
Definition zv_epoll_add : Z → Z → Z → io unit := zv_epoll_ctl EPOLL_CTL_ADD.
Definition zv_epoll_mod : Z → Z → Z → io unit := zv_epoll_ctl EPOLL_CTL_MOD.
Definition zv_epoll_del : Z → Z → Z → io unit := zv_epoll_ctl EPOLL_CTL_DEL.

(** A signal is no event. *)
Definition zv_epoll_wait (epfd events maxevents timeout : Z) : io Z :=
  n ← syscall (Epoll_wait epfd events maxevents timeout);
  if (n <? 0)%Z then mret (if (n =? - EINTR)%Z then 0%Z else (-1)%Z) else mret n.

(** ** zv_signal.c, worker.c *)

Definition install_common : io Z :=
  r ← int_call (Sigaction SIGTERM On_term);
  if negb (r =? 0)%Z then mret (-1)%Z
  else
    r ← int_call (Sigaction SIGINT On_term);
    if negb (r =? 0)%Z then mret (-1)%Z else mret 0%Z.

Definition zv_install_master_signals : io Z := install_common.
Definition zv_install_worker_signals : io Z := install_common.

Definition ignore_sigpipe : io Z := int_call (Sigaction SIGPIPE Ignore).

End calls.

(** ** Program logic *)

Definition wp {A} (m : io A) (h : history) (Q : outcome A → history → Prop) : Prop := Q (m h).1 (m h).2.

Lemma wp_mono {A} (m : io A) h (Q Q' : outcome A → history → Prop) :
  wp m h Q → (∀ r t, Q r t → Q' r t) → wp m h Q'.
Proof. unfold wp. auto. Qed.

Lemma wp_ret {A} (a : A) h (Q : outcome A → history → Prop) : Q (Returned a) [] → wp (mret a) h Q.
Proof. done. Qed.

Lemma wp_bind {A B} (m : io A) (f : A → io B) h (Q : outcome B → history → Prop) :
  wp m h (λ r t,
    match r with
    | Returned a => wp (f a) (h ++ t) (λ r' t', Q r' (t ++ t'))
    | Exited rc => Q (Exited rc) t
    | Lost => Q Lost t
    end) →
  wp (m ≫= f) h Q.
Proof.
  unfold wp, mbind, io_bind. destruct (m h) as [[a|rc|] t]; simpl; [|done..].
  by destruct (f a (h ++ t)).
Qed.

Lemma wp_past h (Q : outcome history → history → Prop) : Q (Returned h) [] → wp past h Q.
Proof. done. Qed.

(** A call may answer anything. *)
Lemma wp_call `{os : kernel} c h (Q : outcome Z → history → Prop) :
  (∀ r, answer h c = r → Q (Returned r) [(c, r)]) → wp (syscall c) h Q.
Proof. unfold wp. simpl. auto. Qed.

Lemma wp_int_call `{os : kernel} c h (Q : outcome Z → history → Prop) :
  (∀ r, answer h c = r → Q (Returned (Z.max (-1) r)) [(c, r)]) → wp (int_call c) h Q.
Proof. unfold wp. simpl. auto. Qed.

(** A computation that only returns, making the calls [t]. *)
Lemma wp_then {A B} (m : io A) (f : A → io B) h (P : A → history → Prop) (Q : outcome B → history → Prop) :
  wp m h (λ r t, ∃ a, r = Returned a ∧ P a t) →
  (∀ a t, P a t → wp (f a) (h ++ t) (λ r' t', Q r' (t ++ t'))) →
  wp (m ≫= f) h Q.
Proof.
  intros Hm Hf. apply wp_bind. eapply wp_mono; [exact Hm|]. intros r t (a & -> & Hp). by apply Hf.
Qed.

(** ** Open descriptors *)

Definition new_descriptor (c : call) : bool :=
  match c with Socket | Accept _ | Open _ | Epoll_create1 _ | Pipe_read | Pipe_write => true | _ => false end.

Definition held_step (s : gset Z) (e : call * Z) : gset Z :=
  match e with
  | (Close fd, _) => s ∖ {[fd]}
  | (Dup2 _ newfd, r) => if (0 <=? r)%Z && (0 <=? newfd)%Z then {[newfd]} ∪ s else s
  | (c, fd) => if new_descriptor c && (0 <=? fd)%Z then {[fd]} ∪ s else s
  end.

Definition held (h : history) : gset Z := foldl held_step ∅ h.

(** A call that neither opens nor closes. *)
Definition neutral (e : call * Z) : Prop := ∀ s, held_step s e = s.

(** The system gives a new descriptor a number that is not in use. *)
Definition fresh_descriptors (os : kernel) : Prop :=
  ∀ h c, new_descriptor c = true → (0 ≤ answer h c)%Z → answer h c ∉ held h.

Lemma held_app h t : held (h ++ t) = foldl held_step (held h) t.
Proof. apply foldl_app. Qed.

Lemma held_neutral h t : Forall neutral t → held (h ++ t) = held h.
Proof.
  rewrite held_app. generalize (held h). induction t as [|e t IH]; intros s; [done|].
  intros [He Ht]%Forall_cons. cbn [foldl]. rewrite He. by apply IH.
Qed.

Lemma held_step_nonneg s e fd : fd ∈ held_step s e → fd ∈ s ∨ (0 ≤ fd)%Z.
Proof.
  destruct e as [c r]. destruct (Z.leb_spec 0 r) as [Hr|Hr].
  - assert (∀ k, (0 ≤ k)%Z → fd ∈ ({[k]} ∪ s : gset Z) → fd ∈ s ∨ (0 ≤ fd)%Z) as Hnew.
    { intros k Hk [->%elem_of_singleton|Hs]%elem_of_union; [by right|by left]. }
    destruct c; simpl; rewrite ?(proj2 (Z.leb_le 0 r) Hr);
      first [by left|by apply Hnew|intros [Hs _]%elem_of_difference; by left|simpl; case_match; [apply Hnew; lia|by left]].
  - destruct c; simpl; rewrite ?(proj2 (Z.leb_gt 0 r) Hr); try (by left).
    intros [Hs _]%elem_of_difference. by left.
Qed.

Lemma held_nonneg h fd : fd ∈ held h → (0 ≤ fd)%Z.
Proof.
  induction h as [|e h IH] using rev_ind; [intros []%elem_of_empty|]. rewrite held_app.
  intros [Hs|Hs]%held_step_nonneg; [by apply IH|done].
Qed.

(** [t] opens the descriptors of [new], which were not in use. *)
Definition opens (h t : history) (new : gset Z) : Prop := new ## held h ∧ held (h ++ t) = new ∪ held h.

Lemma opens_quiet h t : Forall neutral t → opens h t ∅.
Proof. intros Ht. split; [set_solver|]. rewrite held_neutral by done. set_solver. Qed.

Lemma opens_app h t t' new new' : opens h t new → opens (h ++ t) t' new' → opens h (t ++ t') (new' ∪ new).
Proof.
  unfold opens. intros [D E] [D' E']. rewrite app_assoc, E'. rewrite E in *. split; [set_solver|].
  by rewrite (assoc_L (∪)).
Qed.

Lemma opens_app_quiet h t t' new : opens h t new → Forall neutral t' → opens h (t ++ t') new.
Proof. intros Ho Ht. rewrite <-(left_id_L ∅ (∪) new). eapply opens_app; [done|by apply opens_quiet]. Qed.

(** A new descriptor. *)
Lemma opens_new `{os : kernel} h c fd :
  fresh_descriptors os → new_descriptor c = true → answer h c = fd →
  opens h [(c, fd)] (if (0 <=? fd)%Z then {[fd]} else ∅).
Proof.
  intros Hf Hc Ea. unfold opens. rewrite held_app. cbn [foldl]. destruct (Z.leb_spec 0 fd) as [Hfd|Hfd].
  - split; [pose proof (Hf h c Hc) as Hni; rewrite Ea in Hni; set_solver|].
    unfold held_step. rewrite (proj2 (Z.leb_le _ _) Hfd). by destruct c.
  - split; [set_solver|]. unfold held_step. rewrite (proj2 (Z.leb_gt _ _) Hfd), andb_false_r. destruct c; try done; set_solver.
Qed.

(** ** The listening socket *)

(** Both options precede [bind]. *)
Definition listen_calls (fd port : Z) : list call :=
  [Setsockopt fd SOL_SOCKET SO_REUSEADDR 1; Setsockopt fd SOL_SOCKET SO_REUSEPORT 1;
   Bind fd (sin_port (if (port <=? 0)%Z then 3000 else port)); Listen fd LISTENQ].

Definition all_succeed : list Z → Prop := Forall (λ r, 0 ≤ r)%Z.

(** Every call but the last succeeds. *)
Definition last_fails (rs : list Z) : Prop := ∃ rs' e, rs = rs' ++ [e] ∧ all_succeed rs' ∧ (e < 0)%Z.

Definition listening (port : Z) (r : outcome Z) (t : history) : Prop :=
  (∃ e, (e < 0)%Z ∧ r = Returned (-1)%Z ∧ t = [(Socket, e)]) ∨
  (∃ fd rs, (0 ≤ fd)%Z ∧ t = (Socket, fd) :: zip (listen_calls fd port) rs ∧ length rs ≤ 4 ∧
     (r = Returned fd ∧ length rs = 4 ∧ all_succeed rs ∨ r = Returned (-1)%Z ∧ last_fails rs)).

Lemma max_neg r : (Z.max (-1) r <? 0)%Z = (r <? 0)%Z.
Proof. ztests. Qed.

Lemma listening_fails port fd rs e :
  (0 ≤ fd)%Z → all_succeed rs → (e < 0)%Z → length rs < 4 →
  listening port (Returned (-1)%Z) ((Socket, fd) :: zip (listen_calls fd port) (rs ++ [e])).
Proof.
  intros Hfd Hrs He Hl. right. exists fd, (rs ++ [e]). split; [done|]. split; [done|].
  split; [rewrite length_app; simpl; lia|]. right. split; [done|]. by exists rs, e.
Qed.

Lemma open_listenfd_spec `{os : kernel} port h : wp (open_listenfd_reuseport port) h (listening port).
Proof.
  unfold open_listenfd_reuseport. cbv zeta. apply wp_bind, wp_int_call. intros fd _. rewrite max_neg.
  destruct (Z.ltb_spec fd 0) as [Hlt|Hfd]; [apply wp_ret; left; by exists fd|]. rewrite Z.max_r by lia.
  assert (∀ rs e, all_succeed rs → length rs < 4 → (e < 0)%Z → ∀ t,
    t = (Socket, fd) :: zip (listen_calls fd port) (rs ++ [e]) → listening port (Returned (-1)%Z) t) as Hbad.
  { intros rs e Hrs Hl He t ->. by apply listening_fails. }
  apply wp_bind, wp_int_call. intros r1 _. rewrite max_neg. destruct (Z.ltb_spec r1 0).
  { apply wp_ret, (Hbad [] r1); [constructor|simpl; lia|done..]. }
  apply wp_bind, wp_int_call. intros r2 _. rewrite max_neg. destruct (Z.ltb_spec r2 0).
  { apply wp_ret, (Hbad [r1] r2); [repeat constructor; done|simpl; lia|done..]. }
  apply wp_bind, wp_int_call. intros r3 _. rewrite max_neg. destruct (Z.ltb_spec r3 0).
  { apply wp_ret, (Hbad [r1; r2] r3); [repeat constructor; done|simpl; lia|done..]. }
  apply wp_bind, wp_int_call. intros r4 _. rewrite max_neg. destruct (Z.ltb_spec r4 0).
  { apply wp_ret, (Hbad [r1; r2; r3] r4); [repeat constructor; done|simpl; lia|done..]. }
  apply wp_ret. right. exists fd, [r1; r2; r3; r4]. split; [done|]. split; [done|]. split; [done|]. left.
  split; [done|]. split; [done|]. repeat constructor; done.
Qed.

Lemma socket_first `{os : kernel} port h :
  wp (open_listenfd_reuseport port) h (λ _ t, head t = Some (Socket, answer h Socket)).
Proof.
  apply wp_bind, wp_int_call. intros fd ->. case_match; [by apply wp_ret|]. apply wp_bind. unfold wp.
  simpl. by repeat case_match.
Qed.

(** The descriptor of [socket] stays, whatever follows. *)
Lemma open_listenfd_calls `{os : kernel} port h :
  let '(r, t) := open_listenfd_reuseport port h in
  listening port r t ∧
  held (h ++ t) = match t with (Socket, fd) :: _ => if (0 <=? fd)%Z then {[fd]} ∪ held h else held h | _ => held h end.
Proof.
  pose proof (open_listenfd_spec port h) as Hspec. unfold wp in Hspec.
  destruct (open_listenfd_reuseport port h) as [r t]. simpl in Hspec. split; [done|].
  destruct Hspec as [(e & He & _ & ->)|(fd & rs & Hfd & -> & _)]; rewrite held_app; [done|].
  cbn [foldl]. change (foldl held_step (held h) [(Socket, fd)]) with (held_step (held h) (Socket, fd)).
  assert (∀ s, foldl held_step s (zip (listen_calls fd port) rs) = s) as Hn.
  { intros s. by destruct rs as [|? [|? [|? [|? ?]]]]. }
  by rewrite Hn.
Qed.

(** C39. The listening socket is set up completely or reported as failed: [socket], the two
    options that let the workers share the port, [bind] and [listen] are called in this
    order up to the first that fails, the port being 3000 for one that is not positive and
    taken modulo 65536 otherwise; the descriptor is returned, open, when all have
    succeeded, and -1 otherwise - and if it was not [socket] that failed, its descriptor is
    still open then. *)
Theorem open_listenfd_exact `{os : kernel} port h :
  let '(r, t) := open_listenfd_reuseport port h in
  listening port r t ∧
  held (h ++ t) = match t with (Socket, fd) :: _ => if (0 <=? fd)%Z then {[fd]} ∪ held h else held h | _ => held h end.
Proof. apply open_listenfd_calls. Qed.

(** ** The other wrappers *)

(** The calls [t] leave the descriptors alone. *)
Definition quiet {A} (P : A → Prop) (r : outcome A) (t : history) : Prop :=
  ∃ a, r = Returned a ∧ P a ∧ Forall neutral t.

Ltac quiet_done := eexists; split; [reflexivity|]; split; [done|]; repeat constructor.

Section specs.
Context `{os : kernel}.

Lemma nonblocking_spec fd h : wp (make_socket_non_blocking fd) h (quiet (λ r, r = 0%Z ∨ r = (-1)%Z)).
Proof.
  apply wp_bind, wp_int_call. intros flags _. case_match; [apply wp_ret|apply wp_bind, wp_int_call; intros s _; case_match; apply wp_ret];
    eexists; (split; [reflexivity|]); (split; [auto|repeat constructor]).
Qed.

Lemma install_spec h : wp install_common h (quiet (λ r, r = 0%Z ∨ r = (-1)%Z)).
Proof.
  apply wp_bind, wp_int_call. intros r _. case_match; [apply wp_ret|apply wp_bind, wp_int_call; intros s _; case_match; apply wp_ret];
    eexists; (split; [reflexivity|]); (split; [auto|repeat constructor]).
Qed.

Lemma ignore_spec h : wp ignore_sigpipe h (quiet (λ _, True)).
Proof. apply wp_int_call. intros r _. quiet_done. Qed.

Lemma epoll_ctl_spec op epfd fd events h : wp (zv_epoll_ctl op epfd fd events) h (quiet (λ _, True)).
Proof. apply wp_bind, wp_int_call. intros r _. apply wp_ret. quiet_done. Qed.

(** The count of events is at least -1, and a signal is no event. *)
Lemma epoll_wait_spec epfd events maxevents timeout h :
  wp (zv_epoll_wait epfd events maxevents timeout) h (λ r t, ∃ n,
    t = [(Epoll_wait epfd events maxevents timeout, n)] ∧
    r = Returned (if (n <? 0)%Z then if (n =? - EINTR)%Z then 0 else -1 else n)%Z).
Proof. apply wp_bind, wp_call. intros n _. exists n. by destruct (n <? 0)%Z. Qed.

Lemma epoll_create_spec flags h :
  wp (zv_epoll_create flags) h (λ r t, ∃ fd events,
    r = Returned (Z.max (-1) fd, events) ∧ t = [(Epoll_create1 flags, fd); (Malloc Event_array, events)] ∧
    answer h (Epoll_create1 flags) = fd).
Proof. apply wp_bind, wp_int_call. intros fd Hfd. apply wp_bind, wp_call. intros ev _. apply wp_ret. by exists fd, ev. Qed.

End specs.

(** ** A system that numbers its descriptors upwards *)

Definition opened_fd (e : call * Z) : Z := match e.1 with Dup2 _ fd => fd | c => if new_descriptor c then e.2 else 2%Z end.
Definition next_fd (h : history) : Z := (1 + foldr (λ e m, Z.max (opened_fd e) m) 2 h)%Z.
Lemma held_step_in s e fd : fd ∈ held_step s e → fd ∈ s ∨ fd = opened_fd e.
Proof.
  destruct e as [c r]. assert (∀ k (b : bool), fd ∈ (if b then {[k]} ∪ s else s : gset Z) → fd ∈ s ∨ fd = k) as Hnew.
  { intros k [] Hin; [set_solver|by left]. }
  destruct c; simpl; first [by left|apply (Hnew r)|apply (Hnew newfd)|set_solver].
Qed.

Lemma below_next_fd h fd : fd ∈ held h → (fd < next_fd h)%Z.
Proof.
  assert (∀ h s m, (∀ fd, fd ∈ s → fd ≤ m)%Z → ∀ fd, fd ∈ foldl held_step s h →
    (fd ≤ foldr (λ e m, Z.max (opened_fd e) m) m h)%Z) as Hgen.
  { clear. induction h as [|[c r] h IH]; intros s m Hs fd; cbn [foldl foldr]; [apply Hs|]. intros Hfd.
    assert (fd ≤ foldr (λ e m, Z.max (opened_fd e) m) (Z.max m (opened_fd (c, r))) h)%Z as Hle.
    { eapply IH; [|exact Hfd]. intros fd' [Hin| ->]%held_step_in; [apply Hs in Hin|]; lia. }
    clear -Hle. revert Hle. generalize (opened_fd (c, r)). intros k.
    assert (∀ a, foldr (λ e m, Z.max (opened_fd e) m) (Z.max a k) h = Z.max k (foldr (λ e m, Z.max (opened_fd e) m) a h)) as E.
    { intros a. induction h as [|e h IH]; simpl; [lia|]. rewrite IH. lia. }
    by rewrite E. }
  intros Hfd. apply (Hgen h ∅ 2%Z) in Hfd; [|set_solver]. unfold next_fd. lia.
Qed.

Lemma next_fd_fresh (os : kernel) : (∀ h c, new_descriptor c = true → answer h c = next_fd h) → fresh_descriptors os.
Proof. intros Hos h c Hc _ Hin. rewrite (Hos h c Hc) in Hin. apply below_next_fd in Hin. lia. Qed.
