(* ===== verification/Spawn.v ===== *)
(** * The process of a CGI script (cgi.c: zv_cgi_start)

    Cgi.v has what [zv_cgi_start] does to the request; here are its system calls, in the
    worker and, after [fork], in the process that becomes the script: the pipes, what
    happens to their ends on every path, what the script inherits, and its environment. *)
From S2P Require Import Prelude Cgi Syscall.

(** The array that [snprintf] fills, without its NUL. *)
Definition snprintf (size : nat) (text : list Z) : list Z := take (size - 1) text.

(** [envp]. *)
Definition cgi_environment (script_filename script_name : list Z) (query_string : option (list Z)) : list (list Z) :=
  [snprintf 64 (str "GATEWAY_INTERFACE=CGI/1.1");
   snprintf 64 (str "SERVER_PROTOCOL=HTTP/1.1");
   snprintf 64 (str "SERVER_SOFTWARE=Zaver");
   snprintf 32 (str "REQUEST_METHOD=GET");
   snprintf 1024 (str "QUERY_STRING=" ++ match query_string with Some qs => qs | None => [] end);
   snprintf 1024 (str "SCRIPT_NAME=" ++ script_name);
   snprintf 2048 (str "SCRIPT_FILENAME=" ++ script_filename)].

Section spawn.
Context {os : kernel}.

(** [pipe]: its two descriptors. *)
Definition sys_pipe : io (option (Z * Z)) :=
  r ← int_call Pipe_read;
  if (r <? 0)%Z then mret None
  else w ← syscall Pipe_write; mret (Some (r, w)).

Fixpoint close_all (fds : list Z) : io unit :=
  match fds with [] => mret tt | fd :: rest => _ ← int_call (Close fd); close_all rest end.

Definition set_nonblocking_cloexec (fd : Z) : io Z :=
  flags ← int_call (Fcntl_getfl fd);
  if (flags <? 0)%Z then mret (-1)%Z
  else
    r ← int_call (Fcntl_setfl fd (Z.lor flags O_NONBLOCK));
    if (r <? 0)%Z then mret (-1)%Z
    else
      fdflags ← int_call (Fcntl_getfd fd);
      if (0 <=? fdflags)%Z then _ ← int_call (Fcntl_setfd fd (Z.lor fdflags FD_CLOEXEC)); mret 0%Z
      else mret 0%Z.

(** The process becomes the script, or exits. *)
Definition run_script {A} (pipes : list Z) (in0 out1 : Z) (filename : list Z) (envp : list (list Z)) : io A :=
  _ ← int_call (Dup2 in0 0);
  _ ← int_call (Dup2 out1 1);
  _ ← close_all pipes;
  r ← syscall (Execve filename [filename] envp);
  exit (if (r <? 0)%Z then 127%Z else r).

(** The item of the script's output: allocated once per request object; the event has a
    NULL pointer if that fails. *)
Definition ensure_cgi_items (has_item : bool) : io bool :=
  if has_item then mret true else p ← syscall (Malloc Cgi_item); mret (negb (p =? 0)%Z).

(** The result, [cgi_pid], [cgi_out_fd], and whether its events have an item. *)
Definition zv_cgi_spawn (epfd : Z) (has_item : bool) (filename name : list Z) (query_string : option (list Z))
    : io (Z * Z * Z * bool) :=
  inp ← sys_pipe;
  match inp with
  | None => mret (-1, -1, -1, has_item)%Z
  | Some (in0, in1) =>
      outp ← sys_pipe;
      match outp with
      | None => _ ← close_all [in0; in1]; mret (-1, -1, -1, has_item)%Z
      | Some (out0, out1) =>
          pid ← int_call Fork;
          if (pid <? 0)%Z then _ ← close_all [in0; in1; out0; out1]; mret (-1, -1, -1, has_item)%Z
          else if (pid =? 0)%Z then
            run_script [in0; in1; out0; out1] in0 out1 filename (cgi_environment filename name query_string)
          else
            _ ← close_all [in0; out1];
            r ← set_nonblocking_cloexec out0;
            if negb (r =? 0)%Z then
              _ ← close_all [in1; out0];
              _ ← int_call (Kill pid SIGKILL);
              _ ← int_call (Waitpid pid);
              mret (-1, -1, -1, has_item)%Z
            else
              _ ← close_all [in1];
              item ← ensure_cgi_items has_item;
              _ ← zv_epoll_add epfd out0 (Z.lor EPOLLIN EPOLLONESHOT);
              mret (0, pid, out0, item)%Z
      end
  end.

End spawn.

(** ** What the calls leave *)

(** The children that run or wait to be reaped. *)
Definition children_step (s : gset Z) (e : call * Z) : gset Z :=
  match e with
  | (Fork, pid) => if (0 <? pid)%Z then {[pid]} ∪ s else s
  | (Waitpid _, pid) | (Waitpid_nohang _, pid) => s ∖ {[pid]}
  | _ => s
  end.

Definition children (h : history) : gset Z := foldl children_step ∅ h.

(** The descriptors that [execve] leaves open: those without [FD_CLOEXEC]. *)
Definition passed_step (s : gset Z) (e : call * Z) : gset Z :=
  match e with
  | (Fcntl_setfd fd flags, r) => if (0 <=? r)%Z && Z.testbit flags 0 then s ∖ {[fd]} else s
  | e => held_step s e
  end.

Definition passed (h : history) : gset Z := foldl passed_step ∅ h.

(** How [zv_cgi_spawn] ends in the worker - nothing was started, the script was killed
    again, or it runs - and in the script. *)
Inductive spawned (epfd : Z) (filename : list Z) (envp : list (list Z)) h : outcome (Z * Z * Z * bool) → history → Prop :=
  | Not_started t item :
      held (h ++ t) = held h → children (h ++ t) = children h →
      spawned epfd filename envp h (Returned (-1, -1, -1, item)%Z) t
  | Killed t pid r1 r2 item :
      held (h ++ t) = held h → children (h ++ t) = {[pid]} ∪ children h → (0 < pid)%Z →
      spawned epfd filename envp h (Returned (-1, -1, -1, item)%Z) (t ++ [(Kill pid SIGKILL, r1); (Waitpid pid, r2)])
  | Running t fd pid flags r1 r2 item :
      (0 ≤ fd)%Z → opens h t {[fd]} → children (h ++ t) = {[pid]} ∪ children h → (0 < pid)%Z →
      (Fcntl_setfl fd (Z.lor flags O_NONBLOCK), r1) ∈ t → (0 ≤ r1)%Z →
      spawned epfd filename envp h (Returned (0, pid, fd, item)%Z)
        (t ++ [(Epoll_ctl epfd EPOLL_CTL_ADD fd (Z.lor EPOLLIN EPOLLONESHOT), r2)])
  | In_script t r :
      passed (h ++ t) ∖ {[0; 1]}%Z = passed h ∖ {[0; 1]}%Z →
      spawned epfd filename envp h (Exited (if (r <? 0)%Z then 127 else r)%Z) (t ++ [(Execve filename [filename] envp, r)]).

Lemma passed_app h t : passed (h ++ t) = foldl passed_step (passed h) t.
Proof. apply foldl_app. Qed.

Lemma passed_step_mono s s' e : s ⊆ s' → passed_step s e ⊆ held_step s' e.
Proof.
  destruct e as [c r]. intros Hs. destruct c; simpl; try case_match; set_solver.
Qed.

Lemma passed_held h : passed h ⊆ held h.
Proof.
  induction h as [|e h IH] using rev_ind; [done|]. rewrite passed_app, held_app. by apply passed_step_mono.
Qed.

Lemma children_app h t : children (h ++ t) = foldl children_step (children h) t.
Proof. apply foldl_app. Qed.

(** A call about neither descriptors nor children. *)
Definition still (e : call * Z) : Prop := neutral e ∧ ∀ s, children_step s e = s.

Lemma still_held s t : Forall still t → foldl held_step s t = s.
Proof. induction 1 as [|e t [He _] _ IH] in s |- *; [done|]. cbn [foldl]. by rewrite He. Qed.

Lemma still_children s t : Forall still t → foldl children_step s t = s.
Proof. induction 1 as [|e t [_ He] _ IH] in s |- *; [done|]. cbn [foldl]. by rewrite He. Qed.

Section specs.
Context `{os : kernel}.
Hypothesis fresh : fresh_descriptors os.
(** [pipe] stores both descriptors or fails. *)
Hypothesis both_ends : ∀ h, (0 ≤ answer h Pipe_write)%Z.

Lemma pipe_spec h :
  wp sys_pipe h (λ r t,
    r = Returned None ∧ Forall still t ∨
    ∃ a b, r = Returned (Some (a, b)) ∧ t = [(Pipe_read, a); (Pipe_write, b)] ∧ (0 ≤ a)%Z ∧ (0 ≤ b)%Z ∧
      a ∉ held h ∧ b ∉ held h ∧ a ≠ b).
Proof.
  apply wp_bind, wp_int_call. intros a Ha. rewrite max_neg. destruct (Z.ltb_spec a 0) as [Hlt|Hge].
  - apply wp_ret. left. split; [done|]. repeat constructor. intros s. simpl. by rewrite (proj2 (Z.leb_gt _ _)).
  - apply wp_bind, wp_call. intros b Hb. apply wp_ret. right. exists a, b.
    rewrite Z.max_r by lia. pose proof (both_ends (h ++ [(Pipe_read, a)])) as Hb0. rewrite Hb in Hb0.
    pose proof (fresh h Pipe_read eq_refl) as Fa. rewrite Ha in Fa.
    pose proof (fresh (h ++ [(Pipe_read, a)]) Pipe_write eq_refl) as Fb. rewrite Hb, held_app in Fb. simpl in Fb.
    rewrite (proj2 (Z.leb_le _ _) Hge) in Fb. specialize (Fa Hge). specialize (Fb Hb0).
    split; [done|]. split; [done|]. split; [done|]. split; [done|]. set_solver.
Qed.

Lemma close_spec fds h :
  wp (close_all fds) h (λ r t, r = Returned tt ∧ (∀ s, foldl held_step s t = s ∖ list_to_set fds) ∧
    (∀ s, foldl children_step s t = s) ∧ ∀ s, foldl passed_step s t = s ∖ list_to_set fds).
Proof.
  assert (∀ (s : gset Z) fd fds, s ∖ {[fd]} ∖ list_to_set fds = s ∖ list_to_set (fd :: fds)) as Hd.
  { intros s fd fds'. simpl. set_solver. }
  assert (∀ s : gset Z, s = s ∖ list_to_set []) as Hd0 by set_solver.
  revert h. induction fds as [|fd fds IH]; intros h; cbn [close_all].
  - apply wp_ret. split; [done|]. split; [exact Hd0|]. split; [done|exact Hd0].
  - apply wp_bind, wp_int_call. intros r _. eapply wp_mono; [apply IH|]. intros r' t (-> & Hh & Hc & Hp). split; [done|].
    split; [|split]; intros s; cbn [app foldl].
    + by rewrite Hh, <-Hd.
    + by rewrite Hc.
    + by rewrite Hp, <-Hd.
Qed.

Lemma nonblocking_cloexec_spec fd h :
  wp (set_nonblocking_cloexec fd) h (λ r t, Forall still t ∧
    (r = Returned (-1)%Z ∨ r = Returned 0%Z ∧ ∃ flags r1, (Fcntl_setfl fd (Z.lor flags O_NONBLOCK), r1) ∈ t ∧ (0 ≤ r1)%Z)).
Proof.
  apply wp_bind, wp_int_call. intros flags _. rewrite max_neg. destruct (Z.ltb_spec flags 0).
  { apply wp_ret. split; [by repeat constructor|by left]. }
  apply wp_bind, wp_int_call. intros r1 _. rewrite max_neg. destruct (Z.ltb_spec r1 0).
  { apply wp_ret. split; [by repeat constructor|by left]. }
  apply wp_bind, wp_int_call. intros fdf _. 
  destruct (0 <=? Z.max (-1) fdf)%Z; [apply wp_bind, wp_int_call; intros r2 _|]; apply wp_ret;
    (split; [by repeat constructor|right; split; [done|]; eexists _, r1; split; [right; left|done]]).
Qed.

Lemma items_spec has_item h :
  wp (ensure_cgi_items has_item) h (λ r t, Forall still t ∧ ∃ item, r = Returned item).
Proof.
  destruct has_item; [apply wp_ret; split; [done|by eexists]|]. apply wp_bind, wp_call. intros p _. apply wp_ret.
  split; [by repeat constructor|by eexists].
Qed.

Lemma script_spec {A} pipes in0 out1 filename envp h :
  wp (run_script (A := A) pipes in0 out1 filename envp) h (λ r t, ∃ t' x,
    t = t' ++ [(Execve filename [filename] envp, x)] ∧ r = Exited (if (x <? 0)%Z then 127 else x)%Z ∧
    ∀ s, foldl passed_step s t' ∖ {[0; 1]}%Z = (s ∖ list_to_set pipes) ∖ {[0; 1]}%Z).
Proof.
  apply wp_bind, wp_int_call. intros r0 _. apply wp_bind, wp_int_call. intros r1 _.
  apply wp_bind. eapply wp_mono; [apply close_spec|]. intros r t (-> & _ & _ & Hh).
  apply wp_bind, wp_call. intros x _. unfold exit, wp. cbn [fst snd]. rewrite app_nil_r.
  eexists ((Dup2 in0 0, r0) :: (Dup2 out1 1, r1) :: t), x. split; [done|]. split; [done|].
  intros s. cbn [foldl passed_step held_step]. rewrite Hh. rewrite !andb_true_r.
  destruct (0 <=? r0)%Z, (0 <=? r1)%Z; set_solver.
Qed.

Lemma spawn_spec epfd has_item filename name qs h :
  let envp := cgi_environment filename name qs in
  wp (zv_cgi_spawn epfd has_item filename name qs) h (spawned epfd filename envp h).
Proof.
  intros envp. apply wp_bind. eapply wp_mono; [apply pipe_spec|].
  intros r t1 [[-> Ht1]|(in0 & in1 & -> & -> & Hi0 & Hi1 & Fi0 & Fi1 & Hne)].
  { apply wp_ret. rewrite app_nil_r. apply Not_started; [rewrite held_app; by apply still_held|rewrite children_app; by apply still_children]. }
  set (t1 := [(Pipe_read, in0); (Pipe_write, in1)]). apply wp_bind. eapply wp_mono; [apply pipe_spec|].
  assert (held (h ++ t1) = {[in1]} ∪ ({[in0]} ∪ held h)) as Hh1.
  { rewrite held_app. simpl. by rewrite !(proj2 (Z.leb_le _ _)). }
  assert (children (h ++ t1) = children h) as Hc1 by (by rewrite children_app).
  intros r t2 [[-> Ht2]|(out0 & out1 & -> & -> & Ho0 & Ho1 & Fo0 & Fo1 & Hne')].
  { apply wp_bind. eapply wp_mono; [apply close_spec|]. intros r t3 (-> & Hh3 & Hc3 & _). apply wp_ret. rewrite app_nil_r.
    apply Not_started; rewrite !app_assoc.
    - rewrite held_app, Hh3, held_app, still_held, Hh1 by done. simpl. clear -Fi0 Fi1. set_solver.
    - by rewrite children_app, Hc3, children_app, still_children, Hc1 by done. }
  set (t2 := [(Pipe_read, out0); (Pipe_write, out1)]). rewrite Hh1 in Fo0, Fo1.
  assert (held ((h ++ t1) ++ t2) = {[out1]} ∪ ({[out0]} ∪ ({[in1]} ∪ ({[in0]} ∪ held h)))) as Hh2.
  { rewrite held_app, Hh1. simpl. by rewrite !(proj2 (Z.leb_le _ _)). }
  assert (children ((h ++ t1) ++ t2) = children h) as Hc2 by (by rewrite children_app).
  apply wp_bind, wp_int_call. intros pid _. rewrite max_neg. destruct (Z.ltb_spec pid 0) as [Hneg|Hpos].
  { apply wp_bind. eapply wp_mono; [apply close_spec|]. intros r t3 (-> & Hh3 & Hc3 & _). apply wp_ret. rewrite app_nil_r.
    apply Not_started; rewrite !app_assoc.
    - rewrite held_app, Hh3, held_app, Hh2. simpl. clear -Fi0 Fi1 Fo0 Fo1 Hne Hne'. set_solver.
    - rewrite children_app, Hc3, children_app, Hc2. simpl. by rewrite (proj2 (Z.ltb_ge 0 pid)) by lia. }
  rewrite Z.max_r by lia. destruct (Z.eqb_spec pid 0) as [->|Hne0].
  { eapply wp_mono; [apply script_spec|]. intros r t (t' & x & -> & -> & Hh3). rewrite !app_assoc. apply In_script.
    rewrite !app_assoc, passed_app, Hh3, !passed_app. simpl. rewrite !(proj2 (Z.leb_le _ _)) by done.
    assert (in0 ∉ passed h ∧ in1 ∉ passed h ∧ out0 ∉ passed h ∧ out1 ∉ passed h) as (Gi0 & Gi1 & Go0 & Go1).
    { pose proof (passed_held h). clear -Fi0 Fi1 Fo0 Fo1 H. set_solver. }
    clear -Gi0 Gi1 Go0 Go1. set_solver. }
  set (t3 := [(Fork, pid)]).
  assert (held (((h ++ t1) ++ t2) ++ t3) = {[out1]} ∪ ({[out0]} ∪ ({[in1]} ∪ ({[in0]} ∪ held h)))) as Hhf by (by rewrite held_app, Hh2).
  assert (children (((h ++ t1) ++ t2) ++ t3) = {[pid]} ∪ children h) as Hcf.
  { rewrite children_app, Hc2. simpl. by rewrite (proj2 (Z.ltb_lt 0 pid)) by lia. }
  apply wp_bind. eapply wp_mono; [apply close_spec|]. intros r t4 (-> & Hh4 & Hc4 & _).
  apply wp_bind. eapply wp_mono; [apply nonblocking_cloexec_spec|]. intros r t5 [Ht5 [->|(-> & flags & r1 & Hin & Hr1)]].
  - apply wp_bind. eapply wp_mono; [apply close_spec|]. intros r t6 (-> & Hh6 & Hc6 & _).
    apply wp_bind, wp_int_call. intros r1 _. apply wp_bind, wp_int_call. intros r2 _. apply wp_ret. rewrite app_nil_r.
    change ([(Kill pid SIGKILL, r1)] ++ [(Waitpid pid, r2)]) with [(Kill pid SIGKILL, r1); (Waitpid pid, r2)].
    rewrite !app_assoc. apply Killed; rewrite ?app_assoc; [| |lia].
    + rewrite held_app, Hh6, held_app, still_held, held_app, Hh4, Hhf by done. simpl. clear -Fi0 Fi1 Fo0 Fo1 Hne Hne'. set_solver.
    + by rewrite children_app, Hc6, children_app, still_children, children_app, Hc4, Hcf by done.
  - apply wp_bind. eapply wp_mono; [apply close_spec|]. intros r t6 (-> & Hh6 & Hc6 & _).
    apply wp_bind. eapply wp_mono; [apply items_spec|]. intros r t7 (Ht7 & item & ->).
    apply wp_bind. apply wp_bind, wp_int_call. intros r2 _. apply wp_ret, wp_ret. rewrite !app_nil_r, !app_assoc.
    apply (Running _ _ _ _ _ out0 pid flags r1 r2 item); rewrite ?app_assoc; [exact Ho0|  |  |lia|  |exact Hr1].
    + unfold opens. split; [clear -Fo0; set_solver|]. rewrite !app_assoc. rewrite held_app, still_held, held_app, Hh6, held_app, still_held, held_app, Hh4, Hhf by done.
      simpl. clear -Fi0 Fi1 Fo0 Fo1 Hne Hne'. set_solver.
    + by rewrite children_app, still_children, children_app, Hc6, children_app, still_children, children_app, Hc4, Hcf by done.
    + apply elem_of_app. left. apply elem_of_app. left. apply elem_of_app. by right.
Qed.

End specs.

(** ** The result, from the answers *)

Definition answered_well (e : option (call * Z)) : bool := match e with Some (_, r) => (0 <=? r)%Z | None => false end.
Definition set_well (e : call * Z) : bool := match e with (Fcntl_setfl _ _, r) => (0 <=? r)%Z | _ => false end.

(** The answers that Cgi.v is given, read off the calls. *)
Definition spawn_seen (t : history) : spawn :=
  mk_spawn (answered_well (t !! 0)) (answered_well (t !! 2)) (answered_well (t !! 4)) (existsb set_well t).

Section result.
Context `{os : kernel}.

Definition sets_nothing (t : history) : Prop := existsb set_well t = false.

Lemma sets_nothing_app t t' : sets_nothing t → sets_nothing t' → sets_nothing (t ++ t').
Proof. unfold sets_nothing. rewrite existsb_app. by intros -> ->. Qed.

Lemma close_sets fds h : wp (close_all fds) h (λ r t, r = Returned tt ∧ sets_nothing t).
Proof.
  revert h. induction fds as [|fd fds IH]; intros h; cbn [close_all]; [by apply wp_ret|].
  apply wp_bind, wp_int_call. intros r _. eapply wp_mono; [apply IH|]. intros r' t (-> & Ht). split; [done|].
  by apply sets_nothing_app.
Qed.

Lemma nonblocking_sets fd h :
  wp (set_nonblocking_cloexec fd) h (λ r t, ∃ rc, r = Returned rc ∧ existsb set_well t = (rc =? 0)%Z).
Proof.
  apply wp_bind, wp_int_call. intros flags _. rewrite max_neg. destruct (Z.ltb_spec flags 0).
  { apply wp_ret. by eexists. }
  apply wp_bind, wp_int_call. intros r1 _. rewrite max_neg. destruct (Z.ltb_spec r1 0) as [Hlt|Hge].
  { apply wp_ret. eexists. split; [done|]. simpl. by rewrite (proj2 (Z.leb_gt _ _) Hlt). }
  apply wp_bind, wp_int_call. intros fdf _.
  destruct (0 <=? Z.max (-1) fdf)%Z; [apply wp_bind, wp_int_call; intros r2 _|]; apply wp_ret;
    (eexists; split; [done|]; simpl; by rewrite (proj2 (Z.leb_le _ _) Hge)).
Qed.

Lemma pipe_seen h :
  wp sys_pipe h (λ r t,
    r = Returned None ∧ (∃ e, (e < 0)%Z ∧ t = [(Pipe_read, e)]) ∨
    ∃ a b, r = Returned (Some (a, b)) ∧ (0 ≤ a)%Z ∧ t = [(Pipe_read, a); (Pipe_write, b)]).
Proof.
  apply wp_bind, wp_int_call. intros a _. rewrite max_neg. destruct (Z.ltb_spec a 0) as [Hlt|Hge].
  - apply wp_ret. left. split; [done|]. by exists a.
  - apply wp_bind, wp_call. intros b _. apply wp_ret. right. exists a, b. by rewrite Z.max_r by lia.
Qed.

(** The return code is the one of Cgi.v for these answers. *)
Definition same_code (r : outcome (Z * Z * Z * bool)) (t : history) : Prop :=
  match r with
  | Returned (rc, _, _, _) => ∀ timeout output c, (Cgi.zv_cgi_start (spawn_seen t) timeout output c).1.1 = rc
  | _ => True
  end.

Lemma code_spec epfd has_item filename name qs h :
  wp (zv_cgi_spawn epfd has_item filename name qs) h same_code.
Proof.
  assert (∀ env timeout output c, (Cgi.zv_cgi_start env timeout output c).1.1 =
    if in_pipe_ok env && out_pipe_ok env && fork_ok env && fcntl_ok env then 0%Z else (-1)%Z) as Hcode.
  { intros env timeout output c. unfold Cgi.zv_cgi_start. by destruct (_ && _). }
  apply wp_bind. eapply wp_mono; [apply pipe_seen|].
  intros r t1 [(-> & e & He & ->)|(in0 & in1 & -> & Hi0 & ->)].
  { apply wp_ret. intros timeout output c. rewrite Hcode. simpl. by rewrite (proj2 (Z.leb_gt _ _) He). }
  apply wp_bind. eapply wp_mono; [apply pipe_seen|].
  intros r t2 [(-> & e & He & ->)|(out0 & out1 & -> & Ho0 & ->)].
  { apply wp_bind. eapply wp_mono; [apply close_sets|]. intros r t3 (-> & _). apply wp_ret. intros timeout output c.
    rewrite Hcode. simpl. by rewrite (proj2 (Z.leb_gt _ _) He), andb_false_r. }
  apply wp_bind, wp_int_call. intros pid _. rewrite max_neg. destruct (Z.ltb_spec pid 0) as [Hneg|Hpos].
  { apply wp_bind. eapply wp_mono; [apply close_sets|]. intros r t3 (-> & _). apply wp_ret. intros timeout output c.
    rewrite Hcode. simpl. by rewrite (proj2 (Z.leb_gt _ _) Hneg), andb_false_r. }
  rewrite Z.max_r by lia. destruct (pid =? 0)%Z.
  { unfold run_script. apply wp_bind, wp_int_call; intros r0 _. apply wp_bind, wp_int_call; intros r1 _. apply wp_bind.
    eapply wp_mono; [apply close_sets|]. intros r t3 (-> & _). by apply wp_bind, wp_call. }
  apply wp_bind. eapply wp_mono; [apply close_sets|]. intros r t4 (-> & Ht4).
  apply wp_bind. eapply wp_mono; [apply nonblocking_sets|]. intros r t5 (rc & -> & Ht5).
  set (t0 := [(Pipe_read, in0); (Pipe_write, in1)] ++ [(Pipe_read, out0); (Pipe_write, out1)] ++ [(Fork, pid)]).
  assert (∀ t, sets_nothing t → ∀ timeout output c,
    (Cgi.zv_cgi_start (spawn_seen (t0 ++ t4 ++ t5 ++ t)) timeout output c).1.1 = if (rc =? 0)%Z then 0%Z else (-1)%Z) as Hend.
  { intros t Ht timeout output c. rewrite Hcode. cbn [spawn_seen in_pipe_ok out_pipe_ok fork_ok fcntl_ok].
    rewrite !existsb_app, Ht4, Ht5, Ht. simpl. rewrite !(proj2 (Z.leb_le _ _)) by done. simpl. by rewrite orb_false_r. }
  destruct (negb (rc =? 0)%Z) eqn:Erc.
  - apply wp_bind. eapply wp_mono; [apply close_sets|]. intros r t6 (-> & Ht6).
    apply wp_bind, wp_int_call; intros r0 _. apply wp_bind, wp_int_call; intros r1 _. apply wp_ret. rewrite app_nil_r. unfold same_code. intros timeout output c.
    apply negb_true_iff in Erc. rewrite Erc in Hend. apply (Hend (t6 ++ _)). by apply sets_nothing_app.
  - apply wp_bind. eapply wp_mono; [apply close_sets|]. intros r t6 (-> & Ht6).
    apply negb_false_iff in Erc. rewrite Erc in Hend. 
    apply wp_bind. assert (wp (ensure_cgi_items has_item) (((((((h ++ [(Pipe_read, in0); (Pipe_write, in1)]) ++ [(Pipe_read, out0); (Pipe_write, out1)]) ++
      [(Fork, pid)]) ++ t4) ++ t5) ++ t6)) (λ r t, sets_nothing t ∧ ∃ item, r = Returned item)) as Hitem.
    { destruct has_item; [by apply wp_ret; split; [|eexists]|]. apply wp_bind, wp_call. intros p _. by apply wp_ret; split; [|eexists]. }
    eapply wp_mono; [exact Hitem|]. intros r t7 (Ht7 & item & ->).
    apply wp_bind. apply wp_bind, wp_int_call. intros r2 _. apply wp_ret, wp_ret. unfold same_code. intros timeout output c.
    apply (Hend (t6 ++ t7 ++ _)). by repeat apply sets_nothing_app.
Qed.

End result.

(** ** The calls, one by one *)

(** The seven variables; a long query string or name is cut. *)
Definition script_environment (filename name : list Z) (query_string : option (list Z)) : list (list Z) :=
  [str "GATEWAY_INTERFACE=CGI/1.1"; str "SERVER_PROTOCOL=HTTP/1.1"; str "SERVER_SOFTWARE=Zaver"; str "REQUEST_METHOD=GET";
   take 1023 (str "QUERY_STRING=" ++ default [] query_string);
   take 1023 (str "SCRIPT_NAME=" ++ name);
   take 2047 (str "SCRIPT_FILENAME=" ++ filename)].

(** The input pipe of the script, from [i1] to [i0], and its output pipe, from [o1] to [o0]. *)
Definition pipes_made (i0 i1 o0 o1 : Z) : history := [(Pipe_read, i0); (Pipe_write, i1); (Pipe_read, o0); (Pipe_write, o1)].

(** [fd] is made non-blocking and then, if its flags can be read, close-on-exec; or this
    fails. *)
Definition made_nonblocking (fd : Z) (t : history) : Prop :=
  ∃ flags r1 fdflags rest, (0 ≤ flags)%Z ∧ (0 ≤ r1)%Z ∧
    t = [(Fcntl_getfl fd, flags); (Fcntl_setfl fd (Z.lor flags O_NONBLOCK), r1); (Fcntl_getfd fd, fdflags)] ++ rest ∧
    if (0 <=? fdflags)%Z then ∃ r2, rest = [(Fcntl_setfd fd (Z.lor fdflags FD_CLOEXEC), r2)] else rest = [].

Definition left_blocking (fd : Z) (t : history) : Prop :=
  (∃ flags, (flags < 0)%Z ∧ t = [(Fcntl_getfl fd, flags)]) ∨
  (∃ flags r, (0 ≤ flags)%Z ∧ (r < 0)%Z ∧ t = [(Fcntl_getfl fd, flags); (Fcntl_setfl fd (Z.lor flags O_NONBLOCK), r)]).

(** The item of the events, allocated if there is none. *)
Definition item_given (has_item item : bool) (t : history) : Prop :=
  if has_item then item = true ∧ t = [] else ∃ p, t = [(Malloc Cgi_item, p)] ∧ item = negb (p =? 0)%Z.

(** A pipe or [fork] fails; the child: its input is the read end of the one pipe, its output
    the write end of the other; the worker gives up, or keeps the read end of the output. *)
Inductive spawn_calls (epfd : Z) (has_item : bool) (filename : list Z) (envp : list (list Z)) :
    outcome (Z * Z * Z * bool) → history → Prop :=
  | No_input_pipe e :
      (e < 0)%Z → spawn_calls epfd has_item filename envp (Returned (-1, -1, -1, has_item)%Z) [(Pipe_read, e)]
  | No_output_pipe i0 i1 e t :
      (e < 0)%Z → t.*1 = Close <$> [i0; i1] →
      spawn_calls epfd has_item filename envp (Returned (-1, -1, -1, has_item)%Z)
        ([(Pipe_read, i0); (Pipe_write, i1)] ++ [(Pipe_read, e)] ++ t)
  | No_process i0 i1 o0 o1 e t :
      (e < 0)%Z → t.*1 = Close <$> [i0; i1; o0; o1] →
      spawn_calls epfd has_item filename envp (Returned (-1, -1, -1, has_item)%Z) (pipes_made i0 i1 o0 o1 ++ [(Fork, e)] ++ t)
  | Child i0 i1 o0 o1 r0 r1 t x :
      t.*1 = Close <$> [i0; i1; o0; o1] →
      spawn_calls epfd has_item filename envp (Exited (if (x <? 0)%Z then 127 else x)%Z)
        (pipes_made i0 i1 o0 o1 ++ [(Fork, 0%Z)] ++ [(Dup2 i0 0, r0); (Dup2 o1 1, r1)] ++ t ++
         [(Execve filename [filename] envp, x)])
  | Worker_gives_up i0 i1 o0 o1 pid t1 t2 t3 r1 r2 :
      (0 < pid)%Z → t1.*1 = Close <$> [i0; o1] → left_blocking o0 t2 → t3.*1 = Close <$> [i1; o0] →
      spawn_calls epfd has_item filename envp (Returned (-1, -1, -1, has_item)%Z)
        (pipes_made i0 i1 o0 o1 ++ [(Fork, pid)] ++ t1 ++ t2 ++ t3 ++ [(Kill pid SIGKILL, r1); (Waitpid pid, r2)])
  | Worker_goes_on i0 i1 o0 o1 pid t1 t2 t3 t4 item r :
      (0 < pid)%Z → t1.*1 = Close <$> [i0; o1] → made_nonblocking o0 t2 → t3.*1 = Close <$> [i1] →
      item_given has_item item t4 →
      spawn_calls epfd has_item filename envp (Returned (0, pid, o0, item)%Z)
        (pipes_made i0 i1 o0 o1 ++ [(Fork, pid)] ++ t1 ++ t2 ++ t3 ++ t4 ++
         [(Epoll_ctl epfd EPOLL_CTL_ADD o0 (Z.lor EPOLLIN EPOLLONESHOT), r)]).

Section trace.
Context `{os : kernel}.

Lemma close_calls fds h : wp (close_all fds) h (λ r t, r = Returned tt ∧ t.*1 = Close <$> fds).
Proof.
  revert h. induction fds as [|fd fds IH]; intros h; cbn [close_all]; [by apply wp_ret|].
  apply wp_bind, wp_int_call. intros r _. eapply wp_mono; [apply IH|]. intros r' t (-> & Ht). split; [done|].
  rewrite fmap_app, Ht. done.
Qed.

Lemma nonblocking_calls fd h :
  wp (set_nonblocking_cloexec fd) h (λ r t,
    r = Returned 0%Z ∧ made_nonblocking fd t ∨ r = Returned (-1)%Z ∧ left_blocking fd t).
Proof.
  apply wp_bind, wp_int_call. intros flags _. rewrite max_neg. destruct (Z.ltb_spec flags 0) as [Hlt|Hge].
  { apply wp_ret. right. split; [done|]. left. by exists flags. }
  apply wp_bind, wp_int_call. intros r1 _. rewrite max_neg. rewrite Z.max_r by lia. destruct (Z.ltb_spec r1 0) as [Hlt1|Hge1].
  { apply wp_ret. right. split; [done|]. right. by exists flags, r1. }
  apply wp_bind, wp_int_call. intros fdf _. replace (0 <=? Z.max (-1) fdf)%Z with (0 <=? fdf)%Z by ztests.
  destruct (Z.leb_spec 0 fdf) as [Hfd|Hfd].
  - rewrite Z.max_r by lia. apply wp_bind, wp_int_call; intros r2 _. apply wp_ret. left. split; [done|].
    eexists flags, r1, fdf, [_]. split; [done|]. split; [done|]. split; [done|]. rewrite (proj2 (Z.leb_le _ _)) by done. by eexists.
  - apply wp_ret. left. split; [done|]. eexists flags, r1, fdf, []. split; [done|]. split; [done|]. split; [done|].
    by rewrite (proj2 (Z.leb_gt _ _)).
Qed.

Lemma item_calls has_item h : wp (ensure_cgi_items has_item) h (λ r t, ∃ item, r = Returned item ∧ item_given has_item item t).
Proof.
  destruct has_item; [apply wp_ret; by eexists|]. apply wp_bind, wp_call. intros p _. apply wp_ret.
  eexists. split; [done|]. by exists p.
Qed.

Lemma environment_is filename name qs : cgi_environment filename name qs = script_environment filename name qs.
Proof. by destruct qs. Qed.

Lemma calls_spec epfd has_item filename name qs h :
  wp (zv_cgi_spawn epfd has_item filename name qs) h (spawn_calls epfd has_item filename (script_environment filename name qs)).
Proof.
  apply wp_bind. eapply wp_mono; [apply pipe_seen|].
  intros r t1 [(-> & e & He & ->)|(i0 & i1 & -> & Hi0 & ->)]; [by apply wp_ret, No_input_pipe|].
  apply wp_bind. eapply wp_mono; [apply pipe_seen|].
  intros r t2 [(-> & e & He & ->)|(o0 & o1 & -> & Ho0 & ->)].
  { apply wp_bind. eapply wp_mono; [apply close_calls|]. intros r t3 (-> & Ht). apply wp_ret. rewrite app_nil_r.
    by apply No_output_pipe. }
  apply wp_bind, wp_int_call. intros pid _. rewrite max_neg. destruct (Z.ltb_spec pid 0) as [Hneg|Hpos].
  { apply wp_bind. eapply wp_mono; [apply close_calls|]. intros r t3 (-> & Ht). apply wp_ret. rewrite app_nil_r.
    by apply (No_process _ _ _ _ i0 i1 o0 o1 pid). }
  rewrite Z.max_r by lia. destruct (Z.eqb_spec pid 0) as [->|Hne].
  { unfold run_script. apply wp_bind, wp_int_call; intros r0 _. apply wp_bind, wp_int_call; intros r1 _. apply wp_bind.
    eapply wp_mono; [apply close_calls|]. intros r t3 (-> & Ht). apply wp_bind, wp_call. intros x _. rewrite environment_is.
    unfold exit, wp. cbn [fst snd]. by apply (Child _ _ _ _ i0 i1 o0 o1 r0 r1 t3 x). }
  apply wp_bind. eapply wp_mono; [apply close_calls|]. intros r t4 (-> & Ht4).
  apply wp_bind. eapply wp_mono; [apply nonblocking_calls|]. intros r t5 [(-> & Hn)|(-> & Hn)]; cbn [Z.eqb negb].
  - apply wp_bind. eapply wp_mono; [apply close_calls|]. intros r t6 (-> & Ht6).
    apply wp_bind. eapply wp_mono; [apply item_calls|]. intros r t7 (item & -> & Hitem).
    apply wp_bind. apply wp_bind, wp_int_call. intros r2 _. apply wp_ret, wp_ret.
    apply (Worker_goes_on _ _ _ _ i0 i1 o0 o1 pid t4 t5 t6 t7 item r2); [lia|done..].
  - apply wp_bind. eapply wp_mono; [apply close_calls|]. intros r t6 (-> & Ht6).
    apply wp_bind, wp_int_call; intros r1 _. apply wp_bind, wp_int_call; intros r2 _. apply wp_ret.
    apply (Worker_gives_up _ _ _ _ i0 i1 o0 o1 pid t4 t5 t6 r1 r2); [lia|done..].
Qed.

End trace.

(** C35. A script is started as CGI says, and nothing leaks, whatever the system calls answer.
    The calls are exactly: two pipes and [fork]; in the child, [dup2] of the read end of the
    first pipe to its standard input and of the write end of the second to its standard
    output, the four ends closed, and the script executed with its name as only argument
    and the seven variables, or the exit with 127; in the worker, the child's ends closed,
    the read end of the output made non-blocking and close-on-exec, the other end of the
    input closed, and the read end registered with epoll - or everything closed and the
    child killed and waited for.  So either nothing is started, or the script is killed
    again, and then the worker has the descriptors it had before; or the script is one more
    child and the read end of its output the one new descriptor of the worker.  The code
    returned is that of the model in Cgi.v for what was answered.  The script inherits
    every descriptor of the worker that is not marked close-on-exec: not the pipes of other
    scripts, but the listening socket, the epoll instance and the connections. *)
Theorem cgi_spawn_exact `{os : kernel} epfd has_item filename name qs h :
  fresh_descriptors os → (∀ h, 0 ≤ answer h Pipe_write)%Z →
  let '(r, t) := zv_cgi_spawn epfd has_item filename name qs h in
  spawn_calls epfd has_item filename (script_environment filename name qs) r t ∧
  spawned epfd filename (script_environment filename name qs) h r t ∧ same_code r t.
Proof.
  intros Hf Hp. pose proof (spawn_spec Hf Hp epfd has_item filename name qs h) as Hs.
  pose proof (code_spec epfd has_item filename name qs h) as Hc. pose proof (calls_spec epfd has_item filename name qs h) as Ht.
  cbv zeta in Hs. rewrite environment_is in Hs. unfold wp in *. by destruct (zv_cgi_spawn epfd has_item filename name qs h).
Qed.

(** ** A concrete run: descriptors 0 to 5 are in use, and the pipe cannot be made non-blocking *)

Definition demo_before : history := (λ n, (Socket, Z.of_nat n)) <$> seq 0 6.
Definition demo_pipes : kernel := λ h c,
  match c with
  | Socket | Accept _ | Open _ | Epoll_create1 _ | Pipe_read | Pipe_write => next_fd h
  | Fork => 77
  | Fcntl_setfl _ _ => -1
  | Waitpid pid => pid
  | _ => 0
  end%Z.

Lemma demo_spawn_calls :
  zv_cgi_spawn (os := demo_pipes) 5 false (str "/cgi/a") (str "/cgi-bin/a") None demo_before =
  (Returned (-1, -1, -1, false)%Z,
   [(Pipe_read, 6); (Pipe_write, 7); (Pipe_read, 8); (Pipe_write, 9); (Fork, 77); (Close 6, 0); (Close 9, 0);
    (Fcntl_getfl 8, 0); (Fcntl_setfl 8 O_NONBLOCK, -1); (Close 7, 0); (Close 8, 0); (Kill 77 SIGKILL, 0); (Waitpid 77, 77)]%Z).
Proof. vm_compute. reflexivity. Qed.

Lemma demo_pipes_fresh : fresh_descriptors demo_pipes.
Proof. apply next_fd_fresh. intros h c Hc. by destruct c. Qed.

Lemma next_fd_pos h : (0 ≤ next_fd h)%Z.
Proof. unfold next_fd. induction h as [|e h IH]; simpl in *; lia. Qed.

Lemma cgi_spawn_exact_witness :
  let '(r, t) := zv_cgi_spawn (os := demo_pipes) 5 false (str "/cgi/a") (str "/cgi-bin/a") None demo_before in
  spawn_calls 5 false (str "/cgi/a") (script_environment (str "/cgi/a") (str "/cgi-bin/a") None) r t ∧
  spawned 5 (str "/cgi/a") (script_environment (str "/cgi/a") (str "/cgi-bin/a") None) demo_before r t ∧ same_code r t.
Proof.
  exact (cgi_spawn_exact (os := demo_pipes) 5 false (str "/cgi/a") (str "/cgi-bin/a") None demo_before demo_pipes_fresh next_fd_pos).
Defined.
