(* ===== verification/Resources.v ===== *)
(** * Descriptors and processes of the connections (worker.c, http.c, http_request.c, cgi.c)

    The models of the connections leave out the system calls that give out and take back
    what a connection holds: its socket, the file it sends, the pipe and the process of its
    script.  Here are the functions that make these calls, over [io], and the worker as any
    interleaving of them over any number of connections. *)
From S2P Require Import Prelude Cgi Syscall Spawn.

(** The items that epoll events point to, by the descriptor they name; NULL is [None]. *)
Record handles := mk_handles {
  h_fd : Z;
  h_file : Z;
  h_active : bool;
  h_pid : Z;
  h_in : Z;
  h_out : Z;
  conn_item : option Z;
  cgi_out_item : option Z;
}.
#[export] Instance eta_handles : Eta handles := fun c =>
  mk_handles (h_fd c) (h_file c) (h_active c) (h_pid c) (h_in c) (h_out c) (conn_item c) (cgi_out_item c).

Definition EPOLLET_ONESHOT : Z := Z.lor EPOLLET EPOLLONESHOT.
Definition IPPROTO_TCP : Z := 6.
Definition TCP_NODELAY : Z := 1.

Implicit Types (c : handles) (h t : history).

Section handlers.
Context {os : kernel}.

(** ** Accepting *)

(** The descriptors of [zv_init_request_t]; the items outlive the connection. *)
Definition zv_init_request_t (fd : Z) c : io handles :=
  item ← match conn_item c with
         | Some _ => mret true
         | None => p ← syscall (Malloc Epoll_item); mret (negb (p =? 0)%Z)
         end;
  mret (mk_handles fd (-1) false (-1) (-1) (-1) (if item : bool then Some fd else None)
          (match cgi_out_item c with Some _ => Some (-1)%Z | None => None end)).

(** [memset] of a new object. *)
Definition zeroed : handles := mk_handles 0 0 false 0 0 0 None None.

(** [cached]: the first object of the free list. *)
Definition zv_http_request_get (cached : option handles) (fd : Z) : io (option handles) :=
  match cached with
  | Some c => c ← zv_init_request_t fd c; mret (Some c)
  | None =>
      p ← syscall (Malloc Request_object);
      if (p =? 0)%Z then mret None else c ← zv_init_request_t fd zeroed; mret (Some c)
  end.

(** One turn of the accept loop, which ends on [None]. *)
Definition accept_one (epfd listenfd : Z) (cached : option handles) : io (option handles) :=
  infd ← int_call (Accept listenfd);
  if (infd <? 0)%Z then mret None
  else
    _ ← make_socket_non_blocking infd;
    _ ← int_call (Setsockopt infd IPPROTO_TCP TCP_NODELAY 1);
    req ← zv_http_request_get cached infd;
    match req with
    | None => _ ← int_call (Close infd); mret None
    | Some c =>
        match conn_item c with
        | None => _ ← int_call (Close infd); mret None
        | Some _ => _ ← zv_epoll_add epfd infd (Z.lor EPOLLIN EPOLLET_ONESHOT); mret (Some c)
        end
    end.

(** ** Responses *)

Definition reset_output c : io handles :=
  if (0 <=? h_file c)%Z then _ ← int_call (Close (h_file c)); mret (c <| h_file := (-1)%Z |>)
  else mret c.

Definition prepare_error c : io handles :=
  c ← reset_output c; mret (c <| h_file := (-1)%Z |>).

(** 304 has no file. *)
Definition prepare_static c (filename : list Z) (modified : bool) : io (Z * handles) :=
  c ← reset_output c;
  if negb modified then mret (0%Z, c <| h_file := (-1)%Z |>)
  else
    srcfd ← int_call (Open filename);
    if (srcfd <? 0)%Z then mret ((-1)%Z, c) else mret (0%Z, c <| h_file := srcfd |>).

(** ** Scripts *)

Definition zv_cgi_start (epfd : Z) c (filename name : list Z) (query_string : option (list Z)) : io (Z * handles) :=
  r ← zv_cgi_spawn epfd (bool_decide (is_Some (cgi_out_item c))) filename name query_string;
  let '(rc, pid, out, item) := r in
  if negb (rc =? 0)%Z then mret ((-1)%Z, c)
  else
    mret (0%Z, c <| h_active := true |> <| h_pid := pid |> <| h_in := (-1)%Z |> <| h_out := out |>
                 <| cgi_out_item := if item : bool then Some out else None |>).

(** The end of the output. *)
Definition on_eof c : io handles :=
  _ ← int_call (Close (h_out c)); mret (c <| h_out := (-1)%Z |>).

(** The response is complete. *)
Definition on_complete c : io handles :=
  if (0 <? h_pid c)%Z then _ ← int_call (Waitpid_nohang (h_pid c)); mret c else mret c.

(** ** Release *)

Definition free_script c : io handles :=
  if h_active c then
    _ ← (if (0 <? h_pid c)%Z then
           _ ← int_call (Kill (h_pid c) SIGKILL);
           _ ← int_call (Waitpid_nohang (h_pid c)); mret tt
         else mret tt : io unit);
    c ← (if (0 <=? h_in c)%Z then _ ← int_call (Close (h_in c)); mret (c <| h_in := (-1)%Z |>) else mret c : io handles);
    c ← (if (0 <=? h_out c)%Z then _ ← int_call (Close (h_out c)); mret (c <| h_out := (-1)%Z |>) else mret c : io handles);
    mret (c <| h_active := false |> <| h_pid := (-1)%Z |>)
  else mret c.

Definition zv_free_request_t c : io handles :=
  c ← (if (0 <=? h_file c)%Z then _ ← int_call (Close (h_file c)); mret (c <| h_file := (-1)%Z |>) else mret c : io handles);
  c ← free_script c;
  mret (c <| cgi_out_item := match cgi_out_item c with Some _ => Some (-1)%Z | None => None end |>).

Definition zv_http_close_conn c : io handles :=
  c ← zv_free_request_t c;
  _ ← int_call (Close (h_fd c));
  mret (c <| h_fd := (-1)%Z |>).

(** ** The worker *)

(** What an event of an open connection may do to its descriptors; a script is started only
    on a connection that has none, and its output ends only once. *)
Inductive handler_step (epfd : Z) c h : handles → history → Prop :=
  | Step_reset c' t : reset_output c h = (Returned c', t) → handler_step epfd c h c' t
  | Step_error c' t : prepare_error c h = (Returned c', t) → handler_step epfd c h c' t
  | Step_static filename modified rc c' t :
      prepare_static c filename modified h = (Returned (rc, c'), t) → handler_step epfd c h c' t
  | Step_script filename name qs rc c' t :
      h_active c = false → zv_cgi_start epfd c filename name qs h = (Returned (rc, c'), t) → handler_step epfd c h c' t
  | Step_eof c' t :
      h_active c = true → (0 ≤ h_out c)%Z → on_eof c h = (Returned c', t) → handler_step epfd c h c' t
  | Step_complete c' t : h_active c = true → on_complete c h = (Returned c', t) → handler_step epfd c h c' t.

(** The worker with its connections [cs], after the calls [h]. *)
Inductive worker_calls (epfd listenfd : Z) : history * list handles → history * list handles → Prop :=
  | Call_accept h cs cached r t :
      accept_one epfd listenfd cached h = (Returned r, t) →
      worker_calls epfd listenfd (h, cs) (h ++ t, match r with Some c => c :: cs | None => cs end)
  | Call_handler h cs1 c cs2 c' t :
      handler_step epfd c h c' t → worker_calls epfd listenfd (h, cs1 ++ c :: cs2) (h ++ t, cs1 ++ c' :: cs2)
  | Call_close h cs1 c cs2 c' t :
      zv_http_close_conn c h = (Returned c', t) → worker_calls epfd listenfd (h, cs1 ++ c :: cs2) (h ++ t, cs1 ++ cs2).

(** What a handler may do to the descriptors of the [k]-th connection, as a choice. *)
Inductive action :=
  | Accepts (cached : option handles)
  | Resets (k : nat)
  | Refuses (k : nat)
  | Sends (k : nat) (filename : list Z) (modified : bool)
  | Starts (k : nat) (filename name : list Z) (query_string : option (list Z))
  | Ends (k : nat)
  | Completes (k : nat)
  | Closes (k : nat).

(** The connection is replaced by what is left of it. *)
Definition on_conn (k : nat) (may : handles → bool) (f : handles → io (list handles)) (cs : list handles) : io (list handles) :=
  match cs !! k with
  | Some c => if may c then new ← f c; mret (take k cs ++ new ++ drop (S k) cs) else mret cs
  | None => mret cs
  end.

(** One choice carried out; nothing is done for what cannot happen. *)
Definition act (epfd listenfd : Z) (a : action) (cs : list handles) : io (list handles) :=
  match a with
  | Accepts cached => r ← accept_one epfd listenfd cached; mret (match r with Some c => c :: cs | None => cs end)
  | Resets k => on_conn k (λ _, true) (λ c, c ← reset_output c; mret [c]) cs
  | Refuses k => on_conn k (λ _, true) (λ c, c ← prepare_error c; mret [c]) cs
  | Sends k filename modified => on_conn k (λ _, true) (λ c, r ← prepare_static c filename modified; mret [r.2]) cs
  | Starts k filename name qs =>
      on_conn k (λ c, negb (h_active c)) (λ c, r ← zv_cgi_start epfd c filename name qs; mret [r.2]) cs
  | Ends k => on_conn k (λ c, h_active c && (0 <=? h_out c)%Z) (λ c, c ← on_eof c; mret [c]) cs
  | Completes k => on_conn k h_active (λ c, c ← on_complete c; mret [c]) cs
  | Closes k => on_conn k (λ _, true) (λ c, _ ← zv_http_close_conn c; mret []) cs
  end.

Fixpoint act_all (epfd listenfd : Z) (actions : list action) (cs : list handles) : io (list handles) :=
  match actions with
  | [] => mret cs
  | a :: rest => cs ← act epfd listenfd a cs; act_all epfd listenfd rest cs
  end.
End handlers.

(** ** Accounting *)

(** The descriptors [s] are those of [base] and of [l], each once. *)
Definition accounts (s base : gset Z) (l : list Z) : Prop := s = base ∪ list_to_set l ∧ base ## list_to_set l ∧ NoDup l.

(** The descriptor in a field, -1 for none. *)
Definition slot (fd : Z) : list Z := if (0 <=? fd)%Z then [fd] else [].

Definition owned c : list Z := slot (h_fd c) ++ slot (h_file c) ++ slot (h_in c) ++ slot (h_out c).

Definition all_owned (cs : list handles) : list Z := concat (owned <$> cs).

(** Without a script there are no pipes. *)
Definition conn_ok c : Prop := (0 ≤ h_fd c)%Z ∧ (h_active c = false → (h_in c < 0)%Z ∧ (h_out c < 0)%Z).

(** The process of the script. *)
Definition pids c : gset Z := if h_active c && (0 <? h_pid c)%Z then {[h_pid c]} else ∅.

Definition killed (p : Z) t : Prop := ∃ r, (Kill p SIGKILL, r) ∈ t.

#[global] Instance accounts_proper s base : Proper ((≡ₚ) ==> iff) (accounts s base).
Proof.
  intros l l' Hp. unfold accounts. assert (list_to_set l = (list_to_set l' : gset Z)) as -> by (by apply list_to_set_perm_L).
  by rewrite Hp.
Qed.

Lemma accounts_app s base l l' :
  accounts s base (l ++ l') ↔ accounts s (base ∪ list_to_set l') l ∧ base ## list_to_set l' ∧ NoDup l'.
Proof.
  unfold accounts. rewrite list_to_set_app_L, NoDup_app. split.
  - intros (-> & Hd & Hl & Hn & Hl'). split; [|split; [set_solver|done]]. split; [set_solver|]. split; [|done].
    intros x. rewrite elem_of_union, !elem_of_list_to_set. intros [Hb|Hx] Hy; [set_solver|by apply (Hn x)].
  - intros ((-> & Hd & Hl) & Hd' & Hl'). split; [set_solver|]. split; [set_solver|]. split; [done|]. split; [|done].
    intros x Hx Hx'. apply (Hd x); [|by apply elem_of_list_to_set]. apply elem_of_union_r. by apply elem_of_list_to_set.
Qed.

Lemma accounts_new s base l fd : fd ∉ s → accounts s base l → accounts ({[fd]} ∪ s) base (fd :: l).
Proof.
  unfold accounts. intros Hfd (-> & Hd & Hl). cbn [list_to_set]. apply not_elem_of_union in Hfd as [Hb Hn].
  split; [set_solver|]. split; [set_solver|]. constructor; [|done]. by rewrite elem_of_list_to_set in Hn.
Qed.

Lemma accounts_close s base l fd : accounts s base (fd :: l) → accounts (s ∖ {[fd]}) base l.
Proof.
  unfold accounts. cbn [list_to_set]. intros (-> & Hd & [Hn Hl]%NoDup_cons). rewrite <-(elem_of_list_to_set (C := gset Z)) in Hn.
  split; [set_solver|]. split; [set_solver|done].
Qed.

Lemma slot_neg fd : (fd < 0)%Z → slot fd = [].
Proof. intros Hfd. unfold slot. by rewrite (proj2 (Z.leb_gt _ _)). Qed.

Lemma slot_pos fd : (0 ≤ fd)%Z → slot fd = [fd].
Proof. intros Hfd. unfold slot. by rewrite (proj2 (Z.leb_le _ _)). Qed.

(** The descriptors other than that of one field. *)
Definition but_file c : list Z := slot (h_fd c) ++ slot (h_in c) ++ slot (h_out c).
Definition but_pipes c : list Z := slot (h_fd c) ++ slot (h_file c).

Lemma owned_file c : owned c ≡ₚ slot (h_file c) ++ but_file c.
Proof. unfold owned, but_file. solve_Permutation. Qed.

Lemma owned_pipes c : owned c ≡ₚ slot (h_in c) ++ slot (h_out c) ++ but_pipes c.
Proof. unfold owned, but_pipes. solve_Permutation. Qed.

Section specs.
Context `{os : kernel}.
Hypothesis fresh : fresh_descriptors os.
(** [pipe] stores both descriptors or fails. *)
Hypothesis both_ends : ∀ h, (0 ≤ answer h Pipe_write)%Z.
Implicit Types (base : gset Z).

(** The calls [t] keep the processes. *)
Definition no_child h t : Prop := children (h ++ t) = children h.

Lemma still_kept base h t l : Forall still t → accounts (held h) base l → accounts (held (h ++ t)) base l ∧ no_child h t.
Proof.
  intros Ht Hl. unfold no_child. by rewrite held_app, children_app, still_held, still_children.
Qed.

(** A field is closed if it has a descriptor. *)
Lemma field_closed {A} (a b : A) fd l base h :
  accounts (held h) base (slot fd ++ l) →
  wp (if (0 <=? fd)%Z then _ ← int_call (Close fd); mret a else mret b : io A) h (λ r t,
    r = Returned (if (0 <=? fd)%Z then a else b) ∧ accounts (held (h ++ t)) base l ∧ no_child h t).
Proof.
  intros Hl. unfold slot in Hl. destruct (0 <=? fd)%Z.
  - apply wp_bind, wp_int_call. intros r _. apply wp_ret. split; [done|]. unfold no_child. rewrite held_app, children_app.
    split; [|done]. by apply accounts_close.
  - apply wp_ret. split; [done|]. unfold no_child. by rewrite app_nil_r.
Qed.

(** What the calls [t] of a connection [c] leave: the descriptors of [c'] in the place of
    those of [c], and no child that is neither the script of [c'] nor killed. *)
Definition leaves base c h c' t : Prop :=
  accounts (held (h ++ t)) base (owned c') ∧ conn_ok c' ∧
  ∀ p, p ∈ children (h ++ t) → p ∈ pids c' ∨ killed p t ∨ (p ∈ children h ∧ p ∉ pids c).

Lemma same_children base c h c' t :
  accounts (held (h ++ t)) base (owned c') → conn_ok c' → no_child h t → pids c' = pids c → leaves base c h c' t.
Proof.
  intros Hl Hok Hc Ep. split; [done|]. split; [done|]. rewrite Hc, Ep. intros p Hp.
  destruct (decide (p ∈ pids c)); auto.
Qed.

Lemma reset_spec base c h :
  accounts (held h) base (owned c) →
  wp (reset_output c) h (λ r t, ∃ c', r = Returned c' ∧ (h_file c' < 0)%Z ∧ c' = c <| h_file := h_file c' |> ∧
    accounts (held (h ++ t)) base (but_file c) ∧ no_child h t).
Proof.
  rewrite owned_file. intros Hl. unfold reset_output. eapply wp_mono; [by apply field_closed|].
  intros r t (-> & Hl' & Hc). eexists. split; [reflexivity|]. destruct (Z.leb_spec 0 (h_file c)); simpl; (split; [lia|]);
    (split; [by destruct c|done]).
Qed.

Lemma file_leaves base c h t fd :
  accounts (held (h ++ t)) base (slot fd ++ but_file c) → conn_ok c → no_child h t →
  leaves base c h (c <| h_file := fd |>) t.
Proof. intros Hl Hok Hc. apply same_children; try done. by rewrite owned_file. Qed.

Lemma file_closed base c h t fd :
  accounts (held (h ++ t)) base (but_file c) → conn_ok c → no_child h t → (fd < 0)%Z →
  leaves base c h (c <| h_file := fd |>) t.
Proof. intros Hl Hok Hc Hfd. apply file_leaves; try done. by rewrite slot_neg. Qed.

Lemma reset_leaves base c h :
  accounts (held h) base (owned c) → conn_ok c →
  wp (reset_output c) h (λ r t, ∃ c', r = Returned c' ∧ leaves base c h c' t).
Proof.
  intros Hl Hok. eapply wp_mono; [by apply reset_spec|]. intros r t (c' & -> & Hf & -> & Hl' & Hc).
  eexists. split; [done|]. by apply file_closed.
Qed.

Lemma error_leaves base c h :
  accounts (held h) base (owned c) → conn_ok c →
  wp (prepare_error c) h (λ r t, ∃ c', r = Returned c' ∧ leaves base c h c' t).
Proof.
  intros Hl Hok. apply wp_bind. eapply wp_mono; [by apply reset_spec|]. intros r t (c' & -> & Hf & -> & Hl' & Hc).
  apply wp_ret. rewrite app_nil_r. eexists. split; [done|]. by apply (file_closed _ c).
Qed.

Lemma static_leaves base c filename modified h :
  accounts (held h) base (owned c) → conn_ok c →
  wp (prepare_static c filename modified) h (λ r t, ∃ rc c', r = Returned (rc, c') ∧ leaves base c h c' t).
Proof.
  intros Hl Hok. apply wp_bind. eapply wp_mono; [by apply reset_spec|]. intros r t (c' & -> & Hf & -> & Hl' & Hc).
  destruct modified; cbn [negb].
  2: { apply wp_ret. rewrite app_nil_r. eexists _, _. split; [done|]. by apply (file_closed _ c). }
  apply wp_bind, wp_int_call. intros fd Hfd. rewrite max_neg.
  assert (no_child h (t ++ [(Open filename, fd)])) as Hc2.
  { unfold no_child in *. by rewrite app_assoc, children_app, Hc. }
  destruct (Z.ltb_spec fd 0) as [Hneg|Hpos]; apply wp_ret; rewrite app_nil_r; eexists _, _; (split; [done|]).
  - apply file_closed; try done. rewrite app_assoc, held_app. simpl. by rewrite (proj2 (Z.leb_gt _ _)).
  - rewrite Z.max_r by lia. apply (file_leaves base c h _ fd); try done. rewrite slot_pos by done.
    rewrite app_assoc, held_app. simpl. rewrite (proj2 (Z.leb_le _ _)) by done. apply accounts_new; [|done].
    rewrite <-Hfd. apply fresh; [done|]. by rewrite Hfd.
Qed.

Lemma eof_leaves base c h :
  accounts (held h) base (owned c) → conn_ok c → h_active c = true → (0 ≤ h_out c)%Z →
  wp (on_eof c) h (λ r t, ∃ c', r = Returned c' ∧ leaves base c h c' t).
Proof.
  rewrite owned_pipes. intros Hl Hok Ha Ho. apply wp_bind, wp_int_call. intros r _. apply wp_ret.
  eexists. split; [done|]. apply same_children.
  - rewrite owned_pipes. simpl. rewrite held_app. rewrite (slot_pos (h_out c)) in Hl by done.
    rewrite (Permutation_app_comm (slot (h_in c))) in Hl. simpl in Hl. apply accounts_close in Hl.
    change (slot (-1)) with (@nil Z). simpl. by rewrite (Permutation_app_comm _ (slot (h_in c))) in Hl.
  - split; [apply Hok|]. intros Hf. simpl in Hf. congruence.
  - unfold no_child. by rewrite children_app.
  - done.
Qed.

Lemma waited h p r : children (h ++ [(Waitpid_nohang p, r)]) ⊆ children h.
Proof. rewrite children_app. simpl. set_solver. Qed.

Lemma complete_leaves base c h :
  accounts (held h) base (owned c) → conn_ok c → h_active c = true →
  wp (on_complete c) h (λ r t, ∃ c', r = Returned c' ∧ leaves base c h c' t).
Proof.
  intros Hl Hok Ha. unfold on_complete. destruct (0 <? h_pid c)%Z.
  - apply wp_bind, wp_int_call. intros r _. apply wp_ret. eexists. split; [done|]. split; [|split; [done|]].
    + by rewrite held_app.
    + intros p Hp%waited. destruct (decide (p ∈ pids c)); auto.
  - apply wp_ret. eexists. split; [done|]. apply same_children; rewrite ?app_nil_r; try done. unfold no_child. by rewrite app_nil_r.
Qed.

Lemma pids_none c : h_active c = false → pids c = ∅.
Proof. unfold pids. by intros ->. Qed.

Lemma start_leaves base epfd c filename name qs h :
  accounts (held h) base (owned c) → conn_ok c → h_active c = false →
  wp (zv_cgi_start epfd c filename name qs) h (λ r t,
    match r with Returned (_, c') => leaves base c h c' t | Exited _ => True | Lost => False end).
Proof.
  intros Hl [Hfd Hok] Ha. apply wp_bind. eapply wp_mono; [by apply spawn_spec|]. intros r t Hs.
  assert (∀ t', Forall still t' → held (h ++ t) = held h → accounts (held (h ++ t ++ t')) base (owned c)) as Hsame.
  { intros t' Ht' E. by rewrite app_assoc, held_app, still_held, E. }
  destruct Hs as [t item Eh Ec|t pid r1 r2 item Eh Ec Hp|t fd pid flags r1 r2 item Hf [Hd Eh] Ec Hp _ _|t r _]; [..|done].
  - apply wp_ret. apply same_children; [by apply Hsame|done|by unfold no_child; rewrite app_nil_r|done].
  - apply wp_ret. rewrite app_nil_r. split; [|split; [done|]].
    + rewrite app_assoc, held_app. simpl. by rewrite Eh.
    + intros p Hin. rewrite app_assoc, children_app, Ec in Hin. simpl in Hin.
      destruct (decide (p = pid)) as [->|Hne]; [right; left; eexists; apply elem_of_app; right; left|].
      rewrite pids_none by done. right. right. set_solver.
  - apply wp_ret. rewrite app_nil_r. split; [|split; [split; [done|by intros [=]]|]].
    + rewrite owned_pipes. simpl. rewrite app_assoc, held_app. simpl. rewrite Eh.
      rewrite slot_pos by done. simpl. apply accounts_new; [set_solver|]. destruct (Hok Ha) as [Hi Ho].
      rewrite owned_pipes, (slot_neg (h_in c)), (slot_neg (h_out c)) in Hl by done. exact Hl.
    + intros p Hin. rewrite app_assoc, children_app, Ec in Hin. simpl in Hin. rewrite (pids_none c) by done.
      apply elem_of_union in Hin as [Hin|Hin]; [left|right; right; set_solver].
      unfold pids. simpl. by rewrite (proj2 (Z.ltb_lt _ _)).
Qed.

(** ** Accepting and closing *)

Lemma init_opens fd c h :
  wp (zv_init_request_t fd c) h (λ r t, ∃ c', r = Returned c' ∧ Forall still t ∧
    owned c' = slot fd ∧ h_fd c' = fd ∧ h_active c' = false ∧ (h_in c' < 0)%Z ∧ (h_out c' < 0)%Z).
Proof.
  assert (∀ x, owned (mk_handles fd (-1) false (-1) (-1) (-1) x
    (match cgi_out_item c with Some _ => Some (-1)%Z | None => None end)) = slot fd) as Ho.
  { intros x. unfold owned. simpl. by rewrite app_nil_r. }
  apply wp_bind. destruct (conn_item c).
  - apply wp_ret, wp_ret. eexists. split; [done|]. split; [done|]. by rewrite Ho.
  - apply wp_bind, wp_call. intros p _. apply wp_ret, wp_ret. eexists. split; [done|]. split; [by repeat constructor|]. by rewrite Ho.
Qed.

Lemma get_opens cached fd h :
  wp (zv_http_request_get cached fd) h (λ r t, Forall still t ∧ (r = Returned None ∨ ∃ c, r = Returned (Some c) ∧
    owned c = slot fd ∧ h_fd c = fd ∧ h_active c = false ∧ (h_in c < 0)%Z ∧ (h_out c < 0)%Z)).
Proof.
  assert (∀ c h, wp (c ← zv_init_request_t fd c; mret (Some c)) h (λ r t, Forall still t ∧ ∃ c, r = Returned (Some c) ∧
    owned c = slot fd ∧ h_fd c = fd ∧ h_active c = false ∧ (h_in c < 0)%Z ∧ (h_out c < 0)%Z)) as Hinit.
  { intros c h'. apply wp_bind. eapply wp_mono; [apply init_opens|]. intros r t (c' & -> & Ht & Hc). apply wp_ret.
    rewrite app_nil_r. split; [done|]. by exists c'. }
  destruct cached as [c|]; [eapply wp_mono; [apply Hinit|]; intros r t [? ?]; auto|].
  apply wp_bind, wp_call. intros p _. destruct (p =? 0)%Z.
  - apply wp_ret. split; [by repeat constructor|by left].
  - eapply wp_mono; [apply Hinit|]. intros r t [Ht Hc]. split; [by constructor|by right].
Qed.

Lemma nonblocking_still fd h : wp (make_socket_non_blocking fd) h (λ r t, (∃ rc, r = Returned rc) ∧ Forall still t).
Proof.
  apply wp_bind, wp_int_call. intros flags _. case_match; [apply wp_ret|apply wp_bind, wp_int_call; intros s _; case_match; apply wp_ret];
    (split; [by eexists|by repeat constructor]).
Qed.

Lemma accept_spec base epfd listenfd cached h l :
  accounts (held h) base l →
  wp (accept_one epfd listenfd cached) h (λ r t, ∃ new, r = Returned new ∧ no_child h t ∧
    match new with
    | Some c => accounts (held (h ++ t)) base (owned c ++ l) ∧ conn_ok c
    | None => accounts (held (h ++ t)) base l
    end).
Proof.
  intros Hl. apply wp_bind, wp_int_call. intros fd Hfd. rewrite max_neg. destruct (Z.ltb_spec fd 0) as [Hneg|Hpos].
  { apply wp_ret. eexists. split; [done|]. unfold no_child. rewrite app_nil_r, held_app, children_app. split; [done|].
    simpl. by rewrite (proj2 (Z.leb_gt _ _)). }
  rewrite Z.max_r by lia. pose proof (fresh h (Accept listenfd) eq_refl) as Hnew. rewrite Hfd in Hnew. specialize (Hnew Hpos).
  assert (accounts (held (h ++ [(Accept listenfd, fd)])) base (fd :: l)) as Hl1.
  { rewrite held_app. simpl. rewrite (proj2 (Z.leb_le _ _)) by done. by apply accounts_new. }
  assert (children (h ++ [(Accept listenfd, fd)]) = children h) as Hc1 by (by rewrite children_app).
  set (h1 := h ++ _) in *. apply wp_bind. eapply wp_mono; [apply nonblocking_still|]. intros r t2 [[rc ->] Ht2].
  apply wp_bind, wp_int_call. intros r3 _. apply wp_bind. eapply wp_mono; [apply get_opens|]. intros r t4 [Ht4 Hr].
  set (calls := t2 ++ [(Setsockopt fd IPPROTO_TCP TCP_NODELAY 1, r3)] ++ t4).
  assert (Forall still calls) as Hcalls by (apply Forall_app; split; [done|by constructor]).
  assert (∀ t, Forall still t → held (h1 ++ calls ++ t) = held h1 ∧ children (h1 ++ calls ++ t) = children h) as Hkeep.
  { intros t Ht. assert (Forall still (calls ++ t)) by (by apply Forall_app).
    by rewrite held_app, still_held, children_app, still_children. }
  assert (wp (_ ← int_call (Close fd); mret (None : option handles)) ((h1 ++ t2 ++ [(Setsockopt fd IPPROTO_TCP TCP_NODELAY 1, r3)]) ++ t4)
    (λ r t, r = Returned None ∧ accounts (held (h1 ++ calls ++ t)) base l ∧ children (h1 ++ calls ++ t) = children h)) as Hclose.
  { apply wp_bind, wp_int_call. intros r5 _. apply wp_ret. split; [done|]. rewrite !app_nil_r, !(app_assoc h1 calls).
    destruct (Hkeep [] (Forall_nil_2 _)) as [E1 E2]. rewrite app_nil_r in E1, E2.
    rewrite held_app, children_app, E1, E2. split; [|done]. by apply accounts_close. }
  rewrite <-!app_assoc in Hclose |- *.
  assert (∀ t, [(Accept listenfd, fd)] ++ t2 ++ [(Setsockopt fd IPPROTO_TCP TCP_NODELAY 1, r3)] ++ t4 ++ t = [(Accept listenfd, fd)] ++ calls ++ t)
    as Ecalls by (intros t; unfold calls; by rewrite <-!app_assoc).
  destruct Hr as [->|(c & -> & Ho & Ef & Ha & Hi & Hout)].
  { eapply wp_mono; [exact Hclose|]. intros r t (-> & Hl' & Hc'). exists None. split; [done|]. unfold no_child.
    by rewrite Ecalls, app_assoc. }
  destruct (conn_item c).
  2: { eapply wp_mono; [exact Hclose|]. intros r t (-> & Hl' & Hc'). exists None. split; [done|]. unfold no_child.
       by rewrite Ecalls, app_assoc. }
  apply wp_bind. apply wp_bind, wp_int_call. intros r5 _. apply wp_ret, wp_ret. eexists. split; [done|]. unfold no_child.
  rewrite !app_nil_r, Ecalls, app_assoc. fold h1.
  destruct (Hkeep [(Epoll_ctl epfd EPOLL_CTL_ADD fd (Z.lor EPOLLIN EPOLLET_ONESHOT), r5)]) as [-> ->]; [by repeat constructor|].
  split; [done|]. rewrite Ho, slot_pos by done. split; [done|]. split; [by rewrite Ef|done].
Qed.

(** Killing and waiting. *)
Lemma kill_spec c h :
  wp (if (0 <? h_pid c)%Z then
        _ ← int_call (Kill (h_pid c) SIGKILL); _ ← int_call (Waitpid_nohang (h_pid c)); mret tt
      else mret tt : io unit) h (λ r t, r = Returned tt ∧ held (h ++ t) = held h ∧ children (h ++ t) ⊆ children h ∧
    ((0 < h_pid c)%Z → killed (h_pid c) t)).
Proof.
  destruct (Z.ltb_spec 0 (h_pid c)).
  - apply wp_bind, wp_int_call. intros r1 _. apply wp_bind, wp_int_call. intros r2 _. apply wp_ret. split; [done|].
    rewrite held_app, children_app. simpl. split; [done|]. split; [set_solver|]. intros _. eexists. by left.
  - apply wp_ret. rewrite app_nil_r. split_and!; try done. lia.
Qed.

Lemma killed_app p t t' : killed p t → killed p (t ++ t').
Proof. intros [r Hr]. exists r. apply elem_of_app. by left. Qed.

Lemma script_freed base c h :
  accounts (held h) base (owned c) → conn_ok c →
  wp (free_script c) h (λ r t, ∃ c', r = Returned c' ∧ h_fd c' = h_fd c ∧
    accounts (held (h ++ t)) base (but_pipes c) ∧ children (h ++ t) ⊆ children h ∧ ∀ p, p ∈ pids c → killed p t).
Proof.
  intros Hl [Hfd Hok]. rewrite owned_pipes in Hl. unfold free_script. destruct (h_active c) eqn:Ha.
  2: { destruct (Hok eq_refl) as [Hi Ho]. rewrite (slot_neg (h_in c)), (slot_neg (h_out c)) in Hl by done.
       apply wp_ret. rewrite app_nil_r. exists c. do 4 (split; [done|]). by rewrite (pids_none c Ha). }
  apply wp_bind. eapply wp_mono; [apply kill_spec|]. intros r t1 (-> & E1 & C1 & Hk). rewrite <-E1 in Hl.
  apply wp_bind. eapply wp_mono; [by apply field_closed|]. intros r t2 (-> & Hl2 & C2).
  set (c1 := if (0 <=? h_in c)%Z then _ else c). assert (h_out c1 = h_out c ∧ h_fd c1 = h_fd c) as [Eo Ef] by (by unfold c1; case_match).
  rewrite <-Eo in Hl2. apply wp_bind. eapply wp_mono; [by apply field_closed|]. intros r t3 (-> & Hl3 & C3).
  apply wp_ret. rewrite app_nil_r. eexists. split; [done|]. split; [simpl; by case_match|]. rewrite !app_assoc. split; [done|].
  unfold no_child in *. rewrite C3, C2. split; [done|]. intros p Hp. unfold pids in Hp. rewrite Ha in Hp. cbn [andb] in Hp.
  destruct (Z.ltb_spec 0 (h_pid c)); [|by apply not_elem_of_empty in Hp]. apply elem_of_singleton in Hp as ->.
  by do 2 apply killed_app; apply Hk.
Qed.

Lemma close_leaves base c h :
  accounts (held h) base (owned c) → conn_ok c →
  wp (zv_http_close_conn c) h (λ r t, ∃ c', r = Returned c' ∧ held (h ++ t) = base ∧
    ∀ p, p ∈ children (h ++ t) → killed p t ∨ (p ∈ children h ∧ p ∉ pids c)).
Proof.
  intros Hl Hok. pose proof (proj1 Hok) as Hfd. rewrite owned_file in Hl. apply wp_bind, wp_bind.
  eapply wp_mono; [by apply field_closed|]. intros r t1 (-> & Hl1 & C1).
  set (c1 := if (0 <=? h_file c)%Z then _ else c). assert (owned c1 ≡ₚ but_file c ∧ conn_ok c1 ∧ pids c1 = pids c ∧ h_fd c1 = h_fd c) as (Eo & Hok1 & Ep & Ef).
  { unfold c1. rewrite owned_file. destruct (Z.leb_spec 0 (h_file c)); [done|]. by rewrite slot_neg by done. }
  rewrite <-Eo in Hl1. apply wp_bind. eapply wp_mono; [by apply script_freed|]. intros r t2 (c2 & -> & Ef2 & Hl2 & C2 & Hk).
  apply wp_ret. apply wp_bind, wp_int_call. intros r3 _. apply wp_ret. eexists. split; [done|]. rewrite !app_nil_r.
  change (h_fd (c2 <| cgi_out_item := _ |>)) with (h_fd c2). rewrite Ef2, Ef in *. unfold no_child in C1. rewrite !app_assoc.
  assert (accounts (held ((h ++ t1) ++ t2)) base [h_fd c]) as Hl3.
  { unfold but_pipes in Hl2. rewrite Ef, slot_pos in Hl2 by done.
    assert (slot (h_file c1) = []) as E; [|by rewrite E in Hl2]. unfold c1. by destruct (Z.leb_spec 0 (h_file c)); [|apply slot_neg]. }
  split.
  - rewrite held_app. apply accounts_close in Hl3 as (E & _). simpl. rewrite E. simpl. set_solver.
  - intros p Hp. rewrite children_app in Hp. simpl in Hp. apply C2 in Hp. rewrite C1 in Hp.
    destruct (decide (p ∈ pids c)) as [Hin|Hout]; [left|by right]. rewrite Ep in Hk.
    destruct (Hk p Hin) as [r Hr]. exists r. apply elem_of_app. left. apply elem_of_app. by right.
Qed.

(** ** Any interleaving *)

Lemma handler_leaves base epfd c h c' t :
  accounts (held h) base (owned c) → conn_ok c → handler_step epfd c h c' t → leaves base c h c' t.
Proof.
  intros Hl Hok Hs. destruct Hs as [c' t E|c' t E|f m rc c' t E|f name qs rc c' t Ha E|c' t Ha Ho E|c' t Ha E].
  - pose proof (reset_leaves base c h Hl Hok) as Hw. unfold wp in Hw. rewrite E in Hw. by destruct Hw as (? & [= ->] & ?).
  - pose proof (error_leaves base c h Hl Hok) as Hw. unfold wp in Hw. rewrite E in Hw. by destruct Hw as (? & [= ->] & ?).
  - pose proof (static_leaves base c f m h Hl Hok) as Hw. unfold wp in Hw. rewrite E in Hw.
    by destruct Hw as (? & ? & [= -> ->] & ?).
  - pose proof (start_leaves base epfd c f name qs h Hl Hok Ha) as Hw. unfold wp in Hw. by rewrite E in Hw.
  - pose proof (eof_leaves base c h Hl Hok Ha Ho) as Hw. unfold wp in Hw. rewrite E in Hw. by destruct Hw as (? & [= ->] & ?).
  - pose proof (complete_leaves base c h Hl Hok Ha) as Hw. unfold wp in Hw. rewrite E in Hw. by destruct Hw as (? & [= ->] & ?).
Qed.

(** The calls since [h0]. *)
Definition worker_ok h0 (w : history * list handles) : Prop :=
  ∃ t, w.1 = h0 ++ t ∧ accounts (held w.1) (held h0) (all_owned w.2) ∧ Forall conn_ok w.2 ∧
    ∀ p, p ∈ children w.1 → p ∈ children h0 ∨ (∃ c, c ∈ w.2 ∧ p ∈ pids c) ∨ killed p t.

Lemma all_owned_middle cs1 c cs2 : all_owned (cs1 ++ c :: cs2) ≡ₚ owned c ++ all_owned (cs1 ++ cs2).
Proof. unfold all_owned. rewrite !fmap_app, !concat_app, fmap_cons. cbn [concat]. solve_Permutation. Qed.

(** A connection [c] becomes [new], the others stay. *)
Lemma worker_frame h0 h cs1 c cs2 new t :
  worker_ok h0 (h, cs1 ++ c :: cs2) →
  (∀ base, accounts (held h) base (owned c) → conn_ok c →
     accounts (held (h ++ t)) base (all_owned new) ∧ Forall conn_ok new ∧
     ∀ p, p ∈ children (h ++ t) → (∃ c', c' ∈ new ∧ p ∈ pids c') ∨ killed p t ∨ (p ∈ children h ∧ p ∉ pids c)) →
  worker_ok h0 (h ++ t, cs1 ++ new ++ cs2).
Proof.
  intros (t0 & Eh & Hl & Hok & Hch) Hc. cbn [fst snd] in *. subst h.
  rewrite all_owned_middle in Hl. apply accounts_app in Hl as (Hl & Hb & Hn).
  apply Forall_app in Hok as [Hok1 [Hokc Hok2]%Forall_cons]. destruct (Hc _ Hl Hokc) as (Hl' & Hok' & Hch').
  exists (t0 ++ t). cbn [fst snd]. split; [by rewrite app_assoc|]. split; [|split].
  - assert (all_owned (cs1 ++ new ++ cs2) ≡ₚ all_owned new ++ all_owned (cs1 ++ cs2)) as ->.
    { unfold all_owned. rewrite !fmap_app, !concat_app. solve_Permutation. }
    by apply accounts_app.
  - by repeat (apply Forall_app; split).
  - intros p Hp. destruct (Hch' p Hp) as [(c' & Hin & Hpid)|[[r Hr]|[Hin Hout]]].
    + right. left. exists c'. split; [|done]. apply elem_of_app. right. apply elem_of_app. by left.
    + right. right. exists r. apply elem_of_app. by right.
    + destruct (Hch p Hin) as [?|[(c' & Hc' & Hpid)|Hk]]; [by left|right; left|right; right; by apply killed_app].
      exists c'. split; [|done]. apply elem_of_app in Hc' as [?|[->|?]%elem_of_cons]; [apply elem_of_app; by left|done|].
      apply elem_of_app. right. apply elem_of_app. by right.
Qed.

Lemma worker_calls_ok epfd listenfd h0 w w' : worker_ok h0 w → worker_calls epfd listenfd w w' → worker_ok h0 w'.
Proof.
  intros Hw Hs. destruct Hs as [h cs cached r t E|h cs1 c cs2 c' t Hstep|h cs1 c cs2 c' t E].
  - destruct Hw as (t0 & Eh & Hl & Hok & Hch). cbn [fst snd] in *. subst h.
    pose proof (accept_spec _ epfd listenfd cached _ _ Hl) as Ha. unfold wp in Ha. rewrite E in Ha.
    destruct Ha as (new & [= ->] & Hc & Ha). exists (t0 ++ t). cbn [fst snd] in *. unfold no_child in Hc. rewrite Hc.
    split; [by rewrite app_assoc|].
    assert (∀ p, p ∈ children (h0 ++ t0) → p ∈ children h0 ∨ (∃ c, c ∈ cs ∧ p ∈ pids c) ∨ killed p (t0 ++ t)) as Hch'.
    { intros p Hp. destruct (Hch p Hp) as [?|[?|?]]; auto. right. right. by apply killed_app. }
    destruct new as [c|]; [|done]. destruct Ha as [Ha Hc']. split; [done|]. split; [by constructor|].
    intros p Hp. destruct (Hch' p Hp) as [?|[(c' & ? & ?)|?]]; auto. right. left. exists c'. split; [by right|done].
  - apply (worker_frame h0 h cs1 c cs2 [c'] t Hw). intros base Hl Hok.
    destruct (handler_leaves base epfd c h c' t Hl Hok Hstep) as (Hl' & Hok' & Hch). unfold all_owned. simpl. rewrite app_nil_r.
    split; [done|]. split; [by constructor|]. intros p Hp. destruct (Hch p Hp) as [?|?]; [left|by right].
    exists c'. by split; [left|].
  - apply (worker_frame h0 h cs1 c cs2 [] t Hw). intros base Hl Hok.
    pose proof (close_leaves base c h Hl Hok) as Hc. unfold wp in Hc. rewrite E in Hc. destruct Hc as (? & _ & Eh & Hch).
    cbn [fst snd] in *. split; [|split; [done|by intros p Hp; right; apply Hch]].
    unfold accounts. rewrite Eh. simpl. split; [set_solver|]. split; [set_solver|constructor].
Qed.

(** The calls of a turn, chosen in any way. *)
Lemma worker_still h0 h cs t : worker_ok h0 (h, cs) → Forall still t → worker_ok h0 (h ++ t, cs).
Proof.
  intros (t0 & E & Hl & Hok & Hch) Ht. cbn [fst snd] in *. subst h. exists (t0 ++ t). cbn [fst snd].
  rewrite held_app, children_app, still_held, still_children by done. split; [by rewrite app_assoc|].
  split; [done|]. split; [done|]. intros p Hp. destruct (Hch p Hp) as [?|[?|?]]; auto. right. right. by apply killed_app.
Qed.

(** Only a child of [fork] does not return: it becomes a script. *)
Definition goes_on (epfd listenfd : Z) (cs : list handles) h (r : outcome (list handles)) t : Prop :=
  match r with
  | Returned cs' => star (worker_calls epfd listenfd) (h, cs) (h ++ t, cs')
  | Exited rc => ∃ t' filename envp x, t = t' ++ [(Execve filename [filename] envp, x)] ∧ rc = (if (x <? 0)%Z then 127 else x)%Z
  | Lost => False
  end.

Lemma on_conn_spec epfd listenfd k may f cs h :
  (∀ c, may c = true → wp (f c) h (λ r t,
     match r with
     | Returned new => ∀ cs1 cs2, worker_calls epfd listenfd (h, cs1 ++ c :: cs2) (h ++ t, cs1 ++ new ++ cs2)
     | Exited rc => ∃ t' filename envp x, t = t' ++ [(Execve filename [filename] envp, x)] ∧ rc = (if (x <? 0)%Z then 127 else x)%Z
     | Lost => False
     end)) →
  wp (on_conn k may f cs) h (goes_on epfd listenfd cs h).
Proof.
  intros Hf. unfold on_conn. assert (wp (mret cs) h (goes_on epfd listenfd cs h)) as Hnone.
  { apply wp_ret. unfold goes_on. rewrite app_nil_r. constructor. }
  destruct (cs !! k) as [c|] eqn:Ec; [|done]. destruct (may c) eqn:Em; [|done].
  apply wp_bind. eapply wp_mono; [by apply Hf|]. intros [new|rc|] t; [|done..]. intros Hc. apply wp_ret.
  unfold goes_on. rewrite app_nil_r. rewrite <-(take_drop_middle cs k c Ec) at 1. by apply star_one.
Qed.

(** A function of one connection that only returns. *)
Lemma quiet_step epfd listenfd c (m : io handles) h :
  wp m h (λ r t, ∃ c', r = Returned c') →
  (∀ c' t, m h = (Returned c', t) → handler_step epfd c h c' t) →
  wp (c' ← m; mret [c']) h (λ r t,
    match r with
    | Returned new => ∀ cs1 cs2, worker_calls epfd listenfd (h, cs1 ++ c :: cs2) (h ++ t, cs1 ++ new ++ cs2)
    | Exited rc => ∃ t' filename envp x, t = t' ++ [(Execve filename [filename] envp, x)] ∧ rc = (if (x <? 0)%Z then 127 else x)%Z
    | Lost => False
    end).
Proof.
  intros Hm Hs. apply wp_bind. unfold wp at 1 in Hm. unfold wp at 1. destruct (m h) as [r t] eqn:E. cbn [fst snd] in *.
  destruct Hm as [c' ->]. apply wp_ret. rewrite app_nil_r. intros cs1 cs2. apply Call_handler. by apply Hs.
Qed.

Lemma wp_returns {A B} (m : io A) (f : A → io B) h :
  wp m h (λ r _, ∃ a, r = Returned a) → (∀ a h, wp (f a) h (λ r _, ∃ b, r = Returned b)) →
  wp (m ≫= f) h (λ r _, ∃ b, r = Returned b).
Proof. intros Hm Hf. apply wp_bind. eapply wp_mono; [exact Hm|]. intros r t [a ->]. apply Hf. Qed.

Lemma call_returns (e : call) h : wp (int_call e) h (λ r _, ∃ a, r = Returned a).
Proof. apply wp_int_call. intros r _. by eexists. Qed.

Ltac io_returns :=
  repeat (first [apply call_returns|apply wp_call; intros ? _; by eexists|apply wp_ret; by eexists|apply wp_returns; [|intros ? ?]|case_match]).

Lemma reset_returns c h : wp (reset_output c) h (λ r _, ∃ x, r = Returned x).
Proof. unfold reset_output. io_returns. Qed.

Lemma error_returns c h : wp (prepare_error c) h (λ r _, ∃ x, r = Returned x).
Proof. unfold prepare_error, reset_output. io_returns. Qed.

Lemma static_returns c filename modified h : wp (prepare_static c filename modified) h (λ r _, ∃ x, r = Returned x).
Proof. unfold prepare_static, reset_output. io_returns. Qed.

Lemma close_returns c h : wp (zv_http_close_conn c) h (λ r _, ∃ x, r = Returned x).
Proof. unfold zv_http_close_conn, zv_free_request_t, free_script. io_returns. Qed.

Lemma accept_returns epfd listenfd cached h : wp (accept_one epfd listenfd cached) h (λ r _, ∃ x, r = Returned x).
Proof.
  unfold accept_one, zv_http_request_get, zv_init_request_t, make_socket_non_blocking, zv_epoll_add, zv_epoll_ctl. io_returns.
Qed.

Lemma act_spec epfd listenfd a cs h : wp (act epfd listenfd a cs) h (goes_on epfd listenfd cs h).
Proof.
  destruct a as [cached|k|k|k filename modified|k filename name qs|k|k|k]; cbn [act].
  - apply wp_bind. pose proof (accept_returns epfd listenfd cached h) as Hr. unfold wp in Hr |- *.
    destruct (accept_one epfd listenfd cached h) as [r t] eqn:E. cbn [fst snd] in *. destruct Hr as [new ->].
    cbn [goes_on mret io_ret fst snd]. rewrite app_nil_r. apply star_one. by eapply Call_accept.
  - apply on_conn_spec. intros c _. apply quiet_step; [apply reset_returns|]. intros c' t. apply Step_reset.
  - apply on_conn_spec. intros c _. apply quiet_step; [apply error_returns|]. intros c' t. apply Step_error.
  - apply on_conn_spec. intros c _. apply wp_bind. pose proof (static_returns c filename modified h) as Hr. unfold wp in Hr |- *.
    destruct (prepare_static c filename modified h) as [r t] eqn:E. cbn [fst snd] in *. destruct Hr as [[rc c'] ->].
    cbn [mret io_ret fst snd]. rewrite app_nil_r. intros cs1 cs2. apply Call_handler. by eapply Step_static.
  - apply on_conn_spec. intros c Ha%negb_true_iff. apply wp_bind. unfold wp.
    destruct (zv_cgi_start epfd c filename name qs h) as [r t] eqn:E. cbn [fst snd].
    assert (wp (zv_cgi_start epfd c filename name qs) h (λ r t, match r with
      | Returned _ => True | Exited rc => ∃ t' filename envp x, t = t' ++ [(Execve filename [filename] envp, x)] ∧ rc = (if (x <? 0)%Z then 127 else x)%Z
      | Lost => False end)) as Hr.
    { apply wp_bind. eapply wp_mono; [by apply spawn_spec|]. intros r' t' Hs.
      destruct Hs; [by apply wp_ret..|]. eexists _, _, _, _. by split. }
    unfold wp in Hr. rewrite E in Hr. destruct r as [[rc c']|rc|]; [|done..].
    cbn [mret io_ret fst snd]. rewrite app_nil_r. intros cs1 cs2. apply Call_handler. by eapply Step_script.
  - apply on_conn_spec. intros c [Ha Ho%Z.leb_le]%andb_true_iff. apply quiet_step; [unfold on_eof; io_returns|].
    intros c' t. by apply Step_eof.
  - apply on_conn_spec. intros c Ha. apply quiet_step; [unfold on_complete; io_returns|]. intros c' t. by apply Step_complete.
  - apply on_conn_spec. intros c _. apply wp_bind. pose proof (close_returns c h) as Hr. unfold wp in Hr |- *.
    destruct (zv_http_close_conn c h) as [r t] eqn:E. cbn [fst snd] in *. destruct Hr as [c' ->].
    cbn [mret io_ret fst snd]. rewrite app_nil_r. intros cs1 cs2. by eapply Call_close.
Qed.

Lemma act_all_spec epfd listenfd actions cs h : wp (act_all epfd listenfd actions cs) h (goes_on epfd listenfd cs h).
Proof.
  revert cs h. induction actions as [|a actions IH]; intros cs h; cbn [act_all].
  - apply wp_ret. unfold goes_on. rewrite app_nil_r. constructor.
  - apply wp_bind. eapply wp_mono; [apply act_spec|]. intros [cs1|rc|] t; [|done..]. intros Hs.
    eapply wp_mono; [apply IH|]. intros [cs2|rc|] t2; unfold goes_on; [|intros (t' & f & e & x & -> & Hx)|done].
    + intros Hs2. rewrite app_assoc. by eapply star_trans.
    + exists (t ++ t'), f, e, x. by rewrite app_assoc.
Qed.
End specs.

(** C31. The worker neither leaks nor loses a descriptor, whatever the system calls answer and
    however the events of its connections interleave: besides those it had before, it holds
    exactly the sockets, files and pipes that the request objects of its open connections
    name, each named once, so that no two connections share one, none is closed twice, and
    when all connections are closed it holds what it held before.  And no script is
    forgotten while it runs: a child that is not the script of an open connection has
    been sent SIGKILL. *)
Theorem descriptors_accounted `{os : kernel} epfd listenfd h0 h cs :
  fresh_descriptors os → (∀ h, 0 ≤ answer h Pipe_write)%Z →
  star (worker_calls epfd listenfd) (h0, []) (h, cs) →
  held h = held h0 ∪ list_to_set (all_owned cs) ∧ held h0 ## list_to_set (all_owned cs) ∧ NoDup (all_owned cs) ∧
  ∀ p, p ∈ children h → p ∈ children h0 ∨ (∃ c, c ∈ cs ∧ p ∈ pids c) ∨ ∃ t, h = h0 ++ t ∧ killed p t.
Proof.
  intros Hf Hp Hs. assert (worker_ok h0 (h, cs)) as (t & E & (Hl & Hd & Hn) & _ & Hch).
  { eapply star_invariant; [exact (worker_calls_ok Hf Hp epfd listenfd h0)|exact Hs|]. exists []. cbn [fst snd].
    rewrite app_nil_r. split; [done|]. split; [|split; [constructor|by left]]. unfold accounts, all_owned. simpl.
    split; [set_solver|]. split; [set_solver|constructor]. }
  do 3 (split; [done|]). intros p Hpc. destruct (Hch p Hpc) as [?|[?|?]]; auto. right. right. by exists t.
Qed.

(** ** A concrete worker: a connection is accepted, its script is started, and it is closed *)

Definition demo_os : kernel := λ h e,
  if new_descriptor e then next_fd h
  else match e with Fork => 77 | Malloc _ => 1 | _ => 0 end%Z.

Definition result {A} (d : A) (r : outcome A * history) : A := match r.1 with Returned a => a | _ => d end.

Definition demo_accept := accept_one (os := demo_os) 4 3 None demo_before.
Definition demo_c1 : handles := default zeroed (result None demo_accept).
Definition demo_h1 : history := demo_before ++ demo_accept.2.
Definition demo_start := zv_cgi_start (os := demo_os) 4 demo_c1 (str "/cgi/a") (str "/cgi-bin/a") None demo_h1.
Definition demo_c2 : handles := (result (0%Z, zeroed) demo_start).2.
Definition demo_h2 : history := demo_h1 ++ demo_start.2.
Definition demo_close := zv_http_close_conn (os := demo_os) demo_c2 demo_h2.
Definition demo_h3 : history := demo_h2 ++ demo_close.2.

Lemma demo_accepts : demo_accept = (Returned (Some demo_c1), demo_accept.2).
Proof. vm_compute. reflexivity. Qed.

Lemma demo_starts : h_active demo_c1 = false ∧ demo_start = (Returned (0%Z, demo_c2), demo_start.2).
Proof. split; vm_compute; reflexivity. Qed.

Lemma demo_closes : demo_close = (Returned (result zeroed demo_close), demo_close.2).
Proof. vm_compute. reflexivity. Qed.

Example demo_owned : all_owned [demo_c2] = [6; 9]%Z.
Proof. vm_compute. reflexivity. Qed.

Lemma demo_os_fresh : fresh_descriptors demo_os.
Proof. apply next_fd_fresh. intros h e He. unfold answer, demo_os. by rewrite He. Qed.

Lemma demo_worker : star (worker_calls (os := demo_os) 4 3) (demo_before, []) (demo_h3, []).
Proof.
  pose proof (Call_accept (os := demo_os) 4 3 demo_before [] None _ _ demo_accepts) as H1.
  pose proof (Call_handler (os := demo_os) 4 3 demo_h1 [] demo_c1 [] demo_c2 _
    (Step_script (os := demo_os) 4 _ _ _ _ _ _ _ _ (proj1 demo_starts) (proj2 demo_starts))) as H2.
  pose proof (Call_close (os := demo_os) 4 3 demo_h2 [] demo_c2 [] _ _ demo_closes) as H3.
  exact (star_step _ _ _ _ (star_step _ _ _ _ (star_one _ _ _ H1) H2) H3).
Qed.

(** The descriptors are those of before. *)
Lemma descriptors_accounted_witness :
  star (worker_calls (os := demo_os) 4 3) (demo_before, []) (demo_h3, []) ∧
  held demo_h3 = held demo_before ∪ list_to_set (all_owned []).
Proof.
  split; [exact demo_worker|].
  exact (proj1 (descriptors_accounted (os := demo_os) 4 3 demo_before demo_h3 [] demo_os_fresh next_fd_pos demo_worker)).
Defined.
