(* ===== verification/Master.v ===== *)
(** * The master process and the placement of workers (process.c, worker.c)

    [zv_run_server] forks the workers, waits until one of them exits or a signal asks it to
    stop, and ends the others.  After [fork] the same code is run by the master and by the
    workers, whose histories differ in its answer; what a worker does is a parameter here.
    [maybe_set_cpu_affinity] chooses the processor of a worker from the set the process
    may run on. *)
From S2P Require Import Prelude Conf Cgi Syscall.

(** ** Processors *)

(** [sysconf(_SC_NPROCESSORS_ONLN)] is [n]. *)
Definition cpu_count (n : Z) : Z := if ((0 <? n) && (n <? 1024))%Z then n else 1.

(** A [cpu_set_t] is the list of its bits. *)
Fixpoint count_set (set : list bool) : nat :=
  match set with
  | [] => 0
  | b :: rest => (if b : bool then 1 else 0) + count_set rest
  end.

(** The second loop, at processor [cpu]. *)
Fixpoint pick_cpu (cpu pick : nat) (set : list bool) : option nat :=
  match set with
  | [] => None
  | b :: rest =>
      if negb b then pick_cpu (S cpu) pick rest
      else if pick =? 0 then Some cpu
      else pick_cpu (S cpu) (pick - 1) rest
  end.

(** The processor the worker binds itself to; [available] is what [sched_getaffinity]
    stores. *)
Definition maybe_set_cpu_affinity (affinity : Z) (available : option (list bool)) (worker_id : nat) : option nat :=
  if (affinity =? 0)%Z then None
  else
    match available with
    | None => None
    | Some set =>
        let n := count_set set in
        if n <=? 0 then None else pick_cpu 0 (worker_id mod n) set
    end.

(** ** The master *)

(** What [zv_run_server] does on [nprocs] processors: it runs worker 0 itself, or it is the master of [workers]
    processes. *)
Inductive server_mode := Single | Multi (workers : nat).

Definition mode_of {R} (cf : conf R) (nprocs : Z) : server_mode :=
  let w := workers cf in
  let w := if (w =? 0)%Z then cpu_count nprocs else w in
  let w := if (w <? 0)%Z then cpu_count nprocs else w in
  if (w <=? 1)%Z then Single else Multi (Z.to_nat w).

Section master.
(** [stopped]: a signal has set [zv_stop]; [worker]: what [zv_worker_run] does. *)
Context {os : kernel}.
Variables (stopped : history → bool) (worker : nat → io Z).

(** The [fork] loop: the array [pids] and [zv_stop]. *)
Fixpoint fork_loop (n i : nat) : io (list Z * bool) :=
  match n with
  | O => mret ([], false)
  | S n' =>
      pid ← int_call Fork;
      if (pid <? 0)%Z then mret (replicate n 0%Z, true)
      else if (pid =? 0)%Z then rc ← worker i; exit rc
      else r ← fork_loop n' (S i); mret (pid :: r.1, r.2)
  end.

(** The [waitpid] loop, for at most [turns] signals. *)
Fixpoint wait_loop (turns : nat) (stop : bool) : io unit :=
  h ← past;
  if stop || stopped h then mret tt
  else
    match turns with
    | O => lost
    | S turns' =>
        pid ← syscall (Waitpid (-1));
        if (pid =? - EINTR)%Z then wait_loop turns' stop else mret tt
    end.

(** The two loops over [pids]. *)
Fixpoint for_each (c : Z → call) (pids : list Z) : io unit :=
  match pids with
  | [] => mret tt
  | pid :: rest =>
      if (0 <? pid)%Z then _ ← int_call (c pid); for_each c rest else for_each c rest
  end.

Definition run_master (turns workers : nat) : io Z :=
  r ← zv_install_master_signals;
  if negb (r =? 0)%Z then mret 1%Z
  else
    p ← syscall (Malloc Pid_array);
    if (p =? 0)%Z then mret 1%Z
    else
      r ← fork_loop workers 0;
      _ ← wait_loop turns r.2;
      _ ← for_each (λ pid, Kill pid SIGTERM) r.1;
      _ ← for_each Waitpid r.1;
      _ ← syscall (Free p);
      mret 0%Z.

Definition zv_run_server {R} (cf : conf R) (nprocs : Z) (turns : nat) : io Z :=
  match mode_of cf nprocs with
  | Single => worker 0
  | Multi n => run_master turns n
  end.

End master.

(** ** The choice of a processor *)

Lemma pick_cpu_spec cpu pick set :
  pick < count_set set →
  ∃ k, pick_cpu cpu pick set = Some (cpu + k) ∧ set !! k = Some true ∧ count_set (take k set) = pick.
Proof.
  revert cpu pick. induction set as [|b set IH]; intros cpu pick Hp; simpl in Hp; [lia|]. cbn [pick_cpu].
  destruct b; cbn [negb]; [destruct (Nat.eqb_spec pick 0) as [->|Hne]|].
  - exists 0. by rewrite Nat.add_0_r.
  - destruct (IH (S cpu) (pick - 1)) as (k & E & Hs & Hc); [lia|]. exists (S k).
    rewrite E. simpl. rewrite Hc. split_and!; [f_equal; lia|done|lia].
  - destruct (IH (S cpu) pick) as (k & E & Hs & Hc); [lia|]. exists (S k).
    rewrite E. split_and!; [f_equal; lia|done|done].
Qed.

(** Two members of the set with as many members below them are the same. *)
Lemma rank_inj set k1 k2 :
  set !! k1 = Some true → set !! k2 = Some true → count_set (take k1 set) = count_set (take k2 set) → k1 = k2.
Proof.
  revert k1 k2. induction set as [|b set IH]; intros [|k1] [|k2] H1 H2; try done; simpl in *; simplify_eq; try lia.
  intros Hc. f_equal. apply IH; [done|done|lia].
Qed.

(** With [cpu_affinity] set, every worker binds itself to a processor it may run on, the
    one with [worker_id mod n] of the [n] available ones before it; so that two workers
    share a processor only when their numbers agree modulo [n], and the first [n] workers
    have [n] different ones. *)
Theorem affinity_spreads affinity set i j :
  affinity ≠ 0%Z → 0 < count_set set →
  ∃ a b, maybe_set_cpu_affinity affinity (Some set) i = Some a ∧ maybe_set_cpu_affinity affinity (Some set) j = Some b ∧
    set !! a = Some true ∧ count_set (take a set) = i mod count_set set ∧
    (a = b ↔ i mod count_set set = j mod count_set set).
Proof.
  intros Ha Hn. unfold maybe_set_cpu_affinity. rewrite (proj2 (Z.eqb_neq _ _) Ha), (proj2 (Nat.leb_gt _ _) Hn).
  destruct (pick_cpu_spec 0 (i mod count_set set) set) as (a & -> & Hsa & Hca); [by apply Nat.mod_upper_bound; lia|].
  destruct (pick_cpu_spec 0 (j mod count_set set) set) as (b & -> & Hsb & Hcb); [by apply Nat.mod_upper_bound; lia|].
  exists a, b. split_and!; try done. split; [intros ->; congruence|]. intros E. apply (rank_inj set); [done|done|congruence].
Qed.

Lemma affinity_spreads_witness :
  ∃ a b, maybe_set_cpu_affinity 1 (Some [false; true; true; false; true]) 1 = Some a ∧
    maybe_set_cpu_affinity 1 (Some [false; true; true; false; true]) 5 = Some b ∧ a = 2 ∧ b = 4.
Proof.
  destruct (affinity_spreads 1 [false; true; true; false; true] 1 5) as (a & b & Ea & Eb & _); [done|simpl; lia|].
  exists a, b. split; [exact Ea|]. split; [exact Eb|]. vm_compute in Ea, Eb. split; congruence.
Defined.

(** ** The calls of the master *)

Definition forks (pids : list Z) : history := (λ pid, (Fork, pid)) <$> pids.

(** How the process that is worker [k] ends. *)
Definition child_of (r : outcome Z) : outcome Z := match r with Returned rc => Exited rc | _ => r end.

(** In the master: [pids] are born, and [stop] is set if a [fork] failed. *)
Definition forked (n : nat) (pids : list Z) (stop : bool) (t : history) : Prop :=
  length pids = n ∧ stop = false ∧ t = forks pids ∨
  length pids < n ∧ stop = true ∧ ∃ e, (e < 0)%Z ∧ t = forks pids ++ [(Fork, e)].

Section master_specs.
Context `{os : kernel} (stopped : history → bool) (worker : nat → io Z).

(** In the worker after [pids]. *)
Definition in_child (i : nat) (h : history) (pids : list Z) (r : outcome Z) (t : history) : Prop :=
  ∃ w t', worker (i + length pids) (h ++ forks pids ++ [(Fork, 0%Z)]) = (w, t') ∧ r = child_of w ∧
    t = forks pids ++ (Fork, 0%Z) :: t'.

Lemma fork_spec n i h :
  wp (fork_loop worker n i) h (λ r t, ∃ pids, Forall (λ pid, 0 < pid)%Z pids ∧
    match r with
    | Returned (ps, stop) => filter (λ pid, 0 < pid)%Z ps = pids ∧ forked n pids stop t
    | Exited rc => length pids < n ∧ in_child i h pids (Exited rc) t
    | Lost => length pids < n ∧ in_child i h pids Lost t
    end).
Proof.
  revert i h. induction n as [|n IH]; intros i h; cbn [fork_loop].
  { apply wp_ret. exists []. split; [done|]. split; [done|]. by left. }
  apply wp_bind, wp_int_call. intros pid _. rewrite max_neg. destruct (Z.ltb_spec pid 0) as [Hneg|Hpos].
  { apply wp_ret. exists []. split; [done|]. split.
    - generalize (S n). intros k. induction k as [|k IHk]; [done|]. cbn [replicate]. by rewrite filter_cons_False by lia.
    - right. split; [simpl; lia|]. split; [done|]. by exists pid. }
  rewrite Z.max_r by lia. destruct (Z.eqb_spec pid 0) as [->|Hne].
  - apply wp_bind. unfold wp. destruct (worker i _) as [[rc|rc|] t'] eqn:Ew; simpl; exists []; (split; [done|]);
      (split; [simpl; lia|]); simpl in Ew; eexists _, t'; rewrite Nat.add_0_r, ?app_nil_r; split; try exact Ew; by split.
  - apply wp_bind. eapply wp_mono; [apply IH|]. intros r t (pids & Hpids & Hr). 
    assert (∀ r, in_child (S i) (h ++ [(Fork, pid)]) pids r t → in_child i h (pid :: pids) r ((Fork, pid) :: t)) as Hchild.
    { intros r' (w & t' & Ew & -> & ->). exists w, t'. simpl. rewrite Nat.add_succ_r. rewrite <-app_assoc in Ew. by split. }
    destruct r as [[ps stop]|rc|].
    + apply wp_ret. exists (pid :: pids). rewrite app_nil_r. destruct Hr as [Hps Hf]. split; [by constructor; [lia|]|].
      simpl. rewrite filter_cons_True, Hps by lia. split; [done|].
      destruct Hf as [(<- & -> & ->)|(Hl & -> & e & He & ->)]; [by left|right]. split; [simpl; lia|]. split; [done|]. by exists e.
    + exists (pid :: pids). split; [by constructor; [lia|]|]. destruct Hr as [Hl Hc]. split; [simpl; lia|by apply Hchild].
    + exists (pid :: pids). split; [by constructor; [lia|]|]. destruct Hr as [Hl Hc]. split; [simpl; lia|by apply Hchild].
Qed.

Definition interrupted (k : nat) : history := replicate k (Waitpid (-1), (- EINTR)%Z).

(** How [waitpid] of any child ends: it is not called any more, or it returns. *)
Definition awaited (turns : nat) (stop : bool) (h waited : history) : Prop :=
  ∃ k, k ≤ turns ∧
    (waited = interrupted k ∧ stop || stopped (h ++ waited) = true ∨
     ∃ pid, pid ≠ (- EINTR)%Z ∧ waited = interrupted k ++ [(Waitpid (-1), pid)]).

(** The master waits while it is only interrupted. *)
Lemma wait_spec turns stop h :
  wp (wait_loop stopped turns stop) h (λ r t,
    r = Lost ∧ stop = false ∧ t = interrupted turns ∨
    r = Returned tt ∧ awaited turns stop h t ∧ (stop = true → t = [])).
Proof.
  revert h. induction turns as [|turns IH]; intros h; cbn [wait_loop]; (apply wp_bind, wp_past; destruct (stop || stopped h) eqn:Es;
    [apply wp_ret; right; split; [done|]; split; [|done]; exists 0; split; [lia|]; left; split; [done|]; simpl; by rewrite app_nil_r|];
    apply orb_false_iff in Es as [Es Es']).
  { by left. }
  rewrite app_nil_r. apply wp_bind, wp_call. intros pid _. destruct (Z.eqb_spec pid (- EINTR)) as [->|Hne].
  - eapply wp_mono; [apply IH|]. intros r t [(-> & _ & ->)|(-> & (k & Hk & Ht) & _)]; [by left|right]. split; [done|].
    split; [|by rewrite Es]. exists (S k). split; [lia|]. rewrite <-app_assoc in Ht.
    destruct Ht as [[-> Hstop]|(pid & Hpid & ->)]; [by left|right]. by exists pid.
  - apply wp_ret. right. split; [done|]. split; [|by rewrite Es]. exists 0. split; [lia|]. right. by exists pid.
Qed.

Lemma for_each_spec c pids h :
  wp (for_each c pids) h (λ r t, r = Returned tt ∧ t.*1 = c <$> filter (λ pid, 0 < pid)%Z pids).
Proof.
  revert h. induction pids as [|pid pids IH]; intros h; cbn [for_each]; [by apply wp_ret|].
  destruct (Z.ltb_spec 0 pid); [rewrite filter_cons_True by lia|rewrite filter_cons_False by lia; apply IH].
  apply wp_bind, wp_int_call. intros r _. eapply wp_mono; [apply IH|]. intros r' t [-> Et]. split; [done|].
  by rewrite fmap_app, Et.
Qed.

(** What comes before the first [fork]. *)
Definition setup_calls : list call := [Sigaction SIGTERM On_term; Sigaction SIGINT On_term; Malloc Pid_array].

(** The processes that [zv_run_server] starts, for [n] workers: a master that has not
    started any, a worker, a master that waits, and one that has ended. *)
Inductive master_life (turns n : nat) (h : history) : outcome Z → history → Prop :=
  | Not_started setup :
      setup.*1 `prefix_of` setup_calls → master_life turns n h (Returned 1%Z) setup
  | Worker_process setup pids w t :
      setup.*1 = setup_calls → Forall (λ pid, 0 < pid)%Z pids → length pids < n →
      worker (length pids) (h ++ setup ++ forks pids ++ [(Fork, 0%Z)]) = (w, t) →
      master_life turns n h (child_of w) (setup ++ forks pids ++ (Fork, 0%Z) :: t)
  | Waiting setup pids :
      setup.*1 = setup_calls → Forall (λ pid, 0 < pid)%Z pids → length pids = n →
      master_life turns n h Lost (setup ++ forks pids ++ interrupted turns)
  | Ended setup pids stop born waited killed reaped e :
      setup.*1 = setup_calls → Forall (λ pid, 0 < pid)%Z pids → forked n pids stop born →
      awaited turns stop (h ++ setup ++ born) waited → (stop = true → waited = []) →
      killed.*1 = (λ pid, Kill pid SIGTERM) <$> pids → reaped.*1 = Waitpid <$> pids →
      (∃ p, e.1 = Free p) →
      master_life turns n h (Returned 0%Z) (setup ++ born ++ waited ++ killed ++ reaped ++ [e]).

Lemma install_calls h :
  wp install_common h (λ r t, (r = Returned (-1)%Z ∧ t.*1 `prefix_of` take 2 setup_calls) ∨
    r = Returned 0%Z ∧ t.*1 = take 2 setup_calls).
Proof.
  apply wp_bind, wp_int_call. intros r1 _. case_match; [apply wp_ret; left; split; [done|by exists [Sigaction SIGINT On_term]]|].
  apply wp_bind, wp_int_call. intros r2 _. by case_match; apply wp_ret; [left|right].
Qed.

Lemma master_lives turns n h : wp (run_master stopped worker turns n) h (master_life turns n h).
Proof.
  apply wp_bind. eapply wp_mono; [apply install_calls|]. intros r t0 [[-> Ht0]|[-> Ht0]].
  { apply wp_ret. rewrite app_nil_r. apply Not_started. etransitivity; [exact Ht0|]. by exists [Malloc Pid_array]. }
  apply wp_bind, wp_call. intros p _. assert ((t0 ++ [(Malloc Pid_array, p)]).*1 = setup_calls) as Hsetup.
  { by rewrite fmap_app, Ht0. }
  destruct (p =? 0)%Z; [apply wp_ret; rewrite app_nil_r; apply Not_started; by rewrite Hsetup|].
  rewrite <-app_assoc. set (setup := t0 ++ [(Malloc Pid_array, p)]) in *.
  assert (∀ t : history, t0 ++ [(Malloc Pid_array, p)] ++ t = setup ++ t) as Es by (intros t; unfold setup; by rewrite <-app_assoc).
  apply wp_bind. eapply wp_mono; [apply fork_spec|]. intros r born (pids & Hpids & Hr).
  assert (∀ r, length pids < n → in_child 0 (h ++ setup) pids r born → master_life turns n h r (setup ++ born)) as Hchild.
  { intros r' Hl (w & t' & Ew & -> & ->). apply Worker_process; [done..|]. by rewrite <-app_assoc in Ew. }
  destruct r as [[ps stop]|rc|]; [|rewrite Es; by apply Hchild; apply Hr..].
  destruct Hr as [Hps Hf]. cbn [fst snd]. apply wp_bind. eapply wp_mono; [apply wait_spec|].
  intros r waited [(-> & -> & ->)|(-> & Hw & Hw')].
  - rewrite Es. destruct Hf as [(Hl & _ & ->)|(_ & ? & _)]; [by apply Waiting|done].
  - apply wp_bind. eapply wp_mono; [apply for_each_spec|]. intros r killed [-> Hk].
    apply wp_bind. eapply wp_mono; [apply for_each_spec|]. intros r reaped [-> Hre].
    apply wp_bind, wp_call. intros x _. apply wp_ret. rewrite app_nil_r, Es. rewrite Hps in Hk, Hre.
    eapply Ended; try done; [by rewrite <-!app_assoc in Hw|]. by exists p.
Qed.

End master_specs.

(** C40. The master leaves no worker behind: it is the master of as many workers as configured,
    one per processor when the number is not positive, and forks workers 0, 1, ... up to
    the first [fork] that fails; each of them does what worker [k] does and exits with its
    result.  The master then waits while it is only interrupted and not asked to stop, and
    when it returns it has sent SIGTERM to every worker it started and then waited for
    every one of them, once each and in order. *)
Theorem master_ends_workers `{os : kernel} {R} stopped worker (cf : conf R) nprocs n turns h :
  mode_of cf nprocs = Multi n →
  (1 < n ∧ Z.of_nat n = if (0 <? workers cf)%Z then workers cf else cpu_count nprocs) ∧
  let '(r, t) := zv_run_server stopped worker cf nprocs turns h in master_life stopped worker turns n h r t.
Proof.
  intros Hmode. split.
  - unfold mode_of in Hmode. cbv zeta in Hmode. assert (0 < cpu_count nprocs)%Z as Hc by (unfold cpu_count; ztests).
    revert Hmode. ztests; intros [= <-]; lia.
  - unfold zv_run_server. rewrite Hmode. pose proof (master_lives stopped worker turns n h) as Hl. unfold wp in Hl.
    by destruct (run_master stopped worker turns n h).
Qed.

(** Three workers, with the numbers 100, 101 and 102; a signal interrupts the wait and then
    the second worker exits. *)
Definition calls_so_far (f : call → bool) (h : history) : Z := Z.of_nat (length (filter (λ e, f e.1 = true) h)).
Definition demo_kernel : kernel := λ h c,
  match c with
  | Malloc _ => 4096
  | Fork => 100 + calls_so_far (λ c, match c with Fork => true | _ => false end) h
  | Waitpid (-1) =>
      if (calls_so_far (λ c, match c with Waitpid _ => true | _ => false end) h =? 0)%Z then - EINTR else 101
  | _ => 0
  end%Z.
Definition demo_workers : conf nat := default_conf <| workers := 3%Z |>.
Abbreviation demo_server := (zv_run_server (os := demo_kernel) (λ _, false) (λ _, mret 0%Z) demo_workers 8 5 []).

Lemma demo_server_calls :
  demo_server = (Returned 0%Z,
    [(Sigaction SIGTERM On_term, 0); (Sigaction SIGINT On_term, 0); (Malloc Pid_array, 4096);
     (Fork, 100); (Fork, 101); (Fork, 102); (Waitpid (-1), - EINTR); (Waitpid (-1), 101);
     (Kill 100 SIGTERM, 0); (Kill 101 SIGTERM, 0); (Kill 102 SIGTERM, 0);
     (Waitpid 100, 0); (Waitpid 101, 0); (Waitpid 102, 0); (Free 4096, 0)]%Z).
Proof. vm_compute. reflexivity. Qed.

Lemma master_ends_workers_witness :
  mode_of demo_workers 8 = Multi 3 ∧
  let '(r, t) := demo_server in master_life (λ _, false) (λ _, mret 0%Z) 5 3 [] r t.
Proof.
  split; [reflexivity|].
  exact (proj2 (master_ends_workers (os := demo_kernel) (λ _, false) (λ _, mret 0%Z) demo_workers 8 3 5 [] eq_refl)).
Defined.
