(* ===== verification/Startup.v ===== *)
(** * The processes of the server (worker.c: zv_worker_run; zaver.c)

    What surrounds the event loop of Worker.v: a worker installs its signals, opens its
    listening socket and its epoll instance, turns the loop until it is asked to stop, and
    cleans up; [main] reads the options and the configuration file and starts the server.
    The loop waits with the call of Syscall.v and handles what the system reports with the
    turn of Worker.v; the calls that the handlers make on the descriptors of connections
    are those of Resources.v. *)
From S2P Require Import Prelude CString HeaderPool HttpParse Path PriorityQueue Timer DList RequestCache Sockets Output Cgi CgiStream Request Http Serve Server Syscall Spawn Resources Worker Conf Master.

(** ** Which handler an event calls *)

(** The descriptor of a connection, with the bits that epoll reports. *)
Inductive conn_handler := On_error | On_readable | On_writable | On_hangup.

Definition bit (ev mask : Z) : bool := negb (Z.land ev mask =? 0)%Z.

Definition conn_event (ev : Z) : option conn_handler :=
  if bit ev EPOLLERR then Some On_error
  else if bit ev EPOLLIN then Some On_readable
  else if bit ev EPOLLOUT then Some On_writable
  else if bit ev (Z.lor EPOLLHUP EPOLLRDHUP) then Some On_hangup
  else None.

(** The event of Server.v; a hang-up closes the connection as an error does. *)
Definition handles (hd : conn_handler) (ev : event) : Prop :=
  match ev with
  | Ev_in _ _ => hd = On_readable
  | Ev_out _ => hd = On_writable
  | Ev_error => hd = On_error ∨ hd = On_hangup
  | Ev_cgi | Ev_timer => False
  end.

(** ** A worker *)

Section startup.
Context `{HeaderPool P} {Q : Type → Type} `{PriorityQueue Q}.
Context {os : kernel}.
Variables (stat : list Z → option file_stat) (open : list Z → option (list Z))
  (realpath : list Z → option (list Z)) (fmt_time : Z → list Z) (strptime : list Z → option Z)
  (uninit : Z) (malloc_ok : bool) (spawn_env : spawn)
  (script : list Z → list Z → option (list Z) → pipe)
  (clock : nat → Z * Z) (tmalloc : nat → bool) (q : Q nat) (pool : P).
(** Whether SIGTERM or SIGINT has arrived, the array [events] after a wait, which of the
    functions of Resources.v the handlers of a turn call, and what [sched_getaffinity]
    stores. *)
Variables (stopped : history → bool) (ready : history → list report) (handled : history → list action)
  (available : option (list bool)).
Implicit Types (cf : conf (list Z)) (w : worker P Q) (h t : history) (cs : list Resources.handles).

Definition turn (ROOT : option (list Z)) cf : nat → list report → worker P Q → option (Z * worker P Q) :=
  worker_turn ROOT stat open realpath fmt_time strptime uninit malloc_ok spawn_env script clock tmalloc
    (conf_keep_alive_timeout_ms cf) (conf_request_timeout_ms cf).

(** The loop, for at most [turns] turns; the turn of Worker.v starts with the same search
    for the time of the wait.  [cs] are the descriptors of the open connections. *)
Fixpoint main_loop (fuel turns : nat) (ROOT : option (list Z)) cf (listenfd epfd events : Z) w cs
    : io (worker P Q * list Resources.handles) :=
  h ← past;
  if stopped h then mret (w, cs)
  else
    match turns with
    | O => lost
    | S turns' =>
        found ← step (zv_find_timer clock tmalloc (w_timers w));
        n ← zv_epoll_wait epfd events MAXEVENTS found.1;
        h ← past;
        r ← step (turn ROOT cf fuel (take (Z.to_nat n) (ready h)) w);
        cs ← act_all epfd listenfd (handled h) cs;
        main_loop fuel turns' ROOT cf listenfd epfd events r.2 cs
    end.

Definition set_affinity cf (worker_id : nat) : io unit :=
  match maybe_set_cpu_affinity (cpu_affinity cf) available worker_id with
  | None => mret tt
  | Some cpu => _ ← int_call (Sched_setaffinity cpu); mret tt
  end.

(** Up to the registration of the listening socket: it, the epoll instance and the array;
    [None] when the worker returns 1.  A NULL request or item is dereferenced. *)
Definition worker_setup cf (worker_id : nat) : io (option (Z * Z * Z)) :=
  r ← ignore_sigpipe;
  if negb (r =? 0)%Z then mret None
  else
    r ← zv_install_worker_signals;
    if negb (r =? 0)%Z then mret None
    else
      _ ← set_affinity cf worker_id;
      listenfd ← open_listenfd_reuseport (port cf);
      if (listenfd <? 0)%Z then mret None
      else
        _ ← make_socket_non_blocking listenfd;
        ep ← zv_epoll_create 0;
        request ← syscall (Malloc Request_object);
        if (request =? 0)%Z then lost
        else
          item ← syscall (Malloc Epoll_item);
          if (item =? 0)%Z then lost
          else
            _ ← zv_epoll_add ep.1 listenfd (Z.lor EPOLLIN EPOLLET);
            mret (Some (listenfd, ep.1, ep.2)).

(** [zv_http_request_put] of the listening object, and the descriptors. *)
Definition worker_cleanup (listenfd epfd events : Z) w : io Z :=
  _ ← step (zv_http_request_put (Some listen_request) (w_cache w));
  _ ← int_call (Close listenfd);
  _ ← int_call (Close epfd);
  if (events =? 0)%Z then mret 0%Z
  else _ ← syscall (Free events); mret 0%Z.

(** The connections that are open at the end are not closed.  A configuration without
    [root] leaves the NULL pointer with which every file name is refused. *)
Definition zv_worker_run (fuel turns : nat) cf (worker_id : nat) : io Z :=
  setup ← worker_setup cf worker_id;
  match setup with
  | None => mret 1%Z
  | Some (listenfd, epfd, events) =>
      w ← step (worker_start clock tmalloc q pool);
      r ← main_loop fuel turns (root cf) cf listenfd epfd events w [];
      worker_cleanup listenfd epfd events r.1
  end.

(** ** The command line *)

(** What [getopt_long] returns, with [optarg], and the other arguments. *)
Record arguments := mk_arguments { argc : nat; options : list (Z * list Z); operands : list (list Z) }.

Definition CONF : list Z := str "zaver.conf".

(** The [switch]: the message and the end, or the file. *)
Fixpoint parse_options (opts : list (Z * list Z)) (conf_file : list Z) : io (option (list Z)) :=
  match opts with
  | [] => mret (Some conf_file)
  | (opt, optarg) :: rest =>
      if (opt =? "c"%ch)%Z then parse_options rest optarg
      else if (opt =? "V"%ch)%Z then _ ← syscall (Print Version); mret None
      else if (opt =? ":"%ch)%Z || (opt =? "h"%ch)%Z || (opt =? "?"%ch)%Z then
        _ ← syscall (Print Usage); mret None
      else parse_options rest conf_file
  end.

Fixpoint print_operands (args : list (list Z)) : io unit :=
  match args with
  | [] => mret tt
  | arg :: rest => _ ← syscall (Print (Non_option arg)); print_operands rest
  end.

(** [files]: what [fopen] finds; [conf_buf], [cf0]: what the stack holds. *)
Definition main (files : list Z → option (list Z)) (conf_buf : list Z) (cf0 : conf nat) (nprocs : Z)
    (fuel turns : nat) (args : arguments) : io Z :=
  if argc args =? 1 then _ ← syscall (Print Usage); mret 0%Z
  else
    conf_file ← parse_options (options args) CONF;
    match conf_file with
    | None => mret 0%Z
    | Some conf_file =>
        match operands args with
        | _ :: _ => _ ← print_operands (operands args); mret 0%Z
        | [] =>
            r ← step (read_conf (files conf_file) cf0 conf_buf BUFLEN);
            let '(rc, buf, cf) := r in
            if negb (rc =? ZV_CONF_OK)%Z then mret 1%Z
            else
              let cf := view buf cf in
              zv_run_server stopped (zv_worker_run fuel turns cf) cf nprocs turns
        end
    end.

(** ** Start-up *)

Hypothesis fresh : fresh_descriptors os.

(** [pipe] stores both descriptors or fails. *)
Hypothesis both_ends : ∀ h, (0 ≤ answer h Pipe_write)%Z.

Lemma opens_after h t t' new : Forall neutral t → opens (h ++ t) t' new → opens h (t ++ t') new.
Proof.
  intros Ht Hn. rewrite <-(right_id_L ∅ (∪) new). eapply opens_app; [by apply opens_quiet|done].
Qed.

(** A failing [open_listenfd_reuseport] may leave its socket. *)
Lemma listen_opens port h :
  wp (open_listenfd_reuseport port) h (λ r t, listening port r t ∧
    (r = Returned (-1)%Z ∧ (opens h t ∅ ∨ ∃ fd, opens h t {[fd]}) ∨
     ∃ fd, (0 ≤ fd)%Z ∧ r = Returned fd ∧ opens h t {[fd]})).
Proof.
  pose proof (open_listenfd_calls port h) as Hspec. unfold wp.
  destruct (open_listenfd_reuseport port h) as [r t] eqn:E. destruct Hspec as [Hl Hh]. cbn [fst snd]. split; [done|].
  destruct Hl as [(e & He & -> & ->)|(fd & rs & Hfd & -> & _ & Hr)].
  - left. split; [done|]. left. apply opens_quiet. repeat constructor. intros s. simpl. by rewrite (proj2 (Z.leb_gt _ _)).
  - rewrite (proj2 (Z.leb_le _ _) Hfd) in Hh.
    assert (opens h ((Socket, fd) :: zip (listen_calls fd port) rs) {[fd]}) as Ho.
    { split; [|done]. pose proof (socket_first port h) as Hfirst. unfold wp in Hfirst. rewrite E in Hfirst. injection Hfirst as ->.
      pose proof (fresh h Socket eq_refl Hfd). set_solver. }
    destruct Hr as [(-> & _)|(-> & _)]; [right; by exists fd|left]. split; [done|]. right. by exists fd.
Qed.

(** *** The calls of the set-up, one by one *)

(** The signals of a worker are set. *)
Definition signals : history := [(Sigaction SIGPIPE Ignore, 0); (Sigaction SIGTERM On_term, 0); (Sigaction SIGINT On_term, 0)]%Z.

Definition affinity_calls cf (worker_id : nat) : list call :=
  match maybe_set_cpu_affinity (cpu_affinity cf) available worker_id with
  | Some cpu => [Sched_setaffinity cpu]
  | None => []
  end.

(** [O_NONBLOCK] is added to the flags of the descriptor, if they can be read. *)
Definition unblocked (fd : Z) t : Prop :=
  (∃ r, (r < 0)%Z ∧ t = [(Fcntl_getfl fd, r)]) ∨
  (∃ flags r, (0 ≤ flags)%Z ∧ t = [(Fcntl_getfl fd, flags); (Fcntl_setfl fd (Z.lor flags O_NONBLOCK), r)]).

(** The signals, the processor, the socket and its options, the epoll instance and the
    array. *)
Definition prepared cf worker_id (listenfd epfd events : Z) t : Prop :=
  ∃ bound rs nb e, bound.*1 = affinity_calls cf worker_id ∧ (0 ≤ listenfd)%Z ∧ length rs = 4 ∧ all_succeed rs ∧
    unblocked listenfd nb ∧ epfd = Z.max (-1) e ∧
    t = signals ++ bound ++ ((Socket, listenfd) :: zip (listen_calls listenfd (port cf)) rs) ++ nb ++
        [(Epoll_create1 0, e); (Malloc Event_array, events)].

(** The listening object and its item, with which the socket is registered. *)
Definition registers (listenfd epfd : Z) t : Prop :=
  ∃ p1 p2 r, (p1 ≠ 0)%Z ∧ (p2 ≠ 0)%Z ∧
    t = [(Malloc Request_object, p1); (Malloc Epoll_item, p2);
         (Epoll_ctl epfd EPOLL_CTL_ADD listenfd (Z.lor EPOLLIN EPOLLET), r)].

(** Memory is short for one of them. *)
Definition no_memory t : Prop :=
  t = [(Malloc Request_object, 0%Z)] ∨
  (∃ p, (p ≠ 0)%Z ∧ t = [(Malloc Request_object, p); (Malloc Epoll_item, 0%Z)]).

(** A signal cannot be set, or there is no listening socket. *)
Definition not_set_up cf worker_id t : Prop :=
  (∃ n e r, signals !! n = Some e ∧ (r ≠ 0)%Z ∧ t = take n signals ++ [(e.1, r)]) ∨
  (∃ bound t', bound.*1 = affinity_calls cf worker_id ∧ listening (port cf) (Returned (-1)%Z) t' ∧
     t = signals ++ bound ++ t').

(** The descriptors of a worker. *)
Definition ready_fds (listenfd epfd : Z) : gset Z := (if (0 <=? epfd)%Z then {[epfd]} else ∅) ∪ {[listenfd]}.

Definition set_up cf worker_id h (r : outcome (option (Z * Z * Z))) t : Prop :=
  r = Returned None ∧ not_set_up cf worker_id t ∧ (opens h t ∅ ∨ ∃ fd, opens h t {[fd]}) ∨
  ∃ listenfd epfd events t1 t2, t = t1 ++ t2 ∧ prepared cf worker_id listenfd epfd events t1 ∧
    opens h t (ready_fds listenfd epfd) ∧
    (r = Lost ∧ no_memory t2 ∨ r = Returned (Some (listenfd, epfd, events)) ∧ registers listenfd epfd t2).

Lemma affinity_spec cf worker_id h :
  wp (set_affinity cf worker_id) h (λ r t, r = Returned tt ∧ t.*1 = affinity_calls cf worker_id ∧ Forall neutral t).
Proof.
  unfold set_affinity, affinity_calls. destruct (maybe_set_cpu_affinity _ _ _); [|by apply wp_ret].
  apply wp_bind, wp_int_call. intros r _. apply wp_ret. split; [done|]. split; [done|]. by repeat constructor.
Qed.

Lemma unblocked_spec fd h :
  wp (make_socket_non_blocking fd) h (λ r t, (∃ rc, r = Returned rc) ∧ unblocked fd t ∧ Forall neutral t).
Proof.
  apply wp_bind, wp_int_call. intros flags _. destruct (Z.eqb_spec (Z.max (-1) flags) (-1)).
  - apply wp_ret. split; [by eexists|]. split; [left; exists flags; by split; [lia|]|by repeat constructor].
  - rewrite Z.max_r by lia. apply wp_bind, wp_int_call. intros r _.
    case_match; apply wp_ret; (split; [by eexists|]); (split; [right; exists flags, r; by split; [lia|]|by repeat constructor]).
Qed.

(** The first two handlers or the one that fails. *)
Lemma worker_signals_calls h :
  wp install_common h (λ r t,
    r = Returned 0%Z ∧ t = drop 1 signals ∨
    r = Returned (-1)%Z ∧ ∃ n e x, signals !! n = Some e ∧ (x ≠ 0)%Z ∧ 1 ≤ n ∧ t = drop 1 (take n signals) ++ [(e.1, x)]).
Proof.
  apply wp_bind, wp_int_call. intros r1 _. destruct (Z.eqb_spec (Z.max (-1) r1) 0) as [E1|N1]; cbn [negb].
  2: { apply wp_ret. right. split; [done|]. exists 1. eexists _, r1. split; [done|]. split; [lia|]. split; [lia|done]. }
  assert (r1 = 0)%Z as -> by lia. apply wp_bind, wp_int_call. intros r2 _.
  destruct (Z.eqb_spec (Z.max (-1) r2) 0) as [E2|N2]; cbn [negb]; apply wp_ret.
  - assert (r2 = 0)%Z as -> by lia. by left.
  - right. split; [done|]. exists 2. eexists _, r2. split; [done|]. split; [lia|]. split; [lia|done].
Qed.

(** From the listening socket to its registration. *)
Lemma listen_setup cf worker_id bound h (h0 := h ++ signals ++ bound) :
  bound.*1 = affinity_calls cf worker_id → Forall neutral bound →
  wp (listenfd ← open_listenfd_reuseport (port cf);
      if (listenfd <? 0)%Z then mret None
      else
        _ ← make_socket_non_blocking listenfd;
        ep ← zv_epoll_create 0;
        request ← syscall (Malloc Request_object);
        if (request =? 0)%Z then lost
        else
          item ← syscall (Malloc Epoll_item);
          if (item =? 0)%Z then lost
          else
            _ ← zv_epoll_add ep.1 listenfd (Z.lor EPOLLIN EPOLLET);
            mret (Some (listenfd, ep.1, ep.2))) h0
    (λ r t, set_up cf worker_id h r (signals ++ bound ++ t)).
Proof.
  intros Hb Hbn. assert (Forall neutral (signals ++ bound)) as Hpre by (apply Forall_app; split; [by repeat constructor|done]).
  assert (∀ t new, opens h0 t new → opens h (signals ++ bound ++ t) new) as Hafter.
  { intros t new Ho. rewrite app_assoc. by apply opens_after. }
  apply wp_bind. eapply wp_mono; [apply listen_opens|]. intros r t [Hl [(-> & Ho)|(fd & Hfd & -> & Ho)]].
  { apply wp_ret. rewrite app_nil_r. left. split; [done|]. split; [right; by exists bound, t|].
    destruct Ho as [Ho|[fd Ho]]; [left|right; exists fd]; by apply Hafter. }
  rewrite (proj2 (Z.ltb_ge fd 0)) by lia.
  destruct Hl as [(? & ? & [= ->] & _)|(fd' & rs & _ & -> & _ & [([= <-] & Hlen & Hrs)|([= ->] & _)])]; [lia| |lia].
  set (t := (Socket, fd) :: _) in *.
  apply wp_bind. eapply wp_mono; [apply unblocked_spec|]. intros r3 nb ((rc & ->) & Hnb & Hnbn).
  apply wp_bind. eapply wp_mono; [apply epoll_create_spec|]. intros r t4 (e & events & -> & -> & Hep).
  set (t4 := [_; _]) in *. assert (opens ((h0 ++ t) ++ nb) t4 (if (0 <=? e)%Z then {[e]} else ∅)) as Ho4.
  { apply (opens_app_quiet _ [(Epoll_create1 0, e)] [(Malloc Event_array, events)]); [by apply opens_new|by repeat constructor]. }
  assert (prepared cf worker_id fd (Z.max (-1) e) events (signals ++ bound ++ t ++ nb ++ t4)) as Hprep.
  { exists bound, rs, nb, e. by do 6 (split; [done|]). }
  assert (∀ t5, Forall neutral t5 → opens h (signals ++ bound ++ t ++ nb ++ t4 ++ t5) (ready_fds fd (Z.max (-1) e))) as Hall.
  { intros t5 Ht5. apply Hafter. rewrite !(assoc_L (++)). apply opens_app_quiet; [|done]. unfold ready_fds.
    replace (0 <=? Z.max (-1) e)%Z with (0 <=? e)%Z by ztests.
    assert ((if (0 <=? e)%Z then {[Z.max (-1) e]} else ∅) = (if (0 <=? e)%Z then {[e]} else ∅ : gset Z)) as ->.
    { destruct (Z.leb_spec 0 e); [|done]. by rewrite Z.max_r by lia. }
    eapply opens_app; [by apply opens_app_quiet|]. by rewrite (assoc_L (++)). }
  assert (∀ r t5, Forall neutral t5 →
    (r = Lost ∧ no_memory t5 ∨ r = Returned (Some (fd, Z.max (-1) e, events)) ∧ registers fd (Z.max (-1) e) t5) →
    set_up cf worker_id h r (signals ++ bound ++ t ++ nb ++ t4 ++ t5)) as Hup.
  { intros r t5 Ht5 Hr. right. exists fd, (Z.max (-1) e), events, (signals ++ bound ++ t ++ nb ++ t4), t5.
    split; [by rewrite <-!(assoc_L (++))|]. split; [done|]. split; [by apply Hall|done]. }
  apply wp_bind, wp_call. intros p1 _. destruct (Z.eqb_spec p1 0) as [->|H1].
  { apply (Hup _ [_]); [by repeat constructor|]. left. split; [done|by left]. }
  apply wp_bind, wp_call. intros p2 _. destruct (Z.eqb_spec p2 0) as [->|H2].
  { apply (Hup _ [_; _]); [by repeat constructor|]. left. split; [done|right; by exists p1]. }
  apply wp_bind, wp_bind, wp_int_call. intros r5 _. apply wp_ret, wp_ret.
  apply (Hup _ [_; _; _]); [by repeat constructor|]. right. split; [done|]. by exists p1, p2, r5.
Qed.

Lemma setup_spec cf worker_id h : wp (worker_setup cf worker_id) h (set_up cf worker_id h).
Proof.
  assert (∀ n e r t, signals !! n = Some e → (r ≠ 0)%Z → t = take n signals ++ [(e.1, r)] →
    set_up cf worker_id h (Returned None) t) as Hfail.
  { intros n e r t He Hr ->. left. split; [done|]. split; [left; by exists n, e, r|]. left. apply opens_quiet.
    destruct n as [|[|[|n]]]; [..|done]; injection He as <-; by repeat constructor. }
  unfold worker_setup. apply wp_bind. unfold ignore_sigpipe. apply wp_int_call. intros r0 _.
  destruct (Z.eqb_spec (Z.max (-1) r0) 0) as [E0|N0]; cbn [negb].
  2: { apply wp_ret. eapply (Hfail 0 _ r0); [done|lia|done]. }
  assert (r0 = 0)%Z as -> by lia.
  apply wp_bind. eapply wp_mono; [apply worker_signals_calls|].
  intros r t [(-> & ->)|(-> & n & e & x & He & Hx & Hn & ->)]; cbn [negb Z.eqb].
  2: { apply wp_ret. rewrite app_nil_r. eapply (Hfail n e x); [done|done|]. destruct n; [lia|done]. }
  apply wp_bind. eapply wp_mono; [apply affinity_spec|]. intros r bound (-> & Hb & Hbn).
  rewrite <-!(assoc_L (++)). change ([(Sigaction SIGPIPE Ignore, 0%Z)] ++ drop 1 signals ++ bound) with (signals ++ bound).
  eapply wp_mono; [by apply listen_setup|]. intros r t Hs. exact Hs.
Qed.

(** ** The loop *)

Hypothesis clock_mono : ∀ i j, i ≤ j → (msec (clock i) ≤ msec (clock j))%Z.
Hypothesis memory : ∀ n, tmalloc n = true.
Hypothesis pool_ok : hp_ok pool.

Notation worker_ok := (Worker.worker_ok (P := P) (Q := Q) clock).
Notation w_spins ROOT := (w_spins ROOT stat open realpath fmt_time strptime uninit malloc_ok spawn_env script).

(** The wait of a turn: the call with its answer. *)
Definition wait_of (epfd events time : Z) h : history :=
  let c := Epoll_wait epfd events MAXEVENTS time in [(c, answer h c)].

(** The events that the turn after the history [h] finds in the array. *)
Definition count_of (n : Z) : Z := if (n <? 0)%Z then if (n =? - EINTR)%Z then 0 else -1 else n.
Definition reported h : list report :=
  match reverse h with (Epoll_wait _ _ _ _, n) :: _ => take (Z.to_nat (count_of n)) (ready h) | _ => [] end.

(** The loop entered with history [h0] tests [zv_stop] for the [n]-th time with history [h],
    in state [w] and with the open connections [cs]: each turn is a wait for the time until
    the next deadline, the turn of Worker.v for what was reported, which is no socket closed
    before, and calls of Resources.v on the descriptors of the connections. *)
Inductive polled (ROOT : option (list Z)) cf (listenfd epfd events : Z) h0
    : nat → history → worker P Q → list Resources.handles → Prop :=
  | Polled_start w : worker_start clock tmalloc q pool = Some w → polled ROOT cf listenfd epfd events h0 0 h0 w []
  | Polled_turn n h w cs fuel time w' t cs' :
      polled ROOT cf listenfd epfd events h0 n h w cs → stopped h = false →
      current (reported (h ++ wait_of epfd events time h)) →
      turn ROOT cf fuel (reported (h ++ wait_of epfd events time h)) w = Some (time, w') →
      star (worker_calls epfd listenfd) (h ++ wait_of epfd events time h, cs) ((h ++ wait_of epfd events time h) ++ t, cs') →
      polled ROOT cf listenfd epfd events h0 (S n) ((h ++ wait_of epfd events time h) ++ t) w' cs'.

(** A turn begins in a polled state: after its wait the history is [h]. *)
Definition turn_begins (ROOT : option (list Z)) cf (listenfd epfd events : Z) h0 (turns : nat) h w : Prop :=
  ∃ n h1 cs time tm, polled ROOT cf listenfd epfd events h0 n h1 w cs ∧ n < turns ∧ stopped h1 = false ∧
    zv_find_timer clock tmalloc (w_timers w) = Some (time, tm) ∧ h = h1 ++ wait_of epfd events time h1.

(** epoll reports each descriptor once and only for what it is armed for, or a socket closed
    before whose registration is left; this is asked as long as no such socket has been
    reported. *)
Definition epoll_contract cf : Prop :=
  ∀ listenfd epfd events h0 turns h w, turn_begins (root cf) cf listenfd epfd events h0 turns h w → reports_ok w (reported h).

Lemma reported_wait epfd events time h :
  reported (h ++ wait_of epfd events time h) =
    take (Z.to_nat (count_of (answer h (Epoll_wait epfd events MAXEVENTS time)))) (ready (h ++ wait_of epfd events time h)).
Proof. unfold reported at 1. unfold wait_of at 1. by rewrite reverse_snoc. Qed.

Lemma wp_step {A B} (o : option A) (a : A) (f : A → io B) h (Q0 : outcome B → history → Prop) :
  o = Some a → wp (f a) h Q0 → wp (step o ≫= f) h Q0.
Proof. intros -> Hf. apply wp_bind, wp_ret. rewrite app_nil_r. exact Hf. Qed.

Lemma wp_any {A} (m : io A) h (Q0 : outcome A → history → Prop) : (∀ r t, Q0 r t) → wp m h Q0.
Proof. unfold wp. auto. Qed.

Lemma wp_wait {B} epfd events time (f : Z → io B) h h1 (Q0 : outcome B → history → Prop) :
  h1 = h ++ wait_of epfd events time h →
  wp (f (count_of (answer h (Epoll_wait epfd events MAXEVENTS time)))) h1
    (λ r t, Q0 r (wait_of epfd events time h ++ t)) →
  wp (zv_epoll_wait epfd events MAXEVENTS time ≫= f) h Q0.
Proof.
  intros -> Hf. apply wp_bind. unfold zv_epoll_wait. apply wp_bind, wp_call. intros n Hn.
  unfold wait_of, count_of in *. rewrite Hn in Hf. by destruct (n <? 0)%Z; apply wp_ret.
Qed.

Section loop.
Variables (cf : conf (list Z)) (listenfd epfd events : Z) (h0 : history) (turns : nat).
Hypothesis contract : epoll_contract cf.
Notation polled := (polled (root cf) cf listenfd epfd events h0).
Notation turn_begins := (turn_begins (root cf) cf listenfd epfd events h0).

(** How the loop ends, with the history then: it was asked to stop, its turns are over, a
    request spins, the process is the child of a handler that forked, or - then anything
    may follow - a socket closed before is reported. *)
Inductive loop_end : outcome (worker P Q * list Resources.handles) → history → Prop :=
  | Asked_to_stop n h w cs : polled n h w cs → n ≤ turns → stopped h = true → loop_end (Returned (w, cs)) h
  | Goes_on h w cs : polled turns h w cs → stopped h = false → loop_end Lost h
  | Spins h w i input answers :
      turn_begins turns h w → On i (Ev_in input answers) ∈ reported h → w_spins (root cf) i input w → loop_end Lost h
  | Forked h w t filename envp x :
      turn_begins turns h w →
      loop_end (Exited (if (x <? 0)%Z then 127 else x)%Z) (h ++ t ++ [(Execve filename [filename] envp, x)])
  | Stale r h w i ev t :
      turn_begins turns h w → Left i ev ∈ reported h → i ∈ w_left w → loop_end r (h ++ t).

Lemma polled_ok n h w cs : polled n h w cs → worker_ok w.
Proof.
  induction 1 as [w Hs|n h w cs fuel time w' t cs' Hp IH Hns Hcur Ht _]; [by eapply worker_start_ok|].
  destruct (turn_time _ _ _ _ _ _ _ _ _ _ _ _ _ _ _ _ _ _ _ Ht) as [tm Ef].
  eapply turn_returned; [exact clock_mono|exact memory|exact IH| |exact Hcur|exact Ht].
  apply (contract listenfd epfd events h0 (S n) _ w). exists n, h, cs, time, tm. by do 4 (split; [done || lia|]).
Qed.

Lemma polled_calls n h w cs : polled n h w cs → Resources.worker_ok h0 (h, cs).
Proof.
  induction 1 as [w Hs|n h w cs fuel time w' t cs' Hp IH Hns Hcur Ht Hcs].
  - exists []. cbn [fst snd]. rewrite app_nil_r. split; [done|]. split; [|split; [constructor|by left]].
    unfold accounts, all_owned. simpl. split; [set_solver|]. split; [set_solver|constructor].
  - eapply star_invariant; [exact (worker_calls_ok fresh both_ends epfd listenfd h0)|exact Hcs|].
    apply worker_still; [exact IH|]. by repeat constructor.
Qed.

Lemma main_loop_spec more n h w cs :
  polled n h w cs → n + more = turns →
  ∃ m, ∀ fuel, m < fuel →
    wp (main_loop fuel more (root cf) cf listenfd epfd events w cs) h (λ r t, loop_end r (h ++ t)).
Proof.
  revert n h w cs. induction more as [|more IH]; intros n h w cs Hp Hn.
  - exists 0. intros fuel _. cbn [main_loop]. apply wp_bind, wp_past. destruct (stopped h) eqn:Es.
    { apply wp_ret. cbn. rewrite app_nil_r. apply (Asked_to_stop n); [done|lia|done]. }
    unfold wp. cbn. rewrite app_nil_r.
    assert (n = turns) as -> by lia. by eapply Goes_on.
  - destruct (stopped h) eqn:Es.
    { exists 0. intros fuel _. cbn [main_loop]. apply wp_bind, wp_past. rewrite Es. apply wp_ret. cbn. rewrite app_nil_r.
      apply (Asked_to_stop n); [done|lia|done]. }
    destruct (find_deadline clock tmalloc clock_mono (w_timers w)) as (time & tm & Ef & _).
    { destruct (polled_ok n h w cs Hp) as [used Hinv]. apply (wi_resources _ _ _ _ _ Hinv). }
    set (h1 := h ++ wait_of epfd events time h).
    assert (turn_begins turns h1 w) as Hbegin by (exists n, h, cs, time, tm; by do 4 (split; [done || lia|])).
    pose proof (contract listenfd epfd events h0 turns h1 w Hbegin) as Hrep.
    assert (∀ fuel Q0, wp (r ← step (turn (root cf) cf fuel (reported h1) w);
        cs ← act_all epfd listenfd (handled h1) cs;
        main_loop fuel more (root cf) cf listenfd epfd events r.2 cs) h1 (λ r t, Q0 r (wait_of epfd events time h ++ t)) →
      wp (main_loop fuel (S more) (root cf) cf listenfd epfd events w cs) h Q0) as Hturn.
    { intros fuel Q0 Hw. cbn [main_loop]. apply wp_bind, wp_past. rewrite Es, app_nil_r.
      apply (wp_step _ (time, tm)); [exact Ef|]. apply (wp_wait _ _ _ _ _ h1); [done|].
      apply wp_bind, wp_past. rewrite app_nil_r. rewrite (reported_wait epfd events time h : reported h1 = _) in Hw.
      exact Hw. }
    destruct (current_dec (reported h1)) as [Hcur|(i & ev & Hin)].
    2: { exists 0. intros fuel _. apply Hturn, wp_any. intros r t. rewrite app_assoc. fold h1.
         apply (Stale _ h1 w i ev); [done|done|]. destruct Hrep as [Hrep _]. by destruct (proj1 (Forall_forall _ _) Hrep _ Hin). }
    destruct (turn_inv (root cf) stat open realpath fmt_time strptime uninit malloc_ok spawn_env script clock tmalloc
      (conf_keep_alive_timeout_ms cf) (conf_request_timeout_ms cf) clock_mono memory w (reported h1)
      (polled_ok n h w cs Hp) Hrep Hcur) as [(n1 & time' & w' & Ht & _)|(i & input & answers & Hin & Hspin & n1 & Ht)].
    + destruct (turn_time _ _ _ _ _ _ _ _ _ _ _ _ _ _ _ _ _ _ _ (Ht (S n1) ltac:(lia))) as [tm' Ef'].
      assert (time' = time) as -> by congruence.
      pose proof (act_all_spec fresh both_ends epfd listenfd (handled h1) cs h1) as Hact. unfold wp in Hact.
      destruct (act_all epfd listenfd (handled h1) cs h1) as [r t] eqn:Ea. cbn [fst snd] in Hact.
      assert (∀ fuel, n1 < fuel → ∀ Q0 : outcome (worker P Q * list Resources.handles) → history → Prop,
        match r with
        | Returned cs' => wp (main_loop fuel more (root cf) cf listenfd epfd events w' cs') (h1 ++ t)
            (λ r t', Q0 r (wait_of epfd events time h ++ t ++ t'))
        | Exited rc => Q0 (Exited rc) (wait_of epfd events time h ++ t)
        | Lost => Q0 Lost (wait_of epfd events time h ++ t)
        end → wp (main_loop fuel (S more) (root cf) cf listenfd epfd events w cs) h Q0) as Hrest.
      { intros fuel Hf Q0 Hr. apply Hturn. apply (wp_step _ (time, w')); [by apply Ht|]. apply wp_bind. unfold wp at 1. rewrite Ea.
        by destruct r. }
      destruct r as [cs'|rc|]; [|destruct Hact as (t' & filename & envp & x & -> & ->)|done].
      * destruct (IH (S n) (h1 ++ t) w' cs') as [m Hloop]; [|lia|].
        { eapply Polled_turn; [done|done|exact Hcur|apply (Ht (S n1)); lia|exact Hact]. }
        exists (max n1 m). intros fuel Hf. apply Hrest; [lia|]. eapply wp_mono; [apply Hloop; lia|].
        intros r t' Hr. unfold h1 in Hr. by rewrite <-!app_assoc in Hr.
      * exists n1. intros fuel Hf. apply Hrest; [done|]. rewrite app_assoc. fold h1. by eapply Forked.
    + exists n1. intros fuel Hf. apply Hturn. apply wp_bind. unfold turn. rewrite Ht by lia.
      change (loop_end Lost h1). by eapply Spins.
Qed.

(** The loop returns when it was asked to stop, or after a report of a closed socket. *)
Lemma loop_returned w cs h :
  loop_end (Returned (w, cs)) h →
  (∃ n, polled n h w cs ∧ n ≤ turns ∧ stopped h = true) ∨
  (∃ h1 w1 i ev t, turn_begins turns h1 w1 ∧ Left i ev ∈ reported h1 ∧ i ∈ w_left w1 ∧ h = h1 ++ t).
Proof.
  inversion 1; subst; [left; by eexists|]. right. by do 5 eexists.
Qed.

Lemma begun h w : turn_begins turns h w → ∃ t, h = h0 ++ t.
Proof.
  intros (n & h1 & cs & time & tm & Hp & _ & _ & _ & ->). destruct (polled_calls _ _ _ _ Hp) as (t & E & _).
  cbn [fst] in E. rewrite E, <-app_assoc. by eexists.
Qed.
End loop.

(** ** The whole process *)

(** The listening socket and the epoll instance are closed and the array is freed. *)
Definition cleaned (listenfd epfd events : Z) t : Prop :=
  ∃ r1 r2, t = [(Close listenfd, r1); (Close epfd, r2)] ∧ events = 0%Z ∨
           ∃ r3, t = [(Close listenfd, r1); (Close epfd, r2); (Free events, r3)] ∧ events ≠ 0%Z.

Lemma cleanup_spec listenfd epfd events w h :
  worker_ok w →
  wp (worker_cleanup listenfd epfd events w) h (λ r t,
    r = Returned 0%Z ∧ cleaned listenfd epfd events t ∧ held (h ++ t) = held h ∖ {[listenfd]} ∖ {[epfd]}).
Proof.
  intros [used Hinv]. destruct (wi_listen _ _ _ _ _ Hinv) as [Hl _]. destruct (wi_resources _ _ _ _ _ Hinv) as [_ Hrq].
  destruct (put_requests (w_cache w) used ∅ listen_request Hrq Hl) as (c & Ec & _).
  apply (wp_step _ c); [exact Ec|]. apply wp_bind, wp_int_call. intros r1 _. apply wp_bind, wp_int_call. intros r2 _.
  destruct (Z.eqb_spec events 0) as [->|Hev]; [apply wp_ret|apply wp_bind, wp_call; intros r3 _; apply wp_ret];
    (split; [done|]); (split; [|by rewrite held_app]); exists r1, r2; [by left|right; by exists r3].
Qed.

Lemma given_back listenfd epfd (before conns : gset Z) :
  ready_fds listenfd epfd ## before → ready_fds listenfd epfd ∪ before ## conns →
  (∀ x, x ∈ ready_fds listenfd epfd ∪ before ∪ conns → (0 ≤ x)%Z) →
  (ready_fds listenfd epfd ∪ before ∪ conns) ∖ {[listenfd]} ∖ {[epfd]} = before ∪ conns.
Proof.
  unfold ready_fds. intros D1 D2 Hpos. destruct (Z.leb_spec 0 epfd) as [Hep|Hep]; [clear -D1 D2; set_solver|].
  assert (epfd ∉ before ∪ conns) as Hni by (intros Hin; assert (0 ≤ epfd)%Z by (apply Hpos; set_solver); lia).
  clear -D1 D2 Hni. set_solver.
Qed.

(** How a worker ends: it could not start, memory was short, or it served - until it was
    asked to stop, or its turns were over, or as the loop ends otherwise. *)
Inductive worker_life (turns : nat) cf (worker_id : nat) h : outcome Z → history → Prop :=
  | Not_set_up t :
      not_set_up cf worker_id t → (opens h t ∅ ∨ ∃ fd, opens h t {[fd]}) →
      worker_life turns cf worker_id h (Returned 1%Z) t
  | Crashed listenfd epfd events t1 t2 :
      prepared cf worker_id listenfd epfd events t1 → no_memory t2 → worker_life turns cf worker_id h Lost (t1 ++ t2)
  | Stopped listenfd epfd events t1 t2 loop cleanup n w cs :
      prepared cf worker_id listenfd epfd events t1 → registers listenfd epfd t2 →
      polled (root cf) cf listenfd epfd events (h ++ t1 ++ t2) n ((h ++ t1 ++ t2) ++ loop) w cs → n ≤ turns →
      stopped ((h ++ t1 ++ t2) ++ loop) = true → cleaned listenfd epfd events cleanup →
      held (h ++ (t1 ++ t2) ++ loop ++ cleanup) = held h ∪ list_to_set (all_owned cs) →
      worker_life turns cf worker_id h (Returned 0%Z) ((t1 ++ t2) ++ loop ++ cleanup)
  | Unfinished listenfd epfd events t1 t2 loop (r : outcome (worker P Q * list Resources.handles)) r' :
      prepared cf worker_id listenfd epfd events t1 → registers listenfd epfd t2 →
      loop_end cf listenfd epfd events (h ++ t1 ++ t2) turns r ((h ++ t1 ++ t2) ++ loop) →
      r = Lost ∧ r' = Lost ∨ (∃ rc, r = Exited rc ∧ r' = Exited rc) →
      worker_life turns cf worker_id h r' ((t1 ++ t2) ++ loop)
  | Stale_report listenfd epfd events t1 t2 loop rest h' w i ev r :
      prepared cf worker_id listenfd epfd events t1 → registers listenfd epfd t2 →
      turn_begins (root cf) cf listenfd epfd events (h ++ t1 ++ t2) turns h' w → h' = (h ++ t1 ++ t2) ++ loop →
      Left i ev ∈ reported h' → i ∈ w_left w →
      worker_life turns cf worker_id h r ((t1 ++ t2) ++ loop ++ rest).

Lemma worker_lives turns cf worker_id h :
  epoll_contract cf →
  ∃ n, ∀ fuel, n < fuel → wp (zv_worker_run fuel turns cf worker_id) h (worker_life turns cf worker_id h).
Proof.
  intros Hcontract. destruct (worker_starts clock tmalloc memory q pool) as [w0 Hstart].
  pose proof (setup_spec cf worker_id h) as Hsetup. unfold wp in Hsetup.
  destruct (worker_setup cf worker_id h) as [r setup] eqn:Es. cbn [fst snd] in Hsetup.
  assert (∀ fuel (Q0 : outcome Z → history → Prop),
    match r with
    | Returned a => wp (match a with
        | None => mret 1%Z
        | Some (listenfd, epfd, events) =>
            r ← main_loop fuel turns (root cf) cf listenfd epfd events w0 []; worker_cleanup listenfd epfd events r.1
        end) (h ++ setup) (λ r' t', Q0 r' (setup ++ t'))
    | Exited rc => Q0 (Exited rc) setup
    | Lost => Q0 Lost setup
    end → wp (zv_worker_run fuel turns cf worker_id) h Q0) as Hrun.
  { intros fuel Q0 Hr. apply wp_bind. unfold wp at 1. rewrite Es. cbn [fst snd]. destruct r as [[[[fd ep] ev]|]|rc|]; [|done..].
    by apply (wp_step _ w0). }
  destruct Hsetup as [(-> & Hnot & Ho)|(fd & ep & events & t1 & t2 & -> & Hprep & Ho & [(-> & Hmem)|(-> & Hreg)])].
  - exists 0. intros fuel _. apply Hrun, wp_ret. rewrite app_nil_r. by apply Not_set_up.
  - exists 0. intros fuel _. apply Hrun. by eapply Crashed.
  - destruct (main_loop_spec cf fd ep events (h ++ t1 ++ t2) turns Hcontract turns 0 (h ++ t1 ++ t2) w0 []) as [n Hn];
      [by constructor|lia|].
    exists n. intros fuel Hf. apply Hrun. apply wp_bind. eapply wp_mono; [by apply Hn|].
    intros r loop Hr. destruct r as [[w cs]|rc|].
    2, 3: eapply Unfinished; [exact Hprep|exact Hreg|exact Hr|]; eauto.
    apply loop_returned in Hr as [(m & Hp & Hm & Hstop)|(h' & w' & i & ev & t & Hb & Hin & Hw & E)].
    + eapply wp_mono; [eapply cleanup_spec, polled_ok; [exact Hcontract|exact Hp]|].
      intros r cleanup (-> & Hclean & Hheld). eapply (Stopped _ _ _ _ fd ep events); try done.
      assert (h ++ (t1 ++ t2) ++ loop ++ cleanup = ((h ++ t1 ++ t2) ++ loop) ++ cleanup) as -> by (by rewrite <-!(assoc_L (++))).
      rewrite Hheld. apply polled_calls in Hp as (t & _ & (El & Hd & _) & _); [|exact Hcontract]. cbn [fst snd] in *.
      destruct Ho as [Hnew Eh]. rewrite El, Eh in *. apply given_back; [done|done|]. intros x. rewrite <-El. apply held_nonneg.
    + apply wp_any. intros r rest. destruct (begun cf fd ep events (h ++ t1 ++ t2) turns Hcontract _ _ Hb) as [t' ->].
      rewrite <-(app_assoc _ t') in E. apply app_inv_head in E as ->. rewrite <-(app_assoc t').
      by eapply (Stale_report _ _ _ _ fd ep events _ _ t' (t ++ rest)).
Qed.


(** ** The command line *)

(** Options that do not end the program, and the file that they choose. *)
Definition goes_on (o : Z * list Z) : Prop := o.1 ∉ ["V"%ch; ":"%ch; "h"%ch; "?"%ch].
Definition chosen (opts : list (Z * list Z)) : list Z :=
  foldl (λ f o, if (o.1 =? "c"%ch)%Z then o.2 else f) CONF opts.

Lemma bind_returned {A B} (m : io A) (f : A → io B) a h : m h = (Returned a, []) → (m ≫= f) h = f a h.
Proof. unfold mbind, io_bind. intros ->. rewrite app_nil_r. by destruct (f a h). Qed.

Lemma goes_on_tests opt optarg :
  goes_on (opt, optarg) →
  (opt =? "V"%ch)%Z = false ∧ (opt =? ":"%ch)%Z || (opt =? "h"%ch)%Z || (opt =? "?"%ch)%Z = false.
Proof.
  unfold goes_on. cbn [fst]. rewrite !not_elem_of_cons. intros (HV & Hc & Hh & Hq & _).
  by rewrite (proj2 (Z.eqb_neq _ _) HV), (proj2 (Z.eqb_neq _ _) Hc), (proj2 (Z.eqb_neq _ _) Hh), (proj2 (Z.eqb_neq _ _) Hq).
Qed.

Lemma options_spec opts conf_file h :
  Forall goes_on opts →
  parse_options opts conf_file h = (Returned (Some (foldl (λ f o, if (o.1 =? "c"%ch)%Z then o.2 else f) conf_file opts)), []).
Proof.
  intros Ho. revert conf_file. induction Ho as [|[opt optarg] opts Hg _ IH]; intros conf_file; [done|].
  cbn [parse_options foldl fst snd]. destruct (goes_on_tests _ _ Hg) as [-> ->].
  destruct (opt =? "c"%ch)%Z; apply IH.
Qed.

(** The option that ends the program. *)
Definition ending (opt : Z) : message := if (opt =? "V"%ch)%Z then Version else Usage.

Lemma ending_spec pre opt optarg rest conf_file h :
  Forall goes_on pre → ¬ goes_on (opt, optarg) →
  ∃ r, parse_options (pre ++ (opt, optarg) :: rest) conf_file h = (Returned None, [(Print (ending opt), r)]).
Proof.
  intros Hpre Ho. revert conf_file. induction Hpre as [|[o a] pre Hg _ IH]; intros conf_file.
  - unfold goes_on in Ho. simpl in Ho. unfold ending. cbn [app parse_options].
    assert (opt = "V"%ch ∨ opt = ":"%ch ∨ opt = "h"%ch ∨ opt = "?"%ch) as [->|[->|[->| ->]]]; [|by eexists..].
    destruct (decide (opt ∈ ["V"%ch; ":"%ch; "h"%ch; "?"%ch])) as [Hin|Hni]; [|by destruct Ho].
    rewrite !elem_of_cons, elem_of_nil in Hin. tauto.
  - cbn [app parse_options]. destruct (goes_on_tests _ _ Hg) as [-> ->].
    destruct (o =? "c"%ch)%Z; apply IH.
Qed.

Lemma operands_spec args h :
  ∃ t, print_operands args h = (Returned tt, t) ∧ t.*1 = (λ arg, Print (Non_option arg)) <$> args.
Proof.
  revert h. induction args as [|arg args IH]; intros h; cbn [print_operands]; [by exists []|].
  unfold mbind, io_bind. simpl. destruct (IH (h ++ [(Print (Non_option arg), answer h (Print (Non_option arg)))])) as (t & -> & Et).
  eexists. split; [done|]. cbn [fmap list_fmap]. f_equal. exact Et.
Qed.

(** C37. The program starts a server only as it was told to: without arguments it prints its
    usage; the first option that is not [-c] and the like ends it with the message that
    belongs to the option; arguments that are not options are printed; all of these
    return 0 before anything else is called.  Otherwise the file of the last [-c], or
    zaver.conf, is read, and the server runs with exactly the configuration that was read,
    or 1 is returned when it could not be. *)
Theorem main_exact files conf_buf (cf0 : conf nat) nprocs fuel turns args h :
  let run := main files conf_buf cf0 nprocs fuel turns args h in
  (argc args = 1 → ∃ r, run = (Returned 0%Z, [(Print Usage, r)])) ∧
  (argc args ≠ 1 → ∀ pre opt optarg rest,
     options args = pre ++ (opt, optarg) :: rest → Forall goes_on pre → ¬ goes_on (opt, optarg) →
     ∃ r, run = (Returned 0%Z, [(Print (ending opt), r)])) ∧
  (argc args ≠ 1 → Forall goes_on (options args) →
     (operands args ≠ [] → ∃ t, run = (Returned 0%Z, t) ∧ t.*1 = (λ arg, Print (Non_option arg)) <$> operands args) ∧
     (operands args = [] → ∃ rc buf (cf : conf nat),
        read_conf (files (chosen (options args))) cf0 conf_buf BUFLEN = Some (rc, buf, cf) ∧
        run = if decide (rc = ZV_CONF_OK)
              then zv_run_server stopped (zv_worker_run fuel turns (view buf cf)) (view buf cf) nprocs turns h
              else (Returned 1%Z, []))).
Proof.
  cbv zeta. unfold main. split; [|split].
  - intros ->. by eexists.
  - intros Hargc pre opt optarg rest Eo Hpre Ho. rewrite (proj2 (Nat.eqb_neq _ _) Hargc), Eo.
    destruct (ending_spec pre opt optarg rest CONF h Hpre Ho) as [r Er]. unfold mbind at 1, io_bind at 1. rewrite Er.
    by eexists.
  - intros Hargc Ho. rewrite (proj2 (Nat.eqb_neq _ _) Hargc).
    rewrite (bind_returned _ _ _ _ (options_spec _ CONF h Ho)). fold (chosen (options args)). split; intros Hop.
    + destruct (operands args) as [|arg args'] eqn:Ea; [done|].
      destruct (operands_spec (arg :: args') h) as (t & Et & Ec). unfold mbind, io_bind. rewrite Et.
      exists t. split; [|done]. simpl. by rewrite app_nil_r.
    + rewrite Hop. destruct (read_conf_total (files (chosen (options args))) cf0 conf_buf BUFLEN) as [[[rc buf] cf] E].
      exists rc, buf, cf. split; [done|]. rewrite E. rewrite (bind_returned _ _ (rc, buf, cf) h) by done.
      case_decide as Hrc; [by rewrite Hrc|]. by rewrite (proj2 (Z.eqb_neq _ _) Hrc).
Qed.

End startup.

(** ** Theorems *)

Lemma small_bits ev mask : Z.land ev mask = ev → (0 ≤ mask < 32)%Z → (0 ≤ ev < 32)%Z.
Proof.
  intros He Hm. assert (0 ≤ ev)%Z as Hev by (rewrite <-He; apply Z.land_nonneg; lia).
  split; [done|]. destruct (decide (ev = 0)%Z) as [->|]; [lia|]. change 32%Z with (2 ^ 5)%Z. apply Z.log2_lt_pow2; [lia|].
  destruct (decide (mask = 0)%Z) as [->|]; [rewrite Z.land_0_r in He; lia|].
  assert (Z.log2 mask < 5)%Z by (apply Z.log2_lt_pow2; simpl; lia).
  pose proof (Z.log2_land ev mask) as Hl. rewrite He in Hl. lia.
Qed.

(** C38. No event is lost and none reaches the wrong handler: whatever epoll reports of a
    connection - some of what its descriptor is armed for, an error and a hang-up - one
    handler is called, and what Server.v makes of that handler is an event that the
    connection waits for: [do_request] runs only when it is armed for input and [do_write]
    only when it is armed for output. *)
Theorem reported_event_handled {P} (s : slot P) armed ev :
  s_armed s = Some armed → armed = EPOLLIN ∨ armed = EPOLLOUT →
  ev ≠ 0%Z → Z.land ev (Z.lor armed (Z.lor EPOLLERR EPOLLHUP)) = ev →
  ∃ hd, conn_event ev = Some hd ∧ ∀ e, handles hd e → reportable e s.
Proof.
  intros Hs Ha Hne Hev.
  assert (∃ hd, conn_event ev = Some hd ∧ (hd = On_readable → armed = EPOLLIN) ∧ (hd = On_writable → armed = EPOLLOUT)) as
    (hd & -> & Hin & Hout).
  { assert (0 ≤ ev < 32)%Z as Hr by (eapply small_bits; [exact Hev|]; by destruct Ha as [->| ->]).
    set (ok := λ a e, (e =? 0)%Z || negb (Z.land e (Z.lor a (Z.lor EPOLLERR EPOLLHUP)) =? e)%Z ||
      match conn_event e with
      | Some On_readable => (a =? EPOLLIN)%Z | Some On_writable => (a =? EPOLLOUT)%Z | Some _ => true | None => false end).
    assert (ok armed ev = true) as Hok.
    { assert (forallb (ok armed) (seqZ 0 32) = true) as Hall by (by destruct Ha as [->| ->]).
      rewrite forallb_forall in Hall. apply Hall, list_elem_of_In, elem_of_seqZ. lia. }
    unfold ok in Hok. rewrite (proj2 (Z.eqb_neq ev 0) Hne), (proj2 (Z.eqb_eq _ _) Hev) in Hok. simpl in Hok.
    destruct (conn_event ev) as [[]|]; [..|done]; eexists; (split; [done|]); split; try done; intros _; by apply Z.eqb_eq. }
  exists hd. split; [done|]. intros e He. destruct e; simpl in *.
  - by rewrite Hs, Hin.
  - by rewrite Hs, Hout.
  - by destruct He.
  - rewrite Hs. by eexists.
  - by destruct He.
Qed.


(** ** A concrete run: a worker accepts two connections and is stopped *)

Definition count_waits : history → Z := calls_so_far (λ c, match c with Epoll_wait _ _ _ _ => true | _ => false end).

Definition demo_system : kernel := λ h c,
  match c with
  | Socket | Accept _ | Open _ | Epoll_create1 _ | Pipe_read | Pipe_write => next_fd h
  | Malloc _ => 4096
  | Epoll_wait _ _ _ _ => if (count_waits h =? 0)%Z then 1 else - EINTR
  | Fork => 100
  | _ => 0
  end%Z.
Definition demo_stopped (h : history) : bool := (2 <=? count_waits h)%Z.

Lemma demo_system_fresh : fresh_descriptors demo_system.
Proof. apply next_fd_fresh. intros h c Hc. by destruct c. Qed.

Definition demo_server_conf : conf (list Z) := mk_conf _ (Some demo_root) 8080 4 1 0 0 0.

(** The handlers accept what they can, twice, after the first wait. *)
Definition demo_handled (h : history) : list action := if (count_waits h =? 1)%Z then [Accepts None; Accepts None] else [].

Abbreviation demo_worker turns fuel :=
  (zv_worker_run (os := demo_system) demo_stat demo_open demo_http_realpath demo_time (λ _, None) 0 true demo_spawn (λ _ _ _, [])
     demo_clock demo_malloc (mk_pq [] 0 0) 5 demo_stopped (λ _, demo_two) demo_handled None fuel turns demo_server_conf 0 []).

(** The two connections are still open in the end. *)
Lemma demo_worker_calls :
  demo_worker 5 100 = (Returned 0%Z,
    [(Sigaction SIGPIPE Ignore, 0); (Sigaction SIGTERM On_term, 0); (Sigaction SIGINT On_term, 0);
     (Socket, 3); (Setsockopt 3 SOL_SOCKET SO_REUSEADDR 1, 0); (Setsockopt 3 SOL_SOCKET SO_REUSEPORT 1, 0);
     (Bind 3 8080, 0); (Listen 3 LISTENQ, 0); (Fcntl_getfl 3, 0); (Fcntl_setfl 3 O_NONBLOCK, 0);
     (Epoll_create1 0, 4); (Malloc Event_array, 4096); (Malloc Request_object, 4096); (Malloc Epoll_item, 4096);
     (Epoll_ctl 4 EPOLL_CTL_ADD 3 (Z.lor EPOLLIN EPOLLET), 0);
     (Epoll_wait 4 4096 MAXEVENTS (-1), 1);
     (Accept 3, 5); (Fcntl_getfl 5, 0); (Fcntl_setfl 5 O_NONBLOCK, 0); (Setsockopt 5 IPPROTO_TCP TCP_NODELAY 1, 0);
     (Malloc Request_object, 4096); (Malloc Epoll_item, 4096);
     (Epoll_ctl 4 EPOLL_CTL_ADD 5 (Z.lor EPOLLIN EPOLLET_ONESHOT), 0);
     (Accept 3, 6); (Fcntl_getfl 6, 0); (Fcntl_setfl 6 O_NONBLOCK, 0); (Setsockopt 6 IPPROTO_TCP TCP_NODELAY 1, 0);
     (Malloc Request_object, 4096); (Malloc Epoll_item, 4096);
     (Epoll_ctl 4 EPOLL_CTL_ADD 6 (Z.lor EPOLLIN EPOLLET_ONESHOT), 0);
     (Epoll_wait 4 4096 MAXEVENTS 2000, - EINTR);
     (Close 3, 0); (Close 4, 0); (Free 4096, 0)]%Z).
Proof. vm_compute. reflexivity. Qed.

Example demo_left_open : held (demo_worker 5 100).2 = {[5; 6]}%Z.
Proof. rewrite demo_worker_calls. vm_compute. reflexivity. Qed.

(** Without a root the worker serves all the same. *)
Example rootless_worker_serves :
  (zv_worker_run (os := demo_system) demo_stat demo_open demo_http_realpath demo_time (λ _, None) 0 true demo_spawn (λ _ _ _, [])
     demo_clock demo_malloc (mk_pq [] 0 0) 5 demo_stopped (λ _, demo_two) demo_handled None 100 5 (mk_conf _ None 8080 4 1 0 0 0) 0 []).1 =
  Returned 0%Z.
Proof. vm_compute. reflexivity. Qed.

(** The array holds new connections only, which are always reported rightly. *)
Lemma demo_reports_ok (w : worker nat zv_pq) h : reports_ok w (reported (λ _, demo_two) h).
Proof.
  assert (∀ n, reports_ok w (take n demo_two)) as Htake.
  { intros [|n]; [split; constructor|]. assert (take (S n) demo_two = demo_two) as -> by (by destruct n).
    split; [|constructor]. constructor; [|done]. repeat constructor; apply length_replicate. }
  unfold reported. destruct (reverse h) as [|[c n] rest]; [by apply (Htake 0)|]. destruct c; first [by apply (Htake 0)|apply Htake].
Qed.

Lemma demo_contract :
  epoll_contract (os := demo_system) demo_stat demo_open demo_http_realpath demo_time (λ _, None) 0 true demo_spawn (λ _ _ _, [])
    demo_clock demo_malloc (mk_pq [] 0 0) 5 demo_stopped (λ _, demo_two) demo_server_conf.
Proof. intros listenfd epfd events h0 turns h w _. apply demo_reports_ok. Qed.

Lemma demo_both_ends h : (0 ≤ demo_system h Pipe_write)%Z.
Proof. exact (next_fd_pos h). Qed.


Definition demo_armed : slot nat := mk_slot nat (mk_conn nat demo_old (mk_socket [] []) [] 5) (Some EPOLLIN) false true.

(** The client has sent a request and closed its side: the request is handled first. *)
Lemma reported_event_handled_witness :
  ∃ hd, conn_event (Z.lor EPOLLIN EPOLLHUP) = Some hd ∧ ∀ e, handles hd e → reportable e demo_armed.
Proof.
  apply (reported_event_handled demo_armed EPOLLIN); [reflexivity|by left|done|reflexivity].
Defined.

(** [zaver -c ./zaver.conf] with the file of the repository starts a master. *)
Definition demo_args : arguments := mk_arguments 3 [("c"%ch, str "./zaver.conf")] [].
Definition demo_files (name : list Z) : option (list Z) :=
  if bool_decide (name = str "./zaver.conf") then Some (concat (print_entry <$> print_conf demo_conf)) else None.

Lemma main_exact_witness :
  ∃ rc buf (cf : conf nat),
    read_conf (demo_files (str "./zaver.conf")) default_conf (replicate BUFLEN 0%Z) BUFLEN = Some (rc, buf, cf) ∧
    main (os := demo_system) demo_stat demo_open demo_http_realpath demo_time (λ _, None) 0 true demo_spawn (λ _ _ _, [])
      demo_clock demo_malloc (mk_pq [] 0 0) 5 demo_stopped (λ _, demo_two) demo_handled None
      demo_files (replicate BUFLEN 0%Z) default_conf 8 100 5 demo_args [] =
    if decide (rc = ZV_CONF_OK)
    then zv_run_server (os := demo_system) demo_stopped
      (zv_worker_run (os := demo_system) demo_stat demo_open demo_http_realpath demo_time (λ _, None) 0 true demo_spawn (λ _ _ _, [])
        demo_clock demo_malloc (mk_pq [] 0 0) 5 demo_stopped (λ _, demo_two) demo_handled None 100 5 (view buf cf)) (view buf cf) 8 5 []
    else (Returned 1%Z, []).
Proof.
  apply (main_exact (os := demo_system) demo_stat demo_open demo_http_realpath demo_time (λ _, None) 0 true demo_spawn (λ _ _ _, [])
    demo_clock demo_malloc (mk_pq [] 0 0) 5 demo_stopped (λ _, demo_two) demo_handled None
    demo_files (replicate BUFLEN 0%Z) default_conf 8 100 5 demo_args []).
  - done.
  - constructor; [|constructor]. unfold goes_on. vm_compute. intros Hin.
    repeat (apply elem_of_cons in Hin as [Hin|Hin]; [discriminate|]). by apply elem_of_nil in Hin.
  - reflexivity.
Defined.
