(* ===== verification/Rio.v ===== *)
(** * Robust I/O (rio.c)

    The unbuffered and the buffered readers and the writer, over scripted descriptors. *)
From S2P Require Import Prelude Sockets.

Definition RIO_BUFSIZE : nat := Z.to_nat 8192.

(** [rio_t]: the descriptor and the bytes of the buffer not yet handed out ([rio_cnt] of
    them, from [rio_bufptr]). *)
Record rio_t := mk_rio { rio_fd : pipe; rio_unread : list Z }.
#[export] Instance eta_rio : Eta rio_t := fun rp => mk_rio (rio_fd rp) (rio_unread rp).

Implicit Types (p : pipe) (rp : rio_t) (s : socket).

(** Every [read] uses up one answer of the script, or fails for good. *)
Fixpoint readn_loop (fuel : nat) p (nleft : nat) (acc : list Z) : option (Z * list Z * pipe) :=
  match fuel with
  | O => None
  | S fuel' =>
      if nleft =? 0 then Some (Z.of_nat (length acc), acc, p)
      else
        match read p nleft with
        | (inr e, p) =>
            if (e =? EINTR)%Z then readn_loop fuel' p nleft acc else Some ((-1)%Z, acc, p)
        | (inl [], p) => Some (Z.of_nat (length acc), acc, p)
        | (inl bs, p) => readn_loop fuel' p (nleft - length bs) (acc ++ bs)
        end
  end.

Definition rio_readn p (n : nat) : option (Z * list Z * pipe) := readn_loop (S (S (pipe_size p))) p n [].

(** A [write] that takes nothing fails with the [errno] of an earlier call: it is treated
    as an error here unless the script says EINTR. *)
Fixpoint writen_loop (fuel : nat) s (data : list Z) : option (bool * socket) :=
  match fuel with
  | O => None
  | S fuel' =>
      match data with
      | [] => Some (true, s)
      | _ =>
          match send s data with
          | (inl n, s) => if n =? 0 then Some (false, s) else writen_loop fuel' s (drop n data)
          | (inr e, s) => if (e =? EINTR)%Z then writen_loop fuel' s data else Some (false, s)
          end
      end
  end.

(** [n], or -1. *)
Definition rio_writen s (data : list Z) : option (Z * socket) :=
  '(ok, s) ← writen_loop (S (S (length (script s)))) s data;
  Some (if ok : bool then Z.of_nat (length data) else (-1)%Z, s).

(** The refill: [inl] with bytes in the buffer, or the value to return. *)
Fixpoint refill (fuel : nat) rp : option (rio_t + Z * rio_t) :=
  match fuel with
  | O => None
  | S fuel' =>
      match rio_unread rp with
      | _ :: _ => Some (inl rp)
      | [] =>
          match read (rio_fd rp) RIO_BUFSIZE with
          | (inr e, p) =>
              let rp := rp <| rio_fd := p |> in
              if (e =? EAGAIN)%Z then Some (inr ((- EAGAIN)%Z, rp))
              else if (e =? EINTR)%Z then refill fuel' rp
              else Some (inr ((-1)%Z, rp))
          | (inl [], p) => Some (inr (0%Z, rp <| rio_fd := p |>))
          | (inl bs, p) => Some (inl (mk_rio p bs))
          end
      end
  end.

(** [rio_read(rp, usrbuf, n)]: the value, the bytes copied, the new state. *)
Definition rio_read rp (n : nat) : option (Z * list Z * rio_t) :=
  r ← refill (S (S (pipe_size (rio_fd rp)))) rp;
  Some match r with
       | inr (rc, rp) => (rc, [], rp)
       | inl rp =>
           let cnt := if length (rio_unread rp) <? n then length (rio_unread rp) else n in
           (Z.of_nat cnt, take cnt (rio_unread rp), rp <| rio_unread := drop cnt (rio_unread rp) |>)
       end.

Definition rio_readinitb p : rio_t := mk_rio p [].

(** Bytes that can still be read. *)
Definition rio_size rp : nat := pipe_size (rio_fd rp) + length (rio_unread rp).

(** [errno] is never EINTR when [rio_read] fails: the refill has retried. *)
Fixpoint readnb_loop (fuel : nat) rp (nleft : nat) (acc : list Z) : option (Z * list Z * rio_t) :=
  match fuel with
  | O => None
  | S fuel' =>
      if nleft =? 0 then Some (Z.of_nat (length acc), acc, rp)
      else
        '(rc, bs, rp) ← rio_read rp nleft;
        if (rc <? 0)%Z then Some ((-1)%Z, acc, rp)
        else if (rc =? 0)%Z then Some (Z.of_nat (length acc), acc, rp)
        else readnb_loop fuel' rp (nleft - length bs) (acc ++ bs)
  end.

Definition rio_readnb rp (n : nat) : option (Z * list Z * rio_t) := readnb_loop (S n) rp n [].

(** [k] turns are left of the [for] loop, which has counted to [n]; [acc] is what has
    been stored. *)
Fixpoint readlineb_loop (k n : nat) rp (acc : list Z) : option (Z * list Z * rio_t) :=
  match k with
  | O => Some (Z.of_nat n, acc, rp)
  | S k' =>
      '(rc, bs, rp) ← rio_read rp 1;
      if (rc =? 1)%Z then
        match bs with
        | c :: _ =>
            if (c =? LF)%Z then Some (Z.of_nat n, acc ++ [c], rp)
            else readlineb_loop k' (S n) rp (acc ++ [c])
        | [] => None
        end
      else if (rc =? 0)%Z then
        if n =? 1 then Some (0%Z, acc, rp) else Some (Z.of_nat n, acc, rp)
      else if (rc =? - EAGAIN)%Z then Some (rc, acc, rp)
      else Some ((-1)%Z, acc, rp)
  end.

Definition rio_readlineb rp (maxlen : nat) : option (Z * list Z * rio_t) := readlineb_loop (maxlen - 1) 1 rp [].

(** ** Descriptors that deliver everything *)

(** [p] delivers [bs] and then the end of the stream, possibly interrupted by signals. *)
Inductive delivers : pipe → list Z → Prop :=
  | delivers_eof p : delivers (Arrived [] :: p) []
  | delivers_intr p bs : delivers p bs → delivers (ReadErr EINTR :: p) bs
  | delivers_bytes p x b bs : delivers p bs → delivers (Arrived (x :: b) :: p) (x :: b ++ bs).

(** The reader holds or will get [bs], then the end. *)
Definition holds_bytes rp (bs : list Z) : Prop := ∃ tl, bs = rio_unread rp ++ tl ∧ delivers (rio_fd rp) tl.

Lemma read_delivers p bs cap :
  delivers p bs → 0 < cap →
  (∃ p', read p cap = (inl [], p') ∧ bs = []) ∨
  (∃ p', read p cap = (inr EINTR, p') ∧ delivers p' bs ∧ pipe_size p' < pipe_size p) ∨
  (∃ x b p' tl, read p cap = (inl (x :: b), p') ∧ bs = x :: b ++ tl ∧ delivers p' tl ∧
     length (x :: b) ≤ cap ∧ pipe_size p' < pipe_size p).
Proof.
  intros Hd Hcap. destruct Hd as [p|p bs Hd|p x b bs Hd]; cbn [read].
  - left. exists p. split; [|done]. rewrite take_nil. simpl. by destruct (cap <? 0).
  - right. left. exists p. split_and!; [done|done|simpl; lia].
  - right. right. destruct cap as [|cap]; [lia|]. cbn [take].
    assert (∃ p' tl, (if S cap <? length (x :: b) then Arrived (drop (S cap) (x :: b)) :: p else p) = p' ∧
      x :: b ++ bs = x :: take cap b ++ tl ∧ delivers p' tl ∧
      length (x :: take cap b) ≤ S cap ∧ pipe_size p' < pipe_size (Arrived (x :: b) :: p))
      as (p' & tl & -> & E & Hd' & Hl & Hs).
    { destruct (Nat.ltb_spec (S cap) (length (x :: b))) as [Hlt|Hge]; simpl in *.
      - destruct (drop cap b) as [|y t] eqn:Ed.
        { apply (f_equal length) in Ed. rewrite length_drop in Ed. simpl in Ed. lia. }
        eexists _, (y :: t ++ bs). split; [done|]. split; [|split; [by constructor|]].
        + f_equal. by rewrite <-(take_drop cap b) at 1; rewrite Ed, <-app_assoc.
        + rewrite length_take. apply (f_equal length) in Ed. rewrite length_drop in Ed. simpl in *. lia.
      - exists p, bs. rewrite take_ge by lia. split_and!; try done; lia. }
    by exists x, (take cap b), p', tl.
Qed.

Lemma buf_size_pos : 0 < RIO_BUFSIZE.
Proof. unfold RIO_BUFSIZE. lia. Qed.

Lemma refill_spec fuel rp bs :
  pipe_size (rio_fd rp) < fuel → holds_bytes rp bs →
  (bs = [] ∧ ∃ rp', refill fuel rp = Some (inr (0%Z, rp'))) ∨
  (∃ rp', refill fuel rp = Some (inl rp') ∧ rio_unread rp' ≠ [] ∧ holds_bytes rp' bs).
Proof.
  revert rp. induction fuel as [|fuel IH]; intros rp Hf (tl & -> & Hd); [lia|]. cbn [refill].
  destruct (rio_unread rp) as [|c u] eqn:Eu.
  2: { right. exists rp. split; [done|]. rewrite Eu. split; [done|]. exists tl. by rewrite Eu. }
  cbn [app]. destruct (read_delivers _ _ RIO_BUFSIZE Hd buf_size_pos)
    as [(p' & -> & ->)|[(p' & -> & Hd' & Hs)|(x & b & p' & t & -> & -> & Hd' & Hl & Hs)]].
  - left. eauto.
  - change (EINTR =? EAGAIN)%Z with false. change (EINTR =? EINTR)%Z with true. cbn match.
    apply IH; [simpl; lia|]. exists tl. simpl. by rewrite Eu.
  - right. eexists. split; [done|]. split; [done|]. by exists t.
Qed.

Lemma rio_read_spec rp bs n :
  holds_bytes rp bs → 0 < n →
  (bs = [] ∧ ∃ rp', rio_read rp n = Some (0%Z, [], rp')) ∨
  (∃ k rp', 0 < k ≤ n ∧ k ≤ length bs ∧ rio_read rp n = Some (Z.of_nat k, take k bs, rp') ∧
     holds_bytes rp' (drop k bs)).
Proof.
  intros Hb Hn. unfold rio_read.
  destruct (refill_spec (S (S (pipe_size (rio_fd rp)))) rp bs) as [(-> & rp' & ->)|(rp' & -> & Hne & tl & -> & Hd)];
    [lia|done|left; split; [done|]; cbn [mbind option_bind]; by eexists|].
  right. cbn [mbind option_bind]. set (u := rio_unread rp') in *.
  assert (0 < length u) as Hu by (destruct u; simpl; [done|lia]).
  set (k := if length u <? n then length u else n).
  assert (0 < k ≤ n ∧ k ≤ length u) as [Hk Hku] by (unfold k; destruct (Nat.ltb_spec (length u) n); lia).
  exists k. eexists. split; [done|]. split; [rewrite length_app; lia|]. split.
  - by rewrite take_app_le by done.
  - exists tl. simpl. by rewrite drop_app_le by done.
Qed.

Lemma rio_read_one rp bs :
  holds_bytes rp bs →
  match bs with
  | [] => ∃ rp', rio_read rp 1 = Some (0%Z, [], rp')
  | c :: bs' => ∃ rp', rio_read rp 1 = Some (1%Z, [c], rp') ∧ holds_bytes rp' bs'
  end.
Proof.
  intros Hb. destruct (rio_read_spec rp bs 1 Hb) as [(-> & Hr)|(k & rp' & Hk & Hkl & E & Hb')]; [lia|done|].
  replace k with 1 in * by lia. destruct bs as [|c bs]; [simpl in Hkl; lia|]. by exists rp'.
Qed.

(** ** Properties *)

(** What one line is, for a reader that stores at most [m] characters. *)
Fixpoint line_of (m : nat) (bs : list Z) : list Z :=
  match m, bs with
  | S m', c :: bs' => if (c =? LF)%Z then [c] else c :: line_of m' bs'
  | _, _ => []
  end.

Lemma line_of_length m bs : length (line_of m bs) ≤ m.
Proof.
  revert bs. induction m as [|m IH]; intros [|c bs]; simpl; try lia.
  destruct (c =? LF)%Z; simpl; [lia|]. specialize (IH bs). lia.
Qed.

(** The number returned counts one more than what is stored, except after a newline (and
    0 when the stream ends before the first character). *)
Definition line_rc (m n : nat) (bs : list Z) : nat :=
  let l := line_of m bs in
  if bool_decide (last l = Some LF) then n + length l - 1
  else if (n =? 1) && bool_decide (bs = []) && negb (m =? 0) then 0 else n + length l.

Lemma line_rc_cons m n c bs :
  (c =? LF)%Z = false → 1 ≤ n → line_rc (S m) n (c :: bs) = line_rc m (S n) bs.
Proof.
  intros Hc Hn. unfold line_rc. cbn [line_of]. rewrite Hc. rewrite (bool_decide_eq_false_2 (c :: bs = [])) by done.
  replace (S n =? 1) with false by (symmetry; apply Nat.eqb_neq; lia). rewrite andb_false_r. cbn [andb length].
  apply Z.eqb_neq in Hc. destruct (line_of m bs) as [|d l].
  - cbn [last length]. rewrite !bool_decide_eq_false_2 by congruence. lia.
  - change (last (c :: d :: l)) with (last (d :: l)). case_bool_decide; simpl; lia.
Qed.

Lemma readlineb_spec k n rp bs acc :
  holds_bytes rp bs → 1 ≤ n →
  ∃ rp', readlineb_loop k n rp acc = Some (Z.of_nat (line_rc k n bs), acc ++ line_of k bs, rp') ∧
    (line_of k bs ≠ bs → holds_bytes rp' (drop (length (line_of k bs)) bs)).
Proof.
  revert n rp bs acc. induction k as [|k IH]; intros n rp bs acc Hb Hn.
  { exists rp. unfold line_rc. cbn. rewrite app_nil_r, andb_false_r, Nat.add_0_r. by rewrite drop_0. }
  cbn [readlineb_loop]. pose proof (rio_read_one rp bs Hb) as Hr. destruct bs as [|c bs].
  - destruct Hr as (rp' & ->). exists rp'. unfold line_rc. cbn [mbind option_bind line_of length last Z.eqb].
    rewrite app_nil_r, Nat.add_0_r. by destruct (n =? 1).
  - destruct Hr as (rp' & -> & Hb'). cbn [mbind option_bind]. rewrite Z.eqb_refl.
    destruct (c =? LF)%Z eqn:Ec.
    + exists rp'. unfold line_rc. cbn [line_of]. rewrite Ec. cbn [last length drop].
      apply Z.eqb_eq in Ec as ->. rewrite bool_decide_eq_true_2 by done. rewrite Nat.add_sub. split; [done|].
      by rewrite drop_0.
    + destruct (IH (S n) rp' bs (acc ++ [c]) Hb') as (rp2 & -> & Hrest); [lia|].
      exists rp2. rewrite line_rc_cons by done. cbn [line_of]. rewrite Ec, <-app_assoc. split; [done|].
      intros Hne. cbn [length drop]. apply Hrest. congruence.
Qed.

(** C34. [rio_readlineb] on a descriptor that delivers a byte string, in any pieces and
    through any number of interrupting signals, stores exactly the characters up to and
    including the first newline, at most [maxlen - 1] of them, and the bytes after them
    are still there for the next call.  The value returned is the number stored when a
    newline ended the line and 0 at the end of the stream, but one more than the number
    stored when the end of the stream or the limit cut the line short. *)
Theorem readlineb_exact rp bs maxlen :
  holds_bytes rp bs → 0 < maxlen →
  let l := line_of (maxlen - 1) bs in
  ∃ rc rp',
    rio_readlineb rp maxlen = Some (Z.of_nat rc, l, rp') ∧
    (last l = Some LF → rc = length l) ∧
    (bs = [] → 1 < maxlen → rc = 0) ∧
    (bs ≠ [] → last l ≠ Some LF → rc = length l + 1) ∧
    rc ≤ maxlen ∧
    (l ≠ bs → holds_bytes rp' (drop (length l) bs)).
Proof.
  intros Hb Hm. simpl. destruct (readlineb_spec (maxlen - 1) 1 rp bs [] Hb) as (rp' & E & Hrest); [lia|].
  exists (line_rc (maxlen - 1) 1 bs), rp'. split; [exact E|]. pose proof (line_of_length (maxlen - 1) bs) as Hl.
  unfold line_rc. split_and!; [| | | |done].
  - intros ->. rewrite bool_decide_eq_true_2 by done. lia.
  - intros -> Hm1. destruct (maxlen - 1) as [|m] eqn:Em; [lia|done].
  - intros Hne Hlast. rewrite !bool_decide_eq_false_2 by done. simpl. lia.
  - case_bool_decide; [lia|]. destruct (_ && _); lia.
Qed.

(** A line of three characters, in two pieces with a signal between, then an
    unterminated one. *)
Definition demo_rio : rio_t := rio_readinitb [Arrived (str "ab"); ReadErr EINTR; Arrived (LF :: str "cd"); Arrived []].

Lemma demo_rio_delivers : holds_bytes demo_rio (str "ab" ++ LF :: str "cd").
Proof.
  eexists. split; [reflexivity|].
  apply (delivers_bytes _ _ (str "b") (LF :: str "cd")), delivers_intr.
  apply (delivers_bytes _ _ (str "cd") []), delivers_eof.
Qed.

Lemma readlineb_exact_witness :
  ∃ rc rp',
    rio_readlineb demo_rio 100 = Some (Z.of_nat rc, str "ab" ++ [LF], rp') ∧ rc = 3 ∧ holds_bytes rp' (str "cd").
Proof.
  destruct (readlineb_exact demo_rio (str "ab" ++ LF :: str "cd") 100) as (rc & rp' & E & Hrc & _ & _ & _ & Hrest).
  - apply demo_rio_delivers.
  - lia.
  - exists rc, rp'. split; [exact E|]. split; [apply Hrc; reflexivity|]. apply Hrest. discriminate.
Defined.

(** The buffered block read: exact too, whatever the pieces. *)
Lemma readnb_loop_spec fuel rp n bs acc :
  holds_bytes rp bs → n < fuel →
  ∃ rp', readnb_loop fuel rp n acc = Some (Z.of_nat (length acc + length (take n bs)), acc ++ take n bs, rp') ∧
    (n ≤ length bs → holds_bytes rp' (drop n bs)).
Proof.
  revert rp n bs acc. induction fuel as [|fuel IH]; intros rp n bs acc Hb Hf; [lia|]. cbn [readnb_loop].
  destruct (Nat.eqb_spec n 0) as [->|Hn].
  { exists rp. simpl. by rewrite app_nil_r, Nat.add_0_r, drop_0. }
  destruct (rio_read_spec rp bs n Hb) as [(-> & rp' & ->)|(k & rp' & Hk & Hkl & -> & Hb')]; [lia| |].
  - exists rp'. rewrite take_nil, app_nil_r. simpl. rewrite Nat.add_0_r. split; [done|lia].
  - cbn [mbind option_bind]. replace (Z.of_nat k <? 0)%Z with false by lia. replace (Z.of_nat k =? 0)%Z with false by lia.
    rewrite length_take, Nat.min_l by lia.
    destruct (IH rp' (n - k) (drop k bs) (acc ++ take k bs) Hb') as (rp2 & -> & Hrest); [lia|].
    exists rp2. rewrite <-app_assoc, take_take_drop, !length_app, !length_take, length_drop.
    replace (k + (n - k)) with n by lia. split; [f_equal; f_equal; f_equal; lia|].
    intros Hl. rewrite drop_drop in Hrest. replace (k + (n - k)) with n in Hrest by lia.
    apply Hrest. rewrite length_drop. lia.
Qed.

Lemma readn_loop_spec fuel p n bs acc :
  delivers p bs → pipe_size p < fuel →
  ∃ p', readn_loop fuel p n acc = Some (Z.of_nat (length acc + length (take n bs)), acc ++ take n bs, p') ∧
    (n ≤ length bs → delivers p' (drop n bs)).
Proof.
  revert p n bs acc. induction fuel as [|fuel IH]; intros p n bs acc Hb Hf; [lia|]. cbn [readn_loop].
  destruct (Nat.eqb_spec n 0) as [->|Hn].
  { exists p. simpl. by rewrite app_nil_r, Nat.add_0_r, drop_0. }
  destruct (read_delivers p bs n Hb) as [(p' & -> & ->)|[(p' & -> & Hd & Hs)|(x & b & p' & t & -> & -> & Hd & Hl & Hs)]];
    [lia| | |].
  - exists p'. rewrite take_nil, app_nil_r. simpl. rewrite Nat.add_0_r. split; [done|lia].
  - change (EINTR =? EINTR)%Z with true. cbn match. apply IH; [done|lia].
  - destruct (IH p' (n - length (x :: b)) t (acc ++ x :: b) Hd) as (p2 & -> & Hrest); [lia|].
    exists p2. rewrite app_comm_cons, <-app_assoc, (take_app_ge (x :: b)), (drop_app_ge (x :: b)) by done.
    rewrite !length_app. split; [f_equal; f_equal; f_equal; lia|].
    intros Hln. apply Hrest. rewrite ?length_app in Hln. lia.
Qed.

Lemma writen_loop_spec fuel s data :
  length (script s) + 1 < fuel →
  ∃ ok s' k, writen_loop fuel s data = Some (ok, s') ∧ wire s' = wire s ++ take k data ∧
    k ≤ length data ∧ (ok = true → k = length data).
Proof.
  revert s data. induction fuel as [|fuel IH]; intros s data Hf; [lia|]. cbn [writen_loop].
  destruct data as [|x data]; [exists true, s, 0; by rewrite app_nil_r|].
  destruct (send s (x :: data)) as [[n|e] s'] eqn:E.
  - destruct (send_inl _ _ _ _ E) as (Hn & Hw & Hlt). destruct (Nat.eqb_spec n 0) as [->|Hn0].
    { exists false, s', 0. rewrite Hw. split_and!; [done|done|simpl; lia|done]. }
    destruct (IH s' (drop n (x :: data))) as (ok & s2 & k & -> & Hw2 & Hk & Hok); [lia|].
    exists ok, s2, (n + k). rewrite length_drop in *. split; [done|].
    rewrite Hw2, Hw, <-app_assoc. split; [f_equal; by rewrite take_take_drop|].
    split; [lia|]. intros Hd. specialize (Hok Hd). lia.
  - destruct (send_inr _ _ _ _ E) as (Hw & Hlt). destruct (Z.eqb_spec e EINTR) as [->|He].
    + destruct Hlt as [Hlt|Hlt]; [done|]. rewrite <-Hw. apply IH. lia.
    + exists false, s', 0. rewrite Hw, app_nil_r. split_and!; [done|done|simpl; lia|done].
Qed.

(** [rio_readnb] and [rio_readn] read exactly: from a descriptor that delivers a byte
    string in any pieces and through any number of interrupting signals, both store its
    first [n] bytes (all of them when there are fewer), return how many that is, and what
    follows is still to be read.  Both calls return: no number of interruptions makes
    them loop.  [rio_writen] on any socket returns too: [n] when the peer was sent all the
    bytes, in order, and -1 when it was sent a prefix of them. *)
Theorem block_io_exact n bs :
  (∀ rp, holds_bytes rp bs →
     ∃ rp', rio_readnb rp n = Some (Z.of_nat (length (take n bs)), take n bs, rp') ∧
       (n ≤ length bs → holds_bytes rp' (drop n bs))) ∧
  (∀ p, delivers p bs →
     ∃ p', rio_readn p n = Some (Z.of_nat (length (take n bs)), take n bs, p') ∧
       (n ≤ length bs → delivers p' (drop n bs))) ∧
  (∀ s, ∃ rc s' k, rio_writen s bs = Some (rc, s') ∧ wire s' = wire s ++ take k bs ∧
     (rc = Z.of_nat (length bs) ∧ k = length bs ∨ rc = (-1)%Z ∧ k ≤ length bs)).
Proof.
  split_and!.
  - intros rp Hb. apply (readnb_loop_spec (S n) rp n bs [] Hb). lia.
  - intros p Hd. apply (readn_loop_spec _ p n bs [] Hd). lia.
  - intros s. unfold rio_writen.
    destruct (writen_loop_spec (S (S (length (script s)))) s bs) as (ok & s' & k & -> & Hw & Hk & Hok); [lia|].
    destruct ok; eexists _, s', k; (split; [done|]); auto.
Qed.

Lemma block_io_exact_witness :
  ∃ rp', rio_readnb demo_rio 4 = Some (4%Z, str "ab" ++ LF :: str "c", rp') ∧ holds_bytes rp' (str "d").
Proof.
  destruct (proj1 (block_io_exact 4 (str "ab" ++ LF :: str "cd")) demo_rio) as (rp' & E & Hrest).
  - apply demo_rio_delivers.
  - exists rp'. split; [exact E|]. apply Hrest. simpl. lia.
Defined.
